(** * Verification of the BNCA smart scraper (monostate/node-scraper)

    A shallow embedding of [BNCASmartScraper] (the class defined in the
    package entry point, first copy in [src/scripts/install-lightpanda.js],
    lines 291-1666): the regular-expression heuristics of
    [detectBrowserRequirement] and [extractContentFromHTML], the retrieval
    cascade of [scrape] with its four stages, and the statistics of
    [getStats].

    JavaScript strings are sequences of UTF-16 code units; they are modelled
    as [list N].  Everything outside the process (HTTP, the Lightpanda
    subprocess, Puppeteer, pdf-parse, the clock, [JSON.parse]) is an oracle:
    a variable of the section in which the cascade is defined. *)

From Stdlib Require Import String Ascii NArith ZArith Bool Lia Arith List.
Import ListNotations.

Set Implicit Arguments.

(* ================================================================== *)
(** * JavaScript strings *)
(* ================================================================== *)

Module JS.

Definition jschar := N.
Definition jsstring := list jschar.

(** An ASCII literal of the source as a sequence of code units. *)
Definition js (s : string) : jsstring :=
  map N_of_ascii (list_ascii_of_string s).

Definition dquote : jschar := 34%N.
Definition squote : jschar := 39%N.

Definition str_eqb (a b : jsstring) : bool :=
  if list_eq_dec N.eq_dec a b then true else false.

(** [String.prototype.startsWith] *)
Fixpoint startsWith (s pre : jsstring) {struct pre} : bool :=
  match pre, s with
  | [], _ => true
  | _ :: _, [] => false
  | p :: pre', x :: s' => N.eqb p x && startsWith s' pre'
  end.

(** [String.prototype.includes] *)
Fixpoint includes (s sub : jsstring) : bool :=
  startsWith s sub ||
  match s with
  | [] => false
  | _ :: s' => includes s' sub
  end.

(** [String.prototype.endsWith] *)
Definition endsWith (s suf : jsstring) : bool :=
  startsWith (rev s) (rev suf).

(** [String.prototype.toLowerCase], restricted to its action on [A-Z].
    The full Unicode mapping also changes code units above 127, but never
    produces one of the characters of ['.pdf'], ['.pdf?'] or ['/pdf/'] from
    them, so the tests made on lowercased URLs are not affected. *)
Definition lower (c : jschar) : jschar :=
  if (65 <=? c)%N && (c <=? 90)%N then (c + 32)%N else c.

Definition toLowerCase (s : jsstring) : jsstring := map lower s.

(** WhiteSpace and LineTerminator code points: the set matched by [\s] and
    stripped by [String.prototype.trim]. *)
Definition is_space (c : jschar) : bool :=
  ((9 <=? c) && (c <=? 13) || (c =? 32) || (c =? 160) || (c =? 5760)
   || (8192 <=? c) && (c <=? 8202) || (c =? 8232) || (c =? 8233)
   || (c =? 8239) || (c =? 8287) || (c =? 12288) || (c =? 65279))%N.

(** LineTerminator code points, which [.] does not match. *)
Definition is_line_terminator (c : jschar) : bool :=
  ((c =? 10) || (c =? 13) || (c =? 8232) || (c =? 8233))%N.

Fixpoint trimStart (s : jsstring) : jsstring :=
  match s with
  | [] => []
  | c :: s' => if is_space c then trimStart s' else s
  end.

(** [String.prototype.trim] *)
Definition trim (s : jsstring) : jsstring :=
  rev (trimStart (rev (trimStart s))).

(** [s.substring(0, n)] *)
Definition substring0 (n : nat) (s : jsstring) : jsstring := firstn n s.

(** Decimal rendering of a non-negative integer ([Number::toString] on an
    integer below 10^21). *)
Fixpoint digits_aux (fuel : nat) (n : N) (acc : jsstring) : jsstring :=
  match fuel with
  | O => acc
  | S f =>
      let acc' := (48 + n mod 10)%N :: acc in
      if (n <? 10)%N then acc' else digits_aux f (n / 10)%N acc'
  end.

Definition of_N (n : N) : jsstring :=
  digits_aux (S (N.to_nat (N.log2 n))) n [].

End JS.
Import JS.

(* ================================================================== *)
(** * Regular expressions *)
(* ================================================================== *)

(** The fragment of ECMAScript regular expressions that the scraper uses:
    characters and classes, sequence, alternation, greedy and lazy
    repetition, capture groups, and the [i] and [g] flags.  Matching is the
    backtracking procedure of the language definition, written with
    continuations; there are no anchors, look-arounds or back-references in
    the source, so a match depends on the text from the start position on
    only. *)
Module Regex.

Inductive cset : Type :=
| CAny                          (* [\s\S] *)
| CDot                          (* .      *)
| CSpace                        (* \s     *)
| COneOf (l : list jschar)      (* a literal or [...]  *)
| CNoneOf (l : list jschar).    (* [^...] *)

Inductive regex : Type :=
| REmpty
| RChar (c : cset)
| RSeq (r1 r2 : regex)
| RAlt (r1 r2 : regex)
| RStar (greedy : bool) (r : regex)
| RGroup (n : nat) (r : regex).

(** Canonicalize of the language definition without the [u] flag: with
    [i], a code unit is compared through its upper-case form, except that a
    code unit above 127 is never mapped into ASCII.  Every character named
    by a pattern of the source is ASCII, so only [a-z] needs mapping. *)
Definition canon (icase : bool) (c : jschar) : jschar :=
  if icase && (97 <=? c)%N && (c <=? 122)%N then (c - 32)%N else c.

Definition mem_canon (icase : bool) (c : jschar) (l : list jschar) : bool :=
  existsb (fun a => N.eqb (canon icase a) (canon icase c)) l.

Definition cset_match (icase : bool) (cs : cset) (c : jschar) : bool :=
  match cs with
  | CAny => true
  | CDot => negb (is_line_terminator c)
  | CSpace => is_space c
  | COneOf l => mem_canon icase c l
  | CNoneOf l => negb (mem_canon icase c l)
  end.

(** Captures: group number and captured text, latest first. *)
Definition caps := list (nat * jsstring).

Fixpoint cap_get (n : nat) (c : caps) : option jsstring :=
  match c with
  | [] => None
  | (m, s) :: c' => if Nat.eqb m n then Some s else cap_get n c'
  end.

Definition mstate : Type := jsstring * caps.

Section Matcher.
Variable icase : bool.

(** Repetition of [step] (the matcher of the repeated pattern), greedy or
    lazy, followed by [k].  An iteration that consumes nothing is
    rejected, so each iteration shortens the text and [fuel] above its
    length is never exhausted. *)
Fixpoint star_loop
         (step : jsstring -> caps ->
                 (jsstring -> caps -> option mstate) -> option mstate)
         (greedy : bool) (k : jsstring -> caps -> option mstate)
         (fuel : nat) (s : jsstring) (c : caps) {struct fuel}
  : option mstate :=
  match fuel with
  | O => k s c
  | S fuel' =>
      let iter :=
        step s c
          (fun s' c' =>
             if Nat.ltb (length s') (length s)
             then star_loop step greedy k fuel' s' c' else None) in
      if greedy then
        match iter with Some m => Some m | None => k s c end
      else
        match k s c with Some m => Some m | None => iter end
  end.

(** [rmatch r s c k]: match [r] at the head of [s], then continue with
    [k] on the rest; [None] is failure, which makes the caller
    backtrack. *)
Fixpoint rmatch (r : regex) (s : jsstring) (c : caps)
         (k : jsstring -> caps -> option mstate) {struct r}
  : option mstate :=
  match r with
  | REmpty => k s c
  | RChar cs =>
      match s with
      | x :: s' => if cset_match icase cs x then k s' c else None
      | [] => None
      end
  | RSeq r1 r2 => rmatch r1 s c (fun s' c' => rmatch r2 s' c' k)
  | RAlt r1 r2 =>
      match rmatch r1 s c k with
      | Some m => Some m
      | None => rmatch r2 s c k
      end
  | RStar greedy r1 =>
      star_loop (rmatch r1) greedy k (S (length s)) s c
  | RGroup n r1 =>
      rmatch r1 s c
        (fun s' c' => k s' ((n, firstn (length s - length s') s) :: c'))
  end.

(** Match at the head of [s]: the rest of the text and the captures. *)
Definition match_here (r : regex) (s : jsstring) : option mstate :=
  rmatch r s [] (fun s' c' => Some (s', c')).

(** The match object of [exec]: index, matched text, rest, captures. *)
Record rmatch_result : Type := MatchResult {
  m_index : nat;
  m_text : jsstring;
  m_rest : jsstring;
  m_caps : caps
}.

(** Leftmost match, searching forward from the head of [s]. *)
Fixpoint search_from (r : regex) (idx : nat) (s : jsstring)
  : option rmatch_result :=
  match match_here r s with
  | Some (rest, c) =>
      Some (MatchResult idx (firstn (length s - length rest) s) rest c)
  | None =>
      match s with
      | [] => None
      | _ :: s' => search_from r (S idx) s'
      end
  end.

Definition exec (r : regex) (s : jsstring) : option rmatch_result :=
  search_from r 0 s.

(** [RegExp.prototype.test] *)
Definition test (r : regex) (s : jsstring) : bool :=
  match exec r s with Some _ => true | None => false end.

(** [m?.[n]] on the result of [String.prototype.match] without [g]. *)
Definition group (n : nat) (m : option rmatch_result) : option jsstring :=
  match m with
  | Some res => cap_get n (m_caps res)
  | None => None
  end.

(** [String.prototype.replace] with a [g] pattern and a constant
    replacement: after an empty match the scan moves on by one code
    unit. *)
Fixpoint replace_aux (fuel : nat) (r : regex) (rep s : jsstring)
  : jsstring :=
  match fuel with
  | O => s
  | S fuel' =>
      match exec r s with
      | None => s
      | Some res =>
          firstn (m_index res) s ++ rep ++
          match m_text res, m_rest res with
          | [], [] => []
          | [], x :: rest' => x :: replace_aux fuel' r rep rest'
          | _ :: _, rest => replace_aux fuel' r rep rest
          end
      end
  end.

Definition replaceAll (r : regex) (rep s : jsstring) : jsstring :=
  replace_aux (S (length s)) r rep s.

(** [String.prototype.matchAll] with a [g] pattern: the successive
    matches, left to right. *)
Fixpoint matchAll_aux (fuel : nat) (r : regex) (s : jsstring)
  : list rmatch_result :=
  match fuel with
  | O => []
  | S fuel' =>
      match exec r s with
      | None => []
      | Some res =>
          res ::
          match m_text res, m_rest res with
          | [], [] => []
          | [], _ :: rest' => matchAll_aux fuel' r rest'
          | _ :: _, rest => matchAll_aux fuel' r rest
          end
      end
  end.

Definition matchAll (r : regex) (s : jsstring) : list rmatch_result :=
  matchAll_aux (S (length s)) r s.

End Matcher.

(** ** Pattern syntax *)

Definition chr (c : jschar) : regex := RChar (COneOf [c]).

(** A literal run of characters. *)
Fixpoint lit_chars (l : jsstring) : regex :=
  match l with
  | [] => REmpty
  | [c] => chr c
  | c :: l' => RSeq (chr c) (lit_chars l')
  end.

Definition lit (s : string) : regex := lit_chars (js s).

Fixpoint seq (l : list regex) : regex :=
  match l with
  | [] => REmpty
  | [r] => r
  | r :: l' => RSeq r (seq l')
  end.

Definition star (r : regex) : regex := RStar true r.          (* r*  *)
Definition lazy_star (r : regex) : regex := RStar false r.    (* r*? *)
Definition plus (r : regex) : regex := RSeq r (RStar true r). (* r+  *)
Definition opt (r : regex) : regex := RAlt r REmpty.          (* r?  *)

Definition any : regex := RChar CAny.            (* [\s\S] *)
Definition dot : regex := RChar CDot.            (* .      *)
Definition space : regex := RChar CSpace.        (* \s     *)
Definition none_of (l : list jschar) : regex := RChar (CNoneOf l).
Definition one_of (l : list jschar) : regex := RChar (COneOf l).

Definition quote : regex := one_of [squote; dquote].  (* either quote *)
Definition not_gt : regex := none_of [62%N].                  (* [^>]  *)

End Regex.
Import Regex.

(* ================================================================== *)
(** * ContentClassifier: [detectBrowserRequirement] *)
(* ================================================================== *)

Module Classifier.

(** [const simpleSites = [...]] *)
Definition simpleSites : list jsstring :=
  [ js "example.com"; js "httpbin.org"; js "wikipedia.org";
    js "github.io"; js "netlify.app"; js "vercel.app" ].

(** [/<div[^>]*id=Q?NAME Q?[^>]*>\s*<\/div>/i], where Q stands for the
    class of the two quote characters *)
Definition empty_div (name : string) : regex :=
  seq [ lit "<div"; star not_gt; lit "id="; opt quote; lit name; opt quote;
        star not_gt; lit ">"; star space; lit "</div>" ].

(** [const spaIndicators = [...]], all with the [i] flag *)
Definition spaIndicators : list regex :=
  [ empty_div "root";
    empty_div "app";
    seq [ lit "<div"; star not_gt; lit "data-reactroot" ];
    lit "window.__NEXT_DATA__";
    lit "window.__NUXT__";
    lit "_next/static";
    lit "__webpack_require__" ].

(** [/A.*B/i] *)
Definition then_later (a b : string) : regex :=
  seq [ lit a; star dot; lit b ].

(** [const protectionIndicators = [...]], all with the [i] flag *)
Definition protectionIndicators : list regex :=
  [ then_later "cloudflare" "challenge";
    then_later "cloudflare" "protection";
    then_later "ray id" "cloudflare";
    lit "please enable javascript";
    lit "you need to enable javascript";
    lit "this site requires javascript";
    then_later "jscript" "required";
    then_later "security check" "cloudflare";
    then_later "attention required" "cloudflare" ].

(** [const domainIndicators = [...]], all with the [i] flag *)
Definition domainIndicators : list regex :=
  [ lit "instagram.com"; lit "twitter.com"; lit "facebook.com";
    lit "linkedin.com"; lit "maps.google"; lit "gmail.com";
    lit "youtube.com" ].

(** [/<body[^>]*>(G)<\/body>/i], with the greedy group G = [[\s\S]*] *)
Definition body_re : regex :=
  seq [ lit "<body"; star not_gt; lit ">"; RGroup 1 (star any);
        lit "</body>" ].

(** [/<script[\s\S]*?<\/script>/gi] and [/<style[\s\S]*?<\/style>/gi] *)
Definition script_re : regex :=
  seq [ lit "<script"; lazy_star any; lit "</script>" ].
Definition style_re : regex :=
  seq [ lit "<style"; lazy_star any; lit "</style>" ].

(** [/<[^>]+>/g] and [/\s+/g] (no [i] flag) *)
Definition tag_re : regex := seq [ lit "<"; plus not_gt; lit ">" ].
Definition spaces_re : regex := plus space.

(** The chain of replacements applied to the body region, in both
    [detectBrowserRequirement] and [extractContentFromHTML]:
    [.replace(script, '').replace(style, '').replace(tag, ' ')
     .replace(spaces, ' ').trim()]. *)
Definition stripMarkup (body : jsstring) : jsstring :=
  trim
    (replaceAll false spaces_re (js " ")
       (replaceAll false tag_re (js " ")
          (replaceAll true style_re []
             (replaceAll true script_re [] body)))).

(** [simpleSites.some(site => url.includes(site))] *)
Definition isSimpleSite (url : jsstring) : bool :=
  existsb (fun site => includes url site) simpleSites.

Definition hasSpaIndicators (html : jsstring) : bool :=
  existsb (fun pattern => test true pattern html) spaIndicators.

Definition hasProtection (html : jsstring) : bool :=
  existsb (fun pattern => test true pattern html) protectionIndicators.

Definition isKnownSpa (url : jsstring) : bool :=
  existsb (fun pattern => test true pattern url) domainIndicators.

(** [html.match(body_re)?.[1] || ''] *)
Definition bodyContent (html : jsstring) : jsstring :=
  match group 1 (exec true body_re html) with
  | Some b => b
  | None => []
  end.

(** [textContent] of [detectBrowserRequirement] *)
Definition textContent (html : jsstring) : jsstring :=
  stripMarkup (bodyContent html).

Definition hasMinimalContent (html : jsstring) : bool :=
  Nat.ltb (length (textContent html)) 200.

Definition isLikelySpa (html : jsstring) : bool :=
  hasMinimalContent html && hasSpaIndicators html.

Definition detectBrowserRequirement (html url : jsstring) : bool :=
  if isSimpleSite url then false
  else hasProtection html || isKnownSpa url || isLikelySpa html.

(** [getBrowserIndicators]: the names of the indicators that fired. *)
Definition getBrowserIndicators (html : jsstring) : list jsstring :=
  (if test true (empty_div "root") html
   then [js "React root div detected"] else []) ++
  (if test true (lit "window.__NEXT_DATA__") html
   then [js "Next.js data detected"] else []) ++
  (if test true (then_later "cloudflare" "challenge") html
   then [js "Cloudflare challenge detected"] else []) ++
  (if test true (then_later "cloudflare" "protection") html
   then [js "Cloudflare protection detected"] else []) ++
  (if test true (lit "please enable javascript") html
   then [js "JavaScript required message detected"] else []).

End Classifier.
Import Classifier.

(* ================================================================== *)
(** * JSON values and [JSON.stringify] *)
(* ================================================================== *)

Module Json.

(** A JSON-serialisable JavaScript value.  A number is carried by its
    [Number::toString] rendering, which is all that the scraper (which only
    passes parsed numbers through to [JSON.stringify]) observes of it. *)
#[warnings="-register-all"]
Inductive json : Type :=
| JNull
| JBool (b : bool)
| JNum (repr : jsstring)
| JStr (s : jsstring)
| JArr (items : list json)
| JObj (fields : list (jsstring * json)).

Definition hex_digit (n : N) : jschar :=
  if (n <? 10)%N then (48 + n)%N else (87 + n)%N.

(** [\uXXXX] with lower-case hexadecimal digits *)
Definition unicode_escape (c : jschar) : jsstring :=
  [ 92; 117; hex_digit (c / 4096 mod 16); hex_digit (c / 256 mod 16);
    hex_digit (c / 16 mod 16); hex_digit (c mod 16) ]%N.

Definition is_high_surrogate (c : jschar) : bool :=
  ((55296 <=? c) && (c <=? 56319))%N.
Definition is_low_surrogate (c : jschar) : bool :=
  ((56320 <=? c) && (c <=? 57343))%N.

(** The body of QuoteJSONString: the two-character escapes, [\uXXXX] for
    the other control characters and for unpaired surrogates, and every
    other code point as it is. *)
Fixpoint quote_chars (s : jsstring) : jsstring :=
  match s with
  | [] => []
  | c :: s' =>
      if (c =? 8)%N then js "\b" ++ quote_chars s'
      else if (c =? 9)%N then js "\t" ++ quote_chars s'
      else if (c =? 10)%N then js "\n" ++ quote_chars s'
      else if (c =? 12)%N then js "\f" ++ quote_chars s'
      else if (c =? 13)%N then js "\r" ++ quote_chars s'
      else if (c =? 34)%N then [92; 34]%N ++ quote_chars s'
      else if (c =? 92)%N then [92; 92]%N ++ quote_chars s'
      else if (c <? 32)%N then unicode_escape c ++ quote_chars s'
      else if is_high_surrogate c then
        match s' with
        | d :: s'' =>
            if is_low_surrogate d then c :: d :: quote_chars s''
            else unicode_escape c ++ quote_chars s'
        | [] => unicode_escape c
        end
      else if is_low_surrogate c then unicode_escape c ++ quote_chars s'
      else c :: quote_chars s'
  end.

Definition quoteJSONString (s : jsstring) : jsstring :=
  dquote :: quote_chars s ++ [dquote].

Fixpoint join (sep : jsstring) (l : list jsstring) : jsstring :=
  match l with
  | [] => []
  | [x] => x
  | x :: l' => x ++ sep ++ join sep l'
  end.

Definition newline : jsstring := [10%N].

(** SerializeJSONArray / SerializeJSONObject, once the members are
    serialised: [opening] and [closing] are the brackets, [gap] the
    indentation unit, [indent] the indentation of the enclosing level. *)
Definition wrap (opening closing gap indent : jsstring)
           (partial : list jsstring) : jsstring :=
  match partial with
  | [] => opening ++ closing
  | _ :: _ =>
      match gap with
      | [] => opening ++ join (js ",") partial ++ closing
      | _ :: _ =>
          let inner := indent ++ gap in
          opening ++ newline ++ inner ++
          join (js "," ++ newline ++ inner) partial ++
          newline ++ indent ++ closing
      end
  end.

(** SerializeJSONProperty on a value that holds no [undefined], function
    or symbol. *)
Fixpoint serialize (gap indent : jsstring) (v : json) {struct v} : jsstring :=
  match v with
  | JNull => js "null"
  | JBool true => js "true"
  | JBool false => js "false"
  | JNum repr => repr
  | JStr s => quoteJSONString s
  | JArr items =>
      wrap (js "[") (js "]") gap indent
           (map (serialize gap (indent ++ gap)) items)
  | JObj fields =>
      wrap (js "{") (js "}") gap indent
           (map (fun kv =>
                   match kv with
                   | (k, x) =>
                       quoteJSONString k ++ js ":" ++
                       (match gap with [] => [] | _ :: _ => js " " end) ++
                       serialize gap (indent ++ gap) x
                   end) fields)
  end.

(** [JSON.stringify(v)] *)
Definition stringify (v : json) : jsstring := serialize [] [] v.

(** [JSON.stringify(v, null, 2)] *)
Definition stringify2 (v : json) : jsstring := serialize (js "  ") [] v.

(** ** Objects as ordered property lists *)

Fixpoint all_digits (s : jsstring) : bool :=
  match s with
  | [] => true
  | c :: s' => (48 <=? c)%N && (c <=? 57)%N && all_digits s'
  end.

Fixpoint decimal_value (acc : N) (s : jsstring) : N :=
  match s with
  | [] => acc
  | c :: s' => decimal_value (10 * acc + (c - 48))%N s'
  end.

(** An array index: the canonical decimal form of an integer below
    2^32 - 1.  Such keys are enumerated first, in ascending order. *)
Definition array_index (k : jsstring) : option N :=
  match k with
  | [] => None
  | c :: k' =>
      if all_digits k && Nat.leb (length k) 10
         && (negb (c =? 48)%N || match k' with [] => true | _ => false end)
      then
        let n := decimal_value 0 k in
        if (n <? 4294967295)%N then Some n else None
      else None
  end.

Fixpoint has_key (k : jsstring) (fields : list (jsstring * json)) : bool :=
  match fields with
  | [] => false
  | (k', _) :: rest => str_eqb k k' || has_key k rest
  end.

Fixpoint update_key (k : jsstring) (v : json)
         (fields : list (jsstring * json)) : list (jsstring * json) :=
  match fields with
  | [] => []
  | (k', v') :: rest =>
      if str_eqb k k' then (k', v) :: rest
      else (k', v') :: update_key k v rest
  end.

Fixpoint insert_index (n : N) (k : jsstring) (v : json)
         (fields : list (jsstring * json)) : list (jsstring * json) :=
  match fields with
  | [] => [(k, v)]
  | (k', v') :: rest =>
      match array_index k' with
      | Some m =>
          if (m <? n)%N then (k', v') :: insert_index n k v rest
          else (k, v) :: fields
      | None => (k, v) :: fields
      end
  end.

(** [obj[k] = v] on an ordinary object whose prototype is
    [Object.prototype] and whose value [v] is a string: an existing
    property keeps its place, a new array index is placed among the array
    indices, any other new key goes last, and the key [__proto__] reaches
    the inherited setter, which ignores a string. *)
Definition obj_set (k : jsstring) (v : json)
           (fields : list (jsstring * json)) : list (jsstring * json) :=
  if str_eqb k (js "__proto__") then fields
  else if has_key k fields then update_key k v fields
  else match array_index k with
       | Some n => insert_index n k v fields
       | None => fields ++ [(k, v)]
       end.

Fixpoint obj_get (k : jsstring) (fields : list (jsstring * json))
  : option json :=
  match fields with
  | [] => None
  | (k', v) :: rest => if str_eqb k k' then Some v else obj_get k rest
  end.

(** Own property [k] of a value, when it is an object that has it. *)
Definition field (k : string) (v : json) : option json :=
  match v with
  | JObj fields => obj_get (js k) fields
  | _ => None
  end.

End Json.
Import Json.

(* ================================================================== *)
(** * ContentExtractor: [extractContentFromHTML] *)
(* ================================================================== *)

Module Extractor.

Definition not_quote : regex := none_of [squote; dquote].
Definition not_lt : regex := none_of [60%N].

(** [/<title[^>]*>([^<]+)<\/title>/i] *)
Definition title_re : regex :=
  seq [ lit "<title"; star not_gt; lit ">"; RGroup 1 (plus not_lt);
        lit "</title>" ].

(** [/<meta[^>]*name=Q description Q[^>]*content=Q(G)Q/i], where Q stands
    for the class of the two quote characters and G for any run of other
    characters *)
Definition metaDescription_re : regex :=
  seq [ lit "<meta"; star not_gt; lit "name="; quote; lit "description";
        quote; star not_gt; lit "content="; quote;
        RGroup 1 (star not_quote); quote ].

(** [/<script[^>]*type=Q application\/ld\+json Q[^>]*>(G)<\/script>/gi],
    with the lazy group G = [[\s\S]*?] *)
Definition jsonLd_re : regex :=
  seq [ lit "<script"; star not_gt; lit "type="; quote;
        lit "application/ld+json"; quote; star not_gt; lit ">";
        RGroup 1 (lazy_star any); lit "</script>" ].

(** [/window\.__(?:INITIAL_STATE__|INITIAL_DATA__|NEXT_DATA__)__\s*=\s*(G);/]
    with the group G = [{[\s\S]*?}]; no flag.  The alternation already ends
    in two underscores and two more follow it. *)
Definition windowData_re : regex :=
  seq [ lit "window.__";
        RAlt (lit "INITIAL_STATE__")
             (RAlt (lit "INITIAL_DATA__") (lit "NEXT_DATA__"));
        lit "__"; star space; lit "="; star space;
        RGroup 1 (seq [ lit "{"; lazy_star any; lit "}" ]);
        lit ";" ].

(** [/<meta[^>]*(?:property|name)=Q(G1)Q[^>]*content=Q(G2)Q/gi]: G1 is a
    non-empty run of characters other than quotes, G2 a possibly empty
    one *)
Definition metaTag_re : regex :=
  seq [ lit "<meta"; star not_gt; RAlt (lit "property") (lit "name");
        lit "="; quote; RGroup 1 (plus not_quote); quote; star not_gt;
        lit "content="; quote; RGroup 2 (star not_quote); quote ].

Definition or_empty (o : option jsstring) : jsstring :=
  match o with Some s => s | None => [] end.

Section Extract.
(** [JSON.parse]: [None] when it throws. *)
Variable JSON_parse : jsstring -> option json.

Definition title (html : jsstring) : jsstring :=
  or_empty (group 1 (exec true title_re html)).

Definition metaDescription (html : jsstring) : jsstring :=
  or_empty (group 1 (exec true metaDescription_re html)).

(** The JSON-LD blocks that parse, in document order. *)
Definition structuredData (html : jsstring) : list json :=
  flat_map
    (fun m =>
       match JSON_parse (or_empty (cap_get 1 (m_caps m))) with
       | Some data => [data]
       | None => []
       end)
    (matchAll true jsonLd_re html).

Definition windowData (html : jsstring) : json :=
  match exec false windowData_re html with
  | Some m =>
      match JSON_parse (or_empty (cap_get 1 (m_caps m))) with
      | Some data => data
      | None => JStr (js "Found but unparseable")
      end
  | None => JNull
  end.

(** [textContent] of [extractContentFromHTML] *)
Definition bodyText (html : jsstring) : jsstring :=
  match exec true body_re html with
  | Some m => substring0 2000 (stripMarkup (or_empty (cap_get 1 (m_caps m))))
  | None => []
  end.

(** [metaMatches.slice(0, 15).forEach(m => metaTags[m[1]] = m[2])] *)
Definition metaTags (html : jsstring) : list (jsstring * json) :=
  fold_left
    (fun tags m =>
       obj_set (or_empty (cap_get 1 (m_caps m)))
               (JStr (or_empty (cap_get 2 (m_caps m)))) tags)
    (firstn 15 (matchAll true metaTag_re html)) [].

(** The object handed to [JSON.stringify]; [now] is
    [new Date().toISOString()]. *)
Definition contentRecord (html now : jsstring) : json :=
  JObj
    [ (js "title", JStr (title html));
      (js "metaDescription", JStr (metaDescription html));
      (js "structuredData",
        match structuredData html with
        | [] => JNull
        | data => JArr data
        end);
      (js "windowData", windowData html);
      (js "metaTags",
        match metaTags html with
        | [] => JNull
        | tags => JObj tags
        end);
      (js "content", JStr (bodyText html));
      (js "extractedAt", JStr now) ].

(** [extractContentFromHTML(html)].  On a string every step of the
    [try] block is total (the two [JSON.parse] calls have handlers of
    their own), so the outer handler, which would return the
    ['Content extraction failed'] record, is never entered. *)
Definition extractContentFromHTML (html now : jsstring) : jsstring :=
  stringify2 (contentRecord html now).

End Extract.

End Extractor.
Import Extractor.

(* ================================================================== *)
(** * Numbers: the arithmetic of [getStats] *)
(* ================================================================== *)

(** The counters are JavaScript numbers that only ever hold integers
    reached by [++] from 0; below 2^53 these are exact, and they are
    modelled as [N].  The success rate is computed in binary64 arithmetic
    ([/] then [*], each rounded to nearest, ties to even) and printed by
    [toFixed(1)].  A finite non-negative binary64 value is modelled
    exactly, as a mantissa and a binary exponent; the quotient of two
    positive counters and its product by 100 stay in the normal range,
    where rounding to 53 significant bits is all there is to it. *)
Module Float.

Record dyadic : Type := Dyadic { mant : N; expo : Z }.
(* the value is mant * 2^expo *)

Definition of_N (n : N) : dyadic := Dyadic n 0.

(** [p / q] divided by [2^e], as a fraction. *)
Definition scaled (p q : N) (e : Z) : N * N :=
  if (0 <=? e)%Z then (p, q * 2 ^ Z.to_N e)%N
  else (p * 2 ^ Z.to_N (- e), q)%N.

(** The binary64 value nearest to [p / q] (ties to even), for [p, q > 0]:
    the quotient is scaled so that its integer part has exactly 53 bits,
    and rounded there. *)
Definition round_quotient (p q : N) : dyadic :=
  if (p =? 0)%N then Dyadic 0 0 else
  let d := (Z.of_N (N.log2 p) - Z.of_N (N.log2 q))%Z in
  (* 2^(d-1) < p/q < 2^(d+1) *)
  let e0 := (d - 52)%Z in
  let e := (let (num, den) := scaled p q e0 in
            if (num / den <? 2 ^ 52)%N then e0 - 1 else e0)%Z in
  let (num, den) := scaled p q e in
  let m := (num / den)%N in
  let r := (num mod den)%N in
  let up := ((den <? 2 * r) || ((2 * r =? den) && N.odd m))%N in
  Dyadic (if up then m + 1 else m)%N e.

(** [x / y], for [y > 0] *)
Definition div (x y : dyadic) : dyadic :=
  let r := round_quotient (mant x) (mant y) in
  Dyadic (mant r) (expo r + expo x - expo y).

(** [x * y] *)
Definition mul (x y : dyadic) : dyadic :=
  let r := round_quotient (mant x * mant y) 1 in
  Dyadic (mant r) (expo r + expo x + expo y).

(** The integer [n] for which [n / 10] is nearest to [x], the larger one
    when two are equally near: step 9 of [Number.prototype.toFixed] with
    one fraction digit. *)
Definition tenths (x : dyadic) : N :=
  if (0 <=? expo x)%Z then (10 * mant x * 2 ^ Z.to_N (expo x))%N
  else
    let k := Z.to_N (- expo x) in
    ((20 * mant x + 2 ^ k) / 2 ^ (k + 1))%N.

(** [x.toFixed(1)], for [0 <= x < 10^21] *)
Definition toFixed1 (x : dyadic) : jsstring :=
  let n := tenths x in
  JS.of_N (n / 10) ++ js "." ++ JS.of_N (n mod 10).

End Float.

(* ================================================================== *)
(** * StatsTracker: the counters and [getStats] *)
(* ================================================================== *)

Module Stats.

Record MethodStats : Type := mkMethodStats {
  attempts : N;
  successes : N
}.

(** [this.stats] *)
Record stats : Type := mkStats {
  directFetch : MethodStats;
  lightpanda : MethodStats;
  puppeteer : MethodStats;
  pdf : MethodStats
}.

(** The value set by the constructor. *)
Definition initial : stats :=
  let zero := mkMethodStats 0 0 in mkStats zero zero zero zero.

Record SuccessRates : Type := mkSuccessRates {
  rate_directFetch : jsstring;
  rate_lightpanda : jsstring;
  rate_puppeteer : jsstring;
  rate_pdf : jsstring
}.

(** The object returned by [getStats]: the four counter pairs (the
    spread copies the references, not the pairs) and the derived rates. *)
Record snapshot : Type := mkSnapshot {
  counters : stats;
  successRates : SuccessRates
}.

(** [(s / a * 100).toFixed(1) + '%'] *)
Definition percent (s a : N) : jsstring :=
  Float.toFixed1
    (Float.mul (Float.div (Float.of_N s) (Float.of_N a)) (Float.of_N 100))
  ++ js "%".

Definition getStats (st : stats) : snapshot :=
  mkSnapshot st
    (mkSuccessRates
       (if (0 <? attempts (directFetch st))%N
        then percent (successes (directFetch st)) (attempts (directFetch st))
        else js "0%")
       (if (0 <? attempts (lightpanda st))%N
        then percent (successes (lightpanda st)) (attempts (lightpanda st))
        else js "0%")
       (if (0 <? attempts (puppeteer st))%N
        then percent (successes (puppeteer st)) (attempts (puppeteer st))
        else js "0%")
       (if (0 <? attempts (pdf st))%N
        then percent (successes (pdf st)) (attempts (pdf st))
        else js "0%")).

End Stats.

(* ================================================================== *)
(** * RetrievalOrchestrator: the stages and [scrape] *)
(* ================================================================== *)

Module Cascade.

(** ** Results *)

(** A call either returns or throws; an [await] on a rejected promise
    throws.  Every exception of the source is an [Error], of which only
    [message] is ever read. *)
Inductive outcome (A : Type) : Type :=
| Returned (a : A)
| Thrown (message : jsstring).
Arguments Returned {A} a.
Arguments Thrown {A} message.

(** The four counted stages, named as the keys of [this.stats]. *)
Inductive stage : Type := DirectFetch | Lightpanda | Puppeteer | Pdf.

(** The values taken by [method] in [scrape]. *)
Inductive method : Type :=
| MUnknown | MPdf | MDirectFetch | MLightpanda | MPuppeteer | MFailed
| MError.

(** The object returned by a stage; an absent property is [None]
    ([isPdf] is only ever tested for truthiness). *)
Record StageResult : Type := mkStageResult {
  success : bool;
  error : option jsstring;
  needsBrowser : option bool;
  isPdf : bool;
  content : option jsstring;
  html : option jsstring;
  size : option nat;
  contentType : option jsstring;
  browserIndicators : option (list jsstring);
  exitCode : option (option N);
  pages : option N
}.

Definition failure (msg : jsstring) : StageResult :=
  mkStageResult false (Some msg) None false None None None None None None
                None.

(** The object returned by [scrape]: the properties of the last stage
    result (spread), then [method], [performance] and [stats]. *)
Record ScrapeResult : Type := mkScrapeResult {
  result : StageResult;
  r_method : method;
  totalTime : Z;
  performance_method : option method;
  r_stats : option Stats.snapshot
}.

(** ** Configuration *)

(** [this.options], as left by the constructor. *)
Record Options : Type := mkOptions {
  timeout : N;
  userAgent : jsstring;
  lightpandaPath : option jsstring;
  verbose : bool
}.

(** The [options] argument of [scrape], as far as the stages read it. *)
Record CallOptions : Type := mkCallOptions {
  call_timeout : option N;
  call_userAgent : option jsstring
}.

Record Config : Type := mkConfig {
  cfg_timeout : N;
  cfg_userAgent : jsstring
}.

(** [{ ...this.options, ...options }] *)
Definition merge (o : Options) (c : CallOptions) : Config :=
  mkConfig
    (match call_timeout c with Some t => t | None => timeout o end)
    (match call_userAgent c with Some u => u | None => userAgent o end).

(** ** The outside world *)

Record Request : Type := mkRequest {
  req_url : jsstring;
  req_headers : list (jsstring * jsstring);
  req_timeout : N   (* the delay after which the request is aborted *)
}.

(** What the stages read of a [fetch] response; [body] is what
    [arrayBuffer()] gives, as a list of bytes. *)
Record Response : Type := mkResponse {
  ok : bool;
  status : N;
  statusText : jsstring;
  header_content_type : option jsstring;
  body : outcome (list N)
}.

(** [statSync(path)]: it throws, or tells whether the path is a file. *)
Inductive StatResult : Type :=
| StatThrows
| StatIs (isFile : bool).

(** A run of the Lightpanda subprocess, up to the first of the events
    ['close'] and ['error'], which settles the promise: [spawn] itself
    throws, or ['error'] comes first, or ['close'] comes first with the
    exit code ([None] is [null]: killed by a signal) after the chunks of
    both streams. *)
Inductive ProcessRun : Type :=
| SpawnThrows (message : jsstring)
| ProcessError (message : jsstring)
| Closed (code : option N) (output errorOutput : jsstring).

(** What [tryPDFParse] reads of the value of [pdfParse(buffer)]; an
    [info] property that is missing is [None]. *)
Record PdfData : Type := mkPdfData {
  info_Title : option jsstring;
  info_Author : option jsstring;
  info_Subject : option jsstring;
  info_Keywords : option jsstring;
  info_Creator : option jsstring;
  info_Producer : option jsstring;
  info_CreationDate : option jsstring;
  info_ModificationDate : option jsstring;
  numpages : N;
  text : jsstring;
  metadata : option json
}.

(** The value of the in-page extraction of [tryPuppeteer]
    ([page.evaluate(() => { ... })]), which runs in the browser over the
    document: the nine properties of the object it returns. *)
Record Heading : Type := mkHeading {
  h_level : jsstring;       (* h.tagName.toLowerCase() *)
  h_text : jsstring         (* h.textContent.trim(), not empty *)
}.

Record Link : Type := mkLink {
  a_text : jsstring;        (* a.textContent.trim(), not empty *)
  a_href : jsstring
}.

Record PageContent : Type := mkPageContent {
  page_title : jsstring;
  page_metaDescription : jsstring;
  page_canonical : jsstring;
  page_headings : list Heading;         (* at most 20 *)
  page_paragraphs : list jsstring;      (* at most 10, each over 20 long *)
  page_links : list Link;               (* at most 15 *)
  page_structuredData : list json;      (* the JSON-LD blocks that parse *)
  page_bodyText : jsstring;             (* at most 3000 long *)
  page_url : jsstring
}.

(** That object, as [JSON.stringify] sees it. *)
Definition pageJson (c : PageContent) : json :=
  JObj
    [ (js "title", JStr (page_title c));
      (js "metaDescription", JStr (page_metaDescription c));
      (js "canonical", JStr (page_canonical c));
      (js "headings",
        JArr (map (fun h => JObj [ (js "level", JStr (h_level h));
                                   (js "text", JStr (h_text h)) ])
                  (page_headings c)));
      (js "paragraphs", JArr (map JStr (page_paragraphs c)));
      (js "links",
        JArr (map (fun a => JObj [ (js "text", JStr (a_text a));
                                   (js "href", JStr (a_href a)) ])
                  (page_links c)));
      (js "structuredData", JArr (page_structuredData c));
      (js "bodyText", JStr (page_bodyText c));
      (js "url", JStr (page_url c)) ].

(** The collaborators of the scraper.  [W] is the state of everything
    outside the process, [Browser] the handle returned by
    [puppeteer.launch]. *)
Record Env (W Browser : Type) : Type := mkEnv {
  (** [Date.now()] *)
  Date_now : W -> Z * W;
  (** [new Date().toISOString()] *)
  Date_toISOString : W -> jsstring * W;
  (** [JSON.parse]: [None] when it throws *)
  JSON_parse : jsstring -> option json;
  (** [new TextDecoder().decode(buffer)] *)
  TextDecoder_decode : list N -> jsstring;
  (** [fetch(url, { headers, signal })], with the abort timer *)
  fetch : Request -> W -> outcome Response * W;
  statSync : jsstring -> W -> StatResult * W;
  (** [spawn(path, args, { timeout })] and the life of the process *)
  spawn : jsstring -> list jsstring -> N -> W -> ProcessRun * W;
  (** whether the optional [import('puppeteer')] succeeded *)
  puppeteer_available : bool;
  (** [puppeteer.launch({ headless: true, args: [...] })] *)
  launch : W -> outcome Browser * W;
  (** from [browser.newPage()] to [page.close()]: user agent, viewport,
      request interception, navigation and the in-page extraction, whose
      value is returned *)
  browse : Browser -> jsstring -> Config -> W -> outcome PageContent * W;
  (** [pdfParse(buffer)] *)
  pdfParse : list N -> W -> outcome PdfData * W
}.

(** ** The scraper's state and its monad *)

(** Observable steps of a run, recorded in order: a counter increment, or
    a call made by a stage to one of its collaborators. *)
Inductive event : Type :=
| EvAttempt (m : stage)     (* this.stats.m.attempts++  *)
| EvSuccess (m : stage)     (* this.stats.m.successes++ *)
| EvExec (m : stage).       (* fetch, statSync, spawn, launch, ... *)

Section Scraper.
Variables W Browser : Type.
Variable env : Env W Browser.
(** [this.options] *)
Variable options : Options.

Record state : Type := mkState {
  world : W;
  stats : Stats.stats;              (* this.stats   *)
  browser : option Browser;         (* this.browser *)
  trace : list event                (* the steps so far: an observation
                                       of the run, which the scraper
                                       itself never reads *)
}.

Definition M (A : Type) : Type := state -> outcome A * state.

Definition ret {A} (a : A) : M A := fun s => (Returned a, s).

Definition throw {A} (msg : jsstring) : M A := fun s => (Thrown msg, s).

Definition bind {A B} (m : M A) (k : A -> M B) : M B :=
  fun s =>
    match m s with
    | (Returned a, s') => k a s'
    | (Thrown msg, s') => (Thrown msg, s')
    end.

(** [try { m } catch (error) { handler(error.message) }] *)
Definition try_catch {A} (m : M A) (handler : jsstring -> M A) : M A :=
  fun s =>
    match m s with
    | (Returned a, s') => (Returned a, s')
    | (Thrown msg, s') => handler msg s'
    end.

Notation "x <- m ;; k" := (bind m (fun x => k))
  (at level 61, m at next level, right associativity).
Notation "m ;;; k" := (bind m (fun _ => k))
  (at level 61, right associativity).

Definition bump_attempts (c : Stats.MethodStats) : Stats.MethodStats :=
  Stats.mkMethodStats (Stats.attempts c + 1) (Stats.successes c).

Definition bump_successes (c : Stats.MethodStats) : Stats.MethodStats :=
  Stats.mkMethodStats (Stats.attempts c) (Stats.successes c + 1).

Definition update (m : stage)
           (f : Stats.MethodStats -> Stats.MethodStats)
           (st : Stats.stats) : Stats.stats :=
  match m with
  | DirectFetch =>
      Stats.mkStats (f (Stats.directFetch st)) (Stats.lightpanda st)
                    (Stats.puppeteer st) (Stats.pdf st)
  | Lightpanda =>
      Stats.mkStats (Stats.directFetch st) (f (Stats.lightpanda st))
                    (Stats.puppeteer st) (Stats.pdf st)
  | Puppeteer =>
      Stats.mkStats (Stats.directFetch st) (Stats.lightpanda st)
                    (f (Stats.puppeteer st)) (Stats.pdf st)
  | Pdf =>
      Stats.mkStats (Stats.directFetch st) (Stats.lightpanda st)
                    (Stats.puppeteer st) (f (Stats.pdf st))
  end.

(** [this.stats.m.attempts++] *)
Definition count_attempt (m : stage) : M unit :=
  fun s => (Returned tt,
            mkState (world s) (update m bump_attempts (stats s))
                    (browser s) (trace s ++ [EvAttempt m])).

(** [this.stats.m.successes++] *)
Definition count_success (m : stage) : M unit :=
  fun s => (Returned tt,
            mkState (world s) (update m bump_successes (stats s))
                    (browser s) (trace s ++ [EvSuccess m])).

(** A call made by stage [m] to a collaborator. *)
Definition call {A} (m : stage) (f : W -> A * W) : M A :=
  fun s =>
    let (a, w) := f (world s) in
    (Returned a,
     mkState w (stats s) (browser s) (trace s ++ [EvExec m])).

(** Same, for a call that may throw. *)
Definition call_throwing {A} (m : stage) (f : W -> outcome A * W) : M A :=
  fun s =>
    let (a, w) := f (world s) in
    (a, mkState w (stats s) (browser s) (trace s ++ [EvExec m])).

(** Reading the clock is not a step of any stage. *)
Definition clock {A} (f : W -> A * W) : M A :=
  fun s =>
    let (a, w) := f (world s) in
    (Returned a, mkState w (stats s) (browser s) (trace s)).

Definition get_browser : M (option Browser) :=
  fun s => (Returned (browser s), s).

Definition set_browser (b : Browser) : M unit :=
  fun s => (Returned tt, mkState (world s) (stats s) (Some b) (trace s)).

(** [this.getStats()] *)
Definition getStats : M Stats.snapshot :=
  fun s => (Returned (Stats.getStats (stats s)), s).

(** [this.extractContentFromHTML(html)] *)
Definition extract (html : jsstring) : M jsstring :=
  now <- clock (Date_toISOString env) ;;
  ret (extractContentFromHTML (JSON_parse env) html now).

(** [o || d] on a string that may be absent *)
Definition or_else (o : option jsstring) (d : jsstring) : jsstring :=
  match o with
  | Some ((_ :: _) as s) => s
  | _ => d
  end.

(** Template literals *)
Definition http_error (r : Response) : jsstring :=
  js "HTTP " ++ JS.of_N (status r) ++ js ": " ++ statusText r.

(** [await response.arrayBuffer()] *)
Definition arrayBuffer (r : Response) : M (list N) :=
  match body r with
  | Returned b => ret b
  | Thrown msg => throw msg
  end.

(** ** Stage: direct fetch *)

Definition directFetch_headers (config : Config)
  : list (jsstring * jsstring) :=
  [ (js "User-Agent", cfg_userAgent config);
    (js "Accept",
     js "text/html,application/xhtml+xml,application/xml;q=0.9,*/*;q=0.8");
    (js "Accept-Language", js "en-US,en;q=0.5");
    (js "Accept-Encoding", js "gzip, deflate");
    (js "Connection", js "keep-alive");
    (js "Upgrade-Insecure-Requests", js "1") ].

Definition tryDirectFetch (url : jsstring) (config : Config)
  : M StageResult :=
  count_attempt DirectFetch ;;;
  try_catch
    (response <- call_throwing DirectFetch
                   (fetch env (mkRequest url (directFetch_headers config)
                                         (cfg_timeout config))) ;;
     if negb (ok response) then ret (failure (http_error response))
     else
       let contentType := or_else (header_content_type response) [] in
       if includes contentType (js "application/pdf") then
         ret (mkStageResult false
                (Some (js "Content is PDF, should use PDF parser"))
                None true None None None None None None None)
       else
         buffer <- arrayBuffer response ;;
         (* the first five bytes, each as a character *)
         let signature := firstn 5 buffer in
         if startsWith signature (js "%PDF") then
           ret (mkStageResult false
                  (Some (js "Content is PDF (detected by magic bytes), should use PDF parser"))
                  None true None None None None None None None)
         else
           let html := TextDecoder_decode env buffer in
           let needsBrowser := detectBrowserRequirement html url in
           if negb needsBrowser then
             content <- extract html ;;
             count_success DirectFetch ;;;
             ret (mkStageResult true None (Some false) false
                    (Some content) (Some html) (Some (length html))
                    (Some (or_else (header_content_type response)
                                   (js "text/html")))
                    None None None)
           else
             ret (mkStageResult true None (Some true) false
                    None (Some html) (Some (length html)) None
                    (Some (getBrowserIndicators html)) None None))
    (fun msg => ret (failure msg)).

(** ** Stage: Lightpanda *)

(** [`Lightpanda exited with code ${code}`] *)
Definition exit_message (code : option N) : jsstring :=
  js "Lightpanda exited with code " ++
  match code with Some n => JS.of_N n | None => js "null" end.

Definition tryLightpanda (url : jsstring) (config : Config)
  : M StageResult :=
  count_attempt Lightpanda ;;;
  match lightpandaPath options with
  | None | Some [] =>
      ret (failure (js "Lightpanda binary not found. Please install Lightpanda or provide path."))
  | Some path =>
      st <- call Lightpanda (statSync env path) ;;
      match st with
      | StatThrows => ret (failure (js "Lightpanda binary not accessible"))
      | StatIs false => ret (failure (js "Lightpanda binary is not a file"))
      | StatIs true =>
          run <- call Lightpanda
                   (spawn env path [js "fetch"; js "--dump"; url]
                          (cfg_timeout config + 1000)) ;;
          match run with
          | SpawnThrows msg => throw msg
          | ProcessError msg =>
              ret (failure (js "Lightpanda process error: " ++ msg))
          | Closed code output errorOutput =>
              match code, output with
              | Some 0%N, _ :: _ =>
                  content <- extract output ;;
                  count_success Lightpanda ;;;
                  ret (mkStageResult true None None false
                         (Some content) (Some output)
                         (Some (length output)) None None
                         (Some code) None)
              | _, _ =>
                  ret (mkStageResult false
                         (Some (or_else (Some errorOutput)
                                        (exit_message code)))
                         None false None None None None None
                         (Some code) None)
              end
          end
      end
  end.

(** ** Stage: Puppeteer *)

Definition tryPuppeteer (url : jsstring) (config : Config)
  : M StageResult :=
  count_attempt Puppeteer ;;;
  if negb (puppeteer_available env) then
    throw (js "Puppeteer is not available")
  else
    try_catch
      (current <- get_browser ;;
       b <- match current with
            | Some b => ret b
            | None =>
                b <- call_throwing Puppeteer (launch env) ;;
                set_browser b ;;;
                ret b
            end ;;
       content <- call_throwing Puppeteer (browse env b url config) ;;
       count_success Puppeteer ;;;
       ret (mkStageResult true None None false
              (Some (stringify2 (pageJson content))) None
              (Some (length (stringify (pageJson content))))
              None None None None))
      (fun msg => ret (failure msg)).

(** ** Stage: PDF *)

Definition pdfContent (url : jsstring) (d : PdfData) : json :=
  JObj
    [ (js "title", JStr (or_else (info_Title d) (js "Untitled PDF")));
      (js "author", JStr (or_else (info_Author d) []));
      (js "subject", JStr (or_else (info_Subject d) []));
      (js "keywords", JStr (or_else (info_Keywords d) []));
      (js "creator", JStr (or_else (info_Creator d) []));
      (js "producer", JStr (or_else (info_Producer d) []));
      (js "creationDate", JStr (or_else (info_CreationDate d) []));
      (js "modificationDate",
        JStr (or_else (info_ModificationDate d) []));
      (js "pages", JNum (JS.of_N (numpages d)));
      (js "text", JStr (text d));
      (js "metadata",
        match metadata d with Some j => j | None => JNull end);
      (js "url", JStr url) ].

Definition acceptableTypes : list jsstring :=
  [ js "pdf"; js "octet-stream"; js "binary"; js "download" ].

Definition tryPDFParse (url : jsstring) (config : Config)
  : M StageResult :=
  count_attempt Pdf ;;;
  try_catch
    (response <- call_throwing Pdf
                   (fetch env
                      (mkRequest url
                         [ (js "User-Agent", cfg_userAgent config);
                           (js "Accept", js "application/pdf,*/*") ]
                         (cfg_timeout config))) ;;
     if negb (ok response) then ret (failure (http_error response))
     else
       let contentType := or_else (header_content_type response) [] in
       let isAcceptableType :=
         existsb (fun type => includes contentType type) acceptableTypes in
       if negb isAcceptableType
          && negb (includes (toLowerCase url) (js ".pdf"))
       then ret (failure (js "Not a PDF document: " ++ contentType))
       else
         buffer <- arrayBuffer response ;;
         if (20 * 1024 * 1024 <? N.of_nat (length buffer))%N then
           ret (failure (js "PDF too large (max 20MB)"))
         else
           pdfData <- call_throwing Pdf (pdfParse env buffer) ;;
           let content := pdfContent url pdfData in
           count_success Pdf ;;;
           ret (mkStageResult true None None false
                  (Some (stringify2 content)) None
                  (Some (length buffer))
                  (Some (js "application/pdf")) None None
                  (Some (numpages pdfData))))
    (fun msg => ret (failure (js "PDF parsing error: " ++ msg))).

(** ** [scrape] *)

Definition isPdfUrl (url : jsstring) : bool :=
  endsWith (toLowerCase url) (js ".pdf")
  || includes (toLowerCase url) (js ".pdf?")
  || includes (toLowerCase url) (js "/pdf/").

(** [{ ...result, method, performance: { totalTime, method },
       stats: this.getStats() }] *)
Definition finish (startTime : Z) (r : StageResult) (m : method)
  : M ScrapeResult :=
  t <- clock (Date_now env) ;;
  snapshot <- getStats ;;
  ret (mkScrapeResult r m (t - startTime) (Some m) (Some snapshot)).

(** The part of the cascade that starts with the direct fetch. *)
Definition fromDirectFetch (startTime : Z) (url : jsstring)
           (config : Config) : M ScrapeResult :=
  r <- tryDirectFetch url config ;;
  if success r
     && negb (match needsBrowser r with Some b => b | None => false end)
  then finish startTime r MDirectFetch
  else if isPdf r then
    r <- tryPDFParse url config ;;
    if success r then finish startTime r MPdf
    else finish startTime r MUnknown   (* [method] is left as it was *)
  else
    r <- tryLightpanda url config ;;
    if success r then finish startTime r MLightpanda
    else
      r <- tryPuppeteer url config ;;
      if success r then finish startTime r MPuppeteer
      else finish startTime r MFailed.

(** The body of the [try] block of [scrape].  ([lastError] is assigned
    but never read, and [this.log] only prints.) *)
Definition scrape_try (startTime : Z) (url : jsstring) (config : Config)
  : M ScrapeResult :=
  if isPdfUrl url then
    r <- tryPDFParse url config ;;
    if success r then finish startTime r MPdf
    else fromDirectFetch startTime url config
  else fromDirectFetch startTime url config.

Definition scrape (url : jsstring) (opts : CallOptions) : M ScrapeResult :=
  startTime <- clock (Date_now env) ;;
  let config := merge options opts in
  try_catch (scrape_try startTime url config)
    (fun msg =>
       t <- clock (Date_now env) ;;
       ret (mkScrapeResult (failure msg) MError (t - startTime) None None)).

End Scraper.

End Cascade.

(* ================================================================== *)
(** * Life cycle: [cleanup], [healthCheck] and [smartScrape] *)
(* ================================================================== *)

Module Lifecycle.
Import Cascade.

(** The object returned by [healthCheck]. *)
Record Health : Type := mkHealth {
  h_status : jsstring;
  h_directFetch : bool;       (* methods.directFetch *)
  h_lightpanda : bool;        (* methods.lightpanda  *)
  h_puppeteer : bool;         (* methods.puppeteer   *)
  h_timestamp : jsstring
}.

Section Lifecycle.
Variables W Browser : Type.
Variable env : Env W Browser.
Variable options : Options.
(** [browser.close()] *)
Variable close : Browser -> W -> outcome unit * W.

Notation "x <- m ;; k" := (bind m (fun x => k))
  (at level 61, m at next level, right associativity).
Notation "m ;;; k" := (bind m (fun _ => k))
  (at level 61, right associativity).

(** [cleanup()]: [if (this.browser) { await this.browser.close();
    this.browser = null; }]; when [close] throws, the assignment is not
    reached. *)
Definition cleanup : M W Browser unit :=
  current <- @get_browser W Browser ;;
  match current with
  | Some b =>
      (fun s =>
         let (r, w) := close b (world s) in
         (r, mkState w (stats s) (browser s) (trace s))) ;;;
      (fun s => (Returned tt, mkState (world s) (stats s) None (trace s)))
  | None => ret tt
  end.

(** One of the three probes of [healthCheck]:
    [try { r = await stage; results.m = r.success } catch
     { results.m = false }]. *)
Definition probe (stage : M W Browser StageResult) : M W Browser bool :=
  try_catch (r <- stage ;; ret (success r)) (fun _ => ret false).

(** [healthCheck()].  The stages are handed [this.options] as their
    configuration; the Puppeteer probe also cleans up, inside its [try]
    block. *)
Definition healthCheck : M W Browser Health :=
  let testUrl := js "https://example.com" in
  let config := mkConfig (timeout options) (userAgent options) in
  d <- probe (tryDirectFetch env testUrl config) ;;
  l <- probe (tryLightpanda env options testUrl config) ;;
  p <- try_catch
         (r <- tryPuppeteer env testUrl config ;;
          cleanup ;;;
          ret (success r))
         (fun _ => ret false) ;;
  now <- clock (Date_toISOString env) ;;
  ret (mkHealth (if d || l || p then js "healthy" else js "unhealthy")
                d l p now).

(** The instance that [new BNCASmartScraper(options)] creates: no
    browser, all counters at zero.  Its [this.options] is the variable
    [options], and [w] is the world as the constructor leaves it.  The
    constructor is run before the [try] blocks of the functions below: an
    exception that it raises passes through them and is no part of
    their definitions. *)
Definition new_scraper (w : W) : state W Browser :=
  mkState w Stats.initial None [].

(** [smartScrape(url, options)], once the instance is constructed:
    [try { result = await scraper.scrape(url, options);
           await scraper.cleanup(); return result; }
     catch (error) { await scraper.cleanup(); throw error; }] *)
Definition smartScrape (url : jsstring) (opts : CallOptions) (w : W)
  : outcome ScrapeResult * state W Browser :=
  try_catch
    (r <- scrape env options url opts ;;
     cleanup ;;;
     ret r)
    (fun msg => cleanup ;;; throw msg)
    (new_scraper w).

End Lifecycle.

End Lifecycle.

(* ================================================================== *)
(** * Questions: [askAI] and its helpers *)
(* ================================================================== *)

Module Assistant.
Import Cascade.

(** ** JavaScript values, as far as [askAI] handles them *)

(** A value is a JSON value or [undefined], which is [None]. *)
Definition value : Type := option json.

(** ToBoolean *)
Definition truthy (v : value) : bool :=
  match v with
  | None | Some JNull => false
  | Some (JBool b) => b
  | Some (JNum repr) =>
      negb (str_eqb repr (js "0")) && negb (str_eqb repr (js "NaN"))
  | Some (JStr []) => false
  | Some (JStr (_ :: _)) | Some (JArr _) | Some (JObj _) => true
  end.

(** [a || b] *)
Definition or_value (a b : value) : value := if truthy a then a else b.

(** ToString, as a template literal applies it: an array is joined with
    commas, its [null] elements left empty; an object prints as
    [[object Object]]. *)
Fixpoint to_string (v : json) : jsstring :=
  match v with
  | JNull => js "null"
  | JBool true => js "true"
  | JBool false => js "false"
  | JNum repr => repr
  | JStr s => s
  | JArr items =>
      join (js ",")
           (map (fun x => match x with JNull => [] | _ => to_string x end)
                items)
  | JObj _ => js "[object Object]"
  end.

Definition show (v : value) : jsstring :=
  match v with
  | Some x => to_string x
  | None => js "undefined"
  end.

(** [/[\w.-]+@[\w.-]+\.\w+/], the pattern of [processLocally] for an
    e-mail address *)
Definition word_chars : list jschar :=
  js "ABCDEFGHIJKLMNOPQRSTUVWXYZabcdefghijklmnopqrstuvwxyz0123456789_".

Definition email_re : regex :=
  seq [ plus (one_of (word_chars ++ js ".-")); lit "@";
        plus (one_of (word_chars ++ js ".-")); lit ".";
        plus (one_of word_chars) ].

(** What [askAI] reads of its [options] argument, and of [this.options],
    for the assistants; an option that is not given is [None]. *)
Record AiOptions : Type := mkAiOptions {
  openRouterApiKey : option jsstring;
  openAIApiKey : option jsstring;
  openAIBaseUrl : option jsstring;
  model : option jsstring;
  temperature : option jsstring;     (* a number, by its rendering *)
  maxTokens : option jsstring;       (* a number, by its rendering *)
  referer : option jsstring;
  apiKey : option jsstring;
  apiUrl : option jsstring
}.

(** A [fetch] with [method: 'POST'], and what is read of its response;
    [post_json] is what [response.json()] gives. *)
Record PostRequest : Type := mkPostRequest {
  post_url : jsstring;
  post_headers : list (jsstring * jsstring);
  post_body : jsstring
}.

Record PostResponse : Type := mkPostResponse {
  post_ok : bool;
  post_status : N;
  post_json : outcome json
}.

(** The object returned by [askAI]; [answer] is a value of any kind, as
    the assistants are free to send one. *)
Record Answer : Type := mkAnswer {
  a_success : bool;
  a_answer : value;
  a_error : option jsstring;
  a_method : option method;
  a_scrapeTime : value;
  a_processing : option jsstring
}.

Section Assistant.
Variables W Browser : Type.
Variable env : Env W Browser.
Variable options : Options.
(** [process.env.OPENROUTER_API_KEY] and [process.env.OPENAI_API_KEY] *)
Variable env_OPENROUTER_API_KEY : option jsstring.
Variable env_OPENAI_API_KEY : option jsstring.
(** [fetch(url, { method: 'POST', headers, body })] *)
Variable post : PostRequest -> W -> outcome PostResponse * W.
(** The message of the [TypeError] that the engine raises for an
    expression, and that of the [SyntaxError] of [JSON.parse] on a
    text. *)
Variable type_error : jsstring -> jsstring.
Variable syntax_error : jsstring -> jsstring.
(** [browser.close()] *)
Variable close : Browser -> W -> outcome unit * W.

Notation "x <- m ;; k" := (bind m (fun x => k))
  (at level 61, m at next level, right associativity).
Notation "m ;;; k" := (bind m (fun _ => k))
  (at level 61, right associativity).

(** Pure code that may throw. *)
Definition and_then {A B} (m : outcome A) (k : A -> outcome B)
  : outcome B :=
  match m with
  | Returned a => k a
  | Thrown msg => Thrown msg
  end.

Notation "x <~ m ;; k" := (and_then m (fun x => k))
  (at level 61, m at next level, right associativity).

(** [v.key], for a key that no prototype defines: a [TypeError] on
    [null] and [undefined], the own property of an object, [undefined]
    on anything else. *)
Definition get (key : string) (v : value) : outcome value :=
  match v with
  | None | Some JNull => Thrown (type_error (js key))
  | Some (JObj fields) => Returned (obj_get (js key) fields)
  | Some _ => Returned None
  end.

(** [v?.key] *)
Definition get_opt (key : string) (v : value) : value :=
  match v with
  | Some (JObj fields) => obj_get (js key) fields
  | _ => None
  end.

(** [v?.length] *)
Definition length_opt (v : value) : value :=
  match v with
  | Some (JArr items) => Some (JNum (JS.of_N (N.of_nat (length items))))
  | Some (JStr s) => Some (JNum (JS.of_N (N.of_nat (length s))))
  | Some (JObj fields) => obj_get (js "length") fields
  | _ => None
  end.

(** [v[0]] *)
Definition first_element (v : value) : outcome value :=
  match v with
  | None | Some JNull => Thrown (type_error (js "0"))
  | Some (JArr items) => Returned (nth_error items 0)
  | Some (JStr s) =>
      Returned (match s with [] => None | c :: _ => Some (JStr [c]) end)
  | Some (JObj fields) => Returned (obj_get (js "0") fields)
  | Some _ => Returned None
  end.

(** A method of strings called on a value: a [TypeError] unless the
    value is a string. *)
Definition as_string (method : string) (v : value) : outcome jsstring :=
  match v with
  | Some (JStr s) => Returned s
  | _ => Thrown (type_error (js method))
  end.

(** [typeof content === 'string' ? JSON.parse(content) : content] *)
Definition parse_content (content : value) : outcome value :=
  match content with
  | Some (JStr s) =>
      match JSON_parse env s with
      | Some v => Returned (Some v)
      | None => Thrown (syntax_error s)
      end
  | other => Returned other
  end.

(** [a || b], where [b] is only evaluated when [a] is falsy *)
Definition or_lazy (a : value) (b : outcome value) : outcome value :=
  if truthy a then Returned a else b.

(** ** [processLocally] *)

(** The question is lowercased by [toLowerCase] restricted to [A-Z].  The
    full Unicode mapping produces an ASCII letter from a code unit above
    127 in two cases only, [i] followed by a combining dot and [k]; none
    of the five words looked for ends in [i] or holds a [k], so the
    restriction decides the same. *)
Definition processLocally (question : jsstring) (content : value)
  : outcome jsstring :=
  parsedContent <~ parse_content content ;;
  t <~ get "title" parsedContent ;;
  let title := or_value t (Some (JStr (js "Unknown"))) in
  c <~ get "content" parsedContent ;;
  cb <~ or_lazy c (get "bodyText" parsedContent) ;;
  let text := or_value cb (Some (JStr [])) in
  let lowerQuestion := toLowerCase question in
  if includes lowerQuestion (js "title") then
    Returned (js "The page title is " ++ [dquote] ++ show title ++ [dquote]
              ++ js ".")
  else if includes lowerQuestion (js "about")
          || includes lowerQuestion (js "what") then
    s <~ as_string "substring" text ;;
    Returned (js "This page titled " ++ [dquote] ++ show title ++ [dquote]
              ++ js " contains: " ++ substring0 200 s ++ js "...")
  else if includes lowerQuestion (js "contact")
          || includes lowerQuestion (js "email") then
    s <~ as_string "match" text ;;
    match exec false email_re s with
    | Some m => Returned (js "Found contact: " ++ m_text m)
    | None => Returned (js "No contact information found.")
    end
  else
    s <~ as_string "substring" text ;;
    Returned (js "Based on " ++ [dquote] ++ show title ++ [dquote]
              ++ js ": " ++ substring0 150 s ++ js "...").

(** ** The request to an assistant *)

(** [headings.map(h => `- ${h.text || h}`)] *)
Fixpoint heading_lines (items : list json) : outcome (list jsstring) :=
  match items with
  | [] => Returned []
  | h :: rest =>
      t <~ get "text" (Some h) ;;
      lines <~ heading_lines rest ;;
      Returned ((js "- " ++ show (or_value t (Some h))) :: lines)
  end.

(** The last line of the template:
    [parsedContent.headings?.length ? `\nHeadings:\n${...}` : ''] *)
Definition headings_part (parsedContent : value) : outcome jsstring :=
  let headings := get_opt "headings" parsedContent in
  if truthy (length_opt headings) then
    match headings with
    | Some (JArr items) =>
        lines <~ heading_lines items ;;
        Returned (newline ++ js "Headings:" ++ newline ++ join newline lines)
    | _ => Thrown (type_error (js "map"))
    end
  else Returned [].

(** [contentText] of [processWithOpenRouter] and [processWithOpenAI] *)
Definition contentText (content : value) : outcome jsstring :=
  parsedContent <~ parse_content content ;;
  t <~ get "title" parsedContent ;;
  c <~ get "content" parsedContent ;;
  cb <~ or_lazy c (get "bodyText" parsedContent) ;;
  d <~ get "metaDescription" parsedContent ;;
  h <~ headings_part parsedContent ;;
  Returned
    (trim
       (newline
        ++ js "Title: " ++ show (or_value t (Some (JStr (js "Unknown"))))
        ++ newline
        ++ js "Content: "
        ++ show (or_value cb (Some (JStr (js "No content available"))))
        ++ newline
        ++ js "Meta Description: "
        ++ show (or_value d (Some (JStr (js "None"))))
        ++ newline ++ h ++ newline)).

Definition system_prompt : jsstring :=
  js "You are a helpful assistant that answers questions based on website content. Provide accurate, concise answers based only on the provided content.".

(** [o || d] on a finite number that may be absent *)
Definition number_or (o : option jsstring) (d : jsstring) : jsstring :=
  match o with
  | Some repr => if truthy (Some (JNum repr)) then repr else d
  | None => d
  end.

(** The body of the request, before [JSON.stringify]. *)
Definition chat_request (default_model question text : jsstring)
           (ai : AiOptions) : json :=
  JObj
    [ (js "model", JStr (or_else (model ai) default_model));
      (js "messages",
        JArr
          [ JObj [ (js "role", JStr (js "system"));
                   (js "content", JStr system_prompt) ];
            JObj [ (js "role", JStr (js "user"));
                   (js "content",
                     JStr (js "Based on the following website content, please answer this question: "
                           ++ question ++ newline ++ newline
                           ++ js "Website content:" ++ newline ++ text)) ] ]);
      (js "temperature", JNum (number_or (temperature ai) (js "0.3")));
      (js "max_tokens", JNum (number_or (maxTokens ai) (js "500"))) ].

(** A call that is no step of a stage. *)
Definition external {A} (f : W -> outcome A * W) : M W Browser A :=
  fun s =>
    let (a, w) := f (world s) in
    (a, mkState w (stats s) (browser s) (trace s)).

Definition lift {A} (m : outcome A) : M W Browser A :=
  match m with
  | Returned a => ret a
  | Thrown msg => throw msg
  end.

(** [data.choices[0]?.message?.content || 'No response from AI'] *)
Definition first_choice (data : json) : outcome value :=
  choices <~ get "choices" (Some data) ;;
  first <~ first_element choices ;;
  Returned (or_value (get_opt "content" (get_opt "message" first))
                     (Some (JStr (js "No response from AI")))).

(** What follows the request in both: the status check, the body, the
    first choice. *)
Definition chat (name : string) (request : PostRequest)
  : M W Browser value :=
  response <- external (post request) ;;
  if negb (post_ok response) then
    throw (js name ++ js " API error: " ++ JS.of_N (post_status response))
  else
    data <- lift (post_json response) ;;
    lift (first_choice data).

Definition processWithOpenRouter (question : jsstring) (content : value)
           (key : jsstring) (ai : AiOptions) : M W Browser value :=
  text <- lift (contentText content) ;;
  chat "OpenRouter"
    (mkPostRequest
       (js "https://openrouter.ai/api/v1/chat/completions")
       [ (js "Content-Type", js "application/json");
         (js "Authorization", js "Bearer " ++ key);
         (js "HTTP-Referer",
          or_else (referer ai)
                  (js "https://github.com/monostate/node-scraper"));
         (js "X-Title", js "BNCA Node Scraper") ]
       (stringify
          (chat_request (js "meta-llama/llama-4-scout:free")
                        question text ai))).

Definition processWithOpenAI (question : jsstring) (content : value)
           (key : jsstring) (ai : AiOptions) : M W Browser value :=
  text <- lift (contentText content) ;;
  chat "OpenAI"
    (mkPostRequest
       (or_else (openAIBaseUrl ai) (js "https://api.openai.com")
        ++ js "/v1/chat/completions")
       [ (js "Content-Type", js "application/json");
         (js "Authorization", js "Bearer " ++ key) ]
       (stringify (chat_request (js "gpt-3.5-turbo") question text ai))).

(** ** [askAI] *)

(** [a || b || c] on strings that may be absent *)
Definition first_key (a b c : option jsstring) : option jsstring :=
  match a, b, c with
  | Some (_ :: _), _, _ => a
  | _, Some (_ :: _), _ => b
  | _, _, Some (_ :: _) => c
  | _, _, _ => None
  end.

Definition counterJson (c : Stats.MethodStats) : json :=
  JObj [ (js "attempts", JNum (JS.of_N (Stats.attempts c)));
         (js "successes", JNum (JS.of_N (Stats.successes c))) ].

(** The object that [getStats] returns, with its properties. *)
Definition snapshotJson (snap : Stats.snapshot) : json :=
  JObj
    [ (js "directFetch", counterJson (Stats.directFetch (Stats.counters snap)));
      (js "lightpanda", counterJson (Stats.lightpanda (Stats.counters snap)));
      (js "puppeteer", counterJson (Stats.puppeteer (Stats.counters snap)));
      (js "pdf", counterJson (Stats.pdf (Stats.counters snap)));
      (js "successRates",
        JObj
          [ (js "directFetch",
              JStr (Stats.rate_directFetch (Stats.successRates snap)));
            (js "lightpanda",
              JStr (Stats.rate_lightpanda (Stats.successRates snap)));
            (js "puppeteer",
              JStr (Stats.rate_puppeteer (Stats.successRates snap)));
            (js "pdf", JStr (Stats.rate_pdf (Stats.successRates snap))) ]) ].

(** [scrapeResult.stats.totalTime] *)
Definition scrapeTime (r : ScrapeResult) : outcome value :=
  get "totalTime" (option_map snapshotJson (r_stats r)).

(** The object that reports an answer. *)
Definition answered (r : ScrapeResult) (answer : value)
           (processing : string) : M W Browser Answer :=
  t <- lift (scrapeTime r) ;;
  ret (mkAnswer true answer None (Some (r_method r)) t
                (Some (js processing))).

(** [if (key) { try { answer = await assistant; return {...} }
                catch (error) { this.log(...) } }]:
    [None] when the code goes on to the next assistant. *)
Definition attempt (r : ScrapeResult) (key : option jsstring)
           (assistant : jsstring -> M W Browser value)
           (processing : string) : M W Browser (option Answer) :=
  match key with
  | Some ((_ :: _) as k) =>
      try_catch
        (answer <- assistant k ;;
         a <- answered r answer processing ;;
         ret (Some a))
        (fun _ => ret None)
  | _ => ret None
  end.

(** The backend: [if (this.options.apiKey) { try { response = await
    fetch(...); if (response.ok) { data = await response.json();
    return { answer: data.answer, ... } } } catch (error) { ... } }] *)
Definition backend (instance : AiOptions) (r : ScrapeResult)
           (url question : jsstring) : M W Browser (option Answer) :=
  match apiKey instance with
  | Some ((_ :: _) as k) =>
      try_catch
        (response <-
           external
             (post
                (mkPostRequest
                   (or_else (apiUrl instance) (js "https://bnca-api.fly.dev")
                    ++ js "/aireply")
                   [ (js "x-api-key", k);
                     (js "Content-Type", js "application/json") ]
                   (stringify
                      (JObj [ (js "url", JStr url);
                              (js "question", JStr question) ])))) ;;
         if post_ok response then
           data <- lift (post_json response) ;;
           answer <- lift (get "answer" (Some data)) ;;
           a <- answered r answer "backend" ;;
           ret (Some a)
         else ret None)
        (fun _ => ret None)
  | _ => ret None
  end.

Definition or_next (first : M W Browser (option Answer))
           (next : M W Browser Answer) : M W Browser Answer :=
  found <- first ;;
  match found with
  | Some a => ret a
  | None => next
  end.

(** [instance] is the assistants' part of [this.options]; [opts] and
    [ai] are the two parts of the [options] argument. *)
Definition askAI (instance : AiOptions) (url question : jsstring)
           (opts : CallOptions) (ai : AiOptions) : M W Browser Answer :=
  try_catch
    (scrapeResult <- scrape env options url opts ;;
     if negb (success (result scrapeResult)) then
       ret (mkAnswer false None
              (Some (js "Failed to scrape URL: "
                     ++ show (option_map JStr (error (result scrapeResult)))))
              (Some (r_method scrapeResult)) None None)
     else
       let content := option_map JStr (content (result scrapeResult)) in
       let openRouterKey :=
         first_key (openRouterApiKey ai) (openRouterApiKey instance)
                   env_OPENROUTER_API_KEY in
       let openAIKey :=
         first_key (openAIApiKey ai) (openAIApiKey instance)
                   env_OPENAI_API_KEY in
       or_next
         (attempt scrapeResult openRouterKey
            (fun k => processWithOpenRouter question content k ai)
            "openrouter")
         (or_next
            (attempt scrapeResult openAIKey
               (fun k => processWithOpenAI question content k ai)
               "openai")
            (or_next
               (backend instance scrapeResult url question)
               (answer <- lift (processLocally question content) ;;
                answered scrapeResult (Some (JStr answer)) "local"))))
    (fun msg =>
       ret (mkAnswer false None
              (Some (or_else (Some msg) (js "AI processing failed")))
              None None None)).

(** [askWebsiteAI(url, question, options)], once the instance is
    constructed from the same [options]:
    [try { return await scraper.askAI(url, question, options); }
     catch (error) { throw error; }
     finally { await scraper.cleanup(); }] *)
Definition askWebsiteAI (url question : jsstring) (opts : CallOptions)
           (ai : AiOptions) (w : W) : outcome Answer * state W Browser :=
  match askAI ai url question opts ai (Lifecycle.new_scraper Browser w) with
  | (Returned a, s) =>
      (Lifecycle.cleanup close ;;; ret a) s
  | (Thrown msg, s) =>
      (Lifecycle.cleanup close ;;; throw msg) s
  end.

End Assistant.

End Assistant.

(* ================================================================== *)
(** * Start-up: the constructor, [findLightpandaBinary] and [isWSL] *)
(* ================================================================== *)

Module Startup.
Import Cascade.

(** What is read of the [Stats] object that [statSync] returns. *)
Record FileStats : Type := mkFileStats {
  isFile : bool;
  mode : N
}.

(** [uname.toLowerCase().includes('microsoft') ||
     uname.toLowerCase().includes('wsl')].  The full Unicode mapping of
    [toLowerCase] produces an ASCII letter from a code unit above 127 in
    two cases only, [i] followed by a combining dot and [k]; neither word
    ends in [i] or holds a [k], so the restriction of [toLowerCase] to
    [A-Z] decides the same. *)
Definition names_wsl (uname : jsstring) : bool :=
  includes (toLowerCase uname) (js "microsoft")
  || includes (toLowerCase uname) (js "wsl").

(** [Boolean(mode & parseInt('111', 8))]: one of the three execute
    bits, [0o111 = 73], is set. *)
Definition isExecutable (mode : N) : bool :=
  negb (N.land mode 73 =? 0)%N.

(** [a || b] where [b] is a value that is present *)
Definition or_json (a : option json) (b : json) : json :=
  match a with
  | Some x => if Assistant.truthy a then x else b
  | None => b
  end.

(** CreateDataProperty on an ordinary object, as an object literal and a
    spread do it: an existing property keeps its place and takes the
    value, a new array index is placed among the array indices, any other
    new key goes last. *)
Definition define (k : jsstring) (v : json)
           (fields : list (jsstring * json)) : list (jsstring * json) :=
  if has_key k fields then update_key k v fields
  else match array_index k with
       | Some n => insert_index n k v fields
       | None => fields ++ [(k, v)]
       end.

(** [{ ...target, ...source }], once [target] is built *)
Definition spread (target source : list (jsstring * json))
  : list (jsstring * json) :=
  fold_left (fun acc kv => define (fst kv) (snd kv) acc) source target.

Section Startup.
Variable W : Type.
(** [process.platform] *)
Variable platform : jsstring.
(** [path.dirname(new URL(import.meta.url).pathname)] *)
Variable packageDir : jsstring.
(** [path.join(...)] *)
Variable path_join : list jsstring -> jsstring.
(** [process.cwd()], which throws when the directory is gone *)
Variable cwd : W -> outcome jsstring * W.
(** [path.resolve(p)], which reads the working directory for a relative
    path *)
Variable path_resolve : jsstring -> W -> outcome jsstring * W.
(** [existsSync(p)] *)
Variable existsSync : jsstring -> W -> bool * W.
(** [statSync(p)] *)
Variable statSync : jsstring -> W -> outcome FileStats * W.
(** [execSync('uname -r', { encoding: 'utf8', stdio: [...] })] *)
Variable uname : W -> outcome jsstring * W.

(** [isWSL()] *)
Definition isWSL (w : W) : bool * W :=
  match uname w with
  | (Returned u, w1) => (names_wsl u, w1)
  | (Thrown _, w1) => (false, w1)
  end.

(** The body of the loop of [findLightpandaBinary] for one candidate:
    the path that is returned, or [None] when the loop goes on, by
    [continue], by the [catch] or by reaching the end of the body. *)
Definition probe (binaryPath : jsstring) (w : W) : option jsstring * W :=
  match path_resolve binaryPath w with
  | (Thrown _, w1) => (None, w1)
  | (Returned fullPath, w1) =>
      let (present, w2) := existsSync fullPath w1 in
      if present then
        match statSync fullPath w2 with
        | (Thrown _, w3) => (None, w3)
        | (Returned stats, w3) =>
            if isFile stats then
              if negb (str_eqb platform (js "win32")) then
                (if isExecutable (mode stats) then Some fullPath else None,
                 w3)
              else
                let (wsl, w4) := isWSL w3 in
                if wsl then
                  (if isExecutable (mode stats) then Some fullPath
                   else None, w4)
                else (None, w4)
            else (None, w3)
        end
      else (None, w2)
  end.

(** [for (const binaryPath of possiblePaths) { ... } return null;] *)
Fixpoint first_found (possiblePaths : list jsstring) (w : W)
  : option jsstring * W :=
  match possiblePaths with
  | [] => (None, w)
  | binaryPath :: rest =>
      match probe binaryPath w with
      | (Some fullPath, w1) => (Some fullPath, w1)
      | (None, w1) => first_found rest w1
      end
  end.

(** The candidates, given the two readings of the working directory. *)
Definition possiblePaths (cwd1 cwd2 : jsstring) : list jsstring :=
  [ path_join [packageDir; js "bin"; js "lightpanda"];
    js "./lightpanda";
    js "../lightpanda";
    js "./lightpanda/lightpanda";
    js "/usr/local/bin/lightpanda";
    path_join [cwd1; js "lightpanda"];
    path_join [cwd2; js "bin"; js "lightpanda"] ].

(** [findLightpandaBinary()]; [None] is [null]. *)
Definition findLightpandaBinary (w : W)
  : outcome (option jsstring) * W :=
  match cwd w with
  | (Thrown msg, w1) => (Thrown msg, w1)
  | (Returned cwd1, w1) =>
      match cwd w1 with
      | (Thrown msg, w2) => (Thrown msg, w2)
      | (Returned cwd2, w2) =>
          let (found, w3) := first_found (possiblePaths cwd1 cwd2) w2 in
          (Returned found, w3)
      end
  end.

(** The value of [this.options] that the constructor builds from an
    [options] object whose properties hold JSON values:
    [{ timeout: options.timeout || 10000, userAgent: ..., lightpandaPath:
       options.lightpandaPath || this.findLightpandaBinary(),
       retries: options.retries || 2, verbose: options.verbose || false,
       ...options }]. *)
Definition default_userAgent : jsstring :=
  js "Mozilla/5.0 (compatible; BNCA/1.0; +https://github.com/your-org/bnca)".

(** [options.k] *)
Definition property (options : list (jsstring * json)) (k : string)
  : option json :=
  obj_get (js k) options.

Definition constructor (options : list (jsstring * json)) (w : W)
  : outcome (list (jsstring * json)) * W :=
  let timeout := or_json (property options "timeout") (JNum (js "10000")) in
  let userAgent := or_json (property options "userAgent") (JStr default_userAgent) in
  let search :=
    match findLightpandaBinary w with
    | (Returned (Some p), w1) => (Returned (JStr p), w1)
    | (Returned None, w1) => (Returned JNull, w1)
    | (Thrown msg, w1) => (Thrown msg, w1)
    end in
  let found :=
    match property options "lightpandaPath" with
    | Some x => if Assistant.truthy (Some x) then (Returned x, w) else search
    | None => search
    end in
  match found with
  | (Thrown msg, w1) => (Thrown msg, w1)
  | (Returned lightpandaPath, w1) =>
      let retries := or_json (property options "retries") (JNum (js "2")) in
      let verbose := or_json (property options "verbose") (JBool false) in
      (Returned
         (spread [ (js "timeout", timeout);
                   (js "userAgent", userAgent);
                   (js "lightpandaPath", lightpandaPath);
                   (js "retries", retries);
                   (js "verbose", verbose) ]
                 options),
       w1)
  end.

End Startup.

End Startup.

(* ================================================================== *)
(** * The installer: [detectPlatform] *)
(* ================================================================== *)

Module Installer.
Import Cascade.

(** [const DOWNLOAD_URLS = {...}], with [LIGHTPANDA_VERSION = 'nightly'] *)
Definition DOWNLOAD_URLS : list (jsstring * json) :=
  [ (js "darwin",
      JStr (js "https://github.com/lightpanda-io/browser/releases/download/nightly/lightpanda-aarch64-macos"));
    (js "linux",
      JStr (js "https://github.com/lightpanda-io/browser/releases/download/nightly/lightpanda-x86_64-linux"));
    (js "wsl",
      JStr (js "https://github.com/lightpanda-io/browser/releases/download/nightly/lightpanda-x86_64-linux")) ].

Section Installer.
Variable W : Type.
(** [process.platform] *)
Variable platform : jsstring.
(** [execSync('uname -r', { encoding: 'utf8', stdio: [...] })] *)
Variable uname : W -> outcome jsstring * W.

(** [detectPlatform()]; [None] is [null]. *)
Definition detectPlatform (w : W) : option jsstring * W :=
  if str_eqb platform (js "darwin") then (Some (js "darwin"), w)
  else if str_eqb platform (js "linux") then (Some (js "linux"), w)
  else if str_eqb platform (js "win32") then
    match uname w with
    | (Returned u, w1) =>
        if Startup.names_wsl u then (Some (js "wsl"), w1) else (None, w1)
    | (Thrown _, w1) => (None, w1)
    end
  else (None, w).

End Installer.

End Installer.

(* ================================================================== *)
(** * Screenshots: [screenshot], [quickshot] and the Chrome process *)
(* ================================================================== *)

Module Screenshot.
Import Cascade.

(** A run of the Chrome subprocess, up to the event that settles the
    promise: [spawn] itself throws; or ['error'] is the first event; or
    ['exit'] is, by itself or after the timers have killed the process,
    and its handler goes on to read the file.  The process is taken to
    end: the second timer sends [SIGKILL]. *)
Inductive ChromeRun : Type :=
| ChromeThrows (message : jsstring)
| ChromeError
| ChromeExit.

(** What awaiting a promise gives: its value, the exception of a
    rejection, or nothing when the promise is never settled. *)
Inductive awaited (A : Type) : Type :=
| Fulfilled (a : A)
| Rejected (message : jsstring)
| Unsettled.
Arguments Fulfilled {A} a.
Arguments Rejected {A} message.
Arguments Unsettled {A}.

(** The object that [screenshot] and [quickshot] return.  [screenshot] is
    [None] when the property is absent and [Some None] when it is
    [null]. *)
Record Shot : Type := mkShot {
  shot_success : bool;
  shot_screenshot : option (option jsstring);
  shot_error : option jsstring;
  shot_method : jsstring;
  shot_totalTime : Z
}.

(** The arguments of Chrome in [takeScreenshotWithChrome]. *)
Definition chrome_args (userAgent tempFile url : jsstring)
  : list jsstring :=
  [ js "--headless=new";
    js "--disable-gpu";
    js "--no-sandbox";
    js "--disable-setuid-sandbox";
    js "--disable-dev-shm-usage";
    js "--disable-blink-features=AutomationControlled";
    js "--user-agent=" ++ userAgent;
    js "--screenshot=" ++ tempFile;
    js "--window-size=1280,800";
    js "--hide-scrollbars";
    js "--virtual-time-budget=10000";
    url ].

(** The arguments of Chrome in [takeScreenshotOptimized]. *)
Definition optimized_args (userAgent tempFile : jsstring)
           (virtualTimeBudget : N) (url : jsstring) : list jsstring :=
  [ js "--headless=new";
    js "--disable-gpu";
    js "--no-sandbox";
    js "--disable-setuid-sandbox";
    js "--disable-dev-shm-usage";
    js "--disable-blink-features=AutomationControlled";
    js "--disable-features=TranslateUI";
    js "--disable-extensions";
    js "--disable-default-apps";
    js "--disable-sync";
    js "--metrics-recording-only";
    js "--mute-audio";
    js "--no-first-run";
    js "--disable-background-timer-throttling";
    js "--disable-backgrounding-occluded-windows";
    js "--disable-renderer-backgrounding";
    js "--user-agent=" ++ userAgent;
    js "--screenshot=" ++ tempFile;
    js "--window-size=1280,800";
    js "--hide-scrollbars";
    js "--run-all-compositor-stages-before-draw";
    js "--virtual-time-budget=" ++ JS.of_N virtualTimeBudget;
    url ].

(** [!!screenshot] *)
Definition taken (screenshot : option jsstring) : bool :=
  match screenshot with
  | Some (_ :: _) => true
  | _ => false
  end.

Section Screenshot.
Variable W : Type.
(** [this.options] *)
Variable options : Options.
(** [process.platform] *)
Variable platform : jsstring.
(** [Date.now()] *)
Variable Date_now : W -> Z * W.
(** [path.join('/tmp', `screenshot_${Date.now()}_${Math.random()
    .toString(36).substring(7)}.png`)] *)
Variable tempName : W -> jsstring * W.
(** [fsPromises.access(path)] *)
Variable access : jsstring -> W -> outcome unit * W.
(** [spawn(chromePath, args, {...})], the timers that kill the process
    after the given number of milliseconds, and the life of the
    process *)
Variable spawn : jsstring -> list jsstring -> N -> W -> ChromeRun * W.
(** [fsPromises.readFile(tempFile)] *)
Variable readFile : jsstring -> W -> outcome (list N) * W.
(** [buffer.toString('base64')] *)
Variable base64 : list N -> jsstring.
(** [fsPromises.unlink(tempFile).catch(() => {})] *)
Variable unlink : jsstring -> W -> W.

(** ** [findChromePath] *)

Definition chromePaths : list jsstring :=
  if str_eqb platform (js "darwin") then
    [ js "/Applications/Google Chrome.app/Contents/MacOS/Google Chrome";
      js "/Applications/Chromium.app/Contents/MacOS/Chromium" ]
  else
    [ js "/usr/bin/chromium-browser";
      js "/usr/bin/chromium";
      js "/usr/bin/google-chrome-stable";
      js "/usr/bin/google-chrome" ].

(** [for (const path of chromePaths) { try { await access(path);
    return path } catch { continue } } return null] *)
Fixpoint first_accessible (paths : list jsstring) (w : W)
  : option jsstring * W :=
  match paths with
  | [] => (None, w)
  | path :: rest =>
      match access path w with
      | (Returned _, w1) => (Some path, w1)
      | (Thrown _, w1) => first_accessible rest w1
      end
  end.

Definition findChromePath (w : W) : option jsstring * W :=
  first_accessible chromePaths w.

(** The [try] block of the ['exit'] handler: the data URL, or [None]
    when reading the file threw. *)
Definition capture (tempFile : jsstring) (w : W) : option jsstring * W :=
  match readFile tempFile w with
  | (Returned screenshotBuffer, w1) =>
      (Some (js "data:image/png;base64," ++ base64 screenshotBuffer),
       unlink tempFile w1)
  | (Thrown _, w1) => (None, w1)
  end.

(** ** [takeScreenshotWithChrome] *)

(** The exception for a missing Chrome is thrown inside the [try] block
    and caught there; the promise is returned without [await], so that
    the rejection by a [spawn] that throws leaves the function. *)
Definition takeScreenshotWithChrome (url : jsstring) (config : Config)
           (w : W) : outcome (option jsstring) * W :=
  let (tempFile, w0) := tempName w in
  match findChromePath w0 with
  | (None, w1) => (Returned None, w1)
  | (Some chromePath, w1) =>
      match spawn chromePath
                  (chrome_args (cfg_userAgent config) tempFile url)
                  (if (cfg_timeout config =? 0)%N then 15000%N
                   else cfg_timeout config)
                  w1 with
      | (ChromeThrows msg, w2) => (Thrown msg, w2)
      | (ChromeError, w2) => (Returned None, w2)
      | (ChromeExit, w2) =>
          let (screenshot, w3) := capture tempFile w2 in
          (Returned screenshot, w3)
      end
  end.

(** ** [takeScreenshotOptimized] *)

(** One call, with [again] for the call that the function makes to
    itself with [retryCount] 1.  In the ['exit'] handler that call is
    awaited inside the [catch] block of an [async] function whose promise
    nobody holds: when it is rejected, [resolve] is never called. *)
Definition optimized_call (retryCount : N)
           (again : W -> awaited (option jsstring) * W)
           (url : jsstring) (config : Config) (w : W)
  : awaited (option jsstring) * W :=
  let (tempFile, w0) := tempName w in
  let virtualTimeBudget := if (retryCount =? 0)%N then 5000%N else 8000%N in
  let processTimeout := if (retryCount =? 0)%N then 8000%N else 12000%N in
  match findChromePath w0 with
  | (None, w1) =>
      if (retryCount =? 0)%N then again w1 else (Fulfilled None, w1)
  | (Some chromePath, w1) =>
      match spawn chromePath
                  (optimized_args (cfg_userAgent config) tempFile
                                  virtualTimeBudget url)
                  processTimeout w1 with
      | (ChromeThrows msg, w2) => (Rejected msg, w2)
      | (ChromeError, w2) => (Fulfilled None, w2)
      | (ChromeExit, w2) =>
          match capture tempFile w2 with
          | (Some screenshot, w3) => (Fulfilled (Some screenshot), w3)
          | (None, w3) =>
              if (retryCount =? 0)%N then
                match again w3 with
                | (Fulfilled retryResult, w4) => (Fulfilled retryResult, w4)
                | (Rejected _, w4) => (Unsettled, w4)
                | (Unsettled, w4) => (Unsettled, w4)
                end
              else (Fulfilled None, w3)
          end
      end
  end.

(** [takeScreenshotOptimized(url, config, retryCount)]; a call with a
    [retryCount] other than 0 never calls itself. *)
Definition takeScreenshotOptimized (url : jsstring) (config : Config)
           (retryCount : N) (w : W) : awaited (option jsstring) * W :=
  optimized_call retryCount
    (optimized_call 1 (fun w1 => (Fulfilled None, w1)) url config)
    url config w.

(** ** [screenshot] and [quickshot] *)

(** [screenshot(url, options)], with [config = { ...this.options,
    ...options }] *)
Definition screenshot (url : jsstring) (opts : CallOptions) (w : W)
  : Shot * W :=
  let (startTime, w0) := Date_now w in
  let config := merge options opts in
  match takeScreenshotWithChrome url config w0 with
  | (Returned shot, w1) =>
      let (endTime, w2) := Date_now w1 in
      (mkShot (taken shot) (Some shot) None (js "chrome-screenshot")
              (endTime - startTime), w2)
  | (Thrown msg, w1) =>
      let (endTime, w2) := Date_now w1 in
      (mkShot false None (Some msg) (js "chrome-screenshot")
              (endTime - startTime), w2)
  end.

(** [{ ...this.options, ...options, timeout: options.timeout || 15000 }] *)
Definition quick_config (opts : CallOptions) : Config :=
  mkConfig
    (match call_timeout opts with
     | Some t => if (t =? 0)%N then 15000%N else t
     | None => 15000%N
     end)
    (cfg_userAgent (merge options opts)).

(** [quickshot(url, options)] *)
Definition quickshot (url : jsstring) (opts : CallOptions) (w : W)
  : awaited Shot * W :=
  let (startTime, w0) := Date_now w in
  match takeScreenshotOptimized url (quick_config opts) 0 w0 with
  | (Fulfilled shot, w1) =>
      let (endTime, w2) := Date_now w1 in
      (Fulfilled (mkShot (taken shot) (Some shot) None (js "quickshot")
                         (endTime - startTime)), w2)
  | (Rejected msg, w1) =>
      let (endTime, w2) := Date_now w1 in
      (Fulfilled (mkShot false None (Some msg) (js "quickshot")
                         (endTime - startTime)), w2)
  | (Unsettled, w1) => (Unsettled, w1)
  end.

(** [smartScreenshot(url, options)] and [quickShot(url, options)], once
    the instance is constructed:
    [try { return await scraper.screenshot(url, options) }
     catch (error) { throw error }], and the same with [quickshot]. *)
Definition smartScreenshot (url : jsstring) (opts : CallOptions) (w : W)
  : Shot * W :=
  screenshot url opts w.

Definition quickShot (url : jsstring) (opts : CallOptions) (w : W)
  : awaited Shot * W :=
  quickshot url opts w.

End Screenshot.

End Screenshot.


(* ================================================================== *)
(** * Properties of the matcher *)
(* ================================================================== *)

(** The fuel handed to the loops of the matcher is enough: more of it
    changes no result.  Along the way, a match leaves a suffix of the
    text, and [exec] splits the text in three. *)
Section MatcherFacts.

Variable icase : bool.

Definition continuation : Type := jsstring -> caps -> option mstate.

(** A matcher step that treats continuations by what they return. *)
Definition extensional
           (step : jsstring -> caps -> continuation -> option mstate) : Prop :=
  forall s c k1 k2,
    (forall s' c', k1 s' c' = k2 s' c') -> step s c k1 = step s c k2.

Lemma star_loop_ext step greedy :
  extensional step ->
  forall fuel s c k1 k2,
    (forall s' c', k1 s' c' = k2 s' c') ->
    star_loop step greedy k1 fuel s c = star_loop step greedy k2 fuel s c.
Proof.
  intros Hstep fuel. induction fuel as [|fuel IH]; intros s c k1 k2 Hk.
  - cbn. apply Hk.
  - cbn [star_loop]. rewrite (Hk s c).
    rewrite (Hstep s c _
               (fun s' c' =>
                  if Nat.ltb (length s') (length s)
                  then star_loop step greedy k2 fuel s' c' else None)).
    + reflexivity.
    + intros s' c'. destruct (Nat.ltb (length s') (length s));
        [apply IH, Hk | reflexivity].
Qed.

Lemma rmatch_ext r : extensional (rmatch icase r).
Proof.
  induction r as [ | cs | r1 IH1 r2 IH2 | r1 IH1 r2 IH2 | g r IH | n r IH ];
    intros s c k1 k2 Hk; cbn [rmatch].
  - apply Hk.
  - destruct s as [|x s]; [reflexivity|].
    destruct (cset_match icase cs x); [apply Hk | reflexivity].
  - apply IH1. intros s' c'. apply IH2, Hk.
  - rewrite (IH1 s c k1 k2 Hk), (IH2 s c k1 k2 Hk). reflexivity.
  - apply star_loop_ext; assumption.
  - apply IH. intros s' c'. apply Hk.
Qed.

(** Any two amounts of fuel above the length of the text give the same
    result. *)
Lemma star_loop_fuel step greedy k :
  extensional step ->
  forall n s c fuel1 fuel2,
    length s <= n -> length s < fuel1 -> length s < fuel2 ->
    star_loop step greedy k fuel1 s c = star_loop step greedy k fuel2 s c.
Proof.
  intros Hstep n. induction n as [|n IH]; intros s c fuel1 fuel2 Hn H1 H2.
  - destruct fuel1 as [|f1]; [lia|]. destruct fuel2 as [|f2]; [lia|].
    cbn [star_loop].
    rewrite (Hstep s c _
               (fun s' c' =>
                  if Nat.ltb (length s') (length s)
                  then star_loop step greedy k f2 s' c' else None)).
    + reflexivity.
    + intros s' c'.
      destruct (Nat.ltb_spec (length s') (length s)); [lia | reflexivity].
  - destruct fuel1 as [|f1]; [lia|]. destruct fuel2 as [|f2]; [lia|].
    cbn [star_loop].
    rewrite (Hstep s c _
               (fun s' c' =>
                  if Nat.ltb (length s') (length s)
                  then star_loop step greedy k f2 s' c' else None)).
    + reflexivity.
    + intros s' c'.
      destruct (Nat.ltb_spec (length s') (length s)); [|reflexivity].
      apply IH; lia.
Qed.

(** [t] is what is left of [s] after some prefix. *)
Definition suffix (t s : jsstring) : Prop := exists pre, s = pre ++ t.

Lemma suffix_refl s : suffix s s.
Proof. exists []. reflexivity. Qed.

Lemma suffix_trans t u s : suffix t u -> suffix u s -> suffix t s.
Proof.
  intros [p1 ->] [p2 ->]. exists (p2 ++ p1). rewrite app_assoc. reflexivity.
Qed.

Lemma suffix_tail x s : suffix s (x :: s).
Proof. exists [x]. reflexivity. Qed.

Lemma suffix_length t s : suffix t s -> length t <= length s.
Proof. intros [p ->]. rewrite length_app. lia. Qed.

(** A step that only ever continues on a suffix of its text. *)
Definition forward
           (step : jsstring -> caps -> continuation -> option mstate) : Prop :=
  forall s c k m,
    step s c k = Some m -> exists s' c', suffix s' s /\ k s' c' = Some m.

Lemma star_loop_forward step greedy :
  forward step ->
  forall fuel s c k m,
    star_loop step greedy k fuel s c = Some m ->
    exists s' c', suffix s' s /\ k s' c' = Some m.
Proof.
  intros Hstep fuel. induction fuel as [|fuel IH]; intros s c k m H.
  - exists s, c. split; [apply suffix_refl | exact H].
  - cbn [star_loop] in H.
    assert (Hiter :
      forall m',
        step s c
          (fun s' c' =>
             if Nat.ltb (length s') (length s)
             then star_loop step greedy k fuel s' c' else None) = Some m' ->
        exists s' c', suffix s' s /\ k s' c' = Some m').
    { intros m' Hm. apply Hstep in Hm as (s1 & c1 & Hs1 & Hm).
      destruct (Nat.ltb (length s1) (length s)); [|discriminate].
      apply IH in Hm as (s2 & c2 & Hs2 & Hm).
      exists s2, c2. split; [eapply suffix_trans; eassumption | exact Hm]. }
    destruct greedy.
    + destruct (step s c _) as [m'|] eqn:E.
      * injection H as <-. apply Hiter. reflexivity.
      * exists s, c. split; [apply suffix_refl | exact H].
    + destruct (k s c) as [m'|] eqn:E.
      * injection H as <-. exists s, c. split; [apply suffix_refl | exact E].
      * apply Hiter, H.
Qed.

Lemma rmatch_forward r : forward (rmatch icase r).
Proof.
  induction r as [ | cs | r1 IH1 r2 IH2 | r1 IH1 r2 IH2 | g r IH | n r IH ];
    intros s c k m H; cbn [rmatch] in H.
  - exists s, c. split; [apply suffix_refl | exact H].
  - destruct s as [|x s]; [discriminate|].
    destruct (cset_match icase cs x); [|discriminate].
    exists s, c. split; [apply suffix_tail | exact H].
  - apply IH1 in H as (s1 & c1 & Hs1 & H).
    apply IH2 in H as (s2 & c2 & Hs2 & H).
    exists s2, c2. split; [eapply suffix_trans; eassumption | exact H].
  - destruct (rmatch icase r1 s c k) as [m'|] eqn:E.
    + injection H as <-. exact (IH1 _ _ _ _ E).
    + exact (IH2 _ _ _ _ H).
  - eapply star_loop_forward; eassumption.
  - apply IH in H as (s1 & c1 & Hs1 & H).
    exists s1, ((n, firstn (length s - length s1) s) :: c1).
    split; assumption.
Qed.

(** The rest of a match at the head of [s] is a suffix of [s]. *)
Lemma match_here_suffix r s rest c :
  match_here icase r s = Some (rest, c) -> suffix rest s.
Proof.
  unfold match_here. intros H.
  apply rmatch_forward in H as (s' & c' & Hs & H).
  injection H as <- _. exact Hs.
Qed.

Lemma suffix_split rest s :
  suffix rest s -> s = firstn (length s - length rest) s ++ rest.
Proof.
  intros [pre ->].
  rewrite length_app, Nat.add_sub, firstn_app, firstn_all, Nat.sub_diag.
  cbn [firstn]. rewrite app_nil_r. reflexivity.
Qed.

Lemma search_from_eq r idx s :
  search_from icase r idx s
  = match match_here icase r s with
    | Some (rest, c) =>
        Some (MatchResult idx (firstn (length s - length rest) s) rest c)
    | None =>
        match s with
        | [] => None
        | _ :: s' => search_from icase r (S idx) s'
        end
    end.
Proof. destruct s; reflexivity. Qed.

(** What [exec] returns: the text splits into the part before the match,
    the match and the rest. *)
Lemma search_from_split r idx s res :
  search_from icase r idx s = Some res ->
  idx <= m_index res
  /\ s = firstn (m_index res - idx) s ++ m_text res ++ m_rest res.
Proof.
  revert idx. induction s as [|x s IH]; intros idx H;
    rewrite search_from_eq in H;
    destruct (match_here icase r _) as [[rest c]|] eqn:E.
  - injection H as <-. cbn [m_index m_text m_rest].
    split; [lia|]. rewrite Nat.sub_diag.
    apply (suffix_split (match_here_suffix _ _ E)).
  - discriminate.
  - clear IH. injection H as <-. cbn [m_index m_text m_rest].
    split; [lia|]. rewrite Nat.sub_diag.
    apply (suffix_split (match_here_suffix _ _ E)).
  - apply IH in H as [Hidx Hs]. split; [lia|].
    replace (m_index res - idx) with (S (m_index res - S idx)) by lia.
    cbn [firstn app]. rewrite <- Hs. reflexivity.
Qed.

Lemma exec_split r s res :
  exec icase r s = Some res ->
  s = firstn (m_index res) s ++ m_text res ++ m_rest res.
Proof.
  unfold exec. intros H. apply search_from_split in H as [_ H].
  rewrite Nat.sub_0_r in H. exact H.
Qed.

(** The rest of a match is no longer than the text, and shorter when the
    match is not empty. *)
Lemma exec_rest_length r s res :
  exec icase r s = Some res ->
  length (m_rest res) <= length s
  /\ (m_text res <> [] -> length (m_rest res) < length s).
Proof.
  intros H. apply exec_split in H.
  apply (f_equal (@length jschar)) in H. rewrite !length_app in H.
  split; [lia|]. intros Hne.
  destruct (m_text res); [congruence|]. cbn [length] in H. lia.
Qed.

(** The repetition of a pattern is given enough fuel. *)
Lemma rmatch_star_fuel greedy r s c k fuel :
  length s < fuel ->
  rmatch icase (RStar greedy r) s c k
  = star_loop (rmatch icase r) greedy k fuel s c.
Proof.
  intros H. cbn [rmatch].
  apply (star_loop_fuel greedy k (rmatch_ext r) (n := length s)); lia.
Qed.

(** So is a global replacement... *)
Lemma replace_aux_fuel r rep :
  forall n s fuel1 fuel2,
    length s <= n -> length s < fuel1 -> length s < fuel2 ->
    replace_aux icase fuel1 r rep s = replace_aux icase fuel2 r rep s.
Proof.
  induction n as [|n IH]; intros s fuel1 fuel2 Hn H1 H2;
    (destruct fuel1 as [|f1]; [lia|]); (destruct fuel2 as [|f2]; [lia|]);
    cbn [replace_aux];
    destruct (exec icase r s) as [res|] eqn:E; try reflexivity;
    apply exec_rest_length in E as [Hle Hlt];
    destruct (m_text res) as [|t ts], (m_rest res) as [|x rest];
    try reflexivity; cbn [length] in *.
  all: try specialize (Hlt ltac:(discriminate)); try lia.
  all: first [ do 3 f_equal; apply IH; cbn [length] in *; lia
             | do 2 f_equal; apply IH; cbn [length] in *; lia ].
Qed.

(** ... and so is the enumeration of all matches. *)
Lemma matchAll_aux_fuel r :
  forall n s fuel1 fuel2,
    length s <= n -> length s < fuel1 -> length s < fuel2 ->
    matchAll_aux icase fuel1 r s = matchAll_aux icase fuel2 r s.
Proof.
  induction n as [|n IH]; intros s fuel1 fuel2 Hn H1 H2;
    (destruct fuel1 as [|f1]; [lia|]); (destruct fuel2 as [|f2]; [lia|]);
    cbn [matchAll_aux];
    destruct (exec icase r s) as [res|] eqn:E; try reflexivity;
    apply exec_rest_length in E as [Hle Hlt];
    destruct (m_text res) as [|t ts], (m_rest res) as [|x rest];
    try reflexivity; cbn [length] in *.
  all: try specialize (Hlt ltac:(discriminate)); try lia.
  all: f_equal; apply IH; cbn [length] in *; lia.
Qed.

End MatcherFacts.

(* ================================================================== *)
(** * Properties of the classifier *)
(* ================================================================== *)

Section IncludesFacts.

Lemma startsWith_app (s sub post : jsstring) :
  startsWith s sub = true -> startsWith (s ++ post) sub = true.
Proof.
  revert s; induction sub as [|p sub IH]; intros s H.
  - reflexivity.
  - destruct s as [|x s]; simpl in *; [discriminate|].
    apply andb_true_iff in H as [Hx Hs].
    rewrite Hx, (IH _ Hs). reflexivity.
Qed.

Lemma includes_app_r (s sub post : jsstring) :
  includes s sub = true -> includes (s ++ post) sub = true.
Proof.
  induction s as [|x s IH]; intros H.
  - simpl in H. rewrite orb_false_r in H.
    destruct sub; [|discriminate].
    destruct post; reflexivity.
  - simpl in H. apply orb_true_iff in H as [H|H].
    + change ((x :: s) ++ post) with (x :: (s ++ post)).
      cbn [includes]. apply orb_true_iff. left.
      apply (startsWith_app (x :: s) sub post H).
    + change ((x :: s) ++ post) with (x :: (s ++ post)).
      cbn [includes]. rewrite (IH H). apply orb_true_r.
Qed.

Lemma includes_app_l (pre s sub : jsstring) :
  includes s sub = true -> includes (pre ++ s) sub = true.
Proof.
  intros H. induction pre as [|x pre IH]; [exact H|].
  change ((x :: pre) ++ s) with (x :: (pre ++ s)).
  cbn [includes]. rewrite IH. apply orb_true_r.
Qed.

(** A text that contains [sub] still contains it inside a longer text. *)
Lemma includes_middle (pre s post sub : jsstring) :
  includes s sub = true -> includes (pre ++ s ++ post) sub = true.
Proof.
  intros H. apply includes_app_l, includes_app_r, H.
Qed.

Lemma isSimpleSite_intro (url site : jsstring) :
  In site simpleSites -> includes url site = true ->
  isSimpleSite url = true.
Proof.
  intros Hin Hinc. unfold isSimpleSite.
  apply existsb_exists. exists site. split; assumption.
Qed.

End IncludesFacts.

Section ClassifierProperties.

(** A challenge page that also carries single-page-app markers and no
    visible text: every signal of the classifier fires on it. *)
Definition challenge_page : jsstring :=
  js "<html><body><div id='root'></div><script>window.__NEXT_DATA__ = {}</script><p>Cloudflare security challenge: please enable JavaScript</p></body></html>".

Example challenge_page_signals :
  hasProtection challenge_page = true
  /\ hasSpaIndicators challenge_page = true
  /\ hasMinimalContent challenge_page = true.
Proof. vm_compute. repeat split. Qed.

(** C2. For every URL whose host contains an entry of the simple-site
    allowlist, and for every markup, [detectBrowserRequirement] answers
    false (no rendering needed), whatever the markup holds. *)
Theorem allowlisted_host_needs_no_rendering
        (pre host post site html : jsstring) :
  In site simpleSites ->
  includes host site = true ->
  detectBrowserRequirement html (pre ++ host ++ post) = false.
Proof.
  intros Hsite Hhost. unfold detectBrowserRequirement.
  rewrite (isSimpleSite_intro _ Hsite (includes_middle pre host post _ Hhost)).
  reflexivity.
Qed.

Lemma allowlisted_host_witness :
  In (js "wikipedia.org") simpleSites
  /\ includes (js "en.wikipedia.org") (js "wikipedia.org") = true
  /\ detectBrowserRequirement challenge_page
       (js "https://" ++ js "en.wikipedia.org" ++ js "/wiki/Rocq") = false.
Proof.
  assert (Hin : In (js "wikipedia.org") simpleSites)
    by (right; right; left; reflexivity).
  assert (Hinc : includes (js "en.wikipedia.org") (js "wikipedia.org") = true)
    by reflexivity.
  split; [exact Hin | split; [exact Hinc |]].
  exact (allowlisted_host_needs_no_rendering
           (js "https://") (js "en.wikipedia.org") (js "/wiki/Rocq")
           challenge_page Hin Hinc).
Defined.


(** The two cases named by the specification: an empty root container
    with little text needs rendering; with 200 characters of text or
    more, and nothing else, it does not. *)
Definition short_spa_page : jsstring :=
  js "<html><body><div id=" ++ [dquote] ++ js "root" ++ [dquote] ++
  js "></div><p>Loading</p></body></html>".

Definition filler : jsstring :=
  concat (repeat (js "lorem ipsum dolor sit amet ") 8).

Definition long_spa_page : jsstring :=
  js "<html><body><div id=" ++ [dquote] ++ js "root" ++ [dquote] ++
  js "></div><p>" ++ filler ++ js "</p></body></html>".

Example short_spa_page_needs_rendering :
  detectBrowserRequirement short_spa_page (js "https://shop.test/") = true.
Proof. vm_compute. reflexivity. Qed.

Example long_spa_page_needs_no_rendering :
  hasSpaIndicators long_spa_page = true
  /\ length (textContent long_spa_page) = 215
  /\ detectBrowserRequirement long_spa_page (js "https://shop.test/") = false.
Proof. vm_compute. repeat split. Qed.


(** C10. The allowlist test is substring containment over the whole
    URL string: every URL that contains an allowlist token anywhere
    (inside a longer host name, in the path or in the query string) is
    answered false, whatever the markup and whatever the domain. *)
Theorem allowlist_is_substring_of_url (url site html : jsstring) :
  In site simpleSites ->
  includes url site = true ->
  detectBrowserRequirement html url = false.
Proof.
  intros Hsite Hurl. unfold detectBrowserRequirement.
  rewrite (isSimpleSite_intro _ Hsite Hurl). reflexivity.
Qed.

Lemma allowlist_is_substring_witness :
  In (js "example.com") simpleSites
  /\ includes (js "https://twitter.com/home?ref=example.com")
              (js "example.com") = true
  /\ isKnownSpa (js "https://twitter.com/home?ref=example.com") = true
  /\ detectBrowserRequirement challenge_page
       (js "https://twitter.com/home?ref=example.com") = false.
Proof.
  assert (Hin : In (js "example.com") simpleSites) by (left; reflexivity).
  assert (Hinc : includes (js "https://twitter.com/home?ref=example.com")
                          (js "example.com") = true) by reflexivity.
  split; [exact Hin | split; [exact Hinc | split; [reflexivity|]]].
  exact (allowlist_is_substring_of_url _ challenge_page Hin Hinc).
Defined.

Example longer_host_is_allowlisted :
  detectBrowserRequirement challenge_page (js "https://notexample.com/")
  = false.
Proof. vm_compute. reflexivity. Qed.

End ClassifierProperties.

(* ================================================================== *)
(** * Properties of the extractor *)
(* ================================================================== *)

Section LiteralFacts.

(** A literal character of a case-sensitive pattern matches itself
    only. *)
Lemma rmatch_chr c s caps0 k m :
  rmatch false (chr c) s caps0 k = Some m ->
  exists s', s = c :: s' /\ k s' caps0 = Some m.
Proof.
  cbn [rmatch chr]. destruct s as [|x s]; [discriminate|].
  cbn [cset_match mem_canon existsb canon andb orb].
  rewrite orb_false_r. destruct (N.eqb_spec c x) as [->|_]; [|discriminate].
  intros H. exists s. split; [reflexivity | exact H].
Qed.

(** A literal run matches itself only. *)
Lemma rmatch_lit_chars l s caps0 k m :
  rmatch false (lit_chars l) s caps0 k = Some m ->
  exists s', s = l ++ s' /\ k s' caps0 = Some m.
Proof.
  revert s k. induction l as [|c l IH]; intros s k H.
  - exists s. split; [reflexivity | exact H].
  - destruct l as [|c' l].
    + apply rmatch_chr in H as (s' & -> & H). exists s'. split; [reflexivity | exact H].
    + change (lit_chars (c :: c' :: l))
        with (RSeq (chr c) (lit_chars (c' :: l))) in H.
      cbn [rmatch] in H. fold (rmatch false) in H.
      apply rmatch_chr in H as (s1 & -> & H).
      apply IH in H as (s2 & -> & H).
      exists s2. split; [reflexivity | exact H].
Qed.

Lemma startsWith_app_self l s : startsWith (l ++ s) l = true.
Proof.
  induction l as [|c l IH]; [reflexivity|].
  cbn. rewrite N.eqb_refl, IH. reflexivity.
Qed.

Lemma rmatch_seq i r1 r2 s c k :
  rmatch i (RSeq r1 r2) s c k
  = rmatch i r1 s c (fun s' c' => rmatch i r2 s' c' k).
Proof. reflexivity. Qed.

Lemma rmatch_alt i r1 r2 s c k :
  rmatch i (RAlt r1 r2) s c k
  = match rmatch i r1 s c k with
    | Some m => Some m
    | None => rmatch i r2 s c k
    end.
Proof. reflexivity. Qed.

Lemma seq_cons r r' l : seq (r :: r' :: l) = RSeq r (seq (r' :: l)).
Proof. reflexivity. Qed.

(** The three texts with which a match of [windowData_re] can start. *)
Definition hydration_prefixes : list jsstring :=
  [ js "window.__INITIAL_STATE____"; js "window.__INITIAL_DATA____";
    js "window.__NEXT_DATA____" ].

Lemma windowData_re_prefix t m :
  match_here false windowData_re t = Some m ->
  exists l t', In l hydration_prefixes /\ t = l ++ t'.
Proof.
  unfold match_here, windowData_re, lit.
  rewrite seq_cons, rmatch_seq. intros H.
  apply rmatch_lit_chars in H as (t1 & -> & H).
  rewrite seq_cons, rmatch_seq, !rmatch_alt in H.
  rewrite seq_cons in H.
  assert (Hname :
    exists name t3,
      In name [js "INITIAL_STATE__"; js "INITIAL_DATA__"; js "NEXT_DATA__"]
      /\ t1 = name ++ js "__" ++ t3).
  { repeat match type of H with
           | match ?x with _ => _ end = _ => destruct x eqn:?
           end.
    all: match goal with
         | E : rmatch false (lit_chars ?n) _ _ _ = Some _ |- _ =>
             apply rmatch_lit_chars in E as (t2 & -> & E);
             rewrite rmatch_seq in E;
             apply rmatch_lit_chars in E as (t3 & -> & _);
             exists n, t3; split; [cbn; tauto | reflexivity]
         end. }
  destruct Hname as (name & t3 & Hin & ->).
  exists (js "window.__" ++ name ++ js "__"), t3. split.
  - destruct Hin as [<-|[<-|[<-|[]]]]; cbn; tauto.
  - rewrite <- !app_assoc. reflexivity.
Qed.

End LiteralFacts.

Section ExtractorProperties.

Variable JSON_parse : jsstring -> option json.

(** A page that assigns a JSON object to [window.__NEXT_DATA__], in the
    form frameworks emit it:
    [<script>window.__NEXT_DATA__ = {"page":"/"};</script>]. *)
Definition hydrated_page : jsstring :=
  js "<html><head><script>window.__NEXT_DATA__ = {" ++ [dquote] ++
  js "page" ++ [dquote] ++ js ":" ++ [dquote] ++ js "/" ++ [dquote] ++
  js "};</script></head><body><p>Hello</p></body></html>".

(** The same page with two more underscores after the name. *)
Definition overlong_name_page : jsstring :=
  js "<html><head><script>window.__NEXT_DATA____ = {" ++ [dquote] ++
  js "page" ++ [dquote] ++ js ":" ++ [dquote] ++ js "/" ++ [dquote] ++
  js "};</script></head><body><p>Hello</p></body></html>".

Definition blob : jsstring :=
  js "{" ++ [dquote] ++ js "page" ++ [dquote] ++ js ":" ++ [dquote] ++
  js "/" ++ [dquote] ++ js "}".

(** Without one of those texts in the markup, [windowData] is null. *)
Lemma windowData_null (html : jsstring) :
  (forall l, In l hydration_prefixes -> includes html l = false) ->
  windowData JSON_parse html = JNull.
Proof.
  intros Hnone. unfold windowData, exec.
  destruct (search_from false windowData_re 0 html) as [res|] eqn:E;
    [|reflexivity].
  exfalso.
  assert (Hex : exists l, In l hydration_prefixes /\ includes html l = true).
  { clear Hnone. revert E. generalize 0%nat.
    induction html as [|x html IH]; intros idx H; cbn [search_from] in H.
    - destruct (match_here false windowData_re []) as [[rest c]|] eqn:Em;
        [|discriminate].
      destruct (windowData_re_prefix _ Em) as (l & t' & Hin & Ht).
      exists l. split; [exact Hin|].
      cbn [includes]. rewrite Ht, startsWith_app_self. reflexivity.
    - destruct (match_here false windowData_re (x :: html))
        as [[rest c]|] eqn:Em.
      + destruct (windowData_re_prefix _ Em) as (l & t' & Hin & Ht).
        exists l. split; [exact Hin|].
        cbn [includes]. rewrite Ht, startsWith_app_self. reflexivity.
      + destruct (IH _ H) as (l & Hin & Hl).
        exists l. split; [exact Hin|].
        cbn [includes]. rewrite Hl. apply orb_true_r. }
  destruct Hex as (l & Hin & Hl). rewrite (Hnone l Hin) in Hl. discriminate.
Qed.

(** C4, on the code. The page assigns an object literal to
    [window.__NEXT_DATA__] and ends it with a semicolon, yet the record
    has [windowData] null, whatever [JSON.parse] makes of the blob: the
    pattern asks for two more underscores after the name. *)
Theorem hydration_blob_is_missed (now : jsstring) :
  test true (lit "window.__NEXT_DATA__") hydrated_page = true
  /\ exec false windowData_re hydrated_page = None
  /\ field "windowData" (contentRecord JSON_parse hydrated_page now)
     = Some JNull.
Proof.
  assert (Hexec : exec false windowData_re hydrated_page = None)
    by (vm_compute; reflexivity).
  split; [vm_compute; reflexivity|]. split; [exact Hexec|].
  unfold contentRecord, field. cbn [obj_get].
  replace (str_eqb (js "windowData") (js "title")) with false
    by (vm_compute; reflexivity).
  replace (str_eqb (js "windowData") (js "metaDescription")) with false
    by (vm_compute; reflexivity).
  replace (str_eqb (js "windowData") (js "structuredData")) with false
    by (vm_compute; reflexivity).
  replace (str_eqb (js "windowData") (js "windowData")) with true
    by (vm_compute; reflexivity).
  unfold windowData. rewrite Hexec. reflexivity.
Qed.

(** What the pattern does find: the name followed by two more
    underscores. *)
Example overlong_name_is_found :
  windowData JSON_parse overlong_name_page =
  match JSON_parse blob with
  | Some data => data
  | None => JStr (js "Found but unparseable")
  end.
Proof.
  unfold windowData.
  replace (exec false windowData_re overlong_name_page)
    with (Some (MatchResult 20 (js "window.__NEXT_DATA____ = " ++ blob ++ js ";")
                  (js "</script></head><body><p>Hello</p></body></html>")
                  [(1, blob)]))
    by (vm_compute; reflexivity).
  reflexivity.
Qed.

(** The text that precedes the time stamp in the serialised record. *)
Definition record_prefix (html : jsstring) : jsstring :=
  let inner := js "  " in
  let sep := js "," ++ newline ++ inner in
  let member (k : jsstring) (v : json) :=
    quoteJSONString k ++ js ":" ++ js " " ++ serialize inner inner v in
  js "{" ++ newline ++ inner ++
  member (js "title") (JStr (title html)) ++ sep ++
  member (js "metaDescription") (JStr (metaDescription html)) ++ sep ++
  member (js "structuredData")
    (match structuredData JSON_parse html with
     | [] => JNull | data => JArr data end) ++ sep ++
  member (js "windowData") (windowData JSON_parse html) ++ sep ++
  member (js "metaTags")
    (match metaTags html with [] => JNull | tags => JObj tags end) ++ sep ++
  member (js "content") (JStr (bodyText html)) ++ sep ++
  quoteJSONString (js "extractedAt") ++ js ":" ++ js " ".

(** C6. Extraction depends on the time of the call through the
    [extractedAt] field only: for every markup there is one text such
    that, whenever the extraction runs, the serialised record is that
    text, the quoted time stamp and the closing brace. *)
Theorem extraction_is_deterministic (html : jsstring) :
  forall now : jsstring,
    extractContentFromHTML JSON_parse html now
    = record_prefix html ++ quoteJSONString now ++ newline ++ js "}".
Proof.
  intros now. unfold extractContentFromHTML, stringify2, contentRecord.
  unfold record_prefix.
  change (js "  ") with [32%N; 32%N].
  cbn [serialize map wrap join].
  repeat rewrite <- app_assoc.
  cbn [app].
  reflexivity.
Qed.

End ExtractorProperties.

(* ================================================================== *)
(** * The language of a pattern *)
(* ================================================================== *)

(** What a pattern can match, as a relation between the pattern and the
    matched text; the matcher only ever returns such texts, and what it
    captures for a group is a text of the group's own pattern that occurs
    in the subject. *)
Section MatcherLanguage.

Variable icase : bool.

Inductive matches : regex -> jsstring -> Prop :=
| matches_empty : matches REmpty []
| matches_char cs x :
    cset_match icase cs x = true -> matches (RChar cs) [x]
| matches_seq r1 r2 p1 p2 :
    matches r1 p1 -> matches r2 p2 -> matches (RSeq r1 r2) (p1 ++ p2)
| matches_alt_l r1 r2 p : matches r1 p -> matches (RAlt r1 r2) p
| matches_alt_r r1 r2 p : matches r2 p -> matches (RAlt r1 r2) p
| matches_star_nil g r : matches (RStar g r) []
| matches_star_cons g r p1 p2 :
    matches r p1 -> matches (RStar g r) p2 -> matches (RStar g r) (p1 ++ p2)
| matches_group n r p : matches r p -> matches (RGroup n r) p.

(** [t] occurs in [subject]. *)
Definition occurs_in (t subject : jsstring) : Prop :=
  exists a b, subject = a ++ t ++ b.

Variable subject : jsstring.
(** A property of captures, by group number. *)
Variable Q : nat -> jsstring -> Prop.

(** [Q] holds of whatever a group of [r] can capture in [subject]. *)
Fixpoint respects (r : regex) : Prop :=
  match r with
  | REmpty | RChar _ => True
  | RSeq r1 r2 | RAlt r1 r2 => respects r1 /\ respects r2
  | RStar _ r1 => respects r1
  | RGroup n r1 =>
      (forall t, matches r1 t -> occurs_in t subject -> Q n t)
      /\ respects r1
  end.

Definition caps_ok (c : caps) : Prop :=
  Forall (fun e => Q (fst e) (snd e)) c.

Definition sound (r : regex)
           (step : jsstring -> caps -> continuation -> option mstate)
  : Prop :=
  forall a s c k m,
    subject = a ++ s -> caps_ok c -> step s c k = Some m ->
    exists p s' c',
      s = p ++ s' /\ matches r p /\ caps_ok c' /\ k s' c' = Some m.

Lemma star_loop_sound greedy r step :
  sound r step ->
  forall fuel a s c k m,
    subject = a ++ s -> caps_ok c ->
    star_loop step greedy k fuel s c = Some m ->
    exists p s' c',
      s = p ++ s' /\ matches (RStar greedy r) p /\ caps_ok c'
      /\ k s' c' = Some m.
Proof.
  intros Hstep.
  assert (Hstop : forall s c (k : continuation) m, caps_ok c -> k s c = Some m ->
            exists p s' c',
              s = p ++ s' /\ matches (RStar greedy r) p /\ caps_ok c'
              /\ k s' c' = Some m).
  { intros s c k m Hc Hk. exists [], s, c.
    repeat split; [constructor | exact Hc | exact Hk]. }
  induction fuel as [|fuel IH]; intros a s c k m Ha Hc H; cbn [star_loop] in H.
  - eapply Hstop; eassumption.
  - assert (Hiter : forall m',
              step s c
                (fun s' c' =>
                   if Nat.ltb (length s') (length s)
                   then star_loop step greedy k fuel s' c' else None)
              = Some m' ->
              exists p s' c',
                s = p ++ s' /\ matches (RStar greedy r) p /\ caps_ok c'
                /\ k s' c' = Some m').
    { intros m' Hm'.
      destruct (Hstep a s c _ m' Ha Hc Hm')
        as (p1 & s1 & c1 & Hs & Hp1 & Hc1 & Hk1).
      destruct (Nat.ltb (length s1) (length s)); [|discriminate Hk1].
      destruct (IH (a ++ p1) s1 c1 k m') as (p2 & s2 & c2 & Hs2 & Hp2 & Hc2 & Hk2).
      - rewrite <- app_assoc, <- Hs. exact Ha.
      - exact Hc1.
      - exact Hk1.
      - exists (p1 ++ p2), s2, c2.
        repeat split; try assumption.
        + rewrite <- app_assoc, <- Hs2. exact Hs.
        + constructor; assumption. }
    destruct greedy.
    + destruct (step s c _) as [m'|] eqn:E.
      * injection H as <-. apply Hiter. reflexivity.
      * eapply Hstop; eassumption.
    + destruct (k s c) as [m'|] eqn:E.
      * injection H as <-. eapply Hstop; eassumption.
      * apply Hiter. exact H.
Qed.

Lemma rmatch_sound r : respects r -> sound r (rmatch icase r).
Proof.
  induction r as [|cs|r1 IH1 r2 IH2|r1 IH1 r2 IH2|g r1 IH1|n r1 IH1];
    intros Hr a s c k m Ha Hc H; cbn [rmatch] in H; cbn [respects] in Hr.
  - exists [], s, c. repeat split; [constructor | exact Hc | exact H].
  - destruct s as [|x s']; [discriminate H|].
    destruct (cset_match icase cs x) eqn:E; [|discriminate H].
    exists [x], s', c. repeat split; [constructor; exact E | exact Hc | exact H].
  - destruct Hr as [Hr1 Hr2].
    destruct (IH1 Hr1 a s c _ m Ha Hc H) as (p1 & s1 & c1 & Hs & Hp1 & Hc1 & Hk1).
    destruct (IH2 Hr2 (a ++ p1) s1 c1 k m) as (p2 & s2 & c2 & Hs2 & Hp2 & Hc2 & Hk2).
    + rewrite <- app_assoc, <- Hs. exact Ha.
    + exact Hc1.
    + exact Hk1.
    + exists (p1 ++ p2), s2, c2. repeat split; try assumption.
      * rewrite <- app_assoc, <- Hs2. exact Hs.
      * constructor; assumption.
  - destruct Hr as [Hr1 Hr2].
    destruct (rmatch icase r1 s c k) as [m'|] eqn:E.
    + injection H as <-.
      destruct (IH1 Hr1 a s c k m' Ha Hc E) as (p & s' & c' & Hs & Hp & Hc' & Hk).
      exists p, s', c'. repeat split; try assumption.
      apply matches_alt_l, Hp.
    + destruct (IH2 Hr2 a s c k m Ha Hc H) as (p & s' & c' & Hs & Hp & Hc' & Hk).
      exists p, s', c'. repeat split; try assumption.
      apply matches_alt_r, Hp.
  - eapply star_loop_sound; [exact (IH1 Hr) | eassumption ..].
  - destruct Hr as [Hq Hr1].
    destruct (IH1 Hr1 a s c _ m Ha Hc H) as (p & s' & c' & Hs & Hp & Hc' & Hk).
    exists p, s', ((n, firstn (length s - length s') s) :: c').
    assert (Hcap : firstn (length s - length s') s = p).
    { rewrite Hs, length_app.
      replace (length p + length s' - length s') with (length p + 0) by lia.
      rewrite firstn_app_2. cbn [firstn]. apply app_nil_r. }
    repeat split; try assumption.
    + constructor; exact Hp.
    + constructor; [|exact Hc']. cbn [fst snd]. rewrite Hcap.
      apply Hq; [exact Hp|]. exists a, s'. rewrite Ha, Hs. reflexivity.
Qed.

Lemma firstn_prefix (p s' : jsstring) :
  firstn (length (p ++ s') - length s') (p ++ s') = p.
Proof.
  rewrite length_app.
  replace (length p + length s' - length s') with (length p + 0) by lia.
  rewrite firstn_app_2. cbn [firstn]. apply app_nil_r.
Qed.

Lemma match_here_sound r a s rest c :
  respects r -> subject = a ++ s ->
  match_here icase r s = Some (rest, c) ->
  matches r (firstn (length s - length rest) s) /\ caps_ok c
  /\ s = firstn (length s - length rest) s ++ rest.
Proof.
  intros Hr Ha H. unfold match_here in H.
  destruct (rmatch_sound r Hr a _ _ Ha (Forall_nil _) H)
    as (p & s' & c' & Hs & Hp & Hc' & Hk).
  injection Hk as -> ->. subst s. rewrite firstn_prefix.
  repeat split; assumption.
Qed.

Lemma search_from_sound r :
  respects r ->
  forall s a idx res,
    subject = a ++ s ->
    search_from icase r idx s = Some res ->
    matches r (m_text res) /\ caps_ok (m_caps res)
    /\ exists b, subject = b ++ m_text res ++ m_rest res.
Proof.
  intros Hr. induction s as [|x s IH]; intros a idx res Ha H;
    rewrite search_from_eq in H;
    destruct (match_here icase r _) as [[rest c]|] eqn:E.
  - injection H as <-. cbn [m_text m_caps m_rest].
    destruct (@match_here_sound r a _ _ _ Hr Ha E) as (Hp & Hc & Hs).
    split; [exact Hp|]. split; [exact Hc|]. exists a.
    rewrite Ha. f_equal. exact Hs.
  - discriminate H.
  - injection H as <-. cbn [m_text m_caps m_rest].
    destruct (@match_here_sound r a _ _ _ Hr Ha E) as (Hp & Hc & Hs).
    split; [exact Hp|]. split; [exact Hc|]. exists a.
    rewrite Ha. f_equal. exact Hs.
  - apply (IH (a ++ [x]) (S idx) res); [|exact H].
    rewrite <- app_assoc. exact Ha.
Qed.

End MatcherLanguage.

Section LanguageFacts.

Variable icase : bool.

(** The least length of a text of the pattern. *)
Fixpoint min_len (r : regex) : nat :=
  match r with
  | REmpty => 0
  | RChar _ => 1
  | RSeq r1 r2 => min_len r1 + min_len r2
  | RAlt r1 r2 => Nat.min (min_len r1) (min_len r2)
  | RStar _ _ => 0
  | RGroup _ r1 => min_len r1
  end.

Lemma matches_min_len r t : matches icase r t -> min_len r <= length t.
Proof.
  induction 1; cbn [min_len length]; rewrite ?length_app; lia.
Qed.

Lemma matches_char_inv cs t :
  matches icase (RChar cs) t ->
  exists x, t = [x] /\ cset_match icase cs x = true.
Proof. inversion 1; subst. eauto. Qed.

Lemma matches_seq_inv r1 r2 t :
  matches icase (RSeq r1 r2) t ->
  exists p1 p2, t = p1 ++ p2 /\ matches icase r1 p1 /\ matches icase r2 p2.
Proof. inversion 1; subst. eauto. Qed.

Lemma matches_group_inv n r t :
  matches icase (RGroup n r) t -> matches icase r t.
Proof. inversion 1; subst. assumption. Qed.

(** A repeated class matches runs of characters of the class. *)
Lemma matches_star_class g cs t :
  matches icase (RStar g (RChar cs)) t ->
  Forall (fun x => cset_match icase cs x = true) t.
Proof.
  intros H. remember (RStar g (RChar cs)) as r eqn:Er.
  induction H; try discriminate Er.
  - constructor.
  - injection Er as -> ->.
    apply Forall_app. split.
    + apply matches_char_inv in H as (x & -> & Hx). repeat constructor. exact Hx.
    + apply IHmatches2. reflexivity.
Qed.

Lemma matches_plus_class cs t :
  matches icase (plus (RChar cs)) t ->
  t <> [] /\ Forall (fun x => cset_match icase cs x = true) t.
Proof.
  unfold plus. intros H.
  apply matches_seq_inv in H as (p1 & p2 & -> & H1 & H2).
  apply matches_char_inv in H1 as (x & -> & Hx).
  apply matches_star_class in H2.
  split; [discriminate|]. constructor; assumption.
Qed.

Lemma respects_trivial subject r : respects icase subject (fun _ _ => True) r.
Proof.
  induction r; cbn [respects]; auto.
Qed.

Lemma cap_get_ok (Q : nat -> jsstring -> Prop) n c t :
  caps_ok Q c -> cap_get n c = Some t -> Q n t.
Proof.
  unfold caps_ok. induction 1 as [|[m u] c Hu Hc IH]; cbn [cap_get].
  - discriminate.
  - destruct (Nat.eqb_spec m n) as [->|_].
    + intros E. injection E as <-. exact Hu.
    + exact IH.
Qed.

(** What [exec] returns: a text of the pattern, between two pieces of the
    subject, with captures that satisfy [Q]. *)
Lemma exec_sound (Q : nat -> jsstring -> Prop) r s res :
  respects icase s Q r ->
  exec icase r s = Some res ->
  matches icase r (m_text res) /\ caps_ok Q (m_caps res)
  /\ s = firstn (m_index res) s ++ m_text res ++ m_rest res.
Proof.
  intros Hr H.
  destruct (@search_from_sound icase s Q r Hr s [] 0 res eq_refl H)
    as (Hp & Hc & _).
  split; [exact Hp|]. split; [exact Hc|]. apply (exec_split _ _ _ H).
Qed.

Lemma occurs_in_length t s : occurs_in t s -> length t <= length s.
Proof. intros (a & b & ->). rewrite !length_app. lia. Qed.

Lemma includes_self (t : jsstring) : includes t t = true.
Proof.
  destruct t as [|x t]; [reflexivity|].
  cbn [includes].
  rewrite <- (app_nil_r (x :: t)) at 1.
  rewrite startsWith_app_self. reflexivity.
Qed.

Lemma occurs_in_includes t s : occurs_in t s -> includes s t = true.
Proof.
  intros (a & b & ->). apply includes_middle, includes_self.
Qed.

End LanguageFacts.

(** ** Global replacement never lengthens, when the replacement is no
    longer than the shortest text of the pattern *)
Section ReplaceLength.

Variable icase : bool.

Lemma replace_aux_length r rep :
  length rep <= min_len r ->
  forall fuel s, length (replace_aux icase fuel r rep s) <= length s.
Proof.
  intros Hrep. induction fuel as [|fuel IH]; intros s; cbn [replace_aux].
  - lia.
  - destruct (exec icase r s) as [res|] eqn:E; [|lia].
    destruct (@exec_sound icase (fun _ _ => True) r s res
                (respects_trivial icase s r) E)
      as (Hp & _ & Hs).
    apply matches_min_len in Hp.
    pose proof (f_equal (@length jschar) Hs) as Hl.
    rewrite !length_app in Hl. rewrite !length_app.
    destruct (m_text res) as [|y text], (m_rest res) as [|x rest];
      cbn [length] in *;
      pose proof (IH []);
      try (pose proof (IH rest)); try (pose proof (IH (x :: rest)));
      cbn [length] in *; lia.
Qed.

Lemma replaceAll_length r rep s :
  length rep <= min_len r ->
  length (replaceAll icase r rep s) <= length s.
Proof. intros H. apply replace_aux_length, H. Qed.

End ReplaceLength.

Section TrimFacts.

Lemma trimStart_suffix s : exists a, s = a ++ trimStart s.
Proof.
  induction s as [|x s [a IH]]; cbn [trimStart].
  - exists []. reflexivity.
  - destruct (is_space x).
    + exists (x :: a). cbn [app]. f_equal. exact IH.
    + exists []. reflexivity.
Qed.

Lemma trimStart_length s : length (trimStart s) <= length s.
Proof.
  destruct (trimStart_suffix s) as [a E]. rewrite E at 2.
  rewrite length_app. lia.
Qed.

(** [trim s] is a piece of [s]. *)
Lemma trim_middle s : exists a b, s = a ++ trim s ++ b.
Proof.
  unfold trim.
  destruct (trimStart_suffix s) as [a Ea].
  destruct (trimStart_suffix (rev (trimStart s))) as [b Eb].
  exists a, (rev b).
  rewrite <- rev_app_distr, <- Eb, rev_involutive. exact Ea.
Qed.

Lemma trim_length s : length (trim s) <= length s.
Proof.
  destruct (trim_middle s) as (a & b & E). rewrite E at 2.
  rewrite !length_app. lia.
Qed.

Lemma trimStart_head s x t : trimStart s = x :: t -> is_space x = false.
Proof.
  induction s as [|y s IH]; cbn [trimStart]; [discriminate|].
  destruct (is_space y) eqn:E; [exact IH|].
  intros H. injection H as <- _. exact E.
Qed.

Lemma trimStart_fixed s :
  match s with [] => True | x :: _ => is_space x = false end ->
  trimStart s = s.
Proof.
  destruct s as [|x s]; [reflexivity|]. cbn [trimStart]. intros ->. reflexivity.
Qed.

(** The result of [trim] neither starts nor ends with white space. *)
Lemma trim_head s x t : trim s = x :: t -> is_space x = false.
Proof.
  unfold trim. intros H.
  destruct (trimStart_suffix (rev (trimStart s))) as [b Eb].
  remember (trimStart (rev (trimStart s))) as u eqn:Eu.
  assert (Hs : trimStart s = rev u ++ rev b).
  { rewrite <- rev_app_distr, <- Eb, rev_involutive. reflexivity. }
  rewrite H in Hs. cbn [app] in Hs.
  exact (trimStart_head _ Hs).
Qed.

Lemma trim_last s t x : trim s = t ++ [x] -> is_space x = false.
Proof.
  unfold trim. intros H.
  apply (f_equal (@rev jschar)) in H.
  rewrite rev_involutive, rev_app_distr in H. cbn [rev app] in H.
  exact (trimStart_head _ H).
Qed.

End TrimFacts.

Section TextLength.

Lemma stripMarkup_length body : length (stripMarkup body) <= length body.
Proof.
  unfold stripMarkup.
  eapply Nat.le_trans; [apply trim_length|].
  eapply Nat.le_trans; [apply replaceAll_length; cbn; lia|].
  eapply Nat.le_trans; [apply replaceAll_length; cbn; lia|].
  eapply Nat.le_trans; [apply replaceAll_length; cbn; lia|].
  apply replaceAll_length; cbn; lia.
Qed.

Lemma body_capture_occurs html res :
  exec true body_re html = Some res ->
  forall t, cap_get 1 (m_caps res) = Some t -> occurs_in t html.
Proof.
  intros E t Ht.
  assert (Hr : respects true html (fun _ t => occurs_in t html) body_re).
  { cbn. repeat split; auto. }
  destruct (@exec_sound true _ body_re html res Hr E) as (_ & Hc & _).
  exact (cap_get_ok 1 Hc Ht).
Qed.

Lemma bodyContent_occurs html : occurs_in (bodyContent html) html.
Proof.
  unfold bodyContent, group.
  destruct (exec true body_re html) as [res|] eqn:E.
  - destruct (cap_get 1 (m_caps res)) as [t|] eqn:Et.
    + eapply body_capture_occurs; eassumption.
    + exists [], html. reflexivity.
  - exists [], html. reflexivity.
Qed.

Lemma textContent_length html : length (textContent html) <= length html.
Proof.
  unfold textContent.
  eapply Nat.le_trans; [apply stripMarkup_length|].
  apply occurs_in_length, bodyContent_occurs.
Qed.

End TextLength.

(** ** Replacement, one match at a time *)
Section ReplaceSteps.

Variable icase : bool.

Definition shift (res : rmatch_result) : rmatch_result :=
  MatchResult (S (m_index res)) (m_text res) (m_rest res) (m_caps res).

Lemma search_from_shift r s :
  forall idx,
    search_from icase r (S idx) s
    = option_map shift (search_from icase r idx s).
Proof.
  induction s as [|x s IH]; intros idx;
    rewrite (search_from_eq icase r (S idx)), (search_from_eq icase r idx);
    destruct (match_here icase r _) as [[rest c]|]; try reflexivity.
  apply IH.
Qed.

(** Where the pattern does not match at the head, the head is kept. *)
Lemma replace_aux_skip r rep fuel x s :
  match_here icase r (x :: s) = None ->
  replace_aux icase (S fuel) r rep (x :: s)
  = x :: replace_aux icase (S fuel) r rep s.
Proof.
  intros H. cbn [replace_aux]. unfold exec.
  rewrite (search_from_eq icase r 0 (x :: s)), H, search_from_shift.
  destruct (search_from icase r 0 s) as [res|]; reflexivity.
Qed.

(** Where it matches a non-empty text at the head, the text is replaced
    and the scan goes on after it. *)
Lemma replace_aux_hit r rep fuel s rest c :
  match_here icase r s = Some (rest, c) ->
  length rest < length s ->
  replace_aux icase (S fuel) r rep s
  = rep ++ replace_aux icase fuel r rep rest.
Proof.
  intros H Hlen. cbn [replace_aux]. unfold exec.
  rewrite (search_from_eq icase r 0 s), H.
  cbn [m_index m_text m_rest firstn app].
  destruct (firstn (length s - length rest) s) as [|y t] eqn:E.
  - exfalso. apply (f_equal (@length jschar)) in E.
    rewrite length_firstn in E. cbn [length] in E. lia.
  - reflexivity.
Qed.

End ReplaceSteps.

(** ** Runs of white space *)
Section WhiteSpace.

(** After a greedy repetition of a class, the text goes on where the run
    of the class ends. *)
Fixpoint skip (icase : bool) (cs : cset) (s : jsstring) : jsstring :=
  match s with
  | [] => []
  | x :: s' => if cset_match icase cs x then skip icase cs s' else s
  end.

Lemma skip_length icase cs s : length (skip icase cs s) <= length s.
Proof.
  induction s as [|x s IH]; cbn [skip length]; [lia|].
  destruct (cset_match icase cs x); cbn [length]; lia.
Qed.

Lemma greedy_class_run icase cs :
  forall fuel s c,
    length s < fuel ->
    star_loop (rmatch icase (RChar cs)) true
              (fun s' c' => Some (s', c')) fuel s c
    = Some (skip icase cs s, c).
Proof.
  induction fuel as [|fuel IH]; intros s c Hf; [lia|].
  cbn [star_loop rmatch].
  destruct s as [|x s]; [reflexivity|].
  cbn [skip]. destruct (cset_match icase cs x); [|reflexivity].
  cbn [length] in *.
  destruct (Nat.ltb_spec (length s) (S (length s))) as [_|Hn]; [|lia].
  rewrite IH by lia. reflexivity.
Qed.

Lemma greedy_class_star icase cs s c :
  rmatch icase (RStar true (RChar cs)) s c (fun s' c' => Some (s', c'))
  = Some (skip icase cs s, c).
Proof.
  change (star_loop (rmatch icase (RChar cs)) true
            (fun s' c' => Some (s', c')) (S (length s)) s c
          = Some (skip icase cs s, c)).
  apply greedy_class_run. lia.
Qed.

Lemma rmatch_char icase cs x s c k :
  rmatch icase (RChar cs) (x :: s) c k
  = if cset_match icase cs x then k s c else None.
Proof. reflexivity. Qed.

Lemma skip_space s : skip false CSpace s = trimStart s.
Proof.
  induction s as [|x s IH]; cbn [skip trimStart cset_match]; [reflexivity|].
  rewrite IH. reflexivity.
Qed.

(** The pattern for a run of white space, at the head of a text. *)
Lemma spaces_here x s :
  match_here false spaces_re (x :: s)
  = if is_space x then Some (trimStart s, []) else None.
Proof.
  unfold match_here, spaces_re, plus, space.
  rewrite rmatch_seq, rmatch_char. cbn [cset_match].
  destruct (is_space x); [|reflexivity].
  rewrite greedy_class_star, skip_space. reflexivity.
Qed.

(** The replacement of runs of white space by one space, written out. *)
Fixpoint squeeze (after_space : bool) (s : jsstring) : jsstring :=
  match s with
  | [] => []
  | x :: s' =>
      if is_space x then
        if after_space then squeeze true s' else 32%N :: squeeze true s'
      else x :: squeeze false s'
  end.

Lemma squeeze_trimStart s : squeeze true s = squeeze false (trimStart s).
Proof.
  induction s as [|x s IH]; cbn [squeeze trimStart]; [reflexivity|].
  destruct (is_space x) eqn:E; [exact IH|].
  cbn [squeeze]. rewrite E. reflexivity.
Qed.

Lemma replace_spaces :
  forall n s fuel,
    length s <= n -> length s < fuel ->
    replace_aux false fuel spaces_re (js " ") s = squeeze false s.
Proof.
  induction n as [|n IH]; intros s fuel Hn Hf;
    (destruct fuel as [|fuel]; [lia|]).
  - destruct s; [reflexivity | cbn [length] in Hn; lia].
  - destruct s as [|x s]; [reflexivity|].
    cbn [length] in *. cbn [squeeze].
    pose proof (spaces_here x s) as Hx.
    destruct (is_space x).
    + pose proof (trimStart_length s).
      erewrite replace_aux_hit; [| exact Hx | cbn [length]; lia].
      rewrite IH by lia. rewrite squeeze_trimStart. reflexivity.
    + rewrite replace_aux_skip by exact Hx.
      rewrite IH by lia. reflexivity.
Qed.

Lemma replaceAll_spaces s :
  replaceAll false spaces_re (js " ") s = squeeze false s.
Proof.
  unfold replaceAll. apply (replace_spaces (n := length s)); lia.
Qed.

(** Every white-space character is a single U+0020. *)
Fixpoint tidy (after_space : bool) (s : jsstring) : bool :=
  match s with
  | [] => true
  | x :: s' =>
      if is_space x then (x =? 32)%N && negb after_space && tidy true s'
      else tidy false s'
  end.

Lemma squeeze_tidy s : forall b, tidy b (squeeze b s) = true.
Proof.
  induction s as [|x s IH]; intros b; cbn [squeeze]; [reflexivity|].
  destruct (is_space x) eqn:E.
  - destruct b; [apply IH|].
    cbn [tidy]. change (is_space 32%N) with true.
    change (32 =? 32)%N with true. cbn [andb negb]. apply IH.
  - cbn [tidy]. rewrite E. apply IH.
Qed.

Lemma tidy_weaken s : tidy true s = true -> tidy false s = true.
Proof.
  destruct s as [|x s]; [reflexivity|]. cbn [tidy].
  destruct (is_space x); [|auto].
  rewrite andb_false_r. discriminate.
Qed.

Lemma tidy_tail b x s : tidy b (x :: s) = true -> tidy false s = true.
Proof.
  cbn [tidy]. destruct (is_space x).
  - intros H. apply andb_true_iff in H as [_ H]. apply tidy_weaken, H.
  - auto.
Qed.

Lemma tidy_suffix a s : tidy false (a ++ s) = true -> tidy false s = true.
Proof.
  induction a as [|x a IH]; cbn [app]; [auto|].
  intros H. apply IH. eapply tidy_tail, H.
Qed.

Lemma tidy_prefix s t : forall b, tidy b (s ++ t) = true -> tidy b s = true.
Proof.
  induction s as [|x s IH]; intros b; cbn [app tidy]; [reflexivity|].
  destruct (is_space x).
  - intros H. apply andb_true_iff in H as [H1 H2].
    rewrite H1. cbn [andb]. apply IH, H2.
  - apply IH.
Qed.

Lemma tidy_middle a s b : tidy false (a ++ s ++ b) = true -> tidy false s = true.
Proof.
  intros H. apply tidy_suffix in H. eapply tidy_prefix, H.
Qed.

Lemma tidy_firstn n s : tidy false s = true -> tidy false (firstn n s) = true.
Proof.
  intros H. rewrite <- (firstn_skipn n s) in H. eapply tidy_prefix, H.
Qed.

(** What [tidy] says, spelled out. *)
Lemma tidy_space s a x b :
  tidy false s = true -> s = a ++ x :: b -> is_space x = true -> x = 32%N.
Proof.
  intros H -> Hx. apply tidy_suffix in H. cbn [tidy] in H.
  rewrite Hx in H. apply andb_true_iff in H as [H _].
  apply andb_true_iff in H as [H _]. apply N.eqb_eq, H.
Qed.

Lemma tidy_adjacent s a x y b :
  tidy false s = true -> s = a ++ x :: y :: b ->
  is_space x = true -> is_space y = false.
Proof.
  intros H -> Hx. apply tidy_suffix in H. cbn [tidy] in H.
  rewrite Hx in H. apply andb_true_iff in H as [_ H].
  destruct (is_space y); [|reflexivity].
  cbn [negb] in H. rewrite andb_false_r in H. discriminate H.
Qed.

Lemma stripMarkup_tidy body : tidy false (stripMarkup body) = true.
Proof.
  unfold stripMarkup. rewrite replaceAll_spaces.
  set (t := squeeze false _).
  destruct (trim_middle t) as (a & b & E).
  pose proof (squeeze_tidy (replaceAll false tag_re (js " ")
           (replaceAll true style_re []
              (replaceAll true script_re [] body))) false) as H.
  fold t in H. rewrite E in H. eapply tidy_middle, H.
Qed.

End WhiteSpace.

Section ClassifierBounds.

(** X1. The text that [detectBrowserRequirement] measures is cut out of
    the markup and only ever shortened, so markup of fewer than 200 code
    units that carries a single-page-application marker always asks for a
    browser, unless the URL is on the allowlist. *)
Theorem short_markup_with_marker_needs_rendering (html url : jsstring) :
  isSimpleSite url = false ->
  hasSpaIndicators html = true ->
  length html < 200 ->
  length (textContent html) <= length html
  /\ detectBrowserRequirement html url = true.
Proof.
  intros Hallow Hspa Hlen.
  pose proof (textContent_length html) as Hle.
  split; [exact Hle|].
  unfold detectBrowserRequirement, isLikelySpa, hasMinimalContent.
  rewrite Hallow, Hspa.
  destruct (Nat.ltb_spec (length (textContent html)) 200) as [_|Hge]; [|lia].
  cbn [andb]. rewrite !orb_true_r. reflexivity.
Qed.

End ClassifierBounds.

Section IndicatorFacts.

(** The three messages of [getBrowserIndicators] for a protection
    system. *)
Definition protection_messages : list jsstring :=
  [ js "Cloudflare challenge detected";
    js "Cloudflare protection detected";
    js "JavaScript required message detected" ].

Lemma In_single_or_nil (b : bool) (x y : jsstring) :
  In x (if b then [y] else []) -> b = true /\ x = y.
Proof.
  destruct b; cbn; [intros [<-|[]]; split; reflexivity | intros []].
Qed.

Lemma indicator_cases html name :
  In name (getBrowserIndicators html) ->
  (test true (empty_div "root") html = true
   /\ name = js "React root div detected")
  \/ (test true (lit "window.__NEXT_DATA__") html = true
      /\ name = js "Next.js data detected")
  \/ (test true (then_later "cloudflare" "challenge") html = true
      /\ name = js "Cloudflare challenge detected")
  \/ (test true (then_later "cloudflare" "protection") html = true
      /\ name = js "Cloudflare protection detected")
  \/ (test true (lit "please enable javascript") html = true
      /\ name = js "JavaScript required message detected").
Proof.
  unfold getBrowserIndicators. rewrite !in_app_iff.
  intros [H|[H|[H|[H|H]]]]; apply In_single_or_nil in H; tauto.
Qed.

(** X2. Every indicator that [getBrowserIndicators] names is one that
    [detectBrowserRequirement] examines.  Off the allowlist, a reported
    protection message implies that a browser is asked for, and so does
    any report at all on markup of fewer than 200 code units.  The
    converse fails: an empty report does not mean that no browser is
    needed, since the known single-page domains are examined on the URL
    alone, as for [https://twitter.com/home] with any markup. *)
Theorem reported_indicators_are_examined (html url : jsstring) :
  (getBrowserIndicators html <> [] ->
   hasSpaIndicators html = true \/ hasProtection html = true)
  /\ (isSimpleSite url = false ->
      (exists name, In name protection_messages
                    /\ In name (getBrowserIndicators html)) ->
      detectBrowserRequirement html url = true)
  /\ (isSimpleSite url = false ->
      getBrowserIndicators html <> [] -> length html < 200 ->
      detectBrowserRequirement html url = true)
  /\ detectBrowserRequirement html (js "https://twitter.com/home") = true
  /\ length (getBrowserIndicators html) <= 5.
Proof.
  assert (Hspa : forall name,
             In name (getBrowserIndicators html) ->
             ~ In name protection_messages ->
             hasSpaIndicators html = true).
  { intros name Hin Hnot.
    destruct (indicator_cases html name Hin)
      as [[E ->]|[[E ->]|[[E ->]|[[E ->]|[E ->]]]]];
      unfold hasSpaIndicators, spaIndicators; cbn [existsb];
      try (rewrite E; rewrite ?orb_true_r; reflexivity);
      exfalso; apply Hnot; unfold protection_messages; cbn [In]; tauto. }
  assert (Hprot : forall name,
             In name (getBrowserIndicators html) ->
             In name protection_messages ->
             hasProtection html = true).
  { intros name Hin Hp.
    destruct (indicator_cases html name Hin)
      as [[E ->]|[[E ->]|[[E ->]|[[E ->]|[E ->]]]]];
      unfold hasProtection, protectionIndicators; cbn [existsb];
      try (rewrite E; rewrite ?orb_true_r; reflexivity);
      exfalso; unfold protection_messages in Hp; cbn [In] in Hp;
      destruct Hp as [F|[F|[F|[]]]]; vm_compute in F; discriminate F. }
  assert (Hdec : forall name,
             In name protection_messages \/ ~ In name protection_messages).
  { intros name.
    destruct (in_dec (list_eq_dec N.eq_dec) name protection_messages);
      [left|right]; assumption. }
  assert (Hany : getBrowserIndicators html <> [] ->
                 hasSpaIndicators html = true \/ hasProtection html = true).
  { intros Hne. destruct (getBrowserIndicators html) as [|name l] eqn:El;
      [contradiction Hne; reflexivity|].
    assert (Hin : In name (name :: l)) by (left; reflexivity).
    destruct (Hdec name) as [Hp|Hp];
      [right; exact (Hprot name Hin Hp) | left; exact (Hspa name Hin Hp)]. }
  split; [exact Hany|].
  split.
  { intros Hallow (name & Hp & Hin).
    unfold detectBrowserRequirement. rewrite Hallow.
    rewrite (Hprot name Hin Hp). reflexivity. }
  split.
  { intros Hallow Hne Hlen.
    unfold detectBrowserRequirement, isLikelySpa, hasMinimalContent.
    rewrite Hallow.
    destruct (Hany Hne) as [E|E]; rewrite E; [|reflexivity].
    pose proof (textContent_length html) as Hle.
    destruct (Nat.ltb_spec (length (textContent html)) 200) as [_|Hge];
      [|lia].
    cbn [andb]. rewrite !orb_true_r. reflexivity. }
  split.
  { unfold detectBrowserRequirement.
    replace (isSimpleSite (js "https://twitter.com/home")) with false
      by (vm_compute; reflexivity).
    replace (isKnownSpa (js "https://twitter.com/home")) with true
      by (vm_compute; reflexivity).
    rewrite orb_true_r. reflexivity. }
  unfold getBrowserIndicators. rewrite !length_app.
  repeat match goal with
         | |- context [if ?b then _ else _] => destruct b
         end; cbn [length]; lia.
Qed.

End IndicatorFacts.

Section ExtractedFields.

Variable JSON_parse : jsstring -> option json.

Lemma includes_nil (s : jsstring) : includes s [] = true.
Proof. destruct s; reflexivity. Qed.

Lemma not_lt_char x : cset_match true (CNoneOf [60%N]) x = true -> x <> 60%N.
Proof. intros H ->. vm_compute in H. discriminate H. Qed.

Lemma not_quote_char x :
  cset_match true (CNoneOf [squote; dquote]) x = true ->
  x <> squote /\ x <> dquote.
Proof.
  intros H. split; intros ->; vm_compute in H; discriminate H.
Qed.

(** X3. The title that [extractContentFromHTML] reports is copied out of
    the markup as it stands and holds no [<]: the pattern takes the
    characters after the opening tag up to the first [<]. *)
Theorem title_is_verbatim_and_tag_free (html now : jsstring) :
  field "title" (contentRecord JSON_parse html now)
  = Some (JStr (title html))
  /\ Forall (fun x => x <> 60%N) (title html)
  /\ includes html (title html) = true.
Proof.
  split; [reflexivity|].
  unfold title, group.
  destruct (exec true title_re html) as [res|] eqn:E;
    [|cbn [or_empty]; split; [apply Forall_nil | apply includes_nil]].
  destruct (cap_get 1 (m_caps res)) as [t|] eqn:Et;
    [|cbn [or_empty]; split; [apply Forall_nil | apply includes_nil]].
  cbn [or_empty].
  assert (Hr : respects true html
                 (fun _ t => Forall (fun x => x <> 60%N) t
                             /\ occurs_in t html) title_re).
  { cbn. repeat split; auto.
    apply matches_plus_class in H as [_ H].
    eapply Forall_impl; [|exact H]. intros x. apply not_lt_char. }
  destruct (@exec_sound true _ title_re html res Hr E) as (_ & Hc & _).
  destruct (cap_get_ok 1 Hc Et) as [Hno Hocc].
  split; [exact Hno|]. apply occurs_in_includes, Hocc.
Qed.

(** X4. The meta description is copied out of the markup and holds
    neither kind of quote: the value is cut at the first quote character
    of either kind, whichever kind opened it. *)
Theorem meta_description_stops_at_any_quote (html now : jsstring) :
  field "metaDescription" (contentRecord JSON_parse html now)
  = Some (JStr (metaDescription html))
  /\ Forall (fun x => x <> squote /\ x <> dquote) (metaDescription html)
  /\ includes html (metaDescription html) = true.
Proof.
  split; [reflexivity|].
  unfold metaDescription, group.
  destruct (exec true metaDescription_re html) as [res|] eqn:E;
    [|cbn [or_empty]; split; [apply Forall_nil | apply includes_nil]].
  destruct (cap_get 1 (m_caps res)) as [t|] eqn:Et;
    [|cbn [or_empty]; split; [apply Forall_nil | apply includes_nil]].
  cbn [or_empty].
  assert (Hr : respects true html
                 (fun _ t => Forall (fun x => x <> squote /\ x <> dquote) t
                             /\ occurs_in t html) metaDescription_re).
  { cbn. repeat split; auto.
    apply matches_star_class in H.
    eapply Forall_impl; [|exact H]. intros x. apply not_quote_char. }
  destruct (@exec_sound true _ metaDescription_re html res Hr E)
    as (_ & Hc & _).
  destruct (cap_get_ok 1 Hc Et) as [Hno Hocc].
  split; [exact Hno|]. apply occurs_in_includes, Hocc.
Qed.

(** X5. The [content] field is at most 2000 code units long and no longer
    than the markup; it does not begin with white space, every
    white-space character in it is a U+0020, and no two of them are
    adjacent: runs of white space, line breaks included, are collapsed. *)
Theorem content_is_bounded_and_collapsed (html now : jsstring) :
  let text := bodyText html in
  field "content" (contentRecord JSON_parse html now) = Some (JStr text)
  /\ length text <= 2000
  /\ length text <= length html
  /\ (forall x t, text = x :: t -> is_space x = false)
  /\ (forall a x b, text = a ++ x :: b -> is_space x = true -> x = 32%N)
  /\ (forall a x y b, text = a ++ x :: y :: b ->
                      is_space x = true -> is_space y = false).
Proof.
  intros text. split; [reflexivity|].
  assert (Hshape : text = []
                   \/ exists body, occurs_in body html
                                   /\ text = firstn 2000 (stripMarkup body)).
  { unfold text, bodyText.
    destruct (exec true body_re html) as [res|] eqn:E; [|left; reflexivity].
    right. unfold substring0.
    destruct (cap_get 1 (m_caps res)) as [t|] eqn:Et.
    - exists t. split; [|reflexivity]. eapply body_capture_occurs; eassumption.
    - exists []. split; [|reflexivity]. exists [], html. reflexivity. }
  destruct Hshape as [->|(body & Hocc & ->)].
  - cbn [length]. repeat split; try lia.
    + discriminate.
    + intros [|? ?] ? ? H; discriminate H.
    + intros [|? ?] ? ? ? H; discriminate H.
  - assert (Htidy : tidy false (firstn 2000 (stripMarkup body)) = true)
      by apply tidy_firstn, stripMarkup_tidy.
    split; [apply firstn_le_length|].
    split.
    { rewrite length_firstn.
      pose proof (stripMarkup_length body).
      pose proof (occurs_in_length Hocc). lia. }
    split.
    { intros x t H.
      destruct (stripMarkup body) as [|y u] eqn:Eu; [discriminate H|].
      cbn [firstn] in H. injection H as <- _.
      unfold stripMarkup in Eu. exact (trim_head _ Eu). }
    split.
    + intros a x b. apply tidy_space, Htidy.
    + intros a x y b. apply tidy_adjacent, Htidy.
Qed.

End ExtractedFields.

Lemma short_markup_with_marker_witness :
  isSimpleSite (js "https://shop.test/") = false
  /\ hasSpaIndicators short_spa_page = true
  /\ length short_spa_page < 200
  /\ detectBrowserRequirement short_spa_page (js "https://shop.test/") = true.
Proof.
  assert (H1 : isSimpleSite (js "https://shop.test/") = false)
    by (vm_compute; reflexivity).
  assert (H2 : hasSpaIndicators short_spa_page = true)
    by (vm_compute; reflexivity).
  assert (H3 : length short_spa_page < 200) by (vm_compute; lia).
  split; [exact H1|]. split; [exact H2|]. split; [exact H3|].
  exact (proj2 (@short_markup_with_marker_needs_rendering
                  short_spa_page (js "https://shop.test/") H1 H2 H3)).
Defined.

(** ** Groups that take part in every match *)
Section Participation.

Variable icase : bool.

(** The groups of [r] that every match of [r] goes through. *)
Fixpoint sure (r : regex) (n : nat) : bool :=
  match r with
  | REmpty | RChar _ | RStar _ _ => false
  | RSeq r1 r2 => sure r1 n || sure r2 n
  | RAlt r1 r2 => sure r1 n && sure r2 n
  | RGroup m r1 => Nat.eqb m n || sure r1 n
  end.

Definition defined (n : nat) (c : caps) : Prop := cap_get n c <> None.

Definition defining (r : regex)
           (step : jsstring -> caps -> continuation -> option mstate)
  : Prop :=
  forall s c k m,
    step s c k = Some m ->
    exists s' c',
      k s' c' = Some m
      /\ forall n, sure r n = true \/ defined n c -> defined n c'.

Lemma star_loop_defining step greedy :
  (forall s c k m,
      step s c k = Some m ->
      exists s' c', k s' c' = Some m /\ forall n, defined n c -> defined n c') ->
  forall fuel s c k m,
    star_loop step greedy k fuel s c = Some m ->
    exists s' c', k s' c' = Some m /\ forall n, defined n c -> defined n c'.
Proof.
  intros Hstep.
  induction fuel as [|fuel IH]; intros s c k m H; cbn [star_loop] in H.
  - exists s, c. split; [exact H | auto].
  - assert (Hiter : forall m',
              step s c
                (fun s' c' =>
                   if Nat.ltb (length s') (length s)
                   then star_loop step greedy k fuel s' c' else None)
              = Some m' ->
              exists s' c',
                k s' c' = Some m' /\ forall n, defined n c -> defined n c').
    { intros m' Hm'.
      destruct (Hstep _ _ _ _ Hm') as (s1 & c1 & Hk1 & Hd1).
      destruct (Nat.ltb (length s1) (length s)); [|discriminate Hk1].
      destruct (IH _ _ _ _ Hk1) as (s2 & c2 & Hk2 & Hd2).
      exists s2, c2. split; [exact Hk2 | auto]. }
    destruct greedy.
    + destruct (step s c _) as [m'|] eqn:E.
      * injection H as <-. apply Hiter. reflexivity.
      * exists s, c. split; [exact H | auto].
    + destruct (k s c) as [m'|] eqn:E.
      * injection H as <-. exists s, c. split; [exact E | auto].
      * apply Hiter, H.
Qed.

Lemma rmatch_defining r : defining r (rmatch icase r).
Proof.
  induction r as [|cs|r1 IH1 r2 IH2|r1 IH1 r2 IH2|g r1 IH1|n0 r1 IH1];
    intros s c k m H; cbn [rmatch] in H; cbn [sure].
  - exists s, c. split; [exact H|]. intros n [Hn|Hn]; [discriminate | exact Hn].
  - destruct s as [|x s']; [discriminate H|].
    destruct (cset_match icase cs x); [|discriminate H].
    exists s', c. split; [exact H|].
    intros n [Hn|Hn]; [discriminate | exact Hn].
  - destruct (IH1 _ _ _ _ H) as (s1 & c1 & Hk1 & Hd1).
    destruct (IH2 _ _ _ _ Hk1) as (s2 & c2 & Hk2 & Hd2).
    exists s2, c2. split; [exact Hk2|].
    intros n [Hn|Hn].
    + apply orb_true_iff in Hn as [Hn|Hn]; auto.
    + auto.
  - destruct (rmatch icase r1 s c k) as [m'|] eqn:E.
    + injection H as <-.
      destruct (IH1 _ _ _ _ E) as (s1 & c1 & Hk1 & Hd1).
      exists s1, c1. split; [exact Hk1|].
      intros n [Hn|Hn]; [apply andb_true_iff in Hn as [Hn _]|]; auto.
    + destruct (IH2 _ _ _ _ H) as (s1 & c1 & Hk1 & Hd1).
      exists s1, c1. split; [exact Hk1|].
      intros n [Hn|Hn]; [apply andb_true_iff in Hn as [_ Hn]|]; auto.
  - assert (Hstep : forall s0 c0 k0 m0,
              rmatch icase r1 s0 c0 k0 = Some m0 ->
              exists s' c',
                k0 s' c' = Some m0
                /\ forall n, defined n c0 -> defined n c').
    { intros s0 c0 k0 m0 H0.
      destruct (IH1 _ _ _ _ H0) as (s1 & c1 & Hk1 & Hd1).
      exists s1, c1. split; [exact Hk1 | auto]. }
    destruct (@star_loop_defining (rmatch icase r1) g Hstep _ _ _ _ _ H)
      as (s1 & c1 & Hk1 & Hd1).
    exists s1, c1. split; [exact Hk1|].
    intros n [Hn|Hn]; [discriminate | auto].
  - destruct (IH1 _ _ _ _ H) as (s1 & c1 & Hk1 & Hd1).
    eexists s1, _. split; [exact Hk1|].
    intros n Hn. unfold defined. cbn [cap_get].
    destruct (Nat.eqb_spec n0 n) as [->|Hne]; [discriminate|].
    apply Hd1. destruct Hn as [Hn|Hn]; [|auto].
    cbn [orb] in Hn. auto.
Qed.

Lemma exec_defines r s res n :
  exec icase r s = Some res -> sure r n = true ->
  exists t, cap_get n (m_caps res) = Some t.
Proof.
  unfold exec. generalize 0. revert res.
  induction s as [|x s IH]; intros res idx H Hn;
    rewrite search_from_eq in H;
    destruct (match_here icase r _) as [[rest c]|] eqn:E;
    try discriminate H.
  1, 2: injection H as <-; cbn [m_caps];
    unfold match_here in E;
    destruct (rmatch_defining r _ _ _ E) as (s1 & c1 & Hk1 & Hd1);
    injection Hk1 as _ <-;
    specialize (Hd1 n (or_introl Hn)); unfold defined in Hd1;
    destruct (cap_get n c1) as [t|]; [eauto | contradiction].
  eapply IH; eassumption.
Qed.

End Participation.

(** ** All the matches of a pattern *)
Section MatchAllFacts.

Variable icase : bool.
Variable subject : jsstring.
Variable Q : nat -> jsstring -> Prop.

Lemma matchAll_aux_sound r :
  respects icase subject Q r ->
  forall fuel s a,
    subject = a ++ s ->
    Forall (fun res =>
              caps_ok Q (m_caps res)
              /\ forall n, sure r n = true ->
                           exists t, cap_get n (m_caps res) = Some t)
           (matchAll_aux icase fuel r s).
Proof.
  intros Hr. induction fuel as [|fuel IH]; intros s a Ha;
    cbn [matchAll_aux]; [constructor|].
  destruct (exec icase r s) as [res|] eqn:E; [|constructor].
  destruct (@search_from_sound icase subject Q r Hr s a 0 res Ha E)
    as (_ & Hc & b & Hb).
  constructor.
  - split; [exact Hc|]. intros n Hn. eapply exec_defines; eassumption.
  - destruct (m_text res) as [|y text], (m_rest res) as [|x rest];
      try constructor.
    + apply (IH rest (b ++ [x])). rewrite <- app_assoc. exact Hb.
    + apply (IH [] (b ++ y :: text)). rewrite <- app_assoc. exact Hb.
    + apply (IH (x :: rest) (b ++ y :: text)). rewrite <- app_assoc. exact Hb.
Qed.

Lemma matchAll_sound r :
  respects icase subject Q r ->
  Forall (fun res =>
            caps_ok Q (m_caps res)
            /\ forall n, sure r n = true ->
                         exists t, cap_get n (m_caps res) = Some t)
         (matchAll icase r subject).
Proof.
  intros Hr. unfold matchAll.
  apply matchAll_aux_sound with (a := []); [exact Hr | reflexivity].
Qed.

End MatchAllFacts.

(** ** Objects as property lists *)
Section ObjectFacts.

Lemma str_eqb_spec a b : reflect (a = b) (str_eqb a b).
Proof.
  unfold str_eqb. destruct (list_eq_dec N.eq_dec a b); constructor; assumption.
Qed.

Lemma str_eqb_sym a b : str_eqb a b = str_eqb b a.
Proof.
  destruct (str_eqb_spec a b), (str_eqb_spec b a); congruence.
Qed.

Definition keys (fields : list (jsstring * json)) : list jsstring :=
  map fst fields.

Lemma has_key_In k fields : has_key k fields = true <-> In k (keys fields).
Proof.
  induction fields as [|[k' v'] fields IH]; cbn [has_key keys map In fst].
  - split; [discriminate | tauto].
  - rewrite orb_true_iff, IH.
    destruct (str_eqb_spec k k') as [->|Hne]; intuition congruence.
Qed.

Lemma keys_update_key k v fields :
  keys (update_key k v fields) = keys fields.
Proof.
  unfold keys.
  induction fields as [|[k' v'] fields IH]; cbn [update_key]; [reflexivity|].
  destruct (str_eqb k k'); cbn [map fst]; congruence.
Qed.

Lemma keys_insert_index n k v fields :
  exists l1 l2, keys fields = l1 ++ l2
                /\ keys (insert_index n k v fields) = l1 ++ k :: l2.
Proof.
  unfold keys.
  induction fields as [|[k' v'] fields (l1 & l2 & E1 & E2)];
    cbn [insert_index].
  - exists [], []. split; reflexivity.
  - destruct (array_index k') as [m|].
    + destruct (m <? n)%N.
      * exists (k' :: l1), l2. cbn [map fst app].
        split; congruence.
      * exists [], (map fst ((k', v') :: fields)). split; reflexivity.
    + exists [], (map fst ((k', v') :: fields)). split; reflexivity.
Qed.

(** The keys after [obj[k] = v]: the same, or one more. *)
Lemma keys_obj_set k v fields :
  keys (obj_set k v fields) = keys fields
  \/ (~ In k (keys fields) /\ k <> js "__proto__"
      /\ exists l1 l2, keys fields = l1 ++ l2
                       /\ keys (obj_set k v fields) = l1 ++ k :: l2).
Proof.
  unfold obj_set.
  destruct (str_eqb_spec k (js "__proto__")) as [->|Hp]; [left; reflexivity|].
  destruct (has_key k fields) eqn:Eh.
  - left. apply keys_update_key.
  - right.
    assert (Hnot : ~ In k (keys fields)).
    { intros Hin. apply has_key_In in Hin. congruence. }
    split; [exact Hnot|]. split; [exact Hp|].
    destruct (array_index k) as [n|].
    + apply keys_insert_index.
    + exists (keys fields), []. unfold keys. rewrite map_app, app_nil_r.
      split; reflexivity.
Qed.

Lemma obj_get_update_key k k' v fields :
  has_key k' fields = true ->
  obj_get k (update_key k' v fields)
  = if str_eqb k k' then Some v else obj_get k fields.
Proof.
  induction fields as [|[k0 v0] fields IH]; cbn [has_key update_key];
    [discriminate|].
  intros Hk.
  destruct (str_eqb_spec k' k0) as [->|Hne]; cbn [obj_get].
  - destruct (str_eqb k k0); reflexivity.
  - cbn [orb] in Hk. rewrite (IH Hk).
    destruct (str_eqb_spec k k0) as [->|Hne0]; [|reflexivity].
    destruct (str_eqb_spec k0 k') as [->|_]; [contradiction | reflexivity].
Qed.

Lemma obj_get_fresh k k' fields :
  has_key k' fields = false -> str_eqb k k' = true ->
  obj_get k fields = None.
Proof.
  intros Hk E. destruct (str_eqb_spec k k') as [->|]; [|discriminate].
  induction fields as [|[k0 v0] fields IH]; cbn [obj_get has_key] in *;
    [reflexivity|].
  apply orb_false_iff in Hk as [H0 Hk]. rewrite H0. apply IH, Hk.
Qed.

Lemma obj_get_insert_index k n k' v fields :
  has_key k' fields = false ->
  obj_get k (insert_index n k' v fields)
  = if str_eqb k k' then Some v else obj_get k fields.
Proof.
  induction fields as [|[k0 v0] fields IH]; intros Hk; cbn [insert_index].
  - reflexivity.
  - destruct (array_index k0) as [m|]; [destruct (m <? n)%N|];
      try reflexivity.
    cbn [obj_get]. cbn [has_key] in Hk.
    apply orb_false_iff in Hk as [H0 Hk]. rewrite (IH Hk).
    destruct (str_eqb_spec k k0) as [->|Hne0]; [|reflexivity].
    rewrite str_eqb_sym, H0. reflexivity.
Qed.

Lemma obj_get_append k k' v fields :
  has_key k' fields = false ->
  obj_get k (fields ++ [(k', v)])
  = if str_eqb k k' then Some v else obj_get k fields.
Proof.
  induction fields as [|[k0 v0] fields IH]; intros Hk; cbn [app obj_get].
  - destruct (str_eqb k k'); reflexivity.
  - cbn [has_key] in Hk. apply orb_false_iff in Hk as [H0 Hk].
    rewrite (IH Hk).
    destruct (str_eqb_spec k k0) as [->|Hne0]; [|reflexivity].
    rewrite str_eqb_sym, H0. reflexivity.
Qed.

(** Reading after writing. *)
Lemma obj_get_obj_set k k' v fields :
  obj_get k (obj_set k' v fields)
  = if str_eqb k' (js "__proto__") then obj_get k fields
    else if str_eqb k k' then Some v else obj_get k fields.
Proof.
  unfold obj_set.
  destruct (str_eqb k' (js "__proto__")); [reflexivity|].
  destruct (has_key k' fields) eqn:Eh.
  - apply obj_get_update_key, Eh.
  - destruct (array_index k') as [n|].
    + apply obj_get_insert_index, Eh.
    + apply obj_get_append, Eh.
Qed.

Lemma obj_get_In k v fields :
  obj_get k fields = Some v -> In (k, v) fields.
Proof.
  induction fields as [|[k0 v0] fields IH]; cbn [obj_get]; [discriminate|].
  destruct (str_eqb_spec k k0) as [->|_].
  - intros E. injection E as ->. left. reflexivity.
  - intros E. right. apply IH, E.
Qed.

Lemma In_obj_get k v fields :
  NoDup (keys fields) -> In (k, v) fields -> obj_get k fields = Some v.
Proof.
  induction fields as [|[k0 v0] fields IH]; cbn [keys map fst obj_get];
    [intros _ []|].
  intros Hnd [E|Hin].
  - injection E as -> ->.
    destruct (str_eqb_spec k k) as [_|]; [reflexivity | contradiction].
  - inversion Hnd as [|? ? Hnot Hnd']; subst.
    destruct (str_eqb_spec k k0) as [->|_].
    + exfalso. apply Hnot. change (In (fst (k0, v)) (map fst fields)).
      apply in_map, Hin.
    + apply IH; assumption.
Qed.

End ObjectFacts.

Section MetaTags.

(** The name and the value that a match of the meta-tag pattern
    carries, and the matches that [extractContentFromHTML] goes through. *)
Definition tag_name (m : rmatch_result) : jsstring :=
  or_empty (cap_get 1 (m_caps m)).

Definition tag_value (m : rmatch_result) : jsstring :=
  or_empty (cap_get 2 (m_caps m)).

Definition metaMatches (html : jsstring) : list rmatch_result :=
  firstn 15 (matchAll true metaTag_re html).

Definition quote_free (t : jsstring) : Prop :=
  Forall (fun x => x <> squote /\ x <> dquote) t.

Lemma metaTags_fold html :
  metaTags html
  = fold_left (fun tags m => obj_set (tag_name m) (JStr (tag_value m)) tags)
              (metaMatches html) [].
Proof. reflexivity. Qed.

Lemma metaMatches_length html : length (metaMatches html) <= 15.
Proof. apply firstn_le_length. Qed.

(** Both groups take part in every match; the name is a non-empty run
    of characters other than quotes, the value a run of such
    characters. *)
Lemma metaMatches_captures html m :
  In m (metaMatches html) ->
  (exists t, cap_get 1 (m_caps m) = Some t)
  /\ (exists t, cap_get 2 (m_caps m) = Some t)
  /\ tag_name m <> [] /\ quote_free (tag_name m) /\ quote_free (tag_value m).
Proof.
  intros Hin.
  assert (Hall : In m (matchAll true metaTag_re html)).
  { unfold metaMatches in Hin.
    rewrite <- (firstn_skipn 15 (matchAll true metaTag_re html)).
    apply in_or_app. left. exact Hin. }
  pose (Q := fun (n : nat) (t : jsstring) =>
               quote_free t /\ (n = 1 -> t <> [])).
  assert (Hr : respects true html Q metaTag_re).
  { cbn. repeat split; auto.
    - apply matches_plus_class in H as [_ H].
      eapply Forall_impl; [|exact H]. intros x. apply not_quote_char.
    - intros _. apply matches_plus_class in H as [H _]. exact H.
    - apply matches_star_class in H.
      eapply Forall_impl; [|exact H]. intros x. apply not_quote_char.
    - discriminate. }
  pose proof (@matchAll_sound true html Q metaTag_re Hr) as Hs.
  rewrite Forall_forall in Hs. destruct (Hs m Hall) as (Hc & Hd).
  destruct (Hd 1 eq_refl) as [t1 E1]. destruct (Hd 2 eq_refl) as [t2 E2].
  destruct (cap_get_ok 1 Hc E1) as [Hq1 Hn1].
  destruct (cap_get_ok 2 Hc E2) as [Hq2 _].
  unfold tag_name, tag_value. rewrite E1, E2. cbn [or_empty].
  split; [eauto|]. split; [eauto|]. auto.
Qed.

Definition put (tags : list (jsstring * json)) (m : rmatch_result)
  : list (jsstring * json) :=
  obj_set (tag_name m) (JStr (tag_value m)) tags.

Lemma put_length tags m : length (put tags m) <= S (length tags).
Proof.
  unfold put.
  assert (H : forall f : list (jsstring * json), length f = length (keys f))
    by (intros f; unfold keys; symmetry; apply length_map).
  rewrite !H.
  destruct (keys_obj_set (tag_name m) (JStr (tag_value m)) tags)
    as [->|(_ & _ & l1 & l2 & -> & ->)].
  - lia.
  - rewrite !length_app. cbn [length]. lia.
Qed.

Lemma fold_put_length ms :
  forall tags, length (fold_left put ms tags) <= length tags + length ms.
Proof.
  induction ms as [|m ms IH]; intros tags; cbn [fold_left length]; [lia|].
  pose proof (IH (put tags m)). pose proof (put_length tags m). lia.
Qed.

Lemma put_NoDup tags m : NoDup (keys tags) -> NoDup (keys (put tags m)).
Proof.
  unfold put. intros Hnd.
  destruct (keys_obj_set (tag_name m) (JStr (tag_value m)) tags)
    as [->|(Hnot & _ & l1 & l2 & E1 & ->)]; [exact Hnd|].
  rewrite E1 in Hnd, Hnot.
  apply (NoDup_Add (Add_app (tag_name m) l1 l2)). split; assumption.
Qed.

Lemma fold_put_NoDup ms :
  forall tags, NoDup (keys tags) -> NoDup (keys (fold_left put ms tags)).
Proof.
  induction ms as [|m ms IH]; intros tags H; cbn [fold_left]; [exact H|].
  apply IH, put_NoDup, H.
Qed.

Lemma find_app (A : Type) (f : A -> bool) (l1 l2 : list A) :
  find f (l1 ++ l2)
  = match find f l1 with Some x => Some x | None => find f l2 end.
Proof.
  induction l1 as [|x l1 IH]; cbn [app find]; [reflexivity|].
  destruct (f x); [reflexivity | exact IH].
Qed.

(** An entry is the last tag written under its name. *)
Lemma fold_put_get ms k :
  forall tags,
    obj_get k (fold_left put ms tags)
    = match
        find (fun m => str_eqb k (tag_name m)
                       && negb (str_eqb (tag_name m) (js "__proto__")))
             (rev ms)
      with
      | Some m => Some (JStr (tag_value m))
      | None => obj_get k tags
      end.
Proof.
  induction ms as [|m ms IH]; intros tags; cbn [fold_left rev find];
    [reflexivity|].
  rewrite IH. rewrite find_app.
  destruct (find _ (rev ms)) as [m'|]; [reflexivity|].
  cbn [find]. unfold put at 1. rewrite obj_get_obj_set.
  destruct (str_eqb (tag_name m) (js "__proto__"));
    [rewrite andb_false_r; reflexivity|].
  rewrite andb_true_r. destruct (str_eqb k (tag_name m)); reflexivity.
Qed.

(** X6. [metaTags] holds at most 15 entries under distinct names; each
    entry comes from one of the first 15 meta tags matched, with the
    name and the value the tag carries; a name is not empty, is never
    [__proto__], and neither names nor values hold a quote of either
    kind. *)
Theorem meta_tags_are_bounded_and_distinct (html : jsstring) :
  length (metaTags html) <= 15
  /\ NoDup (keys (metaTags html))
  /\ forall k v,
       In (k, v) (metaTags html) ->
       exists m,
         In m (metaMatches html)
         /\ k = tag_name m /\ v = JStr (tag_value m)
         /\ k <> [] /\ k <> js "__proto__"
         /\ quote_free k /\ quote_free (tag_value m).
Proof.
  rewrite metaTags_fold. fold put.
  assert (Hnd : NoDup (keys (fold_left put (metaMatches html) [])))
    by (apply fold_put_NoDup; constructor).
  split.
  { pose proof (fold_put_length (metaMatches html) []).
    pose proof (metaMatches_length html). cbn [length] in *. lia. }
  split; [exact Hnd|].
  intros k v Hin.
  apply In_obj_get in Hin; [|exact Hnd].
  rewrite fold_put_get in Hin.
  destruct (find _ (rev (metaMatches html))) as [m|] eqn:Ef;
    [|discriminate Hin].
  injection Hin as <-.
  apply find_some in Ef as [Hm Hk].
  apply in_rev in Hm.
  apply andb_true_iff in Hk as [Hk Hp].
  destruct (str_eqb_spec k (tag_name m)) as [->|]; [|discriminate Hk].
  destruct (str_eqb_spec (tag_name m) (js "__proto__")) as [|Hne];
    [discriminate Hp|].
  destruct (metaMatches_captures html m Hm) as (_ & _ & H1 & H2 & H3).
  exists m. repeat split; assumption.
Qed.

(** X7. When several of the first 15 meta tags carry the same name, the
    entry under that name holds the value of the last of them (a tag
    named [__proto__] leaves no entry). *)
Theorem last_meta_tag_wins (html : jsstring)
        (earlier later : list rmatch_result) (m : rmatch_result) :
  metaMatches html = earlier ++ m :: later ->
  tag_name m <> js "__proto__" ->
  (forall m', In m' later -> tag_name m' <> tag_name m) ->
  obj_get (tag_name m) (metaTags html) = Some (JStr (tag_value m)).
Proof.
  intros Hms Hp Hlast.
  rewrite metaTags_fold. fold put. rewrite fold_put_get, Hms.
  rewrite rev_app_distr. cbn [rev]. rewrite <- app_assoc. cbn [app].
  rewrite find_app.
  destruct (find _ (rev later)) as [m'|] eqn:Ef.
  - exfalso. apply find_some in Ef as [Hin Hk].
    apply in_rev in Hin. apply andb_true_iff in Hk as [Hk _].
    destruct (str_eqb_spec (tag_name m) (tag_name m')) as [E|];
      [|discriminate Hk].
    apply (Hlast m' Hin). symmetry. exact E.
  - cbn [find].
    destruct (str_eqb_spec (tag_name m) (tag_name m)) as [_|]; [|contradiction].
    destruct (str_eqb_spec (tag_name m) (js "__proto__")); [contradiction|].
    reflexivity.
Qed.

End MetaTags.

(* ================================================================== *)
(** * Properties of the arithmetic *)
(* ================================================================== *)

Section DigitsFacts.

(** The decimal rendering of integers, used for counters and rates,
    always has fuel to spare and reads back as the number printed. *)

Lemma log2_tenth n : (10 <= n)%N -> (N.log2 (n / 10) < N.log2 n)%N.
Proof.
  intros Hn.
  assert (Hpos : (0 < n / 10)%N).
  { apply N.div_str_pos. lia. }
  apply N.log2_lt_pow2; [exact Hpos|].
  destruct (N.log2_spec n ltac:(lia)) as [_ Hhi].
  rewrite N.pow_succ_r' in Hhi.
  apply N.Div0.div_lt_upper_bound. lia.
Qed.

(** The fuel of [of_N] is enough. *)
Lemma digits_aux_fuel :
  forall k n fuel1 fuel2 acc,
    N.to_nat (N.log2 n) <= k ->
    N.to_nat (N.log2 n) < fuel1 -> N.to_nat (N.log2 n) < fuel2 ->
    digits_aux fuel1 n acc = digits_aux fuel2 n acc.
Proof.
  induction k as [|k IH]; intros n fuel1 fuel2 acc Hk H1 H2;
    (destruct fuel1 as [|f1]; [lia|]); (destruct fuel2 as [|f2]; [lia|]);
    cbn [digits_aux]; destruct (N.ltb_spec n 10) as [Hlt|Hge];
    try reflexivity; pose proof (log2_tenth Hge).
  - lia.
  - apply IH; lia.
Qed.

Lemma decimal_value_app a s1 s2 :
  decimal_value a (s1 ++ s2) = decimal_value (decimal_value a s1) s2.
Proof.
  revert a. induction s1 as [|c s1 IH]; intros a; [reflexivity|].
  cbn [app decimal_value]. apply IH.
Qed.

Lemma digits_aux_acc fuel :
  forall n acc, digits_aux fuel n acc = digits_aux fuel n [] ++ acc.
Proof.
  induction fuel as [|fuel IH]; intros n acc; [reflexivity|].
  cbn [digits_aux]. destruct (n <? 10)%N; [reflexivity|].
  rewrite (IH _ (_ :: acc)), (IH _ [_]), <- app_assoc. reflexivity.
Qed.

Lemma digits_aux_value :
  forall k n fuel,
    N.to_nat (N.log2 n) <= k -> N.to_nat (N.log2 n) < fuel ->
    decimal_value 0 (digits_aux fuel n []) = n.
Proof.
  induction k as [|k IH]; intros n fuel Hk Hf;
    (destruct fuel as [|f]; [lia|]);
    cbn [digits_aux]; destruct (N.ltb_spec n 10) as [Hlt|Hge].
  - cbn [decimal_value]. rewrite N.mod_small by exact Hlt. lia.
  - pose proof (log2_tenth Hge). lia.
  - cbn [decimal_value]. rewrite N.mod_small by exact Hlt. lia.
  - pose proof (log2_tenth Hge) as Hlog.
    rewrite digits_aux_acc, decimal_value_app, IH by lia.
    cbn [decimal_value].
    rewrite (N.add_comm 48), N.add_sub.
    symmetry. apply N.div_mod. discriminate.
Qed.

(** Reading back the decimal form of a number gives the number. *)
Lemma of_N_value n : decimal_value 0 (JS.of_N n) = n.
Proof.
  unfold JS.of_N. apply (digits_aux_value (k := N.to_nat (N.log2 n))); lia.
Qed.

End DigitsFacts.

Section FloatFacts.
Import Float.
Local Open Scope N_scope.

Lemma log2_bounds n : 0 < n -> 2 ^ N.log2 n <= n < 2 ^ (N.log2 n + 1).
Proof.
  intros H. destruct (N.log2_spec n H) as [H1 H2].
  rewrite N.add_1_r. split; assumption.
Qed.

(** Between consecutive powers of two: the scaled quotient by [2^(d-52)]
    lies in [2^51, 2^53). *)
Lemma scaled_first_guess p q :
  0 < p -> 0 < q ->
  let d := (Z.of_N (N.log2 p) - Z.of_N (N.log2 q))%Z in
  let (num, den) := scaled p q (d - 52) in
  0 < den /\ 2 ^ 51 * den <= num /\ num < 2 ^ 53 * den.
Proof.
  intros Hp Hq d.
  destruct (log2_bounds Hp) as [Hp1 Hp2].
  destruct (log2_bounds Hq) as [Hq1 Hq2].
  set (a := N.log2 p) in *. set (b := N.log2 q) in *.
  assert (H52 : 2 ^ 52 = 2 * 2 ^ 51) by reflexivity.
  assert (H53 : 2 ^ 53 = 4 * 2 ^ 51) by reflexivity.
  assert (Hc : 0 < 2 ^ 51) by reflexivity.
  rewrite H53. set (c := 2 ^ 51) in *.
  unfold scaled. destruct (Z.leb_spec 0 (d - 52)) as [He|He].
  - assert (E : Z.to_N (d - 52) + b + 52 = a) by (unfold d in *; lia).
    set (k := Z.to_N (d - 52)) in *.
    rewrite <- E in Hp1, Hp2.
    rewrite !N.pow_add_r in Hp1. rewrite !N.pow_add_r in Hp2.
    change (2 ^ 1) with 2 in *.
    assert (Hk : 0 < 2 ^ k) by (apply N.neq_0_lt_0, N.pow_nonzero; lia).
    assert (Hb : 0 < 2 ^ b) by (apply N.neq_0_lt_0, N.pow_nonzero; lia).
    rewrite N.pow_add_r in Hq2. change (2 ^ 1) with 2 in *.
    rewrite H52 in Hp1, Hp2.
    set (A := 2 ^ k) in *. set (B := 2 ^ b) in *.
    assert (H1 : q * A <= 2 * B * A) by (apply N.mul_le_mono_r; lia).
    assert (H2 : B * A <= q * A) by (apply N.mul_le_mono_r; lia).
    assert (H3 : 0 < q * A) by (apply N.mul_pos_pos; assumption).
    assert (H4 : c * (q * A) <= c * (2 * B * A))
      by (apply N.mul_le_mono_l; exact H1).
    assert (H5 : 4 * c * (B * A) <= 4 * c * (q * A))
      by (apply N.mul_le_mono_l; exact H2).
    split; [exact H3|]. split; lia.
  - assert (E : a + Z.to_N (- (d - 52)) = b + 52) by (unfold d in *; lia).
    set (k := Z.to_N (- (d - 52))) in *.
    assert (Hk : 0 < 2 ^ k) by (apply N.neq_0_lt_0, N.pow_nonzero; lia).
    assert (Hb : 0 < 2 ^ b) by (apply N.neq_0_lt_0, N.pow_nonzero; lia).
    assert (Ha : 0 < 2 ^ a) by (apply N.neq_0_lt_0, N.pow_nonzero; lia).
    assert (E2 : 2 ^ a * 2 ^ k = 2 ^ b * (2 * c)).
    { rewrite <- H52, <- !N.pow_add_r. f_equal. exact E. }
    rewrite N.pow_add_r in Hq2, Hp2. change (2 ^ 1) with 2 in *.
    set (A := 2 ^ k) in *. set (B := 2 ^ b) in *. set (P := 2 ^ a) in *.
    assert (H1 : P * A <= p * A) by (apply N.mul_le_mono_r; lia).
    assert (H2 : p * A < 2 * P * A) by (apply N.mul_lt_mono_pos_r; lia).
    assert (H3 : c * q < c * (B * 2)) by (apply N.mul_lt_mono_pos_l; lia).
    assert (H4 : 4 * c * B <= 4 * c * q) by (apply N.mul_le_mono_l; lia).
    split; [lia|]. split; lia.
Qed.

Lemma scaled_step p q e :
  0 < q ->
  let (n0, d0) := scaled p q e in
  let (n1, d1) := scaled p q (e - 1) in
  0 < d0 /\ 0 < d1 /\ n1 * d0 = 2 * n0 * d1.
Proof.
  intros Hq. unfold scaled.
  destruct (Z.leb_spec 0 e) as [He|He];
    destruct (Z.leb_spec 0 (e - 1)) as [He'|He'].
  - replace (Z.to_N e) with (Z.to_N (e - 1) + 1) by lia.
    rewrite N.pow_add_r. change (2 ^ 1) with 2.
    assert (0 < 2 ^ Z.to_N (e - 1))
      by (apply N.neq_0_lt_0, N.pow_nonzero; lia).
    repeat split; nia.
  - assert (e = 0%Z) by lia. subst e.
    change (Z.to_N 0) with 0. change (Z.to_N (- (0 - 1))) with 1.
    change (2 ^ 0) with 1. change (2 ^ 1) with 2.
    repeat split; first [lia | ring].
  - lia.
  - replace (Z.to_N (- (e - 1))) with (Z.to_N (- e) + 1) by lia.
    rewrite N.pow_add_r. change (2 ^ 1) with 2.
    repeat split; first [lia | ring].
Qed.

(** [round_quotient p q] is a nearest binary64 value to [p / q]: with
    [num / den] the quotient scaled by the chosen power of two, the
    mantissa has 53 bits (or is [2^53]) and lies within one half of
    [num / den]; on a tie it is even. *)
Lemma round_quotient_nearest p q :
  0 < p -> 0 < q ->
  let r := round_quotient p q in
  let (num, den) := scaled p q (expo r) in
  0 < den
  /\ 2 ^ 52 <= mant r <= 2 ^ 53
  /\ 2 * mant r * den <= 2 * num + den
  /\ 2 * num <= 2 * mant r * den + den
  /\ (2 * num + den = 2 * mant r * den \/
      2 * num = 2 * mant r * den + den -> N.even (mant r) = true).
Proof.
  intros Hp Hq. unfold round_quotient.
  destruct (N.eqb_spec p 0) as [E|_]; [lia|].
  set (e0 := (Z.of_N (N.log2 p) - Z.of_N (N.log2 q) - 52)%Z).
  pose proof (scaled_first_guess Hp Hq) as H0. cbv zeta in H0.
  fold e0 in H0.
  pose proof (scaled_step p e0 Hq) as H1.
  destruct (scaled p q e0) as [n0 d0] eqn:Es0.
  assert (Hexp :
    let e := if n0 / d0 <? 2 ^ 52 then (e0 - 1)%Z else e0 in
    let (num, den) := scaled p q e in
    0 < den /\ 2 ^ 52 * den <= num /\ num < 2 ^ 53 * den).
  { destruct H0 as (Hd0 & Hlo & Hhi). cbv zeta.
    destruct (N.ltb_spec (n0 / d0) (2 ^ 52)) as [Hlt|Hge].
    - destruct (scaled p q (e0 - 1)) as [n1 d1].
      destruct H1 as (_ & Hd1 & Hrel).
      assert (Hn0 : n0 < 2 ^ 52 * d0).
      { pose proof (N.div_mod n0 d0 ltac:(lia)) as Hdm.
        pose proof (N.mod_lt n0 d0 ltac:(lia)) as Hr.
        assert (Hf : d0 * (n0 / d0 + 1) <= d0 * 2 ^ 52)
          by (apply N.mul_le_mono_l; lia).
        clear Hlo Hhi Hrel.
        generalize dependent (n0 / d0). generalize dependent (n0 mod d0).
        generalize (2 ^ 52). intros; lia. }
      change (2 ^ 52) with (2 * 2 ^ 51) in *.
      change (2 ^ 53) with (2 * (2 * 2 ^ 51)).
      set (c := 2 ^ 51) in *.
      split; [exact Hd1|].
      assert (Ha : c * d0 * (2 * d1) <= n0 * (2 * d1))
        by (apply N.mul_le_mono_r; lia).
      assert (Hb : n0 * (2 * d1) < 2 * c * d0 * (2 * d1))
        by (apply N.mul_lt_mono_pos_r; lia).
      split.
      + apply (N.mul_le_mono_pos_r _ _ d0 Hd0). lia.
      + apply (N.mul_lt_mono_pos_r d0 _ _ Hd0). lia.
    - rewrite Es0. split; [exact Hd0|]. split; [|exact Hhi].
      pose proof (N.div_mod n0 d0 ltac:(lia)) as Hdm.
      assert (Hf : d0 * 2 ^ 52 <= d0 * (n0 / d0))
        by (apply N.mul_le_mono_l; exact Hge).
      clear H1.
      generalize dependent (n0 / d0). generalize dependent (n0 mod d0).
      generalize (2 ^ 52). intros; lia. }
  cbv zeta in Hexp.
  set (e := if n0 / d0 <? 2 ^ 52 then (e0 - 1)%Z else e0) in *.
  destruct (scaled p q e) as [num den] eqn:Es.
  cbn [expo mant]. rewrite Es.
  destruct Hexp as (Hden & Hlo & Hhi).
  pose proof (N.div_mod num den ltac:(lia)) as Hdm.
  pose proof (N.mod_lt num den ltac:(lia)) as Hr.
  set (m := num / den) in *. set (r := num mod den) in *.
  assert (Hm1 : 2 ^ 52 <= m).
  { apply N.div_le_lower_bound; [lia|]. rewrite N.mul_comm. exact Hlo. }
  assert (Hm2 : m < 2 ^ 53).
  { apply N.Div0.div_lt_upper_bound. rewrite N.mul_comm. exact Hhi. }
  split; [exact Hden|].
  destruct (N.ltb_spec den (2 * r)) as [Hup|Hnup]; cbn [orb].
  - repeat split; try lia; try (intros [Ht|Ht]; exfalso; lia).
  - destruct (N.eqb_spec (2 * r) den) as [Htie|Hne]; cbn [andb].
    + destruct (N.odd m) eqn:Hodd.
      * repeat split; try lia.
        intros _. rewrite N.add_1_r, N.even_succ. exact Hodd.
      * repeat split; try lia.
        intros _. rewrite <- N.negb_odd, Hodd. reflexivity.
    + repeat split; try lia; try (intros [Ht|Ht]; exfalso; lia).
Qed.

End FloatFacts.

(* ================================================================== *)
(** * Properties of the statistics *)
(* ================================================================== *)

Section StatsProperties.

(** The rate as the specification words it: successes divided by
    attempts, times 100, printed with one decimal and a percent sign;
    ['0%'] when there was no attempt. *)
Definition rate_as_specified (c : Stats.MethodStats) : jsstring :=
  if (Stats.attempts c =? 0)%N then js "0%"
  else
    Float.toFixed1
      (Float.mul
         (Float.div (Float.of_N (Stats.successes c))
                    (Float.of_N (Stats.attempts c)))
         (Float.of_N 100))
    ++ js "%".

Lemma rate_as_specified_eq (c : Stats.MethodStats) :
  (if (0 <? Stats.attempts c)%N
   then Stats.percent (Stats.successes c) (Stats.attempts c)
   else js "0%") = rate_as_specified c.
Proof.
  unfold rate_as_specified, Stats.percent.
  destruct (N.eqb_spec (Stats.attempts c) 0) as [E|E].
  - rewrite E. reflexivity.
  - replace (0 <? Stats.attempts c)%N with true; [reflexivity|].
    symmetry. apply N.ltb_lt. lia.
Qed.

(** C7. [getStats] derives, for each of the four methods and from that
    method's own pair of counters, the rate as specified; after 3
    attempts and 1 success the rate reads 33.3%. *)
Theorem success_rates_as_specified (st : Stats.stats) :
  Stats.successRates (Stats.getStats st)
  = Stats.mkSuccessRates
      (rate_as_specified (Stats.directFetch st))
      (rate_as_specified (Stats.lightpanda st))
      (rate_as_specified (Stats.puppeteer st))
      (rate_as_specified (Stats.pdf st))
  /\ Stats.counters (Stats.getStats st) = st
  /\ rate_as_specified (Stats.mkMethodStats 3 1) = js "33.3%".
Proof.
  split; [|split].
  - unfold Stats.getStats. cbn [Stats.successRates].
    rewrite !rate_as_specified_eq. reflexivity.
  - reflexivity.
  - vm_compute. reflexivity.
Qed.

(** The quotient 1/3 and its product by 100, as binary64 computes them. *)
Example one_third_in_binary64 :
  Float.div (Float.of_N 1) (Float.of_N 3)
  = Float.Dyadic 6004799503160661 (-54)
  /\ Float.mul (Float.Dyadic 6004799503160661 (-54)) (Float.of_N 100)
     = Float.Dyadic 4691249611844266 (-47).
Proof. vm_compute. split; reflexivity. Qed.

End StatsProperties.

(* ================================================================== *)
(** * Properties of the rates *)
(* ================================================================== *)

Section RateFacts.
Import Float.
Local Open Scope N_scope.

(** The quotient of a positive counter by itself is 1. *)
Lemma round_quotient_same a :
  0 < a -> round_quotient a a = Dyadic (2 ^ 52) (-52).
Proof.
  intros Ha. unfold round_quotient.
  destruct (N.eqb_spec a 0) as [->|_]; [lia|].
  rewrite Z.sub_diag.
  change (0 - 52)%Z with (-52)%Z.
  unfold scaled.
  change (0 <=? -52)%Z with false.
  change (Z.to_N (- -52)) with 52.
  cbn match.
  rewrite (N.mul_comm a (2 ^ 52)), N.div_mul by lia.
  rewrite N.ltb_irrefl.
  change (0 <=? -52)%Z with false.
  change (Z.to_N (- -52)) with 52.
  cbn match.
  rewrite (N.mul_comm a (2 ^ 52)), N.div_mul, N.Div0.mod_mul by lia.
  destruct (N.ltb_spec a (2 * 0)) as [H|_]; [lia|].
  destruct (N.eqb_spec (2 * 0) a) as [H|_]; [lia|].
  reflexivity.
Qed.

Lemma percent_none a : Stats.percent 0 a = js "0.0%".
Proof. reflexivity. Qed.

Lemma percent_all a : 0 < a -> Stats.percent a a = js "100.0%".
Proof.
  intros Ha. unfold Stats.percent, div, of_N. cbn [mant expo].
  rewrite (round_quotient_same Ha). vm_compute. reflexivity.
Qed.

End RateFacts.

Section RateBound.
Import Float.
Local Open Scope N_scope.

Lemma round_quotient_expo p q :
  0 < p ->
  let e0 := (Z.of_N (N.log2 p) - Z.of_N (N.log2 q) - 52)%Z in
  expo (round_quotient p q) = e0 \/ expo (round_quotient p q) = (e0 - 1)%Z.
Proof.
  intros Hp e0. unfold round_quotient.
  destruct (N.eqb_spec p 0) as [E|_]; [lia|].
  fold e0.
  destruct (scaled p q e0) as [n0 d0].
  destruct (n0 / d0 <? 2 ^ 52).
  - destruct (scaled p q (e0 - 1)) as [n1 d1]. right. reflexivity.
  - destruct (scaled p q e0) as [n1 d1]. left. reflexivity.
Qed.

(** A quotient of counters that is at most 1 rounds to at most 1. *)
Lemma quotient_at_most_one s a :
  0 < s -> s <= a ->
  let r := round_quotient s a in
  (expo r <= -52)%Z
  /\ 2 ^ 52 <= mant r <= 2 ^ 53
  /\ mant r <= 2 ^ Z.to_N (- expo r).
Proof.
  intros Hs Hsa r.
  assert (Ha : 0 < a) by lia.
  assert (He : (expo r <= -52)%Z).
  { pose proof (N.log2_le_mono s a Hsa).
    destruct (round_quotient_expo a Hs) as [E|E]; fold r in E; lia. }
  pose proof (round_quotient_nearest Hs Ha) as H. cbv zeta in H. fold r in H.
  unfold scaled in H.
  destruct (Z.leb_spec 0 (expo r)) as [Hge|_]; [lia|].
  destruct H as (_ & Hm & Hup & _).
  split; [exact He|]. split; [exact Hm|].
  set (P := 2 ^ Z.to_N (- expo r)) in *. set (m := mant r) in *.
  assert (H1 : s * P <= a * P) by (apply N.mul_le_mono_r; exact Hsa).
  assert (H2 : (2 * m) * a <= (2 * P + 1) * a) by lia.
  apply N.mul_le_mono_pos_r in H2; [lia | exact Ha].
Qed.

(** Times 100, it rounds to at most 100. *)
Lemma hundredfold m :
  2 ^ 52 <= m <= 2 ^ 53 ->
  let r := round_quotient (m * 100) 1 in
  (5 <= expo r <= 7)%Z
  /\ 2 * mant r * 2 ^ Z.to_N (expo r) <= 200 * m + 2 ^ Z.to_N (expo r).
Proof.
  intros [Hlo Hhi] r.
  assert (Hp : 0 < m * 100).
  { assert (0 < 2 ^ 52) by reflexivity. lia. }
  assert (Hlog : 58 <= N.log2 (m * 100) <= 59).
  { split.
    - change 58 with (N.log2 (2 ^ 58)). apply N.log2_le_mono.
      change (2 ^ 58) with (2 ^ 52 * 64). lia.
    - apply N.lt_succ_r. change (N.succ 59) with 60.
      apply N.log2_lt_pow2; [exact Hp|].
      change (2 ^ 60) with (2 ^ 53 * 128). lia. }
  assert (He : (5 <= expo r <= 7)%Z).
  { destruct (round_quotient_expo 1 Hp) as [E|E]; fold r in E;
      change (N.log2 1) with 0 in E; lia. }
  split; [exact He|].
  pose proof (@round_quotient_nearest (m * 100) 1 Hp ltac:(lia)) as H.
  cbv zeta in H. fold r in H. unfold scaled in H.
  destruct (Z.leb_spec 0 (expo r)) as [_|Hneg]; [|lia].
  destruct H as (_ & _ & Hup & _). lia.
Qed.

(** The success rate of a stage that succeeded no more often than it was
    attempted is at most 100.0. *)
Lemma tenths_of_rate s a :
  0 < a -> s <= a ->
  tenths (mul (div (of_N s) (of_N a)) (of_N 100)) <= 1000.
Proof.
  intros Ha Hsa.
  destruct (N.eq_0_gt_0_cases s) as [->|Hs]; [vm_compute; discriminate|].
  unfold mul, div, of_N. cbn [mant expo].
  destruct (quotient_at_most_one Hs Hsa) as (He1 & Hm1 & Hle1).
  set (r1 := round_quotient s a) in *.
  destruct (hundredfold Hm1) as (He2 & Hup2).
  set (r2 := round_quotient (mant r1 * 100) 1) in *.
  unfold tenths. cbn [mant expo].
  destruct (Z.leb_spec 0 (expo r2 + (expo r1 + 0 - 0) + 0)) as [Hge|_]; [lia|].
  set (k := Z.to_N (- expo r1)) in *.
  set (j := Z.to_N (expo r2)) in *.
  replace (Z.to_N (- (expo r2 + (expo r1 + 0 - 0) + 0))) with (k - j)
    by (unfold k, j; lia).
  assert (Hkj : k = (k - j) + j) by (unfold k, j; lia).
  rewrite Hkj, N.pow_add_r in Hle1.
  set (K := 2 ^ (k - j)) in *. set (J := 2 ^ j) in *.
  assert (HJ : 0 < J) by (apply N.neq_0_lt_0, N.pow_nonzero; lia).
  assert (HK : 0 < K) by (apply N.neq_0_lt_0, N.pow_nonzero; lia).
  set (m1 := mant r1) in *. set (m2 := mant r2) in *.
  assert (H1 : (2 * m2) * J <= (200 * K + 1) * J).
  { assert (200 * m1 <= 200 * (K * J)) by lia. lia. }
  apply N.mul_le_mono_pos_r in H1; [|exact HJ].
  assert (H2 : m2 <= 100 * K) by lia.
  rewrite N.pow_add_r. change (2 ^ 1) with 2. fold K.
  apply N.lt_succ_r. apply N.Div0.div_lt_upper_bound. lia.
Qed.

End RateBound.

(* ================================================================== *)
(** * Properties of the cascade *)
(* ================================================================== *)

Import Cascade.

(** ** Lengths of serialisations *)

Section SerializeFacts.

(** Induction on JSON values, with the hypothesis available for every
    element of an array and every member of an object. *)
Section JsonInduction.
Variable P : json -> Prop.
Hypothesis Hnull : P JNull.
Hypothesis Hbool : forall b, P (JBool b).
Hypothesis Hnum : forall repr, P (JNum repr).
Hypothesis Hstr : forall s, P (JStr s).
Hypothesis Harr : forall items, Forall P items -> P (JArr items).
Hypothesis Hobj :
  forall fields, Forall (fun kv => P (snd kv)) fields -> P (JObj fields).

Fixpoint json_induction (v : json) : P v :=
  match v with
  | JNull => Hnull
  | JBool b => Hbool b
  | JNum repr => Hnum repr
  | JStr s => Hstr s
  | JArr items =>
      Harr ((fix all (l : list json) : Forall P l :=
               match l with
               | [] => Forall_nil P
               | x :: l' => Forall_cons x (json_induction x) (all l')
               end) items)
  | JObj fields =>
      Hobj ((fix all (l : list (jsstring * json))
               : Forall (fun kv => P (snd kv)) l :=
               match l with
               | [] => Forall_nil _
               | kv :: l' =>
                   Forall_cons kv (json_induction (snd kv)) (all l')
               end) fields)
  end.
End JsonInduction.

Fixpoint total_length (l : list jsstring) : nat :=
  match l with
  | [] => 0
  | x :: l' => length x + total_length l'
  end.

Lemma join_length sep x l :
  length (join sep (x :: l))
  = total_length (x :: l) + length l * length sep.
Proof.
  revert x. induction l as [|y l IH]; intros x.
  - cbn. lia.
  - change (join sep (x :: y :: l)) with (x ++ sep ++ join sep (y :: l)).
    rewrite !length_app, IH. cbn. lia.
Qed.

(** The length of a bracketed list of members. *)
Lemma wrap_length opening closing gap indent x l :
  length (wrap opening closing gap indent (x :: l))
  = length opening + length closing + total_length (x :: l)
    + match gap with
      | [] => length l
      | _ :: _ =>
          2 + length indent + length (indent ++ gap)
          + length l * (2 + length (indent ++ gap))
      end.
Proof.
  unfold wrap. destruct gap as [|g gap].
  - rewrite !length_app, join_length. cbn. lia.
  - rewrite !length_app, join_length. rewrite !length_app.
    cbn [length newline js map list_ascii_of_string]. lia.
Qed.

Lemma wrap_map_length (A : Type) (f : A -> jsstring) opening closing
      gap indent x l :
  length (wrap opening closing gap indent (map f (x :: l)))
  = length opening + length closing + total_length (map f (x :: l))
    + match gap with
      | [] => length l
      | _ :: _ =>
          2 + length indent + length (indent ++ gap)
          + length l * (2 + length (indent ++ gap))
      end.
Proof.
  cbn [map]. rewrite wrap_length, length_map. reflexivity.
Qed.

(** Pointwise comparison of the lengths of two lists of texts. *)
Lemma total_length_le (A : Type) (f g : A -> jsstring) l :
  Forall (fun x => length (f x) <= length (g x)) l ->
  total_length (map f l) <= total_length (map g l).
Proof.
  induction 1 as [|x l Hx _ IH]; cbn; lia.
Qed.

(** The compact serialisation is never longer than an indented one. *)
Lemma compact_is_shortest v :
  forall gap indent,
    length (serialize [] [] v) <= length (serialize gap indent v).
Proof.
  induction v as [ | b | repr | s | items IH | fields IH ]
    using json_induction; intros gap indent;
    try (cbn [serialize]; lia).
  - cbn [serialize].
    destruct items as [|x items]; [cbn; lia|].
    rewrite !wrap_map_length.
    assert (Hle :
      total_length (map (serialize [] ([] ++ [])) (x :: items))
      <= total_length (map (serialize gap (indent ++ gap)) (x :: items))).
    { apply total_length_le. eapply Forall_impl; [|exact IH].
      intros v Hv. apply Hv. }
    destruct gap; lia.
  - destruct fields as [|kv fields]; [cbn; lia|].
    assert (Hmember :
      forall k x, In (k, x) (kv :: fields) ->
        length (serialize [] [] x)
        <= length (serialize gap (indent ++ gap) x)).
    { intros k x Hin. rewrite Forall_forall in IH.
      exact (IH (k, x) Hin gap (indent ++ gap)). }
    clear IH. destruct gap as [|g gap]; cbn [serialize];
      rewrite !wrap_map_length;
      (apply Nat.add_le_mono; [apply Nat.add_le_mono_l | lia]);
      apply total_length_le, Forall_forall; intros [k x] Hin;
      rewrite !length_app; specialize (Hmember k x Hin);
      cbn [app] in *; change (length (@nil jschar)) with 0; lia.
Qed.

(** An indented serialisation of an object that has a member is longer
    than the compact one. *)
Lemma indented_object_is_longer kv fields g gap indent :
  length (serialize [] [] (JObj (kv :: fields)))
  < length (serialize (g :: gap) indent (JObj (kv :: fields))).
Proof.
  cbn [serialize]. rewrite !wrap_map_length.
  apply Nat.add_le_lt_mono; [apply Nat.add_le_mono_l | lia].
  apply total_length_le, Forall_forall. intros [k x] _.
  rewrite !length_app.
  pose proof (compact_is_shortest x (g :: gap) (indent ++ g :: gap)).
  cbn [app]. change (length (@nil jschar)) with 0. lia.
Qed.

(** The size reported by [tryPuppeteer] is always below the length of the
    content it returns. *)
Lemma compact_page_is_shorter (c : PageContent) :
  length (stringify (pageJson c)) < length (stringify2 (pageJson c)).
Proof.
  unfold stringify, stringify2, pageJson.
  change (js "  ") with [32%N; 32%N].
  apply indented_object_is_longer.
Qed.

End SerializeFacts.


Section CascadeProperties.

Variables W Browser : Type.
Variable env : Env W Browser.
Variable options : Options.

(** The steps of one run of a stage: the attempt, [n] calls to
    collaborators, and the success when it is counted. *)
Definition stage_trace (m : stage) (n : nat) (won : bool) : list event :=
  EvAttempt m :: repeat (EvExec m) n ++ (if won then [EvSuccess m] else []).

Definition counted (m : stage) (won : bool) (st : Stats.stats) : Stats.stats :=
  let st' := update m bump_attempts st in
  if won then update m bump_successes st' else st'.

(** A definitive success: the stage returned [success: true] and did not
    ask for a browser. *)
Definition definitive (o : outcome StageResult) : bool :=
  match o with
  | Returned r =>
      success r && negb (match needsBrowser r with Some b => b | None => false end)
  | Thrown _ => false
  end.

(** What a successful result of stage [m] holds, as far as [size] is
    concerned. *)
Definition sized (m : stage) (url : jsstring) (config : Config)
           (r : StageResult) : Prop :=
  match m with
  | DirectFetch | Lightpanda =>
      exists h, html r = Some h /\ size r = Some (length h)
  | Puppeteer =>
      html r = None /\
      exists c b w w',
        browse env b url config w = (Returned c, w')
        /\ content r = Some (stringify2 (pageJson c))
        /\ size r = Some (length (stringify (pageJson c)))
  | Pdf =>
      html r = None /\
      exists req w response w' buffer d w1 w2,
        fetch env req w = (Returned response, w')
        /\ body response = Returned buffer
        /\ pdfParse env buffer w1 = (Returned d, w2)
        /\ content r = Some (stringify2 (pdfContent url d))
        /\ size r = Some (length buffer)
  end.

(** Lightpanda and Puppeteer can throw; the other two stages catch
    everything. *)
Definition may_throw (m : stage) : bool :=
  match m with
  | Lightpanda | Puppeteer => true
  | DirectFetch | Pdf => false
  end.

Definition stage_post (m : stage) (url : jsstring) (config : Config)
           (s : state W Browser)
           (res : outcome StageResult * state W Browser) : Prop :=
  exists n,
    trace (snd res) = trace s ++ stage_trace m n (definitive (fst res))
    /\ stats (snd res) = counted m (definitive (fst res)) (stats s)
    /\ (forall r, fst res = Returned r -> success r = true ->
        sized m url config r)
    /\ (may_throw m = false -> exists r, fst res = Returned r)
    /\ (m <> DirectFetch ->
        forall r, fst res = Returned r -> needsBrowser r = None)
    /\ (m = Puppeteer -> puppeteer_available env = false ->
        fst res = Thrown (js "Puppeteer is not available")).

Ltac step :=
  match goal with
  | |- context [match ?x with _ => _ end] =>
      lazymatch x with
      | context [match _ with _ => _ end] => fail
      | _ => destruct x eqn:?
      end
  end.

Ltac run := repeat (cbn beta iota delta [world stats browser trace fst snd]; try step).

Ltac close_stage n :=
  exists n;
  cbn [definitive success needsBrowser failure negb andb stage_trace
       repeat counted app];
  repeat rewrite <- app_assoc;
  split; [reflexivity | split; [reflexivity | split; [| split; [| split]]]];
  [ let r := fresh "r" in
    let Hr := fresh "Hr" in
    let Hs := fresh "Hs" in
    intros r Hr Hs;
    try discriminate Hr;
    injection Hr as <-;
    try discriminate Hs;
    cbn [sized html size content];
    repeat first [ reflexivity | eassumption | split | eexists ]
  | cbn [may_throw]; intros; first [ discriminate | eexists; reflexivity ]
  | let r := fresh "r" in
    let Hm := fresh "Hm" in
    let Hr := fresh "Hr" in
    intros Hm r Hr;
    first [ congruence | injection Hr as <-; reflexivity ]
  | let Hm := fresh "Hm" in
    let Hav := fresh "Hav" in
    intros Hm Hav;
    first [ discriminate Hm
          | reflexivity
          | match goal with
            | E : negb (puppeteer_available _) = false |- _ =>
                rewrite Hav in E; discriminate E
            end ] ].

Ltac close_any :=
  first [ solve [close_stage 0] | solve [close_stage 1]
        | solve [close_stage 2] | solve [close_stage 3] ].

Ltac unfold_monad :=
  unfold arrayBuffer, extract;
  unfold bind, try_catch, call, call_throwing, count_attempt, count_success,
    clock, get_browser, set_browser, ret, throw.

Lemma tryDirectFetch_post url config s :
  stage_post DirectFetch url config s (tryDirectFetch env url config s).
Proof.
  unfold stage_post, tryDirectFetch. unfold_monad. run; close_any.
Qed.

Lemma tryLightpanda_post url config s :
  stage_post Lightpanda url config s (tryLightpanda env options url config s).
Proof.
  unfold stage_post, tryLightpanda. unfold_monad. run; close_any.
Qed.

Lemma tryPuppeteer_post url config s :
  stage_post Puppeteer url config s (tryPuppeteer env url config s).
Proof.
  unfold stage_post, tryPuppeteer. unfold_monad. run; close_any.
Qed.

Lemma tryPDFParse_post url config s :
  stage_post Pdf url config s (tryPDFParse env url config s).
Proof.
  unfold stage_post, tryPDFParse. unfold_monad. run; close_any.
Qed.

(** ** The shape of a run of [scrape] *)

(** One stage run: the stage, its number of calls, whether its success
    was counted. *)
Record run : Type := mkRun {
  run_stage : stage;
  run_calls : nat;
  run_won : bool
}.

Definition run_trace (x : run) : list event :=
  stage_trace (run_stage x) (run_calls x) (run_won x).

Definition run_count (st : Stats.stats) (x : run) : Stats.stats :=
  counted (run_stage x) (run_won x) st.

Definition outline (runs : list run) : list (stage * bool) :=
  map (fun x => (run_stage x, run_won x)) runs.

(** The cascade from the direct fetch on: the value of [method], that of
    [success], and the stages run with the fate of each. *)
Inductive tail_path : method -> bool -> list (stage * bool) -> Prop :=
| path_direct :
    tail_path MDirectFetch true [(DirectFetch, true)]
| path_sniffed_pdf :
    tail_path MPdf true [(DirectFetch, false); (Pdf, true)]
| path_sniffed_pdf_fails :
    tail_path MUnknown false [(DirectFetch, false); (Pdf, false)]
| path_lightpanda :
    tail_path MLightpanda true [(DirectFetch, false); (Lightpanda, true)]
| path_lightpanda_throws :
    tail_path MError false [(DirectFetch, false); (Lightpanda, false)]
| path_puppeteer :
    tail_path MPuppeteer true
      [(DirectFetch, false); (Lightpanda, false); (Puppeteer, true)]
| path_failed :
    tail_path MFailed false
      [(DirectFetch, false); (Lightpanda, false); (Puppeteer, false)]
| path_puppeteer_throws :
    tail_path MError false
      [(DirectFetch, false); (Lightpanda, false); (Puppeteer, false)].

(** The whole cascade; the first index tells whether the URL names a
    PDF. *)
Inductive cascade_path : bool -> method -> bool -> list (stage * bool) -> Prop :=
| path_pdf_url :
    cascade_path true MPdf true [(Pdf, true)]
| path_pdf_url_fails m ok p :
    tail_path m ok p -> cascade_path true m ok ((Pdf, false) :: p)
| path_other_url m ok p :
    tail_path m ok p -> cascade_path false m ok p.

Definition stage_of_method (m : method) : option stage :=
  match m with
  | MDirectFetch => Some DirectFetch
  | MLightpanda => Some Lightpanda
  | MPuppeteer => Some Puppeteer
  | MPdf => Some Pdf
  | MUnknown | MFailed | MError => None
  end.

Lemma trace_nil (T0 : list event) :
  T0 = T0 ++ flat_map run_trace [].
Proof. symmetry. apply app_nil_r. Qed.

Lemma trace_snoc (T0 X : list event) (l : list run) m n won :
  X = T0 ++ flat_map run_trace l ->
  X ++ stage_trace m n won = T0 ++ flat_map run_trace (l ++ [mkRun m n won]).
Proof.
  intros ->. rewrite flat_map_app, <- app_assoc. cbn [flat_map run_trace].
  unfold run_trace at 2. cbn [run_stage run_calls run_won].
  rewrite app_nil_r. reflexivity.
Qed.

Ltac use_post H :=
  let n := fresh "n" in
  let Ht := fresh "Ht" in
  let Hc := fresh "Hc" in
  let Hz := fresh "Hz" in
  let Hn := fresh "Hn" in
  let Hb := fresh "Hb" in
  let Hp := fresh "Hp" in
  destruct H as (n & Ht & Hc & Hz & Hn & Hb & Hp);
  cbn [fst snd definitive may_throw trace stats] in Ht, Hc, Hz, Hn, Hb, Hp;
  first [ specialize (Hp eq_refl) | clear Hp ];
  try (destruct (Hn eq_refl) as [? ?]; discriminate);
  try (rewrite (Hb ltac:(discriminate) _ eq_refl), andb_true_r in Ht, Hc;
       clear Hb);
  try specialize (Hz _ eq_refl).

Ltac stage_step :=
  match goal with
  | |- context [tryDirectFetch ?e ?u ?c ?st] =>
      let H := fresh "Hpost" in
      pose proof (tryDirectFetch_post u c st) as H;
      destruct (tryDirectFetch e u c st) as [[?r| ?msg] ?s']; use_post H
  | |- context [tryLightpanda ?e ?o ?u ?c ?st] =>
      let H := fresh "Hpost" in
      pose proof (tryLightpanda_post u c st) as H;
      destruct (tryLightpanda e o u c st) as [[?r| ?msg] ?s']; use_post H
  | |- context [tryPuppeteer ?e ?u ?c ?st] =>
      let H := fresh "Hpost" in
      pose proof (tryPuppeteer_post u c st) as H;
      destruct (tryPuppeteer e u c st) as [[?r| ?msg] ?s']; use_post H
  | |- context [tryPDFParse ?e ?u ?c ?st] =>
      let H := fresh "Hpost" in
      pose proof (tryPDFParse_post u c st) as H;
      destruct (tryPDFParse e u c st) as [[?r| ?msg] ?s']; use_post H
  end.

Ltac branch :=
  match goal with
  | |- context [(if ?b then _ else _) _] =>
      let E := fresh "E" in
      destruct b eqn:E;
      repeat match goal with
             | H : context [b] |- _ =>
                 lazymatch H with
                 | E => fail
                 | _ => rewrite E in H
                 end
             end
  | |- context [if isPdfUrl ?u then _ else _] =>
      destruct (isPdfUrl u)
  | |- context [let (_, _) := Date_now ?e ?w in _] =>
      destruct (Date_now e w) as [? ?]
  end.

Ltac leaf :=
  do 3 eexists;
  split; [reflexivity |];
  cbn [trace stats result r_method success failure];
  repeat match goal with
         | H : trace ?x = _ |- _ => rewrite H; clear H
         | H : stats ?x = _ |- _ => rewrite H; clear H
         | H : _ && _ = true |- _ =>
             apply andb_true_iff in H; destruct H as [? _]
         end;
  split; [repeat eapply trace_snoc; apply trace_nil |];
  split; [reflexivity |];
  split; [cbn [outline map app run_stage run_won];
          repeat match goal with
                 | H : success _ = _ |- _ => rewrite H
                 end;
          repeat constructor |];
  split;
  [ let Hs := fresh "Hs" in
    intros Hs;
    first [ congruence | eexists; split; [reflexivity | auto] ]
  | let Hav := fresh "Hav" in
    let Hin := fresh "Hin" in
    intros Hav Hin;
    first [ exfalso; cbn in Hin; intuition discriminate
          | match goal with
            | Hp : puppeteer_available _ = false -> _ |- _ =>
                specialize (Hp Hav);
                first [ discriminate Hp
                      | injection Hp as ->; split; reflexivity ]
            end ] ].

Ltac walk :=
  repeat (cbn beta iota delta [world stats browser trace fst snd];
          first [stage_step | branch]).

Lemma scrape_shape url opts s :
  exists r s' runs,
    scrape env options url opts s = (Returned r, s')
    /\ trace s' = trace s ++ flat_map run_trace runs
    /\ stats s' = fold_left run_count runs (stats s)
    /\ cascade_path (isPdfUrl url) (r_method r) (success (result r))
                    (outline runs)
    /\ (success (result r) = true ->
        exists m, stage_of_method (r_method r) = Some m
                  /\ sized m url (merge options opts) (result r))
    /\ (puppeteer_available env = false ->
        In Puppeteer (map fst (outline runs)) ->
        r_method r = MError
        /\ result r = failure (js "Puppeteer is not available")).
Proof.
  unfold scrape, scrape_try, fromDirectFetch, finish.
  unfold getStats, bind, try_catch, clock, ret.
  walk.
  all: leaf.
Qed.


(** ** Counters and the trace *)

Definition counter (m : stage) (st : Stats.stats) : Stats.MethodStats :=
  match m with
  | DirectFetch => Stats.directFetch st
  | Lightpanda => Stats.lightpanda st
  | Puppeteer => Stats.puppeteer st
  | Pdf => Stats.pdf st
  end.

Definition stage_eqb (a b : stage) : bool :=
  match a, b with
  | DirectFetch, DirectFetch | Lightpanda, Lightpanda
  | Puppeteer, Puppeteer | Pdf, Pdf => true
  | _, _ => false
  end.

Lemma stage_eqb_spec a b : reflect (a = b) (stage_eqb a b).
Proof. destruct a, b; constructor; congruence. Qed.

(** The number of increments of the attempt counter of [m] in a trace;
    same for its success counter. *)
Fixpoint attempts_in (m : stage) (T : list event) : N :=
  match T with
  | [] => 0
  | EvAttempt m' :: T' =>
      (if stage_eqb m' m then 1 else 0) + attempts_in m T'
  | _ :: T' => attempts_in m T'
  end.

Fixpoint successes_in (m : stage) (T : list event) : N :=
  match T with
  | [] => 0
  | EvSuccess m' :: T' =>
      (if stage_eqb m' m then 1 else 0) + successes_in m T'
  | _ :: T' => successes_in m T'
  end.

(** In [T], every occurrence of [b] comes after an occurrence of [a]. *)
Definition before (a b : event) (T : list event) : Prop :=
  forall T1 T2, T = T1 ++ b :: T2 -> In a T1.

Lemma attempts_in_app m T1 T2 :
  attempts_in m (T1 ++ T2) = (attempts_in m T1 + attempts_in m T2)%N.
Proof.
  induction T1 as [|[m'|m'|m'] T1 IH]; cbn [app attempts_in];
    rewrite ?IH; lia.
Qed.

Lemma successes_in_app m T1 T2 :
  successes_in m (T1 ++ T2) = (successes_in m T1 + successes_in m T2)%N.
Proof.
  induction T1 as [|[m'|m'|m'] T1 IH]; cbn [app successes_in];
    rewrite ?IH; lia.
Qed.

Lemma attempts_in_execs m m' n T :
  attempts_in m (repeat (EvExec m') n ++ T) = attempts_in m T.
Proof. induction n; cbn [repeat app attempts_in]; auto. Qed.

Lemma successes_in_execs m m' n T :
  successes_in m (repeat (EvExec m') n ++ T) = successes_in m T.
Proof. induction n; cbn [repeat app successes_in]; auto. Qed.

Lemma attempts_in_stage_trace m m' n won :
  attempts_in m (stage_trace m' n won) = if stage_eqb m' m then 1%N else 0%N.
Proof.
  unfold stage_trace. cbn [attempts_in]. rewrite attempts_in_execs.
  destruct won; cbn [attempts_in]; lia.
Qed.

Lemma successes_in_stage_trace m m' n won :
  successes_in m (stage_trace m' n won)
  = if stage_eqb m' m && won then 1%N else 0%N.
Proof.
  unfold stage_trace. cbn [successes_in]. rewrite successes_in_execs.
  destruct won; cbn [successes_in]; destruct (stage_eqb m' m); reflexivity.
Qed.

Lemma counter_counted m m' won st :
  Stats.attempts (counter m (counted m' won st))
  = (Stats.attempts (counter m st) + if stage_eqb m' m then 1 else 0)%N
  /\ Stats.successes (counter m (counted m' won st))
     = (Stats.successes (counter m st)
        + if stage_eqb m' m && won then 1 else 0)%N.
Proof.
  destruct m, m', won; cbn; split; lia.
Qed.

(** The counters move exactly as the trace says. *)
Lemma counters_follow_trace m runs st :
  Stats.attempts (counter m (fold_left run_count runs st))
  = (Stats.attempts (counter m st)
     + attempts_in m (flat_map run_trace runs))%N
  /\ Stats.successes (counter m (fold_left run_count runs st))
     = (Stats.successes (counter m st)
        + successes_in m (flat_map run_trace runs))%N.
Proof.
  revert st. induction runs as [|x runs IH]; intros st.
  - cbn. split; lia.
  - cbn [fold_left flat_map].
    rewrite attempts_in_app, successes_in_app.
    destruct (IH (run_count st x)) as [-> ->].
    unfold run_count, run_trace.
    destruct (counter_counted m (run_stage x) (run_won x) st) as [-> ->].
    rewrite attempts_in_stage_trace, successes_in_stage_trace.
    split; lia.
Qed.

Lemma before_app a b T1 T2 :
  before a b T1 -> In a T1 \/ before a b T2 -> before a b (T1 ++ T2).
Proof.
  intros H1 H2 X Y E.
  apply app_eq_app in E as [l [[E1 E2] | [E1 E2]]].
  - destruct l as [|b' l].
    + cbn in E2. subst T2. rewrite app_nil_r in E1. subst X.
      destruct H2 as [H2|H2]; [exact H2|].
      destruct (H2 [] Y eq_refl).
    + cbn in E2. injection E2 as <- ->. exact (H1 X l E1).
  - subst X. apply in_or_app.
    destruct H2 as [H2|H2]; [left; exact H2|].
    right. exact (H2 l Y E2).
Qed.

Lemma before_absent a b T : ~ In b T -> before a b T.
Proof.
  intros H X Y E. exfalso. apply H. rewrite E.
  apply in_or_app. right. left. reflexivity.
Qed.

Lemma in_stage_trace e m n won :
  In e (stage_trace m n won) ->
  e = EvAttempt m \/ e = EvExec m \/ (e = EvSuccess m /\ won = true).
Proof.
  unfold stage_trace. intros [H|H]; [left; congruence|].
  apply in_app_or in H as [H|H].
  - apply repeat_spec in H. right; left; exact H.
  - destruct won; [|destruct H].
    destruct H as [H|[]]. right; right; split; congruence.
Qed.

(** Within the run of a stage, the attempt is counted before any call. *)
Lemma attempt_before_exec_stage m m' n won :
  before (EvAttempt m) (EvExec m) (stage_trace m' n won).
Proof.
  intros X Y E. destruct X as [|x X].
  - discriminate E.
  - cbn in E. injection E as <- E. left.
    assert (Hin : In (EvExec m) (stage_trace m' n won)).
    { unfold stage_trace. rewrite E. right. apply in_or_app. right.
      left. reflexivity. }
    apply in_stage_trace in Hin as [Hin|[Hin|[Hin _]]]; congruence.
Qed.

Lemma attempt_before_exec m runs :
  before (EvAttempt m) (EvExec m) (flat_map run_trace runs).
Proof.
  induction runs as [|x runs IH]; cbn [flat_map].
  - intros [|? ?] ? E; discriminate E.
  - apply before_app; [apply attempt_before_exec_stage | right; exact IH].
Qed.

Lemma outline_nil runs : outline runs = [] -> runs = [].
Proof. destruct runs; [reflexivity | discriminate]. Qed.

Lemma outline_cons runs m won p :
  outline runs = (m, won) :: p ->
  exists n runs', runs = mkRun m n won :: runs' /\ outline runs' = p.
Proof.
  destruct runs as [|[m' n won'] runs]; [discriminate|].
  cbn. intros E. injection E as -> -> E. eauto.
Qed.

(** From an outline back to the runs. *)
Ltac concrete_runs :=
  repeat match goal with
         | H : outline ?l = _ :: _ |- _ =>
             apply outline_cons in H as (? & ? & -> & H)
         | H : _ :: _ = outline ?l |- _ => symmetry in H
         | H : outline ?l = [] |- _ => apply outline_nil in H; subst l
         | H : [] = outline ?l |- _ => symmetry in H
         end.

Ltac invert_path H :=
  inversion H as [ | ? ? ? Htail | ? ? ? Htail ]; subst;
  try (inversion Htail; subst);
  concrete_runs.

Ltac absent :=
  let H := fresh in
  intros H; apply in_stage_trace in H as [H|[H|[H _]]]; discriminate H.

Ltac present :=
  first [ left; reflexivity
        | apply in_or_app; first [ left; solve [present] | right; solve [present] ]
        | unfold run_trace, stage_trace; left; reflexivity ].

(** In every cascade the Lightpanda attempt is counted before the
    Puppeteer attempt. *)
Lemma lightpanda_before_puppeteer u m ok runs :
  cascade_path u m ok (outline runs) ->
  before (EvAttempt Lightpanda) (EvAttempt Puppeteer)
         (flat_map run_trace runs).
Proof.
  intros H. invert_path H; cbn [flat_map]; unfold run_trace;
    cbn [run_stage run_calls run_won].
  all: repeat first
         [ apply before_absent; solve [absent]
         | apply before_app;
           [ apply before_absent; solve [absent]
           | first [ left; solve [present] | right ] ]
         | intros [|? ?] ? ?; discriminate ].
Qed.

Ltac find_attempt :=
  cbn [flat_map]; unfold run_trace; cbn [run_stage run_calls run_won];
  repeat (apply in_or_app; first [ left; left; reflexivity | right ]).

(** A success is counted for the stage that ends the cascade only. *)
Lemma success_is_final u m ok runs m' :
  cascade_path u m ok (outline runs) ->
  In (EvSuccess m') (flat_map run_trace runs) ->
  ok = true /\ stage_of_method m = Some m'.
Proof.
  intros H Hin. invert_path H; cbn [flat_map] in Hin;
    unfold run_trace in Hin; cbn [run_stage run_calls run_won] in Hin.
  all: repeat match type of Hin with
              | In _ (_ ++ _) => apply in_app_or in Hin as [Hin|Hin]
              | In _ (stage_trace _ _ _) =>
                  apply in_stage_trace in Hin as [Hin|[Hin|[Hin Hw]]];
                  try discriminate Hin; try discriminate Hw
              | In _ [] => destruct Hin
              end.
  all: injection Hin as ->; split; reflexivity.
Qed.

(** The stage named by [m], as [scrape] calls it. *)
Definition stage_call (m : stage) : jsstring -> Config -> M W Browser StageResult :=
  match m with
  | DirectFetch => tryDirectFetch env
  | Lightpanda => tryLightpanda env options
  | Puppeteer => tryPuppeteer env
  | Pdf => tryPDFParse env
  end.

Lemma stage_call_post m url config s :
  stage_post m url config s (stage_call m url config s).
Proof.
  destruct m; cbn [stage_call].
  - apply tryDirectFetch_post.
  - apply tryLightpanda_post.
  - apply tryPuppeteer_post.
  - apply tryPDFParse_post.
Qed.

(** C8. In every run of [scrape]: the Lightpanda attempt is counted
    before the Puppeteer attempt; a result with method ['failed'] comes
    only after the direct-fetch, Lightpanda and Puppeteer attempts have
    all been counted in that run; the attempt of a stage is counted
    before the stage calls any collaborator (and whenever the method is
    ['lightpanda'], ['puppeteer'], ['failed'] or ['error'], the direct
    fetch and Lightpanda were both attempted); a success is counted only
    for the stage whose definitive success ends the cascade, and each
    stage counts its success exactly when its result is a definitive
    success; the counters grow by the increments of the run, so none
    decreases. *)
Theorem cascade_counts_in_order (url : jsstring) (opts : CallOptions)
        (s : state W Browser) :
  (exists r s' T,
      scrape env options url opts s = (Returned r, s')
      /\ trace s' = trace s ++ T
      /\ before (EvAttempt Lightpanda) (EvAttempt Puppeteer) T
      /\ (r_method r = MFailed ->
          In (EvAttempt DirectFetch) T /\ In (EvAttempt Lightpanda) T
          /\ In (EvAttempt Puppeteer) T)
      /\ (r_method r = MLightpanda \/ r_method r = MPuppeteer
          \/ r_method r = MFailed \/ r_method r = MError ->
          In (EvAttempt DirectFetch) T /\ In (EvAttempt Lightpanda) T)
      /\ (forall m, before (EvAttempt m) (EvExec m) T)
      /\ (forall m, In (EvSuccess m) T ->
                    success (result r) = true
                    /\ stage_of_method (r_method r) = Some m)
      /\ (forall m,
             Stats.attempts (counter m (stats s'))
             = (Stats.attempts (counter m (stats s)) + attempts_in m T)%N
             /\ Stats.successes (counter m (stats s'))
                = (Stats.successes (counter m (stats s))
                   + successes_in m T)%N
             /\ (Stats.attempts (counter m (stats s))
                 <= Stats.attempts (counter m (stats s')))%N
             /\ (Stats.successes (counter m (stats s))
                 <= Stats.successes (counter m (stats s')))%N))
  /\ (forall m config s0,
         let res := stage_call m url config s0 in
         exists n,
           trace (snd res)
           = trace s0 ++ stage_trace m n (definitive (fst res))
           /\ stats (snd res)
              = counted m (definitive (fst res)) (stats s0)).
Proof.
  split.
  - destruct (scrape_shape url opts s)
      as (r & s' & runs & Hrun & Ht & Hc & Hpath & _ & _).
    exists r, s', (flat_map run_trace runs).
    split; [exact Hrun|]. split; [exact Ht|].
    split; [eapply lightpanda_before_puppeteer; exact Hpath|].
    split.
    { intros Hm. rewrite Hm in Hpath.
      invert_path Hpath; repeat split; find_attempt. }
    split.
    { intros [Hm|[Hm|[Hm|Hm]]]; rewrite Hm in Hpath;
        invert_path Hpath; split; find_attempt. }
    split; [intros m; apply attempt_before_exec|].
    split; [intros m Hin; eapply success_is_final; eassumption|].
    intros m. rewrite Hc.
    destruct (counters_follow_trace m runs (stats s)) as [Ha Hs].
    rewrite Ha, Hs. repeat split; lia.
  - intros m config s0 res.
    destruct (stage_call_post m url config s0) as (n & Ht & Hc & _).
    exists n. split; assumption.
Qed.

Lemma attempt_in_outline m runs :
  In (EvAttempt m) (flat_map run_trace runs) ->
  In m (map fst (outline runs)).
Proof.
  induction runs as [|x runs IH]; cbn [flat_map outline map]; [tauto|].
  intros H. apply in_app_or in H as [H|H].
  - left. apply in_stage_trace in H as [H|[H|[H _]]];
      [injection H as ->; reflexivity | discriminate H | discriminate H].
  - right. apply IH, H.
Qed.

(** The cascade from the direct fetch on, as [scrape] runs it inside its
    [try] block: it returns, and the stages it ran are one of the six
    tails. *)
Lemma fromDirectFetch_shape startTime url config s1 :
  exists r s' runs,
    try_catch (fromDirectFetch env options startTime url config)
      (fun msg =>
         bind (clock (Date_now env))
              (fun t => ret (mkScrapeResult (failure msg) MError
                               (t - startTime) None None))) s1
    = (Returned r, s')
    /\ trace s' = trace s1 ++ flat_map run_trace runs
    /\ stats s' = fold_left run_count runs (stats s1)
    /\ cascade_path false (r_method r) (success (result r)) (outline runs)
    /\ (success (result r) = true ->
        exists m, stage_of_method (r_method r) = Some m
                  /\ sized m url config (result r))
    /\ (puppeteer_available env = false ->
        In Puppeteer (map fst (outline runs)) ->
        r_method r = MError
        /\ result r = failure (js "Puppeteer is not available")).
Proof.
  unfold fromDirectFetch, finish.
  unfold getStats, bind, try_catch, clock, ret.
  walk.
  all: leaf.
Qed.

(** What follows a PDF parse that failed: the direct fetch comes next and
    is attempted once in the run, as its counter shows. *)
Definition goes_on (s s' : state W Browser) (T : list event) : Prop :=
  (exists k won T',
      T = stage_trace DirectFetch k won ++ T'
      /\ attempts_in DirectFetch T' = 0%N)
  /\ Stats.attempts (Stats.directFetch (stats s'))
     = (Stats.attempts (Stats.directFetch (stats s)) + 1)%N.

(** How [scrape] begins on a URL that names a PDF. *)
Lemma scrape_pdf_url_begins url opts s startTime w0 first s1 :
  isPdfUrl url = true ->
  Date_now env (world s) = (startTime, w0) ->
  tryPDFParse env url (merge options opts)
              (mkState w0 (stats s) (browser s) (trace s))
  = (Returned first, s1) ->
  scrape env options url opts s
  = if success first then
      let (t, w) := Date_now env (world s1) in
      (Returned (mkScrapeResult first MPdf (t - startTime) (Some MPdf)
                   (Some (Stats.getStats (stats s1)))),
       mkState w (stats s1) (browser s1) (trace s1))
    else
      try_catch (fromDirectFetch env options startTime url
                                 (merge options opts))
        (fun msg =>
           bind (clock (Date_now env))
                (fun t => ret (mkScrapeResult (failure msg) MError
                                 (t - startTime) None None))) s1.
Proof.
  intros Hurl Ed Ep.
  unfold scrape, scrape_try. rewrite Hurl.
  unfold bind at 1. unfold clock at 1. rewrite Ed.
  cbv beta iota zeta. unfold try_catch at 1. unfold bind at 1. rewrite Ep.
  destruct (success first).
  - unfold finish, getStats, bind, clock, ret.
    destruct (Date_now env (world s1)) as [t w]. reflexivity.
  - reflexivity.
Qed.

(** C1, as the code has it. For a URL that names a PDF, [scrape] runs
    the PDF parse step first: after reading the clock it calls
    [tryPDFParse], and the trace of the run begins with that attempt.  A
    parse that succeeds ends the run with its result and method ['pdf'],
    and [scrape] never returns method ['pdf'] with [success] false.  A
    parse that fails does not end the run: the direct fetch comes next
    and its attempt is counted exactly once.  When no PDF parse of the
    run succeeds (the PDF success counter does not move), the first parse
    failed, the cascade went on in that way, and the method of the result
    is not ['pdf']. *)
Theorem pdf_url_failure_continues (url : jsstring) (opts : CallOptions)
        (s : state W Browser) :
  isPdfUrl url = true ->
  exists r s' startTime w0 first s1 n T,
    scrape env options url opts s = (Returned r, s')
    /\ Date_now env (world s) = (startTime, w0)
    /\ tryPDFParse env url (merge options opts)
                   (mkState w0 (stats s) (browser s) (trace s))
       = (Returned first, s1)
    /\ trace s1 = trace s ++ stage_trace Pdf n (success first)
    /\ trace s' = trace s1 ++ T
    /\ (r_method r = MPdf -> success (result r) = true)
    /\ (success first = true ->
        T = [] /\ result r = first /\ r_method r = MPdf)
    /\ (success first = false -> goes_on s s' T)
    /\ (Stats.successes (Stats.pdf (stats s'))
        = Stats.successes (Stats.pdf (stats s)) ->
        success first = false /\ goes_on s s' T /\ r_method r <> MPdf).
Proof.
  intros Hurl.
  destruct (Date_now env (world s)) as [startTime w0] eqn:Ed.
  pose proof (tryPDFParse_post url (merge options opts)
                (mkState w0 (stats s) (browser s) (trace s))) as Hpost.
  destruct (tryPDFParse env url (merge options opts)
              (mkState w0 (stats s) (browser s) (trace s)))
    as [[first|msg] s1] eqn:Ep.
  2:{ destruct Hpost as (_ & _ & _ & _ & Hn & _).
      destruct (Hn eq_refl) as [x F]. discriminate F. }
  destruct Hpost as (n & Ht & Hc & _ & _ & Hb & _).
  cbn [fst snd definitive trace stats] in Ht, Hc.
  rewrite (Hb ltac:(discriminate) first eq_refl), andb_true_r in Ht, Hc.
  clear Hb.
  pose proof (scrape_pdf_url_begins url opts s Hurl Ed Ep) as Hrun.
  destruct (success first) eqn:Es.
  - destruct (Date_now env (world s1)) as [t w] eqn:Et.
    do 2 eexists. exists startTime, w0, first, s1, n, [].
    split; [exact Hrun|].
    cbn [trace stats result r_method]. rewrite Es.
    split; [reflexivity|]. split; [exact Ep|].
    split; [exact Ht|].
    split; [symmetry; apply app_nil_r|].
    split; [intros _; reflexivity|].
    split; [intros _; repeat split|].
    split; [intros F; discriminate F|].
    intros Hsame. exfalso. rewrite Hc in Hsame.
    destruct (stats s) as [[a1 b1] [a2 b2] [a3 b3] [a4 b4]].
    cbn in Hsame. lia.
  - destruct (fromDirectFetch_shape startTime url (merge options opts) s1)
      as (r & s' & runs & Hrest & Htr & Hst & Hpath & _ & _).
    rewrite Hrest in Hrun.
    exists r, s', startTime, w0, first, s1, n, (flat_map run_trace runs).
    rewrite Es.
    split; [exact Hrun|]. split; [reflexivity|]. split; [exact Ep|].
    split; [exact Ht|]. split; [exact Htr|].
    assert (Hgo : goes_on s s' (flat_map run_trace runs)).
    { unfold goes_on. rewrite Hst, Hc. clear Hrun Hrest Htr Hst Hc Ht.
      destruct (stats s) as [[a1 b1] [a2 b2] [a3 b3] [a4 b4]].
      invert_path Hpath; cbn [flat_map app]; unfold run_trace;
        cbn [run_stage run_calls run_won];
        (split;
         [ do 3 eexists; split; [reflexivity|];
           rewrite ?attempts_in_app, ?attempts_in_stage_trace;
           reflexivity
         | cbn; lia ]). }
    split.
    { intros Hm. rewrite Hm in Hpath. invert_path Hpath. reflexivity. }
    split; [intros F; discriminate F|].
    split; [intros _; exact Hgo|].
    intros Hsame. split; [reflexivity|]. split; [exact Hgo|].
    intros Hm. rewrite Hm in Hpath. rewrite Hst, Hc in Hsame.
    clear Hrun Hrest Htr Hst Hc Ht Hgo.
    destruct (stats s) as [[a1 b1] [a2 b2] [a3 b3] [a4 b4]].
    invert_path Hpath. cbn in Hsame. lia.
Qed.

(** C5, as the code has it. In a successful result, [size] is the length
    of [html] for the direct fetch and for Lightpanda; for Puppeteer it
    is the length of the compact serialisation of the extracted content,
    while [content] is its indented serialisation, which is longer; for
    a PDF it is the
    number of bytes downloaded.  The same holds of every successful
    result of a stage. *)
Theorem size_of_successful_result (url : jsstring) (opts : CallOptions)
        (s : state W Browser) :
  (exists r s',
      scrape env options url opts s = (Returned r, s')
      /\ (success (result r) = true ->
          match r_method r with
          | MDirectFetch | MLightpanda =>
              exists h, html (result r) = Some h
                        /\ size (result r) = Some (length h)
          | MPuppeteer =>
              html (result r) = None
              /\ exists c b w w',
                  browse env b url (merge options opts) w = (Returned c, w')
                  /\ content (result r) = Some (stringify2 (pageJson c))
                  /\ size (result r)
                     = Some (length (stringify (pageJson c)))
                  /\ length (stringify (pageJson c))
                     < length (stringify2 (pageJson c))
          | MPdf =>
              html (result r) = None
              /\ exists request w response w' buffer,
                  fetch env request w = (Returned response, w')
                  /\ body response = Returned buffer
                  /\ size (result r) = Some (length buffer)
          | MUnknown | MFailed | MError => False
          end))
  /\ (forall m config s0 r,
         fst (stage_call m url config s0) = Returned r ->
         success r = true -> sized m url config r).
Proof.
  split.
  - destruct (scrape_shape url opts s)
      as (r & s' & runs & Hrun & _ & _ & _ & Hsize & _).
    exists r, s'. split; [exact Hrun|].
    intros Hok. destruct (Hsize Hok) as (m & Hm & Hz).
    destruct (r_method r); cbn in Hm; try discriminate Hm;
      injection Hm as <-; cbn [sized] in Hz.
    + destruct Hz as (Hh & req & w & response & w' & buffer & d & w1 & w2
                      & Hfetch & Hbody & _ & _ & Hsz).
      split; [exact Hh|]. exists req, w, response, w', buffer.
      repeat split; assumption.
    + exact Hz.
    + exact Hz.
    + destruct Hz as (Hh & c & b & w & w' & Hb & Hc & Hsz).
      split; [exact Hh|]. exists c, b, w, w'.
      repeat split; try assumption. apply compact_page_is_shorter.
  - intros m config s0 r Hr Hok.
    destruct (stage_call_post m url config s0) as (n & _ & _ & Hz & _).
    exact (Hz r Hr Hok).
Qed.

(** C9. [scrape] always returns a result; an exception raised in the
    cascade becomes the result with [success] false, method ['error'] and
    the message of the exception; in particular, when the run reaches
    Puppeteer and Puppeteer is not available, the result is that of the
    error ['Puppeteer is not available']. *)
Theorem scrape_never_throws (url : jsstring) (opts : CallOptions)
        (s : state W Browser) :
  exists r s',
    scrape env options url opts s = (Returned r, s')
    /\ (forall t0 w0 msg s1,
           Date_now env (world s) = (t0, w0) ->
           scrape_try env options t0 url (merge options opts)
             (mkState w0 (stats s) (browser s) (trace s))
           = (Thrown msg, s1) ->
           result r = failure msg /\ r_method r = MError
           /\ success (result r) = false
           /\ error (result r) = Some msg)
    /\ (puppeteer_available env = false ->
        forall T, trace s' = trace s ++ T ->
        In (EvAttempt Puppeteer) T ->
        r_method r = MError
        /\ success (result r) = false
        /\ error (result r) = Some (js "Puppeteer is not available")).
Proof.
  destruct (scrape_shape url opts s)
    as (r & s' & runs & Hrun & Ht & _ & _ & _ & Hpup).
  exists r, s'. split; [exact Hrun|]. split.
  - intros t0 w0 msg s1 Hclock Htry.
    unfold scrape, bind, try_catch, clock, ret in Hrun.
    rewrite Hclock in Hrun. cbn beta iota in Hrun.
    rewrite Htry in Hrun.
    destruct (Date_now env (world s1)) as [t1 w1].
    injection Hrun as <- _. repeat split.
  - intros Hav T HT Hin.
    rewrite Ht in HT. apply app_inv_head in HT. subst T.
    destruct (Hpup Hav (attempt_in_outline _ _ Hin)) as [Hm Hres].
    rewrite Hres. repeat split. exact Hm.
Qed.

(** ** What the stages return, in more detail *)

Ltac returned H :=
  first [ discriminate H
        | injection H as <- <-;
          cbn [success size contentType pages error html content exitCode
               isPdf needsBrowser browserIndicators failure
               world stats browser trace] ].

Lemma tryPDFParse_result url config s r s1 :
  tryPDFParse env url config s = (Returned r, s1) ->
  (success r = true ->
   exists n, size r = Some n /\ (N.of_nat n <= 20 * 1024 * 1024)%N
             /\ contentType r = Some (js "application/pdf")
             /\ (exists p, pages r = Some p) /\ error r = None
             /\ html r = None)
  /\ (success r = false -> exists msg, r = failure msg)
  /\ browser s1 = browser s.
Proof.
  unfold tryPDFParse. unfold_monad. intros H. revert H. run.
  all: intros H; returned H.
  all: split; [intros Hs; try discriminate Hs|];
    [..|split; [intros Hs; try discriminate Hs; eauto | reflexivity]].
  all: eexists; split; [reflexivity|]; split;
    [|split; [reflexivity|split; [eauto|split; reflexivity]]].
  match goal with
  | E : (_ <? _)%N = false |- _ => apply N.ltb_ge in E; lia
  end.
Qed.

(** A successful PDF parse, step by step: the response that was
    downloaded, its bytes, and what the parser made of them. *)
Lemma tryPDFParse_download url config s r s1 :
  tryPDFParse env url config s = (Returned r, s1) ->
  success r = true ->
  exists w response w' buffer pdfData w1 w2,
    fetch env
          (mkRequest url
             [ (js "User-Agent", cfg_userAgent config);
               (js "Accept", js "application/pdf,*/*") ]
             (cfg_timeout config)) w
    = (Returned response, w')
    /\ ok response = true
    /\ body response = Returned buffer
    /\ pdfParse env buffer w1 = (Returned pdfData, w2)
    /\ size r = Some (length buffer)
    /\ (N.of_nat (length buffer) <= 20 * 1024 * 1024)%N
    /\ pages r = Some (numpages pdfData)
    /\ content r = Some (stringify2 (pdfContent url pdfData)).
Proof.
  unfold tryPDFParse. unfold_monad. intros H. revert H. run.
  all: intros H; returned H.
  all: intros Hs; try discriminate Hs.
  do 7 eexists.
  split; [eassumption|].
  split; [match goal with
          | E : negb (ok _) = false |- _ =>
              apply negb_false_iff in E; exact E
          end|].
  split; [eassumption|].
  split; [eassumption|].
  split; [reflexivity|].
  split; [match goal with
          | E : (_ <? _)%N = false |- _ => apply N.ltb_ge in E; lia
          end|].
  split; reflexivity.
Qed.

Lemma tryLightpanda_result url config s res s1 :
  tryLightpanda env options url config s = (res, s1) ->
  browser s1 = browser s
  /\ (forall r, res = Returned r -> success r = true ->
      exists path w1 w2 w3 output errorOutput,
        lightpandaPath options = Some path /\ path <> []
        /\ statSync env path w1 = (StatIs true, w2)
        /\ spawn env path [js "fetch"; js "--dump"; url]
                 (cfg_timeout config + 1000) w2
           = (Closed (Some 0%N) output errorOutput, w3)
        /\ output <> []
        /\ html r = Some output /\ size r = Some (length output)
        /\ exitCode r = Some (Some 0%N))
  /\ (forall r, res = Returned r -> success r = false ->
      exists msg, error r = Some msg)
  /\ (forall msg, res = Thrown msg ->
      exists path w w',
        lightpandaPath options = Some path
        /\ spawn env path [js "fetch"; js "--dump"; url]
                 (cfg_timeout config + 1000) w
           = (SpawnThrows msg, w'))
  /\ (lightpandaPath options = None \/ lightpandaPath options = Some [] ->
      res = Returned (failure (js "Lightpanda binary not found. Please install Lightpanda or provide path."))
      /\ world s1 = world s
      /\ trace s1 = trace s ++ [EvAttempt Lightpanda]).
Proof.
  unfold tryLightpanda. unfold_monad. intros H. revert H. run.
  all: intros H; injection H as <- <-;
    cbn [world stats browser trace].
  all: split; [reflexivity|].
  all: split;
    [ let r := fresh "r" in
      let Hr := fresh "Hr" in
      let Hs := fresh "Hs" in
      intros r Hr Hs;
      first [ discriminate Hr
            | injection Hr as <-;
              first [ discriminate Hs
                    | cbn [html size exitCode];
                      do 6 eexists;
                      repeat (split; [first [ reflexivity | eassumption
                                            | discriminate ]|]);
                      reflexivity ] ]
    | ].
  all: split;
    [ let r := fresh "r" in
      let Hr := fresh "Hr" in
      let Hs := fresh "Hs" in
      intros r Hr Hs;
      first [ discriminate Hr
            | injection Hr as <-;
              first [ discriminate Hs | eexists; reflexivity ] ]
    | ].
  all: split;
    [ let msg := fresh "msg" in
      let Hr := fresh "Hr" in
      intros msg Hr;
      first [ discriminate Hr
            | injection Hr as <-;
              do 3 eexists; split; [reflexivity | eassumption] ]
    | ].
  all: intros [Hp|Hp]; try discriminate Hp;
    repeat split; rewrite <- ?app_assoc; reflexivity.
Qed.

Lemma tryPuppeteer_result url config s res s1 :
  tryPuppeteer env url config s = (res, s1) ->
  (forall msg, res = Thrown msg ->
   puppeteer_available env = false
   /\ msg = js "Puppeteer is not available"
   /\ browser s1 = browser s)
  /\ (forall b, browser s = Some b -> browser s1 = Some b)
  /\ (puppeteer_available env = false -> browser s1 = browser s)
  /\ (forall r, res = Returned r -> success r = false ->
      exists msg, r = failure msg).
Proof.
  unfold tryPuppeteer. unfold_monad. intros H. revert H. run.
  all: intros H; injection H as <- <-;
    cbn [world stats browser trace].
  all: split;
    [ let msg := fresh "msg" in
      let Hr := fresh "Hr" in
      intros msg Hr; try discriminate Hr; injection Hr as <-;
      repeat split;
      match goal with
      | E : negb _ = true |- _ => apply negb_true_iff in E; exact E
      end
    | ].
  all: split; [intros b0 Hb; first [ exact Hb | congruence ]|].
  all: split;
    [ intros Hav;
      first [ reflexivity
            | match goal with
              | E : negb _ = false |- _ =>
                  rewrite Hav in E; discriminate E
              end ]
    | ].
  all: intros r0 Hr Hs; try discriminate Hr; injection Hr as <-;
    try discriminate Hs; eauto.
Qed.

Lemma tryDirectFetch_result url config s r s1 :
  tryDirectFetch env url config s = (Returned r, s1) ->
  browser s1 = browser s
  /\ (isPdf r = true -> success r = false)
  /\ (success r = false -> exists msg, error r = Some msg)
  /\ (success r = true ->
      exists h, html r = Some h
                /\ needsBrowser r = Some (detectBrowserRequirement h url)
                /\ (needsBrowser r = Some true ->
                    content r = None
                    /\ browserIndicators r = Some (getBrowserIndicators h))
                /\ (needsBrowser r = Some false ->
                    browserIndicators r = None
                    /\ exists c t, content r = Some c
                                   /\ contentType r = Some t /\ t <> [])).
Proof.
  unfold tryDirectFetch. unfold_monad. intros H. revert H. run.
  all: intros H; returned H.
  all: split; [reflexivity|].
  all: split; [intros Hp; first [ reflexivity | discriminate Hp ]|].
  all: split; [intros Hs; first [ discriminate Hs | eauto ]|].
  all: intros Hs; try discriminate Hs.
  all: eexists; split; [reflexivity|].
  all: match goal with
       | E : negb (detectBrowserRequirement _ _) = _ |- _ =>
           first [ apply (proj1 (negb_true_iff _)) in E
                 | apply (proj1 (negb_false_iff _)) in E ];
           rewrite E
       end.
  all: split; [reflexivity|].
  all: split; intros Hn; try discriminate Hn; split; try reflexivity.
  all: do 2 eexists; split; [reflexivity|]; split; [reflexivity|].
  all: unfold or_else; destruct (header_content_type _) as [t|];
    [destruct t|];
    intros Hne; first [ discriminate Hne | vm_compute in Hne; discriminate Hne ].
Qed.

(** ** The result and the stage it comes from *)

(** The stage whose result a result with method [m] carries. *)
Definition final_stage (m : method) : option stage :=
  match m with
  | MPdf | MUnknown => Some Pdf
  | MDirectFetch => Some DirectFetch
  | MLightpanda => Some Lightpanda
  | MPuppeteer | MFailed => Some Puppeteer
  | MError => None
  end.

Ltac stage_case :=
  match goal with
  | |- context [tryDirectFetch ?e ?u ?c ?st] =>
      let E := fresh "E" in
      destruct (tryDirectFetch e u c st) as [[?r| ?msg] ?s1] eqn:E;
      [ pose proof (proj1 (@tryDirectFetch_result u c st _ _ E)) | ]
  | |- context [tryLightpanda ?e ?o ?u ?c ?st] =>
      let E := fresh "E" in
      destruct (tryLightpanda e o u c st) as [[?r| ?msg] ?s1] eqn:E;
      pose proof (proj1 (@tryLightpanda_result u c st _ _ E))
  | |- context [tryPuppeteer ?e ?u ?c ?st] =>
      let E := fresh "E" in
      destruct (tryPuppeteer e u c st) as [[?r| ?msg] ?s1] eqn:E
  | |- context [tryPDFParse ?e ?u ?c ?st] =>
      let E := fresh "E" in
      destruct (tryPDFParse e u c st) as [[?r| ?msg] ?s1] eqn:E;
      [ pose proof (proj2 (proj2 (@tryPDFParse_result u c st _ _ E))) | ]
  end.

Ltac from_stage m :=
  first [ right; exists m; do 2 eexists; cbn [stage_call final_stage];
          split; [eassumption|]; solve [repeat split; congruence]
        | left; exists m; do 3 eexists; cbn [stage_call];
          split; [eassumption|]; solve [repeat split; congruence] ].

(** Whatever [scrape] returns is the result of the last stage it ran, or
    the message of the exception that stage raised; the stages before it
    leave the browser as it was, and after it only the clock is read. *)
Lemma scrape_origin url opts s :
  exists r s',
    scrape env options url opts s = (Returned r, s')
    /\ ((exists m s0 s1 msg,
            stage_call m url (merge options opts) s0 = (Thrown msg, s1)
            /\ result r = failure msg /\ r_method r = MError
            /\ r_stats r = None /\ performance_method r = None
            /\ stats s' = stats s1 /\ browser s' = browser s1
            /\ browser s0 = browser s)
        \/ (exists m s0 s1,
               stage_call m url (merge options opts) s0
               = (Returned (result r), s1)
               /\ final_stage (r_method r) = Some m
               /\ r_stats r = Some (Stats.getStats (stats s'))
               /\ performance_method r = Some (r_method r)
               /\ stats s' = stats s1 /\ browser s' = browser s1
               /\ browser s0 = browser s)).
Proof.
  unfold scrape, scrape_try, fromDirectFetch, finish.
  unfold getStats, bind, try_catch, clock, ret.
  repeat (cbn beta iota delta [world stats browser trace fst snd];
          first [stage_case | branch]).
  all: do 2 eexists; split; [reflexivity|];
    cbn [result r_method r_stats performance_method stats browser] in *;
    first [ from_stage Pdf | from_stage DirectFetch
          | from_stage Lightpanda | from_stage Puppeteer ].
Qed.

Lemma scrape_facts url opts s :
  exists r s' runs,
    scrape env options url opts s = (Returned r, s')
    /\ trace s' = trace s ++ flat_map run_trace runs
    /\ stats s' = fold_left run_count runs (stats s)
    /\ cascade_path (isPdfUrl url) (r_method r) (success (result r))
                    (outline runs)
    /\ ((exists m s0 s1 msg,
            stage_call m url (merge options opts) s0 = (Thrown msg, s1)
            /\ result r = failure msg /\ r_method r = MError
            /\ r_stats r = None /\ performance_method r = None
            /\ stats s' = stats s1 /\ browser s' = browser s1
            /\ browser s0 = browser s)
        \/ (exists m s0 s1,
               stage_call m url (merge options opts) s0
               = (Returned (result r), s1)
               /\ final_stage (r_method r) = Some m
               /\ r_stats r = Some (Stats.getStats (stats s'))
               /\ performance_method r = Some (r_method r)
               /\ stats s' = stats s1 /\ browser s' = browser s1
               /\ browser s0 = browser s)).
Proof.
  destruct (scrape_shape url opts s)
    as (r & s' & runs & Hrun & Ht & Hc & Hpath & _).
  destruct (scrape_origin url opts s) as (r' & s'' & Hrun' & Horigin).
  rewrite Hrun in Hrun'. injection Hrun' as <- <-.
  exists r, s', runs. repeat split; assumption.
Qed.

Lemma stage_failure_has_message m url config s0 r s1 :
  stage_call m url config s0 = (Returned r, s1) ->
  success r = false -> exists msg, error r = Some msg.
Proof.
  destruct m; cbn [stage_call]; intros E Hs.
  - exact (proj1 (proj2 (proj2 (@tryDirectFetch_result _ _ _ _ _ E))) Hs).
  - exact (proj1 (proj2 (proj2 (@tryLightpanda_result _ _ _ _ _ E)))
             r eq_refl Hs).
  - destruct (proj2 (proj2 (proj2 (@tryPuppeteer_result _ _ _ _ _ E)))
                r eq_refl Hs) as [msg ->].
    exists msg. reflexivity.
  - destruct (proj1 (proj2 (@tryPDFParse_result _ _ _ _ _ E)) Hs) as [msg ->].
    exists msg. reflexivity.
Qed.

Lemma stage_never_throws m url config s0 msg s1 :
  may_throw m = false ->
  stage_call m url config s0 <> (Thrown msg, s1).
Proof.
  intros Hm E.
  destruct (stage_call_post m url config s0) as (_ & _ & _ & _ & Hn & _).
  destruct (Hn Hm) as [r Hr]. rewrite E in Hr. discriminate Hr.
Qed.

(** [scrape] always returns; a result that reports failure carries a
    message, and one that reports success carries the statistics. *)
Lemma scrape_outcome url opts s :
  exists r s',
    scrape env options url opts s = (Returned r, s')
    /\ (success (result r) = false ->
        exists msg, error (result r) = Some msg)
    /\ (success (result r) = true -> r_stats r <> None).
Proof.
  destruct (scrape_facts url opts s)
    as (r & s' & runs & Hrun & _ & _ & _ & Horigin).
  exists r, s'. split; [exact Hrun|].
  destruct Horigin as [(m & s0 & s1 & msg & _ & Hres & _)
                      |(m & s0 & s1 & Hcall & _ & Hst & _)].
  - split; intros Hs.
    + rewrite Hres. exists msg. reflexivity.
    + rewrite Hres in Hs. discriminate Hs.
  - split; intros Hs.
    + eapply stage_failure_has_message; eassumption.
    + rewrite Hst. discriminate.
Qed.

(** X8. The flags of a result agree: [success] is true exactly when the
    method names one of the four stages; a failed result always carries
    an error message; the statistics are missing exactly from a result
    with method ['error'], and otherwise they are the counters as the run
    left them, this run included. *)
Theorem result_flags_agree (url : jsstring) (opts : CallOptions)
        (s : state W Browser) :
  exists r s',
    scrape env options url opts s = (Returned r, s')
    /\ (success (result r) = true <->
        r_method r = MPdf \/ r_method r = MDirectFetch
        \/ r_method r = MLightpanda \/ r_method r = MPuppeteer)
    /\ (success (result r) = false ->
        exists msg, error (result r) = Some msg)
    /\ (r_method r = MError <-> r_stats r = None)
    /\ (r_method r <> MError ->
        r_stats r = Some (Stats.getStats (stats s'))
        /\ performance_method r = Some (r_method r)).
Proof.
  destruct (scrape_facts url opts s)
    as (r & s' & runs & Hrun & _ & _ & Hpath & Horigin).
  exists r, s'. split; [exact Hrun|].
  split.
  { clear Horigin. remember (r_method r) as m eqn:Em.
    remember (success (result r)) as ok eqn:Eok. clear Em Eok.
    invert_path Hpath; split; intros Hx;
      first [ reflexivity | discriminate Hx | tauto
            | destruct Hx as [Hx|[Hx|[Hx|Hx]]]; discriminate Hx ]. }
  split.
  { intros Hs.
    destruct Horigin as [(m & s0 & s1 & msg & _ & Hres & _)
                        |(m & s0 & s1 & Hcall & _)].
    - rewrite Hres. exists msg. reflexivity.
    - eapply stage_failure_has_message; eassumption. }
  destruct Horigin as [(m & s0 & s1 & msg & _ & _ & Hm & Hst & _)
                      |(m & s0 & s1 & _ & Hf & Hst & Hpm & _)].
  - split; [split; auto|]. intros Hne. contradiction.
  - split.
    + split; intros H; [rewrite H in Hf; discriminate Hf
                       | rewrite Hst in H; discriminate H].
    + intros _. split; assumption.
Qed.

(** No stage is attempted more than twice in a run, nor succeeds more
    than once. *)
Lemma path_counts u m ok runs st :
  cascade_path u m ok (outline runs) ->
  (attempts_in st (flat_map run_trace runs) <= 2)%N
  /\ (successes_in st (flat_map run_trace runs) <= 1)%N.
Proof.
  intros Hpath.
  destruct st; invert_path Hpath; cbn [flat_map]; unfold run_trace;
    cbn [run_stage run_calls run_won];
    rewrite ?attempts_in_app, ?successes_in_app,
      ?attempts_in_stage_trace, ?successes_in_stage_trace;
    cbn [stage_eqb andb attempts_in successes_in]; split; lia.
Qed.

(** X9. One run of [scrape] attempts the direct fetch, Lightpanda and
    Puppeteer at most once each and the PDF parser at most twice (twice
    only for a URL that names a PDF); it attempts at least one stage and
    counts at most one success. *)
Theorem stages_run_at_most_once (url : jsstring) (opts : CallOptions)
        (s : state W Browser) :
  exists r s' T,
    scrape env options url opts s = (Returned r, s')
    /\ trace s' = trace s ++ T
    /\ (attempts_in DirectFetch T <= 1)%N
    /\ (attempts_in Lightpanda T <= 1)%N
    /\ (attempts_in Puppeteer T <= 1)%N
    /\ (attempts_in Pdf T <= 2)%N
    /\ (attempts_in Pdf T = 2%N -> isPdfUrl url = true)
    /\ (1 <= attempts_in DirectFetch T + attempts_in Pdf T)%N
    /\ (successes_in DirectFetch T + successes_in Lightpanda T
        + successes_in Puppeteer T + successes_in Pdf T <= 1)%N.
Proof.
  destruct (scrape_facts url opts s)
    as (r & s' & runs & Hrun & Ht & _ & Hpath & _).
  exists r, s', (flat_map run_trace runs).
  split; [exact Hrun|]. split; [exact Ht|].
  remember (r_method r) as m eqn:Em.
  remember (success (result r)) as ok eqn:Eok. clear Em Eok.
  remember (isPdfUrl url) as u eqn:Eu. clear Eu.
  invert_path Hpath; cbn [flat_map]; unfold run_trace;
    cbn [run_stage run_calls run_won];
    rewrite ?attempts_in_app, ?successes_in_app,
      ?attempts_in_stage_trace, ?successes_in_stage_trace;
    cbn [stage_eqb andb attempts_in successes_in];
    repeat split; try lia; intros Hx; try reflexivity; try discriminate Hx;
    lia.
Qed.

(** X10. A result with method ['unknown'] is a failed PDF parse that was
    started because the direct fetch came upon a PDF: [success] is false,
    the error is the PDF parser's, and of the four stages only the direct
    fetch and the PDF parser were attempted; no browser was tried. *)
Theorem method_unknown_is_a_failed_sniffed_pdf (url : jsstring)
        (opts : CallOptions) (s : state W Browser) :
  exists r s' T,
    scrape env options url opts s = (Returned r, s')
    /\ trace s' = trace s ++ T
    /\ (r_method r = MUnknown ->
        success (result r) = false
        /\ (exists msg, result r = failure msg)
        /\ attempts_in DirectFetch T = 1%N
        /\ (1 <= attempts_in Pdf T)%N
        /\ successes_in Pdf T = 0%N
        /\ attempts_in Lightpanda T = 0%N
        /\ attempts_in Puppeteer T = 0%N).
Proof.
  destruct (scrape_facts url opts s)
    as (r & s' & runs & Hrun & Ht & _ & Hpath & Horigin).
  exists r, s', (flat_map run_trace runs).
  split; [exact Hrun|]. split; [exact Ht|].
  intros Hm.
  assert (Hfail : success (result r) = false
                  /\ exists msg, result r = failure msg).
  { assert (Hs : success (result r) = false).
    { rewrite Hm in Hpath. clear Horigin.
      remember (success (result r)) as ok eqn:Eok. clear Eok.
      invert_path Hpath; reflexivity. }
    split; [exact Hs|].
    destruct Horigin as [(m & s0 & s1 & msg & _ & _ & Hme & _)
                        |(m & s0 & s1 & Hcall & Hf & _)].
    - congruence.
    - rewrite Hm in Hf. injection Hf as <-. cbn [stage_call] in Hcall.
      exact (proj1 (proj2 (@tryPDFParse_result _ _ _ _ _ Hcall)) Hs). }
  destruct Hfail as [Hs Hmsg]. split; [exact Hs|]. split; [exact Hmsg|].
  rewrite Hm in Hpath. clear Horigin Hmsg Hs Hm.
  remember (success (result r)) as ok eqn:Eok. clear Eok.
  remember (isPdfUrl url) as u eqn:Eu. clear Eu.
  invert_path Hpath; cbn [flat_map]; unfold run_trace;
    cbn [run_stage run_calls run_won];
    rewrite ?attempts_in_app, ?successes_in_app,
      ?attempts_in_stage_trace, ?successes_in_stage_trace;
    cbn [stage_eqb andb attempts_in successes_in];
    repeat split; lia.
Qed.

(** X11. [scrape] never closes or replaces a browser it holds: a browser
    held before the run is held after it; the browser changes only in a
    run that reaches Puppeteer (method ['puppeteer'] or ['failed']), and
    never when Puppeteer is not installed. *)
Theorem scrape_keeps_its_browser (url : jsstring) (opts : CallOptions)
        (s : state W Browser) :
  exists r s',
    scrape env options url opts s = (Returned r, s')
    /\ (forall b, browser s = Some b -> browser s' = Some b)
    /\ (puppeteer_available env = false -> browser s' = browser s)
    /\ (browser s' <> browser s ->
        browser s = None
        /\ (r_method r = MPuppeteer \/ r_method r = MFailed)).
Proof.
  destruct (scrape_facts url opts s)
    as (r & s' & runs & Hrun & _ & _ & _ & Horigin).
  exists r, s'. split; [exact Hrun|].
  assert (Hcases :
    browser s' = browser s
    \/ (exists s0 s1 res,
           tryPuppeteer env url (merge options opts) s0 = (res, s1)
           /\ browser s0 = browser s /\ browser s' = browser s1
           /\ (r_method r = MPuppeteer \/ r_method r = MFailed))).
  { destruct Horigin as [(m & s0 & s1 & msg & Hcall & _ & _ & _ & _ & _ & Hb' & Hb0)
                        |(m & s0 & s1 & Hcall & Hf & _ & _ & _ & Hb' & Hb0)].
    - left. rewrite Hb', <- Hb0.
      destruct m; cbn [stage_call] in Hcall.
      + exfalso. exact (@stage_never_throws DirectFetch _ _ _ _ _ eq_refl Hcall).
      + exact (proj1 (@tryLightpanda_result _ _ _ _ _ Hcall)).
      + destruct (proj1 (@tryPuppeteer_result _ _ _ _ _ Hcall) msg eq_refl)
          as (_ & _ & Hb). exact Hb.
      + exfalso. exact (@stage_never_throws Pdf _ _ _ _ _ eq_refl Hcall).
    - destruct m; cbn [stage_call] in Hcall.
      + left. rewrite Hb', <- Hb0.
        exact (proj1 (@tryDirectFetch_result _ _ _ _ _ Hcall)).
      + left. rewrite Hb', <- Hb0.
        exact (proj1 (@tryLightpanda_result _ _ _ _ _ Hcall)).
      + right. exists s0, s1, (Returned (result r)).
        split; [exact Hcall|]. split; [exact Hb0|]. split; [exact Hb'|].
        destruct (r_method r); cbn in Hf; try discriminate Hf; auto.
      + left. rewrite Hb', <- Hb0.
        exact (proj2 (proj2 (@tryPDFParse_result _ _ _ _ _ Hcall))). }
  destruct Hcases as [Hsame|(s0 & s1 & res & Hcall & Hb0 & Hb' & Hm)].
  - split; [intros b Hb; congruence|]. split; [auto|].
    intros Hne. contradiction.
  - destruct (@tryPuppeteer_result _ _ _ _ _ Hcall) as (_ & Hkeep & Hoff & _).
    split.
    { intros b Hb. rewrite Hb'. apply Hkeep. congruence. }
    split.
    { intros Hav. rewrite Hb', <- Hb0. apply Hoff, Hav. }
    intros Hne. split; [|exact Hm].
    destruct (browser s) as [b|] eqn:Eb; [|reflexivity].
    exfalso. apply Hne. rewrite Hb'. apply Hkeep. congruence.
Qed.

(** X12. A result with method ['pdf'] is a success whose [size] is the
    number of bytes of the body that was downloaded from the URL, at most
    20 MiB; its [pages] is the number of pages that the parser found in
    those bytes, its content type is ['application/pdf'], and it holds
    no [error] and no [html]. *)
Theorem pdf_result_is_bounded (url : jsstring) (opts : CallOptions)
        (s : state W Browser) :
  exists r s',
    scrape env options url opts s = (Returned r, s')
    /\ (r_method r = MPdf ->
        success (result r) = true
        /\ (exists w response w' buffer pdfData w1 w2,
               fetch env
                     (mkRequest url
                        [ (js "User-Agent",
                            cfg_userAgent (merge options opts));
                          (js "Accept", js "application/pdf,*/*") ]
                        (cfg_timeout (merge options opts))) w
               = (Returned response, w')
               /\ ok response = true
               /\ body response = Returned buffer
               /\ pdfParse env buffer w1 = (Returned pdfData, w2)
               /\ size (result r) = Some (length buffer)
               /\ (N.of_nat (length buffer) <= 20 * 1024 * 1024)%N
               /\ pages (result r) = Some (numpages pdfData))
        /\ contentType (result r) = Some (js "application/pdf")
        /\ error (result r) = None
        /\ html (result r) = None).
Proof.
  destruct (scrape_facts url opts s)
    as (r & s' & runs & Hrun & _ & _ & Hpath & Horigin).
  exists r, s'. split; [exact Hrun|].
  intros Hm.
  assert (Hs : success (result r) = true).
  { rewrite Hm in Hpath. clear Horigin.
    remember (success (result r)) as ok eqn:Eok. clear Eok.
    invert_path Hpath; reflexivity. }
  split; [exact Hs|].
  destruct Horigin as [(m & s0 & s1 & msg & _ & _ & Hme & _)
                      |(m & s0 & s1 & Hcall & Hf & _)]; [congruence|].
  rewrite Hm in Hf. injection Hf as <-. cbn [stage_call] in Hcall.
  destruct (proj1 (@tryPDFParse_result _ _ _ _ _ Hcall) Hs)
    as (n & _ & _ & Hct & _ & He & Hh).
  destruct (@tryPDFParse_download _ _ _ _ _ Hcall Hs)
    as (w & response & w' & buffer & pdfData & w1 & w2
        & Hfetch & Hok & Hbody & Hparse & Hsize & Hle & Hpages & _).
  split.
  { exists w, response, w', buffer, pdfData, w1, w2.
    repeat (split; [assumption|]). assumption. }
  repeat split; assumption.
Qed.

(** X13. A result with method ['error'] carries the message of an
    exception that comes from one of two places: Puppeteer was reached
    and is not installed, or spawning the Lightpanda process threw. *)
Theorem error_result_has_two_origins (url : jsstring) (opts : CallOptions)
        (s : state W Browser) :
  exists r s',
    scrape env options url opts s = (Returned r, s')
    /\ (r_method r = MError ->
        exists msg,
          result r = failure msg
          /\ ((msg = js "Puppeteer is not available"
               /\ puppeteer_available env = false)
              \/ exists path w w',
                  lightpandaPath options = Some path
                  /\ spawn env path [js "fetch"; js "--dump"; url]
                           (cfg_timeout (merge options opts) + 1000) w
                     = (SpawnThrows msg, w'))).
Proof.
  destruct (scrape_facts url opts s)
    as (r & s' & runs & Hrun & _ & _ & _ & Horigin).
  exists r, s'. split; [exact Hrun|].
  intros Hm.
  destruct Horigin as [(m & s0 & s1 & msg & Hcall & Hres & _)
                      |(m & s0 & s1 & _ & Hf & _)].
  - exists msg. split; [exact Hres|].
    destruct m; cbn [stage_call] in Hcall.
    + exfalso. exact (@stage_never_throws DirectFetch _ _ _ _ _ eq_refl Hcall).
    + right.
      exact (proj1 (proj2 (proj2 (proj2 (@tryLightpanda_result _ _ _ _ _ Hcall))))
               msg eq_refl).
    + left.
      destruct (proj1 (@tryPuppeteer_result _ _ _ _ _ Hcall) msg eq_refl)
        as (Hav & Hmsg & _).
      split; assumption.
    + exfalso. exact (@stage_never_throws Pdf _ _ _ _ _ eq_refl Hcall).
  - rewrite Hm in Hf. discriminate Hf.
Qed.

(** X14. A result with method ['lightpanda'] carries, as [html], the
    non-empty output of a Lightpanda process that was given
    [fetch --dump url] and exited with code 0; an exit with code 0 and no
    output is not a success. *)
Theorem lightpanda_result_has_output (url : jsstring) (opts : CallOptions)
        (s : state W Browser) :
  exists r s',
    scrape env options url opts s = (Returned r, s')
    /\ (r_method r = MLightpanda ->
        exists path w1 w2 w3 output errorOutput,
          lightpandaPath options = Some path /\ path <> []
          /\ statSync env path w1 = (StatIs true, w2)
          /\ spawn env path [js "fetch"; js "--dump"; url]
                   (cfg_timeout (merge options opts) + 1000) w2
             = (Closed (Some 0%N) output errorOutput, w3)
          /\ output <> []
          /\ html (result r) = Some output
          /\ size (result r) = Some (length output)
          /\ exitCode (result r) = Some (Some 0%N)).
Proof.
  destruct (scrape_facts url opts s)
    as (r & s' & runs & Hrun & _ & _ & Hpath & Horigin).
  exists r, s'. split; [exact Hrun|].
  intros Hm.
  assert (Hs : success (result r) = true).
  { rewrite Hm in Hpath. clear Horigin.
    remember (success (result r)) as ok eqn:Eok. clear Eok.
    invert_path Hpath; reflexivity. }
  destruct Horigin as [(m & s0 & s1 & msg & _ & _ & Hme & _)
                      |(m & s0 & s1 & Hcall & Hf & _)]; [congruence|].
  rewrite Hm in Hf. injection Hf as <-. cbn [stage_call] in Hcall.
  exact (proj1 (proj2 (@tryLightpanda_result _ _ _ _ _ Hcall))
           (result r) eq_refl Hs).
Qed.

(** X15. No result of [scrape] says that a browser is needed: [needsBrowser]
    is [false] in a result with method ['direct-fetch'], whose markup the
    classifier cleared, and absent from every other result; the list of
    indicators that the direct fetch computes never reaches the caller. *)
Theorem needs_browser_is_never_reported (url : jsstring) (opts : CallOptions)
        (s : state W Browser) :
  exists r s',
    scrape env options url opts s = (Returned r, s')
    /\ needsBrowser (result r) <> Some true
    /\ browserIndicators (result r) = None
    /\ (r_method r = MDirectFetch ->
        needsBrowser (result r) = Some false
        /\ exists h, html (result r) = Some h
                     /\ detectBrowserRequirement h url = false)
    /\ (r_method r <> MDirectFetch -> needsBrowser (result r) = None).
Proof.
  destruct (scrape_facts url opts s)
    as (r & s' & runs & Hrun & _ & _ & Hpath & Horigin).
  exists r, s'. split; [exact Hrun|].
  destruct Horigin as [(m & s0 & s1 & msg & _ & Hres & Hme & _)
                      |(m & s0 & s1 & Hcall & Hf & _)].
  - rewrite Hres, Hme. cbn [needsBrowser browserIndicators failure].
    repeat split; discriminate.
  - assert (Hother : m <> DirectFetch ->
              needsBrowser (result r) = None
              /\ browserIndicators (result r) = None).
    { intros Hne.
      destruct (stage_call_post m url (merge options opts) s0)
        as (_ & _ & _ & _ & _ & Hb & _).
      rewrite Hcall in Hb. cbn [fst] in Hb.
      split; [exact (Hb Hne _ eq_refl)|].
      destruct m; cbn [stage_call] in Hcall; [contradiction| | |].
      - revert Hcall. clear. unfold tryLightpanda. unfold_monad. run.
        all: intros H; try discriminate H; injection H as <- _; reflexivity.
      - revert Hcall. clear. unfold tryPuppeteer. unfold_monad. run.
        all: intros H; try discriminate H; injection H as <- _; reflexivity.
      - revert Hcall. clear. unfold tryPDFParse. unfold_monad. run.
        all: intros H; try discriminate H; injection H as <- _; reflexivity. }
    destruct (stage_eqb_spec m DirectFetch) as [->|Hne].
    + assert (Hm : r_method r = MDirectFetch)
        by (destruct (r_method r); cbn in Hf; congruence).
      assert (Hdef : success (result r) = true
                     /\ needsBrowser (result r) = Some false).
      { cbn [stage_call] in Hcall.
        destruct (tryDirectFetch_post url (merge options opts) s0)
          as (n & _ & Hc & _).
        assert (Hs : success (result r) = true).
        { rewrite Hm in Hpath.
          remember (success (result r)) as ok eqn:Eok. clear - Hpath.
          invert_path Hpath; reflexivity. }
        split; [exact Hs|].
        destruct (proj2 (proj2 (proj2 (@tryDirectFetch_result _ _ _ _ _ Hcall))) Hs)
          as (h & Hh & Hnb & Htrue & Hfalse).
        destruct (detectBrowserRequirement h url) eqn:Ed; [|exact Hnb].
        exfalso. clear Htrue Hfalse.
        (* a direct fetch that asks for a browser does not end the run *)
        revert Hrun Hcall Hm Hnb. clear. intros Hrun Hcall Hm Hnb.
        unfold scrape, scrape_try, fromDirectFetch, finish in Hrun.
        unfold getStats, bind, try_catch, clock, ret in Hrun.
        revert Hrun.
        repeat (cbn beta iota delta [world stats browser trace fst snd];
                first [stage_case | branch]).
        all: intros Hrun; injection Hrun as <- _;
          cbn [result r_method] in *; try discriminate Hm.
        all: match goal with
             | E : success ?x && negb _ = true |- _ =>
                 rewrite Hnb in E; rewrite andb_false_r in E; discriminate E
             end. }
      destruct Hdef as [Hs Hnb].
      cbn [stage_call] in Hcall.
      destruct (proj2 (proj2 (proj2 (@tryDirectFetch_result _ _ _ _ _ Hcall))) Hs)
        as (h & Hh & Hnb' & _ & Hfalse).
      destruct (Hfalse Hnb) as (Hbi & _).
      split; [rewrite Hnb; discriminate|]. split; [exact Hbi|].
      split.
      * intros _. split; [exact Hnb|]. exists h. split; [exact Hh|].
        rewrite Hnb in Hnb'. injection Hnb' as <-. reflexivity.
      * intros Hx. contradiction.
    + destruct (Hother Hne) as [Hnb Hbi].
      split; [rewrite Hnb; discriminate|]. split; [exact Hbi|].
      split.
      * intros Hm. rewrite Hm in Hf. cbn in Hf. congruence.
      * intros _. exact Hnb.
Qed.

(** ** Counters and rates along a run *)

Definition rate_of (m : stage) (r : Stats.SuccessRates) : jsstring :=
  match m with
  | DirectFetch => Stats.rate_directFetch r
  | Lightpanda => Stats.rate_lightpanda r
  | Puppeteer => Stats.rate_puppeteer r
  | Pdf => Stats.rate_pdf r
  end.

Lemma rate_of_getStats m st :
  rate_of m (Stats.successRates (Stats.getStats st))
  = if (0 <? Stats.attempts (counter m st))%N
    then Stats.percent (Stats.successes (counter m st))
                       (Stats.attempts (counter m st))
    else js "0%".
Proof. destruct m; reflexivity. Qed.

Lemma successes_within_attempts m runs :
  (successes_in m (flat_map run_trace runs)
   <= attempts_in m (flat_map run_trace runs))%N.
Proof.
  induction runs as [|x runs IH]; cbn [flat_map]; [cbn; lia|].
  rewrite attempts_in_app, successes_in_app. unfold run_trace at 1 3.
  rewrite attempts_in_stage_trace, successes_in_stage_trace.
  destruct (stage_eqb (run_stage x) m), (run_won x); cbn [andb]; lia.
Qed.

(** X16. The rate that [getStats] reports for a stage is ['0%'] before the
    stage was ever attempted, ['0.0%'] once it was attempted without a
    success, and ['100.0%'] when every attempt succeeded. *)
Theorem rates_at_the_extremes (st : Stats.stats) (m : stage) :
  let c := counter m st in
  let rate := rate_of m (Stats.successRates (Stats.getStats st)) in
  (Stats.attempts c = 0%N -> rate = js "0%")
  /\ ((0 < Stats.attempts c)%N -> Stats.successes c = 0%N ->
      rate = js "0.0%")
  /\ ((0 < Stats.attempts c)%N -> Stats.successes c = Stats.attempts c ->
      rate = js "100.0%").
Proof.
  intros c rate. unfold rate. rewrite rate_of_getStats. fold c.
  split; [intros ->; reflexivity|].
  split; intros Ha Hs;
    (destruct (N.ltb_spec 0 (Stats.attempts c)) as [_|Hn]; [|lia]);
    rewrite Hs.
  - apply percent_none.
  - apply percent_all, Ha.
Qed.

(** X17. No stage ever counts more successes than attempts: [scrape] keeps
    that true of the four counter pairs, and then every rate in the
    statistics of its result is ['0%'] or a number of tenths of a percent
    between 0 and 1000, printed with one decimal: never above
    ['100.0%']. *)
Theorem successes_never_exceed_attempts (url : jsstring)
        (opts : CallOptions) (s : state W Browser) :
  (forall m, (Stats.successes (counter m (stats s))
              <= Stats.attempts (counter m (stats s)))%N) ->
  exists r s',
    scrape env options url opts s = (Returned r, s')
    /\ (forall m, (Stats.successes (counter m (stats s'))
                   <= Stats.attempts (counter m (stats s')))%N)
    /\ (forall snap m,
           r_stats r = Some snap ->
           rate_of m (Stats.successRates snap) = js "0%"
           \/ exists n,
               (n <= 1000)%N
               /\ rate_of m (Stats.successRates snap)
                  = JS.of_N (n / 10) ++ js "." ++ JS.of_N (n mod 10)
                    ++ js "%").
Proof.
  intros Hinv.
  destruct (scrape_facts url opts s)
    as (r & s' & runs & Hrun & _ & Hc & _ & Horigin).
  exists r, s'. split; [exact Hrun|].
  assert (Hinv' : forall m,
             (Stats.successes (counter m (stats s'))
              <= Stats.attempts (counter m (stats s')))%N).
  { intros m. rewrite Hc.
    destruct (counters_follow_trace m runs (stats s)) as [-> ->].
    pose proof (successes_within_attempts m runs).
    pose proof (Hinv m). lia. }
  split; [exact Hinv'|].
  intros snap m Hsnap.
  assert (Es : snap = Stats.getStats (stats s')).
  { destruct Horigin as [(m0 & s0 & s1 & msg & _ & _ & _ & Hst & _)
                        |(m0 & s0 & s1 & _ & _ & Hst & _)]; congruence. }
  subst snap. rewrite rate_of_getStats.
  destruct (N.ltb_spec 0 (Stats.attempts (counter m (stats s'))))
    as [Ha|_]; [|left; reflexivity].
  right.
  exists (Float.tenths
            (Float.mul
               (Float.div
                  (Float.of_N (Stats.successes (counter m (stats s'))))
                  (Float.of_N (Stats.attempts (counter m (stats s')))))
               (Float.of_N 100))).
  split; [apply tenths_of_rate; [exact Ha | apply Hinv']|].
  unfold Stats.percent, Float.toFixed1. rewrite <- !app_assoc. reflexivity.
Qed.

End CascadeProperties.

(* ================================================================== *)
(** * Concrete runs *)
(* ================================================================== *)

(** A world in which every HTTP request is answered 404, no Lightpanda
    binary is configured, and Puppeteer, when it is installed, finds
    nothing to browse. *)
Definition not_found : Response :=
  mkResponse false 404 (js "Not Found") None (Returned []).

Definition offline (puppeteer_installed : bool) : Env unit unit :=
  mkEnv
    (fun w => (0%Z, w))
    (fun w => (js "2025-01-01T00:00:00.000Z", w))
    (fun _ => None)
    (fun bytes => bytes)
    (fun _ w => (Returned not_found, w))
    (fun _ w => (StatThrows, w))
    (fun _ _ _ w => (SpawnThrows (js "spawn ENOENT"), w))
    puppeteer_installed
    (fun w => (Returned tt, w))
    (fun _ _ _ w => (Thrown (js "net::ERR_NAME_NOT_RESOLVED"), w))
    (fun _ w => (Thrown (js "Invalid PDF structure"), w)).

(** The same world, except that Puppeteer extracts a page that holds a
    title and one word of text. *)
Definition page_content : PageContent :=
  mkPageContent (js "Example") [] [] [] [] [] [] (js "Example")
                (js "https://shop.test/").

Definition browsable : Env unit unit :=
  mkEnv
    (fun w => (0%Z, w))
    (fun w => (js "2025-01-01T00:00:00.000Z", w))
    (fun _ => None)
    (fun bytes => bytes)
    (fun _ w => (Returned not_found, w))
    (fun _ w => (StatThrows, w))
    (fun _ _ _ w => (SpawnThrows (js "spawn ENOENT"), w))
    true
    (fun w => (Returned tt, w))
    (fun _ _ _ w => (Returned page_content, w))
    (fun _ w => (Thrown (js "Invalid PDF structure"), w)).

Definition default_options : Options :=
  mkOptions 10000
    (js "Mozilla/5.0 (compatible; BNCA/1.0; +https://github.com/your-org/bnca)")
    None false.

Definition no_options : CallOptions := mkCallOptions None None.

(** A fresh scraper. *)
Definition fresh : state unit unit := mkState tt Stats.initial None [].

Definition pdf_url : jsstring := js "https://files.test/report.pdf".
Definition shop_url : jsstring := js "https://shop.test/".

Definition once : Stats.MethodStats := Stats.mkMethodStats 1 0.

(** C1, counterexample. The URL ends in [.pdf] and the PDF parse fails
    (404), yet the run goes on through the direct fetch, Lightpanda and
    Puppeteer, and ends with method ['failed'], not ['pdf']. *)
Lemma pdf_url_falls_through :
  isPdfUrl pdf_url = true
  /\ fst (tryPDFParse (offline true) pdf_url
            (merge default_options no_options) fresh)
     = Returned (failure (js "HTTP 404: Not Found"))
  /\ exists r s',
      scrape (offline true) default_options pdf_url no_options fresh
      = (Returned r, s')
      /\ r_method r = MFailed
      /\ r_method r <> MPdf
      /\ success (result r) = false
      /\ stats s' = Stats.mkStats once once once once
      /\ trace s'
         = [ EvAttempt Pdf; EvExec Pdf;
             EvAttempt DirectFetch; EvExec DirectFetch;
             EvAttempt Lightpanda;
             EvAttempt Puppeteer; EvExec Puppeteer; EvExec Puppeteer ].
Proof.
  split; [vm_compute; reflexivity|].
  split; [vm_compute; reflexivity|].
  eexists. eexists.
  split; [vm_compute; reflexivity|].
  cbn [r_method result success failure stats trace].
  repeat split. discriminate.
Qed.

Lemma pdf_url_failure_witness :
  isPdfUrl pdf_url = true
  /\ exists r s' startTime w0 first s1 n T,
      scrape (offline true) default_options pdf_url no_options fresh
      = (Returned r, s')
      /\ Date_now (offline true) (world fresh) = (startTime, w0)
      /\ tryPDFParse (offline true) pdf_url
                     (merge default_options no_options)
                     (mkState w0 (stats fresh) (browser fresh) (trace fresh))
         = (Returned first, s1)
      /\ trace s1 = trace fresh ++ stage_trace Pdf n (success first)
      /\ trace s' = trace s1 ++ T
      /\ (r_method r = MPdf -> success (result r) = true)
      /\ (success first = true ->
          T = [] /\ result r = first /\ r_method r = MPdf)
      /\ (success first = false -> goes_on fresh s' T)
      /\ (Stats.successes (Stats.pdf (stats s'))
          = Stats.successes (Stats.pdf (stats fresh)) ->
          success first = false /\ goes_on fresh s' T /\ r_method r <> MPdf).
Proof.
  assert (Hurl : isPdfUrl pdf_url = true) by (vm_compute; reflexivity).
  split; [exact Hurl|].
  exact (pdf_url_failure_continues (offline true) default_options
           pdf_url no_options fresh Hurl).
Defined.

(** C5, counterexample. Puppeteer succeeds; the result has no [html],
    its [content] is 201 characters long and its [size] is 164. *)
Lemma puppeteer_size_is_not_content_length :
  exists r s',
    scrape browsable default_options shop_url no_options fresh
    = (Returned r, s')
    /\ success (result r) = true
    /\ r_method r = MPuppeteer
    /\ html (result r) = None
    /\ content (result r) = Some (stringify2 (pageJson page_content))
    /\ length (stringify2 (pageJson page_content)) = 201
    /\ size (result r) = Some 164.
Proof.
  eexists. eexists.
  split; [vm_compute; reflexivity|].
  cbn [r_method result success html content size].
  repeat split.
Qed.

(** What a run returned, for reading it off an equation. *)
Definition returned_method {S : Type} (p : outcome ScrapeResult * S)
  : option method :=
  match fst p with
  | Returned r => Some (r_method r)
  | Thrown _ => None
  end.

Definition returned_success {S : Type} (p : outcome ScrapeResult * S)
  : option bool :=
  match fst p with
  | Returned r => Some (success (result r))
  | Thrown _ => None
  end.

Lemma size_of_successful_result_witness :
  exists r s',
    scrape browsable default_options shop_url no_options fresh
    = (Returned r, s')
    /\ r_method r = MPuppeteer
    /\ html (result r) = None
    /\ exists c b w w',
        browse browsable b shop_url (merge default_options no_options) w
        = (Returned c, w')
        /\ content (result r) = Some (stringify2 (pageJson c))
        /\ size (result r) = Some (length (stringify (pageJson c)))
        /\ length (stringify (pageJson c))
           < length (stringify2 (pageJson c)).
Proof.
  destruct (size_of_successful_result browsable default_options shop_url
              no_options fresh) as [(r & s' & Hrun & Hsize) _].
  exists r, s'. split; [exact Hrun|].
  assert (Hm : returned_method (Returned r, s') = Some MPuppeteer)
    by (rewrite <- Hrun; vm_compute; reflexivity).
  assert (Hok : returned_success (Returned r, s') = Some true)
    by (rewrite <- Hrun; vm_compute; reflexivity).
  cbn in Hm, Hok. injection Hm as Hm. injection Hok as Hok.
  split; [exact Hm|].
  specialize (Hsize Hok). rewrite Hm in Hsize. exact Hsize.
Defined.

Lemma cascade_counts_witness :
  exists r s' T,
    scrape (offline true) default_options shop_url no_options fresh
    = (Returned r, s')
    /\ trace s' = trace fresh ++ T
    /\ r_method r = MFailed
    /\ In (EvAttempt DirectFetch) T /\ In (EvAttempt Lightpanda) T
    /\ In (EvAttempt Puppeteer) T
    /\ before (EvAttempt Lightpanda) (EvAttempt Puppeteer) T.
Proof.
  destruct (cascade_counts_in_order (offline true) default_options shop_url
              no_options fresh)
    as [(r & s' & T & Hrun & Ht & Horder & Hfailed & _) _].
  exists r, s', T. split; [exact Hrun|]. split; [exact Ht|].
  assert (Hm : returned_method (Returned r, s') = Some MFailed)
    by (rewrite <- Hrun; vm_compute; reflexivity).
  cbn in Hm. injection Hm as Hm.
  destruct (Hfailed Hm) as (H1 & H2 & H3).
  repeat split; assumption.
Defined.

Lemma scrape_never_throws_witness :
  puppeteer_available (offline false) = false
  /\ exists r s',
      scrape (offline false) default_options shop_url no_options fresh
      = (Returned r, s')
      /\ r_method r = MError
      /\ success (result r) = false
      /\ error (result r) = Some (js "Puppeteer is not available").
Proof.
  split; [reflexivity|].
  destruct (scrape_never_throws (offline false) default_options shop_url
              no_options fresh) as (r & s' & Hrun & _ & Hpup).
  exists r, s'. split; [exact Hrun|].
  apply (Hpup eq_refl
           [ EvAttempt DirectFetch; EvExec DirectFetch;
             EvAttempt Lightpanda; EvAttempt Puppeteer ]).
  - change (trace (snd (Returned r, s'))
            = trace fresh ++
              [ EvAttempt DirectFetch; EvExec DirectFetch;
                EvAttempt Lightpanda; EvAttempt Puppeteer ]).
    rewrite <- Hrun. vm_compute. reflexivity.
  - right; right; right; left; reflexivity.
Defined.

(* ================================================================== *)
(** * Properties of the life cycle *)
(* ================================================================== *)

Section LifecycleProperties.
Import Lifecycle.

Variables W Browser : Type.
Variable env : Env W Browser.
Variable options : Options.
Variable close : Browser -> W -> outcome unit * W.

(** What [cleanup] does, case by case. *)
Lemma cleanup_cases (s : state W Browser) :
  match browser s with
  | None => cleanup close s = (Returned tt, s)
  | Some b =>
      match close b (world s) with
      | (Returned _, w) =>
          cleanup close s
          = (Returned tt, mkState w (stats s) None (trace s))
      | (Thrown msg, w) =>
          cleanup close s
          = (Thrown msg, mkState w (stats s) (Some b) (trace s))
      end
  end.
Proof.
  unfold cleanup, bind, get_browser.
  destruct (browser s) as [b|] eqn:Eb; [|reflexivity].
  destruct (close b (world s)) as [[[]|msg] w]; cbn; rewrite ?Eb; reflexivity.
Qed.

Lemma cleanup_stats (s : state W Browser) :
  stats (snd (cleanup close s)) = stats s
  /\ trace (snd (cleanup close s)) = trace s
  /\ (forall u, fst (cleanup close s) = Returned u ->
      browser (snd (cleanup close s)) = None).
Proof.
  unfold cleanup, bind, get_browser.
  destruct (browser s) as [b|] eqn:Eb; cbn [fst snd].
  - destruct (close b (world s)) as [[[]|msg] w]; cbn;
      repeat split; intros; discriminate.
  - cbn. repeat split. intros _ _. exact Eb.
Qed.

(** X18. Once its instance is constructed, [smartScrape] returns what
    [scrape] returns on that fresh instance, so the statistics in the
    result count that one run; when it returns, the browser that the run
    may have launched has been closed; it throws only what
    [browser.close()] throws, and when that happens it calls [close] a
    second time. *)
Theorem smartScrape_closes_the_browser (url : jsstring)
        (opts : CallOptions) (w : W) :
  exists r0 s0,
    scrape env options url opts (new_scraper Browser w) = (Returned r0, s0)
    /\ (forall r s',
           smartScrape env options close url opts w = (Returned r, s') ->
           r = r0 /\ browser s' = None /\ stats s' = stats s0)
    /\ (browser s0 = None ->
        smartScrape env options close url opts w = (Returned r0, s0))
    /\ (forall msg s',
           smartScrape env options close url opts w = (Thrown msg, s') ->
           exists b w1 msg1,
             browser s0 = Some b
             /\ close b (world s0) = (Thrown msg1, w1)
             /\ (close b w1 = (Thrown msg, world s')
                 \/ (msg = msg1 /\ browser s' = None
                     /\ exists u, close b w1 = (Returned u, world s'))))
    /\ (forall snap m,
           r_stats r0 = Some snap ->
           (Stats.attempts (counter m (Stats.counters snap)) <= 2)%N
           /\ (Stats.successes (counter m (Stats.counters snap)) <= 1)%N).
Proof.
  destruct (scrape_facts env options url opts (new_scraper Browser w))
    as (r0 & s0 & runs & Hrun & _ & Hc & Hpath & Horigin).
  exists r0, s0. split; [exact Hrun|].
  assert (Hstats : forall snap m,
             r_stats r0 = Some snap ->
             (Stats.attempts (counter m (Stats.counters snap)) <= 2)%N
             /\ (Stats.successes (counter m (Stats.counters snap)) <= 1)%N).
  { intros snap m Hsnap.
    assert (Es : snap = Stats.getStats (stats s0))
      by (destruct Horigin as [(m0 & sa & sb & msg & _ & _ & _ & Hst & _)
                              |(m0 & sa & sb & _ & _ & Hst & _)]; congruence).
    subst snap. cbn [Stats.counters Stats.getStats]. rewrite Hc.
    destruct (counters_follow_trace m runs (stats (new_scraper Browser w)))
      as [-> ->].
    replace (Stats.attempts (counter m (stats (new_scraper Browser w))))
      with 0%N by (destruct m; reflexivity).
    replace (Stats.successes (counter m (stats (new_scraper Browser w))))
      with 0%N by (destruct m; reflexivity).
    eapply path_counts; exact Hpath. }
  unfold smartScrape, try_catch, bind. rewrite Hrun.
  pose proof (cleanup_cases s0) as Hclean.
  destruct (browser s0) as [b|] eqn:Eb.
  - destruct (close b (world s0)) as [[[]|msg1] w1] eqn:Ec; rewrite Hclean.
    + split.
      { intros r s' H. cbn in H. injection H as <- <-. repeat split. }
      split; [discriminate|].
      split; [intros msg s' H; discriminate H | exact Hstats].
    + pose proof (cleanup_cases (mkState w1 (stats s0) (Some b) (trace s0)))
        as Hclean2. cbn [browser world stats trace] in Hclean2.
      destruct (close b w1) as [[[]|msg2] w2] eqn:Ec2; rewrite Hclean2.
      * split; [intros r s' H; discriminate H|].
        split; [discriminate|].
        split; [|exact Hstats].
        intros msg s' H. cbn in H. injection H as <- <-.
        exists b, w1, msg1. split; [reflexivity|]. split; [exact Ec|].
        right. cbn. repeat split. exists tt. exact Ec2.
      * split; [intros r s' H; discriminate H|].
        split; [discriminate|].
        split; [|exact Hstats].
        intros msg s' H. cbn in H. injection H as <- <-.
        exists b, w1, msg1. split; [reflexivity|]. split; [exact Ec|].
        left. exact Ec2.
  - rewrite Hclean. split.
    { intros r s' H. cbn in H. injection H as <- <-. repeat split. exact Eb. }
    split; [reflexivity|].
    split; [intros msg s' H; discriminate H | exact Hstats].
Qed.

Lemma example_com_needs_no_browser (html : jsstring) :
  detectBrowserRequirement html (js "https://example.com") = false.
Proof.
  unfold detectBrowserRequirement.
  replace (isSimpleSite (js "https://example.com")) with true
    by (vm_compute; reflexivity).
  reflexivity.
Qed.

(** For [https://example.com], a direct fetch that reports success has
    counted it. *)
Lemma example_com_success_is_counted config s0 r s1 :
  tryDirectFetch env (js "https://example.com") config s0 = (Returned r, s1) ->
  definitive (Returned r) = success r.
Proof.
  intros E. cbn [definitive].
  destruct (success r) eqn:Es; [|reflexivity].
  destruct (proj2 (proj2 (proj2 (@tryDirectFetch_result _ _ _ _ _ _ _ _ E))) Es)
    as (h & _ & Hnb & _).
  rewrite Hnb, example_com_needs_no_browser. reflexivity.
Qed.

(** X19. [healthCheck] always returns; it reports ['healthy'] exactly when
    one of its three probes succeeded; it runs the three stages for real,
    so each of their attempt counters grows by one (the PDF counters do
    not move) and a stage reported healthy has counted a success; and
    when Puppeteer is reported healthy, the browser has been closed. *)
Theorem healthCheck_counts_as_traffic (s : state W Browser) :
  exists h s',
    healthCheck env options close s = (Returned h, s')
    /\ (h_status h = js "healthy" <->
        h_directFetch h = true \/ h_lightpanda h = true
        \/ h_puppeteer h = true)
    /\ (forall m, m <> Pdf ->
        Stats.attempts (counter m (stats s'))
        = (Stats.attempts (counter m (stats s)) + 1)%N)
    /\ counter Pdf (stats s') = counter Pdf (stats s)
    /\ Stats.successes (counter DirectFetch (stats s'))
       = (Stats.successes (counter DirectFetch (stats s))
          + if h_directFetch h then 1 else 0)%N
    /\ Stats.successes (counter Lightpanda (stats s'))
       = (Stats.successes (counter Lightpanda (stats s))
          + if h_lightpanda h then 1 else 0)%N
    /\ (h_puppeteer h = true ->
        Stats.successes (counter Puppeteer (stats s'))
        = (Stats.successes (counter Puppeteer (stats s)) + 1)%N
        /\ browser s' = None).
Proof.
  set (u := js "https://example.com").
  set (c := mkConfig (timeout options) (userAgent options)).
  (* the direct fetch *)
  pose proof (tryDirectFetch_post env u c s) as P1.
  destruct (tryDirectFetch env u c s) as [[r1|msg1] s1] eqn:E1.
  2:{ exfalso. destruct P1 as (_ & _ & _ & _ & Hn & _).
      destruct (Hn eq_refl) as [r Hr]. discriminate Hr. }
  destruct P1 as (n1 & _ & Hc1 & _). cbn [fst snd] in Hc1.
  erewrite example_com_success_is_counted in Hc1; [|exact E1].
  (* Lightpanda *)
  pose proof (tryLightpanda_post env options u c s1) as P2.
  destruct (tryLightpanda env options u c s1) as [res2 s2] eqn:E2.
  destruct P2 as (n2 & _ & Hc2 & _ & _ & Hb2 & _). cbn [fst snd] in Hc2, Hb2.
  assert (Hd2 : definitive res2
                = match res2 with Returned r => success r | Thrown _ => false end).
  { destruct res2 as [r2|msg2]; [|reflexivity]. cbn [definitive].
    rewrite (Hb2 ltac:(discriminate) r2 eq_refl). apply andb_true_r. }
  rewrite Hd2 in Hc2. clear Hd2 Hb2.
  (* Puppeteer, then cleanup *)
  pose proof (tryPuppeteer_post env u c
                (match res2 with Returned _ | Thrown _ => s2 end)) as P3.
  assert (Es2 : match res2 with Returned _ | Thrown _ => s2 end = s2)
    by (destruct res2; reflexivity).
  rewrite Es2 in P3. clear Es2.
  destruct (tryPuppeteer env u c s2) as [res3 s3] eqn:E3.
  destruct P3 as (n3 & _ & Hc3 & _ & _ & Hb3 & _). cbn [fst snd] in Hc3, Hb3.
  assert (Hd3 : definitive res3
                = match res3 with Returned r => success r | Thrown _ => false end).
  { destruct res3 as [r3|msg3]; [|reflexivity]. cbn [definitive].
    rewrite (Hb3 ltac:(discriminate) r3 eq_refl). apply andb_true_r. }
  rewrite Hd3 in Hc3. clear Hd3 Hb3.
  destruct (cleanup_stats s3) as (Hk1 & _ & Hk2).
  assert (Hfinal :
    exists d l p sf w now,
      (d = success r1)
      /\ (l = match res2 with Returned r => success r | Thrown _ => false end)
      /\ (p = true ->
          match res3 with Returned r => success r | Thrown _ => false end
          = true /\ browser sf = None)
      /\ stats sf = stats s3
      /\ Date_toISOString env (world sf) = (now, w)
      /\ healthCheck env options close s
         = (Returned (mkHealth (if d || l || p then js "healthy"
                                else js "unhealthy") d l p now),
            mkState w (stats sf) (browser sf) (trace sf))).
  { assert (Hrun :
      healthCheck env options close s
      = match res3 with
        | Returned r3 =>
            match cleanup close s3 with
            | (Returned _, s4) =>
                let (now, w) := Date_toISOString env (world s4) in
                (Returned
                   (mkHealth
                      (if success r1
                          || match res2 with
                             | Returned r => success r | Thrown _ => false
                             end
                          || success r3
                       then js "healthy" else js "unhealthy")
                      (success r1)
                      match res2 with
                      | Returned r => success r | Thrown _ => false
                      end
                      (success r3) now),
                 mkState w (stats s4) (browser s4) (trace s4))
            | (Thrown _, s4) =>
                let (now, w) := Date_toISOString env (world s4) in
                (Returned
                   (mkHealth
                      (if success r1
                          || match res2 with
                             | Returned r => success r | Thrown _ => false
                             end
                          || false
                       then js "healthy" else js "unhealthy")
                      (success r1)
                      match res2 with
                      | Returned r => success r | Thrown _ => false
                      end
                      false now),
                 mkState w (stats s4) (browser s4) (trace s4))
            end
        | Thrown _ =>
            let (now, w) := Date_toISOString env (world s3) in
            (Returned
               (mkHealth
                  (if success r1
                      || match res2 with
                         | Returned r => success r | Thrown _ => false
                         end
                      || false
                   then js "healthy" else js "unhealthy")
                  (success r1)
                  match res2 with
                  | Returned r => success r | Thrown _ => false
                  end
                  false now),
             mkState w (stats s3) (browser s3) (trace s3))
        end).
    { unfold healthCheck, probe, bind, try_catch, clock, ret.
      fold u. fold c. rewrite E1. cbn beta iota. rewrite E2.
      destruct res2 as [r2|msg2]; cbn beta iota; rewrite E3;
        destruct res3 as [r3|msg3]; cbn beta iota;
        try (destruct (cleanup close s3) as [[[]|msgc] s4]; cbn beta iota);
        destruct (Date_toISOString env _) as [now w]; reflexivity. }
    rewrite Hrun. clear Hrun.
    set (l2 := match res2 with Returned r => success r | Thrown _ => false end)
      in *.
    destruct res3 as [r3|msg3].
    - destruct (cleanup close s3) as [[[]|msgc] s4] eqn:Ek;
        cbn [fst snd] in Hk1, Hk2;
        destruct (Date_toISOString env (world s4)) as [now w] eqn:En.
      + exists (success r1), l2, (success r3), s4, w, now.
        split; [reflexivity|]. split; [reflexivity|].
        split; [intros Hp; split; [exact Hp | exact (Hk2 tt eq_refl)]|].
        split; [exact Hk1|]. split; [exact En | reflexivity].
      + exists (success r1), l2, false, s4, w, now.
        split; [reflexivity|]. split; [reflexivity|].
        split; [intros Hp; discriminate Hp|].
        split; [exact Hk1|]. split; [exact En | reflexivity].
    - destruct (Date_toISOString env (world s3)) as [now w] eqn:En.
      exists (success r1), l2, false, s3, w, now.
      split; [reflexivity|]. split; [reflexivity|].
      split; [intros Hp; discriminate Hp|].
      split; [reflexivity|]. split; [exact En | reflexivity]. }
  destruct Hfinal as (d & l & p & sf & w & now & Hd & Hl & Hp & Hsf & _ & Hrun).
  rewrite Hrun.
  do 2 eexists. split; [reflexivity|].
  cbn [h_status h_directFetch h_lightpanda h_puppeteer stats browser].
  split.
  { destruct d, l, p; cbn; split; intros H;
      first [ reflexivity | tauto | discriminate H
            | destruct H as [H|[H|H]]; discriminate H ]. }
  rewrite Hsf, Hc3, Hc2, Hc1. rewrite <- Hd, <- Hl.
  set (q := match res3 with Returned r => success r | Thrown _ => false end)
    in *.
  split.
  { intros m Hm.
    destruct (counter_counted m Puppeteer q
                (counted Lightpanda l (counted DirectFetch d (stats s))))
      as [-> _].
    destruct (counter_counted m Lightpanda l
                (counted DirectFetch d (stats s))) as [-> _].
    destruct (counter_counted m DirectFetch d (stats s)) as [-> _].
    destruct m; cbn [stage_eqb]; try lia. contradiction. }
  split.
  { destruct (stats s) as [? ? ? ?], d, l, q; reflexivity. }
  split.
  { destruct (stats s) as [[? ?] [? ?] [? ?] [? ?]], d, l, q; cbn; lia. }
  split.
  { destruct (stats s) as [[? ?] [? ?] [? ?] [? ?]], d, l, q; cbn; lia. }
  intros Hpt. destruct (Hp Hpt) as [Hq Hb].
  split; [|exact Hb]. rewrite Hq.
  destruct (stats s) as [[? ?] [? ?] [? ?] [? ?]], d, l; cbn; lia.
Qed.

End LifecycleProperties.

(* ================================================================== *)
(** * Properties of the assistants *)
(* ================================================================== *)

Section AssistantProperties.
Import Assistant.

Variables W Browser : Type.
Variable env : Env W Browser.
Variable options : Options.
Variable env_OPENROUTER_API_KEY : option jsstring.
Variable env_OPENAI_API_KEY : option jsstring.
Variable type_error : jsstring -> jsstring.
Variable syntax_error : jsstring -> jsstring.

(** Every value that [m] returns satisfies [P]. *)
Definition returns {A} (m : M W Browser A) (P : A -> Prop) : Prop :=
  forall s a s', m s = (Returned a, s') -> P a.

Lemma returns_ret {A} (a : A) (P : A -> Prop) : P a -> returns (ret a) P.
Proof. intros H s a' s' E. injection E as <- _. exact H. Qed.

Lemma returns_bind {A B} (m : M W Browser A) (k : A -> M W Browser B)
      (Q : A -> Prop) (P : B -> Prop) :
  returns m Q -> (forall a, Q a -> returns (k a) P) ->
  returns (bind m k) P.
Proof.
  intros Hm H s b s' E. unfold bind in E.
  destruct (m s) as [[a|msg] s1] eqn:Em; [|discriminate E].
  exact (H a (Hm s a s1 Em) s1 b s' E).
Qed.

Lemma returns_any {A} (m : M W Browser A) : returns m (fun _ => True).
Proof. intros s a s' _. exact I. Qed.

Lemma returns_try_catch {A} (m : M W Browser A)
      (h : jsstring -> M W Browser A) (P : A -> Prop) :
  returns m P -> (forall msg, returns (h msg) P) ->
  returns (try_catch m h) P.
Proof.
  intros Hm Hh s a s' E. unfold try_catch in E.
  destruct (m s) as [[a0|msg] s1] eqn:Em.
  - injection E as <- <-. exact (Hm s a0 s1 Em).
  - exact (Hh msg s1 a s' E).
Qed.

Lemma returns_impl {A} (m : M W Browser A) (P Q : A -> Prop) :
  (forall a, P a -> Q a) -> returns m P -> returns m Q.
Proof. intros H Hm s a s' E. apply H. exact (Hm s a s' E). Qed.

(** The object that [getStats] returns has no property [totalTime]. *)
Lemma scrapeTime_undefined (r : ScrapeResult) t :
  scrapeTime type_error r = Returned t -> t = None.
Proof.
  unfold scrapeTime, get.
  destruct (r_stats r) as [snap|]; cbn [option_map]; [|discriminate].
  intros E. injection E as <-. vm_compute. reflexivity.
Qed.

(** What the reports of an answer have in common. *)
Definition reported (r : ScrapeResult) (a : Answer) : Prop :=
  a_success a = true /\ a_error a = None
  /\ a_method a = Some (r_method r) /\ a_scrapeTime a = None
  /\ exists name, a_processing a = Some name
                  /\ In name [js "openrouter"; js "openai"; js "backend";
                              js "local"].

Lemma answered_reported r answer (processing : string) :
  In (js processing) [js "openrouter"; js "openai"; js "backend"; js "local"] ->
  returns (answered type_error r answer processing) (reported r).
Proof.
  intros Hin s a s' E. unfold answered, bind, lift in E.
  destruct (scrapeTime type_error r) as [t|msg] eqn:Et; cbn in E;
    [|discriminate E].
  injection E as <- _. apply scrapeTime_undefined in Et. subst t.
  repeat split. exists (js processing). split; [reflexivity | exact Hin].
Qed.

Definition maybe {A} (P : A -> Prop) (o : option A) : Prop :=
  match o with Some a => P a | None => True end.

Variable post : PostRequest -> W -> outcome PostResponse * W.

Lemma attempt_reported r key assistant (processing : string) :
  In (js processing) [js "openrouter"; js "openai"; js "backend"; js "local"] ->
  returns (attempt type_error r key assistant processing)
          (maybe (reported r)).
Proof.
  intros Hin. unfold attempt.
  destruct key as [[|c k]|]; try (apply returns_ret; exact I).
  apply returns_try_catch; [|intros msg; apply returns_ret; exact I].
  eapply returns_bind; [apply returns_any|]. intros answer _.
  eapply returns_bind; [apply answered_reported, Hin|].
  intros a Ha. apply returns_ret. exact Ha.
Qed.

Lemma backend_reported instance r url question :
  returns (backend post type_error instance r url question)
          (maybe (reported r)).
Proof.
  unfold backend.
  destruct (apiKey instance) as [[|c k]|]; try (apply returns_ret; exact I).
  apply returns_try_catch; [|intros msg; apply returns_ret; exact I].
  eapply returns_bind; [apply returns_any|]. intros response _.
  destruct (post_ok response); [|apply returns_ret; exact I].
  eapply returns_bind; [apply returns_any|]. intros data _.
  eapply returns_bind; [apply returns_any|]. intros answer _.
  eapply returns_bind;
    [apply answered_reported; right; right; left; reflexivity|].
  intros a Ha. apply returns_ret. exact Ha.
Qed.

Lemma or_next_returns (first : M W Browser (option Answer))
      (next : M W Browser Answer) (P : Answer -> Prop) :
  returns first (maybe P) -> returns next P ->
  returns (or_next first next) P.
Proof.
  intros Hf Hn. unfold or_next.
  eapply returns_bind; [exact Hf|].
  intros [a|] Ha; [apply returns_ret; exact Ha | exact Hn].
Qed.

(** [askAI] always returns. *)
Lemma askAI_total instance url question opts ai s :
  exists a s',
    askAI env options env_OPENROUTER_API_KEY env_OPENAI_API_KEY post
          type_error syntax_error instance url question opts ai s
    = (Returned a, s').
Proof.
  unfold askAI.
  match goal with
  | |- context [try_catch ?m ?h] =>
      unfold try_catch; destruct (m s) as [[a|msg] s1]
  end.
  - exists a, s1. reflexivity.
  - eexists _, s1. reflexivity.
Qed.

(** X20. [askAI] never throws.  An answer that reports success names the
    method of the scrape and one of the four ways of processing, and
    carries no error; its [scrapeTime] is always [undefined], because it is
    read from the statistics, which have no [totalTime].  A failed scrape
    is reported with the error message of the scrape, and nothing is done
    after the scrape: no assistant is contacted. *)
Theorem askAI_never_reports_the_scrape_time instance url question opts ai s :
  exists a s',
    askAI env options env_OPENROUTER_API_KEY env_OPENAI_API_KEY post
          type_error syntax_error instance url question opts ai s
    = (Returned a, s')
    /\ a_scrapeTime a = None
    /\ (a_success a = true ->
        a_error a = None
        /\ exists r s1 name,
            scrape env options url opts s = (Returned r, s1)
            /\ success (result r) = true
            /\ a_method a = Some (r_method r)
            /\ a_processing a = Some name
            /\ In name [js "openrouter"; js "openai"; js "backend";
                        js "local"])
    /\ (forall r s1,
           scrape env options url opts s = (Returned r, s1) ->
           success (result r) = false ->
           s' = s1
           /\ exists msg,
               error (result r) = Some msg
               /\ a = mkAnswer false None
                        (Some (js "Failed to scrape URL: " ++ msg))
                        (Some (r_method r)) None None).
Proof.
  destruct (askAI_total instance url question opts ai s) as (a & s' & Hrun).
  exists a, s'. split; [exact Hrun|].
  destruct (scrape_outcome env options url opts s)
    as (r & s1 & Hscrape & Hmsg & _).
  assert (Hcases :
    (success (result r) = false
     /\ s' = s1
     /\ exists msg,
         error (result r) = Some msg
         /\ a = mkAnswer false None
                  (Some (js "Failed to scrape URL: " ++ msg))
                  (Some (r_method r)) None None)
    \/ (success (result r) = true
        /\ (reported r a
            \/ exists msg, a = mkAnswer false None (Some msg) None None None))).
  { unfold askAI, try_catch, bind in Hrun. rewrite Hscrape in Hrun.
    destruct (success (result r)) eqn:Es; cbn [negb] in Hrun.
    - right. split; [reflexivity|].
      match type of Hrun with
      | match ?m s1 with _ => _ end = _ =>
          assert (Hret : returns m (reported r));
          [|destruct (m s1) as [[a0|msg] s2] eqn:Em]
      end.
      + apply or_next_returns;
          [apply attempt_reported; left; reflexivity|].
        apply or_next_returns;
          [apply attempt_reported; right; left; reflexivity|].
        apply or_next_returns; [apply backend_reported|].
        eapply returns_bind; [apply returns_any|]. intros answer _.
        apply answered_reported. right; right; right; left; reflexivity.
      + injection Hrun as <- <-. left. exact (Hret s1 a0 s2 Em).
      + injection Hrun as <- _. right. eexists. reflexivity.
    - left. split; [reflexivity|]. cbn in Hrun. injection Hrun as <- <-.
      split; [reflexivity|].
      destruct (Hmsg eq_refl) as [msg Hm]. exists msg. split; [exact Hm|].
      rewrite Hm. reflexivity. }
  destruct Hcases as [(Hs & Hs' & msg & Hm & Ha)
                     |(Hs & [Hrep|(msg & Ha)])].
  - split; [rewrite Ha; reflexivity|].
    split; [rewrite Ha; intros H; discriminate H|].
    intros r' s1' Hscrape' Hs2. rewrite Hscrape in Hscrape'.
    injection Hscrape' as <- <-.
    split; [exact Hs'|]. exists msg. split; assumption.
  - destruct Hrep as (H1 & H2 & H3 & H4 & name & H5 & H6).
    split; [exact H4|]. split.
    + intros _. split; [exact H2|]. exists r, s1, name.
      repeat split; assumption.
    + intros r' s1' Hscrape' Hs2. rewrite Hscrape in Hscrape'.
      injection Hscrape' as <- <-. congruence.
  - split; [rewrite Ha; reflexivity|].
    split; [rewrite Ha; intros H; discriminate H|].
    intros r' s1' Hscrape' Hs2. rewrite Hscrape in Hscrape'.
    injection Hscrape' as <- <-. congruence.
Qed.

(** The characters of [[\w.-]] and of [\w]. *)
Definition address_char (x : jschar) : Prop := In x (word_chars ++ js ".-").
Definition word_char (x : jschar) : Prop := In x word_chars.

Lemma one_of_In l x : cset_match false (COneOf l) x = true -> In x l.
Proof.
  cbn [cset_match]. unfold mem_canon. intros H.
  apply existsb_exists in H as (a & Ha & E).
  unfold canon in E. cbn [andb] in E.
  apply N.eqb_eq in E. subst a. exact Ha.
Qed.

Lemma plus_one_of l t :
  matches false (plus (one_of l)) t ->
  t <> [] /\ Forall (fun x => In x l) t.
Proof.
  intros H. apply matches_plus_class in H as [Hne Hall].
  split; [exact Hne|].
  eapply Forall_impl; [|exact Hall]. intros x. apply one_of_In.
Qed.

Lemma matches_chr c t : matches false (chr c) t -> t = [c].
Proof.
  intros H. apply matches_char_inv in H as (x & -> & Hx).
  apply one_of_In in Hx. destruct Hx as [->|[]]. reflexivity.
Qed.

(** The texts of the pattern for an address. *)
Lemma email_re_language t :
  matches false email_re t ->
  exists user domain tld,
    t = user ++ js "@" ++ domain ++ js "." ++ tld
    /\ user <> [] /\ Forall address_char user
    /\ domain <> [] /\ Forall address_char domain
    /\ tld <> [] /\ Forall word_char tld.
Proof.
  unfold email_re. cbn [seq]. intros H.
  apply matches_seq_inv in H as (user & t1 & -> & Hu & H).
  apply matches_seq_inv in H as (at_ & t2 & -> & Ha & H).
  apply matches_seq_inv in H as (domain & t3 & -> & Hd & H).
  apply matches_seq_inv in H as (dot_ & tld & -> & Hp & Ht).
  apply matches_chr in Ha. apply matches_chr in Hp. subst at_ dot_.
  apply plus_one_of in Hu as [Hu1 Hu2].
  apply plus_one_of in Hd as [Hd1 Hd2].
  apply plus_one_of in Ht as [Ht1 Ht2].
  exists user, domain, tld. repeat split; assumption.
Qed.

Ltac other_answer H :=
  apply (f_equal (fun o => match o with
                           | Returned l => hd_error l
                           | Thrown _ => None
                           end)) in H;
  vm_compute in H; discriminate H.

(** X21. When [processLocally] answers ['Found contact: ...'], the question
    asked for a contact or an e-mail and named neither the title nor
    ['about'] nor ['what']; the content is an object whose [content], or
    else [bodyText], is a text; and what is reported is cut out of that
    text and has the shape [user@domain.tld], its parts not empty and
    made of letters, digits, [_], [.] and [-], the last of them without
    [.] and [-]. *)
Theorem contact_answer_is_cut_from_the_text
        (question : jsstring) (content : value) (address : jsstring) :
  processLocally env type_error syntax_error question content
  = Returned (js "Found contact: " ++ address) ->
  (exists fields text,
      parse_content env syntax_error content = Returned (Some (JObj fields))
      /\ (obj_get (js "content") fields = Some (JStr text)
          \/ (truthy (obj_get (js "content") fields) = false
              /\ obj_get (js "bodyText") fields = Some (JStr text)))
      /\ occurs_in address text)
  /\ (exists user domain tld,
         address = user ++ js "@" ++ domain ++ js "." ++ tld
         /\ user <> [] /\ Forall address_char user
         /\ domain <> [] /\ Forall address_char domain
         /\ tld <> [] /\ Forall word_char tld)
  /\ includes (toLowerCase question) (js "title") = false
  /\ includes (toLowerCase question) (js "about") = false
  /\ includes (toLowerCase question) (js "what") = false
  /\ (includes (toLowerCase question) (js "contact") = true
      \/ includes (toLowerCase question) (js "email") = true).
Proof.
  intros H. unfold processLocally, and_then in H.
  destruct (parse_content env syntax_error content) as [parsed|?] eqn:Ep;
    [|discriminate H].
  destruct (get type_error "title" parsed) as [t|?] eqn:Et;
    [|discriminate H].
  destruct (get type_error "content" parsed) as [c|?] eqn:Ec;
    [|discriminate H].
  destruct (or_lazy c (get type_error "bodyText" parsed)) as [cb|?] eqn:Ecb;
    [|discriminate H].
  destruct (includes (toLowerCase question) (js "title")) eqn:E1;
    [other_answer H|].
  destruct (includes (toLowerCase question) (js "about")) eqn:E2;
    [cbn [orb] in H;
     destruct (as_string type_error "substring" _) in H;
     [other_answer H | discriminate H]|].
  destruct (includes (toLowerCase question) (js "what")) eqn:E3;
    [cbn [orb] in H;
     destruct (as_string type_error "substring" _) in H;
     [other_answer H | discriminate H]|].
  cbn [orb] in H.
  destruct (includes (toLowerCase question) (js "contact")
            || includes (toLowerCase question) (js "email")) eqn:E4;
    [|destruct (as_string type_error "substring" _) in H;
      [other_answer H | discriminate H]].
  destruct (as_string type_error "match"
              (or_value cb (Some (JStr [])))) as [text|?] eqn:Etext;
    [|discriminate H].
  destruct (exec false email_re text) as [m|] eqn:Em; [|other_answer H].
  injection H as H. subst address.
  destruct (@exec_sound false (fun _ _ => True) email_re text m
              (respects_trivial false text email_re) Em)
    as (Hlang & _ & Hsplit).
  assert (Hne : m_text m <> []).
  { apply email_re_language in Hlang as (u & d & l & -> & Hu & _).
    destruct u; [contradiction Hu; reflexivity | discriminate]. }
  assert (Htext : cb = Some (JStr text)).
  { unfold or_value, as_string in Etext.
    destruct (truthy cb) eqn:Ecbt.
    - destruct cb as [[| | | | |]|]; try discriminate Etext.
      injection Etext as ->. reflexivity.
    - injection Etext as <-. vm_compute in Em. discriminate Em. }
  subst cb.
  split.
  - unfold or_lazy in Ecb.
    destruct parsed as [[| | | | |fields]|]; try discriminate Et;
      cbn [get] in Ec, Ecb; injection Ec as <-;
      try (cbn [truthy] in Ecb; discriminate Ecb).
    exists fields, text. split; [reflexivity|]. split.
    + destruct (truthy (obj_get (js "content") fields)) eqn:Ect.
      * left. injection Ecb as Ecb. exact Ecb.
      * right. split; [reflexivity|]. injection Ecb as Ecb. exact Ecb.
    + exists (firstn (m_index m) text), (m_rest m). exact Hsplit.
  - split; [exact (email_re_language Hlang)|].
    split; [reflexivity|]. split; [reflexivity|]. split; [reflexivity|].
    apply orb_true_iff in E4. exact E4.
Qed.

(** Every exception that [m] raises satisfies [P]. *)
Definition throws {A} (m : M W Browser A) (P : jsstring -> Prop) : Prop :=
  forall s msg s', m s = (Thrown msg, s') -> P msg.

Definition never {A} (m : M W Browser A) : Prop := throws m (fun _ => False).

Lemma never_caught {A} (m : M W Browser A) (a : A) :
  never (try_catch m (fun _ => ret a)).
Proof.
  intros s msg s' E. unfold try_catch in E.
  destruct (m s) as [[a0|msg0] s1]; discriminate E.
Qed.

Lemma never_attempt r key assistant (processing : string) :
  never (attempt type_error r key assistant processing).
Proof.
  unfold attempt. destruct key as [[|c k]|];
    first [apply never_caught | intros s msg s' E; discriminate E].
Qed.

Lemma never_backend instance r url question :
  never (backend post type_error instance r url question).
Proof.
  unfold backend. destruct (apiKey instance) as [[|c k]|];
    first [apply never_caught | intros s msg s' E; discriminate E].
Qed.

Lemma throws_or_next (first : M W Browser (option Answer))
      (next : M W Browser Answer) (P : jsstring -> Prop) :
  never first -> throws next P -> throws (or_next first next) P.
Proof.
  intros Hf Hn s msg s' E. unfold or_next, bind in E.
  destruct (first s) as [[[a|]|msg0] s1] eqn:Ef.
  - discriminate E.
  - exact (Hn s1 msg s' E).
  - destruct (Hf s msg0 s1 Ef).
Qed.

(** The last step of [askAI]. *)
Definition local_step (r : ScrapeResult) (question : jsstring)
  : M W Browser Answer :=
  bind (lift (processLocally env type_error syntax_error question
                (option_map JStr (content (result r)))))
       (fun answer => answered type_error r (Some (JStr answer)) "local").

Lemma local_step_throws r question :
  r_stats r <> None ->
  throws (local_step r question)
         (fun msg =>
            processLocally env type_error syntax_error question
              (option_map JStr (content (result r))) = Thrown msg).
Proof.
  intros Hst s msg s' E. unfold local_step, bind, lift in E.
  destruct (processLocally _ _ _ _ _) as [answer|msg0]; cbn in E.
  - unfold answered, bind, lift, scrapeTime, get in E.
    destruct (r_stats r) as [snap|]; [|contradiction Hst; reflexivity].
    cbn in E. discriminate E.
  - injection E as <- _. reflexivity.
Qed.

Definition from_local (r : ScrapeResult) (question : jsstring)
           (a : Answer) : Prop :=
  a_processing a = Some (js "local") ->
  exists answer,
    processLocally env type_error syntax_error question
      (option_map JStr (content (result r))) = Returned answer
    /\ a_answer a = Some (JStr answer).

Lemma answered_processing r answer (processing : string) :
  returns (answered type_error r answer processing)
          (fun a => a_answer a = answer
                    /\ a_processing a = Some (js processing)).
Proof.
  intros s a s' E. unfold answered, bind, lift in E.
  destruct (scrapeTime type_error r) as [t|msg]; cbn in E;
    [|discriminate E].
  injection E as <- _. split; reflexivity.
Qed.

Lemma answered_elsewhere r question answer (processing : string) :
  js processing <> js "local" ->
  returns (answered type_error r answer processing) (from_local r question).
Proof.
  intros Hne. eapply returns_impl; [|apply answered_processing].
  intros a [_ Hp] Hl. rewrite Hp in Hl. injection Hl as Hl.
  contradiction.
Qed.

Lemma attempt_elsewhere r question key assistant (processing : string) :
  js processing <> js "local" ->
  returns (attempt type_error r key assistant processing)
          (maybe (from_local r question)).
Proof.
  intros Hne. unfold attempt.
  destruct key as [[|c k]|]; try (apply returns_ret; exact I).
  apply returns_try_catch; [|intros msg; apply returns_ret; exact I].
  eapply returns_bind; [apply returns_any|]. intros answer _.
  eapply returns_bind; [apply answered_elsewhere, Hne|].
  intros a Ha. apply returns_ret. exact Ha.
Qed.

Lemma backend_elsewhere instance r url question :
  returns (backend post type_error instance r url question)
          (maybe (from_local r question)).
Proof.
  unfold backend.
  destruct (apiKey instance) as [[|c k]|]; try (apply returns_ret; exact I).
  apply returns_try_catch; [|intros msg; apply returns_ret; exact I].
  eapply returns_bind; [apply returns_any|]. intros response _.
  destruct (post_ok response); [|apply returns_ret; exact I].
  eapply returns_bind; [apply returns_any|]. intros data _.
  eapply returns_bind; [apply returns_any|]. intros answer _.
  eapply returns_bind;
    [apply answered_elsewhere; intros E; vm_compute in E; discriminate E|].
  intros a Ha. apply returns_ret. exact Ha.
Qed.

Lemma local_step_returns r question :
  returns (local_step r question)
          (fun a => reported r a /\ from_local r question a).
Proof.
  intros s a s' E. split.
  - revert s a s' E. unfold local_step.
    eapply returns_bind; [apply returns_any|]. intros answer _.
    apply answered_reported. right; right; right; left; reflexivity.
  - unfold local_step, bind, lift in E.
    destruct (processLocally _ _ _ _ _) as [answer|msg0] eqn:El; cbn in E;
      [|discriminate E].
    destruct (@answered_processing r (Some (JStr answer)) "local" s a s' E)
      as [Ha _].
    intros _. exists answer. split; [exact El | exact Ha].
Qed.

(** A key that is not given, or is empty. *)
Definition no_key (k : option jsstring) : Prop := k = None \/ k = Some [].

(** The assistants of a run of [askAI], once the page is scraped. *)
Definition assistants (instance : AiOptions) (r : ScrapeResult)
           (url question : jsstring) (ai : AiOptions)
  : M W Browser Answer :=
  or_next
    (attempt type_error r
       (first_key (openRouterApiKey ai) (openRouterApiKey instance)
                  env_OPENROUTER_API_KEY)
       (fun k =>
          processWithOpenRouter env post type_error syntax_error question
            (option_map JStr (content (result r))) k ai)
       "openrouter")
    (or_next
       (attempt type_error r
          (first_key (openAIApiKey ai) (openAIApiKey instance)
                     env_OPENAI_API_KEY)
          (fun k =>
             processWithOpenAI env post type_error syntax_error question
               (option_map JStr (content (result r))) k ai)
          "openai")
       (or_next (backend post type_error instance r url question)
                (local_step r question))).

Lemma local_step_run r question s o s' :
  local_step r question s = (o, s') ->
  s' = s
  /\ forall a, o = Returned a -> a_processing a = Some (js "local").
Proof.
  unfold local_step, bind, lift. intros E.
  destruct (processLocally _ _ _ _ _) as [answer|msg0]; cbn in E.
  - unfold answered, bind, lift in E.
    destruct (scrapeTime type_error r) as [t|msg1]; cbn in E;
      injection E as <- <-; (split; [reflexivity|]);
      intros a Ha; [injection Ha as <-; reflexivity | discriminate Ha].
  - injection E as <- <-. split; [reflexivity|].
    intros a Ha. discriminate Ha.
Qed.

Lemma assistants_without_keys instance r url question ai s :
  no_key (first_key (openRouterApiKey ai) (openRouterApiKey instance)
                    env_OPENROUTER_API_KEY) ->
  no_key (first_key (openAIApiKey ai) (openAIApiKey instance)
                    env_OPENAI_API_KEY) ->
  no_key (apiKey instance) ->
  assistants instance r url question ai s = local_step r question s.
Proof.
  intros [K1|K1] [K2|K2] [K3|K3];
    unfold assistants, backend; rewrite K1, K2, K3;
    reflexivity.
Qed.

Lemma askAI_after_scrape instance url question opts ai s r s1 :
  scrape env options url opts s = (Returned r, s1) ->
  success (result r) = true ->
  askAI env options env_OPENROUTER_API_KEY env_OPENAI_API_KEY post
        type_error syntax_error instance url question opts ai s
  = match assistants instance r url question ai s1 with
    | (Returned a, s') => (Returned a, s')
    | (Thrown msg, s') =>
        (Returned (mkAnswer false None
                     (Some (or_else (Some msg) (js "AI processing failed")))
                     None None None), s')
    end.
Proof.
  intros Hscrape Hs. unfold askAI, try_catch, bind.
  rewrite Hscrape, Hs. cbn [negb]. reflexivity.
Qed.

(** X22. After a successful scrape, [askAI] reports failure only when local
    processing threw, with the message of that exception: a failing
    assistant is never reported, the next one is tried.  An answer whose
    processing is ['local'] is the answer of [processLocally] on the
    scraped content.  When no key is configured, no request is made after
    the scrape and a successful answer is local. *)
Theorem askAI_falls_back_to_local_processing
        (instance : AiOptions) (url question : jsstring)
        (opts : CallOptions) (ai : AiOptions) (s : state W Browser) :
  exists r s1 a s',
    scrape env options url opts s = (Returned r, s1)
    /\ askAI env options env_OPENROUTER_API_KEY env_OPENAI_API_KEY post
             type_error syntax_error instance url question opts ai s
       = (Returned a, s')
    /\ (success (result r) = true ->
        let local :=
          processLocally env type_error syntax_error question
            (option_map JStr (content (result r))) in
        (a_success a = false ->
         exists msg,
           local = Thrown msg
           /\ a = mkAnswer false None
                    (Some (or_else (Some msg) (js "AI processing failed")))
                    None None None)
        /\ (a_processing a = Some (js "local") ->
            exists answer,
              local = Returned answer /\ a_answer a = Some (JStr answer))
        /\ (no_key (first_key (openRouterApiKey ai)
                              (openRouterApiKey instance)
                              env_OPENROUTER_API_KEY) ->
            no_key (first_key (openAIApiKey ai) (openAIApiKey instance)
                              env_OPENAI_API_KEY) ->
            no_key (apiKey instance) ->
            s' = s1
            /\ (a_success a = true -> a_processing a = Some (js "local")))).
Proof.
  destruct (scrape_outcome env options url opts s)
    as (r & s1 & Hscrape & _ & Hstats).
  destruct (askAI_total instance url question opts ai s) as (a & s' & Hrun).
  exists r, s1, a, s'. split; [exact Hscrape|]. split; [exact Hrun|].
  intros Hs. cbv zeta.
  rewrite (@askAI_after_scrape instance url question opts ai s r s1
             Hscrape Hs) in Hrun.
  specialize (Hstats Hs).
  assert (Hthrows :
            throws (assistants instance r url question ai)
                   (fun msg =>
                      processLocally env type_error syntax_error question
                        (option_map JStr (content (result r)))
                      = Thrown msg)).
  { unfold assistants.
    apply throws_or_next; [apply never_attempt|].
    apply throws_or_next; [apply never_attempt|].
    apply throws_or_next; [apply never_backend|].
    apply local_step_throws. exact Hstats. }
  assert (Hreturns :
            returns (assistants instance r url question ai)
                    (fun a => reported r a /\ from_local r question a)).
  { unfold assistants.
    apply or_next_returns.
    { intros s0 [a0|] s2 E; [|exact I]. split.
      - exact (@attempt_reported r _ _ "openrouter"
                 (or_introl eq_refl) s0 (Some a0) s2 E).
      - refine (@attempt_elsewhere r question _ _ "openrouter" _
                  s0 (Some a0) s2 E).
        intros F. vm_compute in F. discriminate F. }
    apply or_next_returns.
    { intros s0 [a0|] s2 E; [|exact I]. split.
      - exact (@attempt_reported r _ _ "openai"
                 (or_intror (or_introl eq_refl)) s0 (Some a0) s2 E).
      - refine (@attempt_elsewhere r question _ _ "openai" _
                  s0 (Some a0) s2 E).
        intros F. vm_compute in F. discriminate F. }
    apply or_next_returns.
    { intros s0 [a0|] s2 E; [|exact I]. split.
      - exact (@backend_reported instance r url question s0 (Some a0) s2 E).
      - exact (@backend_elsewhere instance r url question
                 s0 (Some a0) s2 E). }
    apply local_step_returns. }
  destruct (assistants instance r url question ai s1)
    as [[a0|msg] s2] eqn:Ea; injection Hrun as <- <-.
  - destruct (Hreturns s1 a0 s2 Ea) as [(Hok & _) Hlocal].
    split; [intros F; rewrite Hok in F; discriminate F|].
    split; [exact Hlocal|].
    intros K1 K2 K3.
    rewrite (@assistants_without_keys instance r url question ai s1
               K1 K2 K3) in Ea.
    destruct (@local_step_run _ _ _ _ _ Ea) as [Hsame Hp].
    split; [exact Hsame|]. intros _. exact (Hp a0 eq_refl).
  - split.
    + intros _. exists msg. split; [exact (Hthrows s1 msg s2 Ea)|reflexivity].
    + split; [intros F; discriminate F|].
      intros K1 K2 K3.
      rewrite (@assistants_without_keys instance r url question ai s1
                 K1 K2 K3) in Ea.
      destruct (@local_step_run _ _ _ _ _ Ea) as [Hsame _].
      split; [exact Hsame|]. intros F. discriminate F.
Qed.

Variable close : Browser -> W -> outcome unit * W.

(** X23. Once its instance is constructed, [askWebsiteAI] returns the
    answer of [askAI] on that fresh instance, and then the browser that
    the scrape may have launched has been closed; since [askAI] never
    throws, the only exception left to [askWebsiteAI] is the one of
    [browser.close()], and then the browser is still registered and the
    answer is lost. *)
Theorem askWebsiteAI_closes_the_browser
        (url question : jsstring) (opts : CallOptions) (ai : AiOptions)
        (w : W) :
  exists a0 s0,
    askAI env options env_OPENROUTER_API_KEY env_OPENAI_API_KEY post
          type_error syntax_error ai url question opts ai
          (Lifecycle.new_scraper Browser w)
    = (Returned a0, s0)
    /\ match browser s0 with
       | None =>
           askWebsiteAI env options env_OPENROUTER_API_KEY
                        env_OPENAI_API_KEY post type_error syntax_error
                        close url question opts ai w
           = (Returned a0, s0)
       | Some b =>
           match close b (world s0) with
           | (Returned _, w1) =>
               askWebsiteAI env options env_OPENROUTER_API_KEY
                            env_OPENAI_API_KEY post type_error syntax_error
                            close url question opts ai w
               = (Returned a0, mkState w1 (stats s0) None (trace s0))
           | (Thrown msg, w1) =>
               askWebsiteAI env options env_OPENROUTER_API_KEY
                            env_OPENAI_API_KEY post type_error syntax_error
                            close url question opts ai w
               = (Thrown msg, mkState w1 (stats s0) (Some b) (trace s0))
           end
       end.
Proof.
  destruct (askAI_total ai url question opts ai
              (Lifecycle.new_scraper Browser w)) as (a0 & s0 & Hrun).
  exists a0, s0. split; [exact Hrun|].
  unfold askWebsiteAI. rewrite Hrun.
  pose proof (cleanup_cases close s0) as Hclean. unfold bind.
  destruct (browser s0) as [b|].
  - destruct (close b (world s0)) as [[u|msg] w1];
      rewrite Hclean; reflexivity.
  - rewrite Hclean. reflexivity.
Qed.

End AssistantProperties.

(* ================================================================== *)
(** * Properties of the start-up *)
(* ================================================================== *)

Section StartupProperties.
Import Startup.

Variable W : Type.
Variable platform : jsstring.
Variable packageDir : jsstring.
Variable path_join : list jsstring -> jsstring.
Variable cwd : W -> outcome jsstring * W.
Variable path_resolve : jsstring -> W -> outcome jsstring * W.
Variable existsSync : jsstring -> W -> bool * W.
Variable statSync : jsstring -> W -> outcome FileStats * W.
Variable uname : W -> outcome jsstring * W.

(** What has been observed of a path when the loop returns it. *)
Definition accepted (binaryPath fullPath : jsstring) (w w' : W) : Prop :=
  exists w1 w2 w3 stats,
    path_resolve binaryPath w = (Returned fullPath, w1)
    /\ existsSync fullPath w1 = (true, w2)
    /\ statSync fullPath w2 = (Returned stats, w3)
    /\ isFile stats = true
    /\ N.land (mode stats) 73 <> 0%N
    /\ ((platform <> js "win32" /\ w' = w3)
        \/ (platform = js "win32"
            /\ exists u, uname w3 = (Returned u, w')
                         /\ names_wsl u = true)).

Lemma probe_accepted binaryPath fullPath w w' :
  probe platform path_resolve existsSync statSync uname binaryPath w
  = (Some fullPath, w') ->
  accepted binaryPath fullPath w w'.
Proof.
  unfold probe, accepted. intros H.
  destruct (path_resolve binaryPath w) as [[full|?] w1] eqn:Er;
    [|discriminate H].
  destruct (existsSync full w1) as [[|] w2] eqn:Ee; [|discriminate H].
  destruct (statSync full w2) as [[stats|?] w3] eqn:Es; [|discriminate H].
  destruct (isFile stats) eqn:Ef; [|discriminate H].
  assert (Hexec : forall b, isExecutable b = true -> N.land b 73 <> 0%N).
  { intros b Hb E. unfold isExecutable in Hb. rewrite E in Hb.
    discriminate Hb. }
  destruct (str_eqb_spec platform (js "win32")) as [Ep|Ep]; cbn [negb] in H.
  - unfold isWSL in H.
    destruct (uname w3) as [[u|?] w4] eqn:Eu; cbn in H.
    + destruct (names_wsl u) eqn:En; [|discriminate H].
      destruct (isExecutable (mode stats)) eqn:Ex; [|discriminate H].
      injection H as <- <-.
      exists w1, w2, w3, stats.
      split; [reflexivity|]. split; [exact Ee|]. split; [exact Es|].
      split; [exact Ef|]. split; [exact (Hexec _ Ex)|].
      right. split; [exact Ep|]. exists u. split; [exact Eu|exact En].
    + discriminate H.
  - destruct (isExecutable (mode stats)) eqn:Ex; [|discriminate H].
    injection H as <- <-.
    exists w1, w2, w3, stats.
    split; [reflexivity|]. split; [exact Ee|]. split; [exact Es|].
    split; [exact Ef|]. split; [exact (Hexec _ Ex)|].
    left. split; [exact Ep|reflexivity].
Qed.

Lemma first_found_accepted paths fullPath :
  forall w w',
    first_found platform path_resolve existsSync statSync uname paths w
    = (Some fullPath, w') ->
    exists binaryPath w0,
      In binaryPath paths /\ accepted binaryPath fullPath w0 w'.
Proof.
  induction paths as [|c paths IH]; intros w w' H; cbn [first_found] in H;
    [discriminate H|].
  destruct (probe platform path_resolve existsSync statSync uname c w)
    as [[f|] w1] eqn:Ep.
  - injection H as <- <-. exists c, w. split; [left; reflexivity|].
    apply probe_accepted. exact Ep.
  - destruct (IH w1 w' H) as (b & w0 & Hin & Hacc).
    exists b, w0. split; [right; exact Hin | exact Hacc].
Qed.

(** X24. A path that [findLightpandaBinary] returns is the resolved form of
    one of its seven candidates; when it was examined it existed, was a
    regular file and had one of its execute bits set.  On [win32] a path
    is only returned after [uname -r] has answered with a release that
    names Microsoft or WSL: on native Windows the result is [null],
    whatever the files. *)
Theorem found_binary_is_an_executable_file (w : W) (fullPath : jsstring)
        (w' : W) :
  findLightpandaBinary platform packageDir path_join cwd path_resolve
                       existsSync statSync uname w
  = (Returned (Some fullPath), w') ->
  exists cwd1 cwd2 binaryPath w0,
    In binaryPath
       [ path_join [packageDir; js "bin"; js "lightpanda"];
         js "./lightpanda"; js "../lightpanda";
         js "./lightpanda/lightpanda"; js "/usr/local/bin/lightpanda";
         path_join [cwd1; js "lightpanda"];
         path_join [cwd2; js "bin"; js "lightpanda"] ]
    /\ (exists wa wb wc, cwd wa = (Returned cwd1, wb)
                         /\ cwd wb = (Returned cwd2, wc))
    /\ accepted binaryPath fullPath w0 w'.
Proof.
  unfold findLightpandaBinary. intros H.
  destruct (cwd w) as [[cwd1|?] w1] eqn:E1; [|discriminate H].
  destruct (cwd w1) as [[cwd2|?] w2] eqn:E2; [|discriminate H].
  destruct (first_found platform path_resolve existsSync statSync uname
              (possiblePaths packageDir path_join cwd1 cwd2) w2)
    as [found w3] eqn:Ef.
  injection H as -> <-.
  destruct (@first_found_accepted _ _ _ _ Ef) as (b & w0 & Hin & Hacc).
  exists cwd1, cwd2, b, w0. split; [exact Hin|].
  split; [|exact Hacc]. exists w, w1, w2. split; assumption.
Qed.

(** ** The constructor *)

Lemma obj_get_define k k' v fields :
  obj_get k (define k' v fields)
  = if str_eqb k k' then Some v else obj_get k fields.
Proof.
  unfold define.
  destruct (has_key k' fields) eqn:Eh.
  - apply obj_get_update_key, Eh.
  - destruct (array_index k') as [n|].
    + apply obj_get_insert_index, Eh.
    + apply obj_get_append, Eh.
Qed.

Lemma obj_get_absent k fields :
  ~ In k (keys fields) -> obj_get k fields = None.
Proof.
  unfold keys.
  induction fields as [|[k0 v0] fields IH]; cbn [map fst In obj_get];
    [reflexivity|].
  intros Hn. destruct (str_eqb_spec k k0) as [->|_].
  - contradiction Hn. left. reflexivity.
  - apply IH. intros Hin. apply Hn. right. exact Hin.
Qed.

Lemma obj_get_spread k source :
  NoDup (keys source) ->
  forall target,
    obj_get k (spread target source)
    = match obj_get k source with
      | Some v => Some v
      | None => obj_get k target
      end.
Proof.
  unfold spread, keys.
  induction source as [|[k0 v0] source IH]; cbn [map fst fold_left obj_get];
    intros Hnd target; [reflexivity|].
  inversion Hnd as [|? ? Hnot Hnd']; subst.
  rewrite (IH Hnd'). cbn [fst snd]. rewrite obj_get_define.
  destruct (str_eqb_spec k k0) as [->|_]; [|reflexivity].
  rewrite (@obj_get_absent k0 source Hnot). reflexivity.
Qed.

Lemma has_key_obj_get k fields :
  has_key k fields = false -> obj_get k fields = None.
Proof.
  intros H. apply obj_get_absent. intros Hin.
  apply has_key_In in Hin. rewrite Hin in H. discriminate H.
Qed.

Lemma has_key_obj_get_some k fields :
  has_key k fields = true -> exists v, obj_get k fields = Some v.
Proof.
  induction fields as [|[k0 v0] fields IH]; cbn [has_key obj_get];
    [discriminate|].
  destruct (str_eqb k k0); [eauto | exact IH].
Qed.

(** The value that the constructor gives to a key that [options] does
    not hold; [found] is what the search for the binary returned. *)
Definition default_of (found : option jsstring) (k : jsstring)
  : option json :=
  if str_eqb k (js "timeout") then Some (JNum (js "10000"))
  else if str_eqb k (js "userAgent") then Some (JStr default_userAgent)
  else if str_eqb k (js "lightpandaPath") then
    Some (match found with Some p => JStr p | None => JNull end)
  else if str_eqb k (js "retries") then Some (JNum (js "2"))
  else if str_eqb k (js "verbose") then Some (JBool false)
  else None.

(** X25. The defaults of the constructor only fill the keys that [options]
    does not hold: a value that is given is kept even when it is falsy
    (a [timeout] of 0, an empty [userAgent], [lightpandaPath: null]),
    because the spread that ends the literal restores it.  The search
    for the binary is run exactly when [options.lightpandaPath] is falsy,
    also when it is given, and its result is then discarded. *)
Theorem constructor_keeps_given_values
        (options : list (jsstring * json)) (w : W)
        (this_options : list (jsstring * json)) (w' : W) :
  NoDup (keys options) ->
  constructor platform packageDir path_join cwd path_resolve existsSync
              statSync uname options w
  = (Returned this_options, w') ->
  (forall k, has_key k options = true ->
             obj_get k this_options = obj_get k options)
  /\ (Assistant.truthy (property options "lightpandaPath") = true ->
      w' = w
      /\ forall k, has_key k options = false ->
                   obj_get k this_options = default_of None k)
  /\ (Assistant.truthy (property options "lightpandaPath") = false ->
      exists found,
        findLightpandaBinary platform packageDir path_join cwd path_resolve
                             existsSync statSync uname w
        = (Returned found, w')
        /\ forall k, has_key k options = false ->
                     obj_get k this_options = default_of found k).
Proof.
  intros Hnd H. unfold constructor in H.
  assert (Hgiven : forall fields k,
             has_key k options = true ->
             obj_get k (spread fields options) = obj_get k options).
  { intros fields k Hk. rewrite (@obj_get_spread k options Hnd fields).
    destruct (@has_key_obj_get_some k options Hk) as [v ->]. reflexivity. }
  assert (Hdefault : forall fields k,
             has_key k options = false ->
             obj_get k (spread fields options) = obj_get k fields).
  { intros fields k Hk. rewrite (@obj_get_spread k options Hnd fields).
    rewrite (@has_key_obj_get k options Hk). reflexivity. }
  assert (Hor : forall k d,
             has_key (js k) options = false ->
             or_json (property options k) d = d).
  { intros k d Hk. unfold property.
    rewrite (@has_key_obj_get (js k) options Hk). reflexivity. }
  assert (Hfields : forall found (lp : json) k,
             has_key k options = false ->
             (k = js "lightpandaPath" ->
              lp = match found with Some p => JStr p | None => JNull end) ->
             obj_get k
               [ (js "timeout",
                   or_json (property options "timeout") (JNum (js "10000")));
                 (js "userAgent",
                   or_json (property options "userAgent")
                           (JStr default_userAgent));
                 (js "lightpandaPath", lp);
                 (js "retries",
                   or_json (property options "retries") (JNum (js "2")));
                 (js "verbose",
                   or_json (property options "verbose") (JBool false)) ]
             = default_of found k).
  { intros found lp k Hk Hlp. unfold default_of. cbn [obj_get].
    destruct (str_eqb_spec k (js "timeout")) as [->|_];
      [rewrite (Hor "timeout"%string _ Hk); reflexivity|].
    destruct (str_eqb_spec k (js "userAgent")) as [->|_];
      [rewrite (Hor "userAgent"%string _ Hk); reflexivity|].
    destruct (str_eqb_spec k (js "lightpandaPath")) as [E|_];
      [rewrite (Hlp E); reflexivity|].
    destruct (str_eqb_spec k (js "retries")) as [->|_];
      [rewrite (Hor "retries"%string _ Hk); reflexivity|].
    destruct (str_eqb_spec k (js "verbose")) as [->|_];
      [rewrite (Hor "verbose"%string _ Hk); reflexivity|].
    reflexivity. }
  destruct (property options "lightpandaPath") as [x|] eqn:Ex.
  - destruct (Assistant.truthy (Some x)) eqn:Et.
    + injection H as <- <-.
      split; [intros k Hk; apply Hgiven, Hk|].
      split; [|intros F; discriminate F].
      intros _. split; [reflexivity|].
      intros k Hk. rewrite (Hdefault _ k Hk).
      apply Hfields; [exact Hk|]. intros E. subst k.
      unfold property in Ex. rewrite (@has_key_obj_get _ options Hk) in Ex.
      discriminate Ex.
    + destruct (findLightpandaBinary platform packageDir path_join cwd
                  path_resolve existsSync statSync uname w)
        as [[found|?] w1] eqn:Ef; [|discriminate H].
      assert (H' : (Returned
                      (spread
                         [ (js "timeout",
                             or_json (property options "timeout")
                                     (JNum (js "10000")));
                           (js "userAgent",
                             or_json (property options "userAgent")
                                     (JStr default_userAgent));
                           (js "lightpandaPath",
                             match found with
                             | Some p => JStr p
                             | None => JNull
                             end);
                           (js "retries",
                             or_json (property options "retries")
                                     (JNum (js "2")));
                           (js "verbose",
                             or_json (property options "verbose")
                                     (JBool false)) ]
                         options), w1)
                   = (Returned this_options, w'))
        by (destruct found; exact H).
      clear H. injection H' as <- <-.
      split; [intros k Hk; apply Hgiven, Hk|].
      split; [intros F; discriminate F|].
      intros _. exists found. split; [reflexivity|].
      intros k Hk. rewrite (Hdefault _ k Hk).
      apply Hfields; [exact Hk|]. intros _. reflexivity.
  - destruct (findLightpandaBinary platform packageDir path_join cwd
                path_resolve existsSync statSync uname w)
      as [[found|?] w1] eqn:Ef; [|discriminate H].
    assert (H' : (Returned
                    (spread
                       [ (js "timeout",
                           or_json (property options "timeout")
                                   (JNum (js "10000")));
                         (js "userAgent",
                           or_json (property options "userAgent")
                                   (JStr default_userAgent));
                         (js "lightpandaPath",
                           match found with
                           | Some p => JStr p
                           | None => JNull
                           end);
                         (js "retries",
                           or_json (property options "retries")
                                   (JNum (js "2")));
                         (js "verbose",
                           or_json (property options "verbose")
                                   (JBool false)) ]
                       options), w1)
                 = (Returned this_options, w'))
      by (destruct found; exact H).
    clear H. injection H' as <- <-.
    split; [intros k Hk; apply Hgiven, Hk|].
    split; [intros F; discriminate F|].
    intros _. exists found. split; [reflexivity|].
    intros k Hk. rewrite (Hdefault _ k Hk).
    apply Hfields; [exact Hk|]. intros _. reflexivity.
Qed.

End StartupProperties.

Section InstallerProperties.
Import Installer.

Variable W : Type.
Variable platform : jsstring.
Variable uname : W -> outcome jsstring * W.

(** X26. Every platform that [detectPlatform] returns has an entry in
    [DOWNLOAD_URLS], so the installer never reports a platform without a
    binary.  ['wsl'] is returned on [win32] only, after [uname -r] named
    Microsoft or WSL, and downloads the Linux binary; ['darwin'] and
    ['linux'] are returned without running a command. *)
Theorem detected_platform_has_a_download (w : W) (name : jsstring) (w' : W) :
  detectPlatform platform uname w = (Some name, w') ->
  (exists url, obj_get name DOWNLOAD_URLS = Some (JStr url))
  /\ ((name = platform /\ w' = w
       /\ (name = js "darwin" \/ name = js "linux"))
      \/ (name = js "wsl" /\ platform = js "win32"
          /\ obj_get name DOWNLOAD_URLS
             = obj_get (js "linux") DOWNLOAD_URLS
          /\ exists u, uname w = (Returned u, w')
                       /\ Startup.names_wsl u = true)).
Proof.
  unfold detectPlatform. intros H.
  destruct (str_eqb_spec platform (js "darwin")) as [Ed|_].
  { injection H as <- <-. split; [eexists; reflexivity|].
    left. rewrite Ed. repeat split. left. reflexivity. }
  destruct (str_eqb_spec platform (js "linux")) as [El|_].
  { injection H as <- <-. split; [eexists; reflexivity|].
    left. rewrite El. repeat split. right. reflexivity. }
  destruct (str_eqb_spec platform (js "win32")) as [Ew|_];
    [|discriminate H].
  destruct (uname w) as [[u|?] w1] eqn:Eu; [|discriminate H].
  destruct (Startup.names_wsl u) eqn:En; [|discriminate H].
  injection H as <- <-. split; [eexists; reflexivity|].
  right. split; [reflexivity|]. split; [exact Ew|].
  split; [reflexivity|]. exists u. split; [reflexivity | exact En].
Qed.

End InstallerProperties.

(* ================================================================== *)
(** * Properties of the screenshots *)
(* ================================================================== *)

Section ScreenshotProperties.
Import Screenshot.

Variable W : Type.
Variable platform : jsstring.
Variable Date_now : W -> Z * W.
Variable tempName : W -> jsstring * W.
Variable access : jsstring -> W -> outcome unit * W.
Variable spawn : jsstring -> list jsstring -> N -> W -> ChromeRun * W.
Variable readFile : jsstring -> W -> outcome (list N) * W.
Variable base64 : list N -> jsstring.
Variable unlink : jsstring -> W -> W.

Definition data_url (buffer : list N) : jsstring :=
  js "data:image/png;base64," ++ base64 buffer.

Lemma first_accessible_found paths :
  forall w path w',
    first_accessible access paths w = (Some path, w') ->
    In path paths /\ exists w0 u, access path w0 = (Returned u, w').
Proof.
  induction paths as [|p paths IH]; intros w path w' H;
    cbn [first_accessible] in H; [discriminate H|].
  destruct (access p w) as [[u|msg] w1] eqn:Ea.
  - injection H as <- <-. split; [left; reflexivity|].
    exists w, u. exact Ea.
  - destruct (IH w1 path w' H) as [Hin Hacc].
    split; [right; exact Hin | exact Hacc].
Qed.

Lemma first_accessible_none paths :
  (forall p w0, In p paths -> exists msg w1, access p w0 = (Thrown msg, w1)) ->
  forall w, exists w', first_accessible access paths w = (None, w').
Proof.
  induction paths as [|p paths IH]; intros Hall w; cbn [first_accessible].
  - exists w. reflexivity.
  - destruct (Hall p w (or_introl eq_refl)) as (msg & w1 & ->).
    apply IH. intros q w0 Hq. apply Hall. right. exact Hq.
Qed.

Lemma capture_cases tempFile w shot w' :
  capture readFile base64 unlink tempFile w = (shot, w') ->
  match shot with
  | Some url =>
      exists buffer w1,
        readFile tempFile w = (Returned buffer, w1)
        /\ url = data_url buffer /\ w' = unlink tempFile w1
  | None => exists msg, readFile tempFile w = (Thrown msg, w')
  end.
Proof.
  unfold capture. intros H.
  destruct (readFile tempFile w) as [[buffer|msg] w1].
  - injection H as <- <-. exists buffer, w1. repeat split.
  - injection H as <- <-. exists msg. reflexivity.
Qed.

Lemma taken_data_url buffer : taken (Some (data_url buffer)) = true.
Proof. reflexivity. Qed.

(** What a call of [takeScreenshotWithChrome] has gone through when it
    settles. *)
Lemma takeScreenshotWithChrome_cases url config w res w' :
  takeScreenshotWithChrome platform tempName access spawn readFile base64
                           unlink url config w = (res, w') ->
  match res with
  | Returned (Some shot) =>
      exists chromePath tempFile w1 w2 buffer,
        In chromePath (chromePaths platform)
        /\ spawn chromePath
                 (chrome_args (cfg_userAgent config) tempFile url)
                 (if (cfg_timeout config =? 0)%N then 15000%N
                  else cfg_timeout config) w1
           = (ChromeExit, w2)
        /\ (exists w3, readFile tempFile w2 = (Returned buffer, w3))
        /\ shot = data_url buffer
  | Returned None => True
  | Thrown msg =>
      exists chromePath tempFile w1,
        In chromePath (chromePaths platform)
        /\ spawn chromePath
                 (chrome_args (cfg_userAgent config) tempFile url)
                 (if (cfg_timeout config =? 0)%N then 15000%N
                  else cfg_timeout config) w1
           = (ChromeThrows msg, w')
  end.
Proof.
  unfold takeScreenshotWithChrome, findChromePath. intros H.
  destruct (tempName w) as [tempFile w0].
  destruct (first_accessible access (chromePaths platform) w0)
    as [[chromePath|] w1] eqn:Ef.
  2:{ injection H as <- <-. exact I. }
  destruct (first_accessible_found _ _ Ef) as [Hin _].
  destruct (spawn chromePath _ _ w1) as [[msg| |] w2] eqn:Es.
  - injection H as <- <-. exists chromePath, tempFile, w1.
    split; [exact Hin | exact Es].
  - injection H as <- <-. exact I.
  - destruct (capture readFile base64 unlink tempFile w2) as [shot w3] eqn:Ec.
    injection H as <- <-.
    pose proof (capture_cases _ _ Ec) as Hc.
    destruct shot as [shot|]; [|exact I].
    destruct Hc as (buffer & w4 & Hr & -> & _).
    exists chromePath, tempFile, w1, w2, buffer.
    split; [exact Hin|]. split; [exact Es|].
    split; [exists w4; exact Hr | reflexivity].
Qed.

(** X27. [screenshot] reports an error only when [spawn] itself threw, with
    the message of that exception.  Every other failure, a missing Chrome
    included, gives [success: false] and [screenshot: null] without any
    error: the exception ['Chrome/Chromium not found'] never reaches the
    caller.  [success] is true exactly when [screenshot] is a data URL,
    made from the file that Chrome wrote; Chrome is killed after the
    configured time limit, or after 15 seconds when that is 0. *)
Theorem screenshot_hides_its_failures (options : Options)
        (url : jsstring) (opts : CallOptions) (w : W) :
  let shot :=
    fst (screenshot options platform Date_now tempName access spawn
                    readFile base64 unlink url opts w) in
  let config := merge options opts in
  let limit :=
    if (cfg_timeout config =? 0)%N then 15000%N else cfg_timeout config in
  shot_method shot = js "chrome-screenshot"
  /\ (shot_success shot = true ->
      shot_error shot = None
      /\ exists chromePath tempFile w1 w2 buffer,
          In chromePath (chromePaths platform)
          /\ spawn chromePath
                   (chrome_args (cfg_userAgent config) tempFile url)
                   limit w1
             = (ChromeExit, w2)
          /\ (exists w3, readFile tempFile w2 = (Returned buffer, w3))
          /\ shot_screenshot shot = Some (Some (data_url buffer)))
  /\ (shot_success shot = false ->
      match shot_error shot with
      | Some msg =>
          shot_screenshot shot = None
          /\ exists chromePath tempFile w1 w2,
              spawn chromePath
                    (chrome_args (cfg_userAgent config) tempFile url)
                    limit w1
              = (ChromeThrows msg, w2)
      | None => shot_screenshot shot = Some None
      end)
  /\ ((forall p w0, In p (chromePaths platform) ->
                    exists msg w1, access p w0 = (Thrown msg, w1)) ->
      shot_success shot = false
      /\ shot_error shot = None
      /\ shot_screenshot shot = Some None).
Proof.
  cbv zeta. unfold screenshot.
  destruct (Date_now w) as [startTime w0].
  pose proof (@takeScreenshotWithChrome_cases url (merge options opts) w0)
    as Hcases.
  assert (Hmissing :
            (forall p w0, In p (chromePaths platform) ->
                          exists msg w1, access p w0 = (Thrown msg, w1)) ->
            exists w1,
              takeScreenshotWithChrome platform tempName access spawn
                readFile base64 unlink url (merge options opts) w0
              = (Returned None, w1)).
  { intros Hall. unfold takeScreenshotWithChrome, findChromePath.
    destruct (tempName w0) as [tempFile w1].
    destruct (first_accessible_none _ Hall w1) as [w2 ->].
    exists w2. reflexivity. }
  destruct (takeScreenshotWithChrome platform tempName access spawn readFile
              base64 unlink url (merge options opts) w0)
    as [[shot|msg] w1] eqn:Et.
  - specialize (Hcases _ _ eq_refl).
    destruct (Date_now w1) as [endTime w2].
    cbn [fst shot_method shot_success shot_error shot_screenshot].
    split; [reflexivity|].
    destruct shot as [shot|].
    + destruct Hcases as (chromePath & tempFile & wa & wb & buffer
                          & Hin & Hs & Hr & ->).
      split.
      { intros _. split; [reflexivity|].
        exists chromePath, tempFile, wa, wb, buffer.
        split; [exact Hin|]. split; [exact Hs|].
        split; [exact Hr | reflexivity]. }
      split; [intros F; rewrite taken_data_url in F; discriminate F|].
      intros Hall. destruct (Hmissing Hall) as [w3 F]. discriminate F.
    + split; [intros F; discriminate F|].
      split; [intros _; reflexivity|].
      intros _. repeat split.
  - specialize (Hcases _ _ eq_refl).
    destruct (Date_now w1) as [endTime w2].
    cbn [fst shot_method shot_success shot_error shot_screenshot].
    split; [reflexivity|].
    split; [intros F; discriminate F|].
    split.
    + intros _. split; [reflexivity|].
      destruct Hcases as (chromePath & tempFile & wa & _ & Hs).
      exists chromePath, tempFile, wa, w1. exact Hs.
    + intros Hall. destruct (Hmissing Hall) as [w3 F]. discriminate F.
Qed.

(** ** [quickshot] *)

(** The Chrome process of the call with the given [retryCount] was
    started between [w1] and [w2], on one of the candidate paths, and
    [run] is how it went. *)
Definition attempt_ends (retryCount : N) (userAgent url tempFile : jsstring)
           (run : ChromeRun) (w1 w2 : W) : Prop :=
  exists chromePath,
    In chromePath (chromePaths platform)
    /\ spawn chromePath
             (optimized_args userAgent tempFile
                             (if (retryCount =? 0)%N then 5000%N
                              else 8000%N) url)
             (if (retryCount =? 0)%N then 8000%N else 12000%N) w1
       = (run, w2).

(** What a call of [takeScreenshotOptimized] that does not call itself
    has gone through. *)
Definition last_call (userAgent url : jsstring)
           (res : awaited (option jsstring)) (w' : W) : Prop :=
  match res with
  | Fulfilled (Some shot) =>
      exists tempFile w1 w2 buffer w3,
        attempt_ends 1 userAgent url tempFile ChromeExit w1 w2
        /\ readFile tempFile w2 = (Returned buffer, w3)
        /\ shot = data_url buffer
  | Fulfilled None => True
  | Rejected msg =>
      exists tempFile w1,
        attempt_ends 1 userAgent url tempFile (ChromeThrows msg) w1 w'
  | Unsettled => False
  end.

Lemma retry_call_cases again url config w res w' :
  optimized_call platform tempName access spawn readFile base64 unlink
                 1 again url config w = (res, w') ->
  last_call (cfg_userAgent config) url res w'.
Proof.
  unfold optimized_call, findChromePath. intros H.
  destruct (tempName w) as [tempFile w0].
  change (1 =? 0)%N with false in H. cbv iota in H.
  destruct (first_accessible access (chromePaths platform) w0)
    as [[chromePath|] w1] eqn:Ef.
  2:{ injection H as <- <-. exact I. }
  destruct (first_accessible_found _ _ Ef) as [Hin _].
  destruct (spawn chromePath _ _ w1) as [[msg| |] w2] eqn:Es.
  - injection H as <- <-. exists tempFile, w1, chromePath.
    split; [exact Hin | exact Es].
  - injection H as <- <-. exact I.
  - destruct (capture readFile base64 unlink tempFile w2) as [shot w3] eqn:Ec.
    pose proof (capture_cases _ _ Ec) as Hc.
    destruct shot as [shot|]; injection H as <- <-; [|exact I].
    destruct Hc as (buffer & w4 & Hr & -> & _).
    exists tempFile, w1, w2, buffer, w4.
    split; [exists chromePath; split; [exact Hin | exact Es]|].
    split; [exact Hr | reflexivity].
Qed.

(** What [takeScreenshotOptimized(url, config)] has gone through. *)
Definition first_call (userAgent url : jsstring)
           (res : awaited (option jsstring)) (w' : W) : Prop :=
  match res with
  | Fulfilled (Some shot) =>
      exists retryCount tempFile w1 w2 buffer w3,
        attempt_ends retryCount userAgent url tempFile ChromeExit w1 w2
        /\ readFile tempFile w2 = (Returned buffer, w3)
        /\ shot = data_url buffer
  | Fulfilled None => True
  | Rejected msg =>
      exists retryCount tempFile w1,
        attempt_ends retryCount userAgent url tempFile (ChromeThrows msg)
                     w1 w'
  | Unsettled =>
      exists tempFile w1 w2 msg w3 tempFile' w4 msg',
        attempt_ends 0 userAgent url tempFile ChromeExit w1 w2
        /\ readFile tempFile w2 = (Thrown msg, w3)
        /\ attempt_ends 1 userAgent url tempFile' (ChromeThrows msg') w4 w'
  end.

Lemma last_call_first_call userAgent url res w' :
  last_call userAgent url res w' ->
  res <> Unsettled /\ first_call userAgent url res w'.
Proof.
  destruct res as [[shot|]|msg|]; cbn [last_call first_call].
  - intros (tempFile & w1 & w2 & buffer & w3 & H).
    split; [discriminate|]. exists 1%N, tempFile, w1, w2, buffer, w3. exact H.
  - intros _. split; [discriminate | exact I].
  - intros (tempFile & w1 & H).
    split; [discriminate|]. exists 1%N, tempFile, w1. exact H.
  - intros [].
Qed.

Lemma takeScreenshotOptimized_cases url config w res w' :
  takeScreenshotOptimized platform tempName access spawn readFile base64
                          unlink url config 0 w = (res, w') ->
  first_call (cfg_userAgent config) url res w'.
Proof.
  unfold takeScreenshotOptimized.
  set (again := optimized_call platform tempName access spawn readFile
                  base64 unlink 1 (fun w1 => (Fulfilled None, w1))
                  url config).
  assert (Hagain : forall wa r wb,
             again wa = (r, wb) ->
             last_call (cfg_userAgent config) url r wb)
    by (intros wa r wb E; exact (retry_call_cases _ _ _ _ E)).
  clearbody again.
  unfold optimized_call, findChromePath. intros H.
  destruct (tempName w) as [tempFile w0].
  change (0 =? 0)%N with true in H. cbv iota in H.
  destruct (first_accessible access (chromePaths platform) w0)
    as [[chromePath|] w1] eqn:Ef.
  2:{ exact (proj2 (last_call_first_call _ _ _ _ (Hagain _ _ _ H))). }
  destruct (first_accessible_found _ _ Ef) as [Hin _].
  destruct (spawn chromePath _ _ w1) as [[msg| |] w2] eqn:Es.
  - injection H as <- <-. exists 0%N, tempFile, w1, chromePath.
    split; [exact Hin | exact Es].
  - injection H as <- <-. exact I.
  - assert (Hexit : attempt_ends 0 (cfg_userAgent config) url tempFile
                                 ChromeExit w1 w2)
      by (exists chromePath; split; [exact Hin | exact Es]).
    destruct (capture readFile base64 unlink tempFile w2) as [shot w3] eqn:Ec.
    pose proof (capture_cases _ _ Ec) as Hc.
    destruct shot as [shot|].
    + injection H as <- <-. destruct Hc as (buffer & w4 & Hr & -> & _).
      exists 0%N, tempFile, w1, w2, buffer, w4.
      split; [exact Hexit|]. split; [exact Hr | reflexivity].
    + destruct Hc as [msg Hr].
      destruct (again w3) as [[retryResult|msg'|] w4] eqn:Ea;
        injection H as <- <-; pose proof (Hagain _ _ _ Ea) as Hl.
      * exact (proj2 (last_call_first_call _ _ _ _ Hl)).
      * destruct Hl as (tempFile' & wa & Hthrow).
        exists tempFile, w1, w2, msg, w3, tempFile', wa, msg'.
        split; [exact Hexit|]. split; [exact Hr | exact Hthrow].
      * destruct Hl.
Qed.

(** The run from [w0] in which the first Chrome exits without a readable
    file and the [spawn] of the retry throws: the calls that
    [takeScreenshotOptimized] makes, in order, up to the world [w'] in
    which that [spawn] leaves the host. *)
Definition retry_spawn_throws (agent url : jsstring) (w0 w' : W) : Prop :=
  exists tempFile wa chromePath wb wc msg wd
         tempFile' we chromePath' wf msg',
    tempName w0 = (tempFile, wa)
    /\ findChromePath platform access wa = (Some chromePath, wb)
    /\ spawn chromePath (optimized_args agent tempFile 5000 url) 8000 wb
       = (ChromeExit, wc)
    /\ readFile tempFile wc = (Thrown msg, wd)
    /\ tempName wd = (tempFile', we)
    /\ findChromePath platform access we = (Some chromePath', wf)
    /\ spawn chromePath' (optimized_args agent tempFile' 8000 url) 12000 wf
       = (ChromeThrows msg', w').

(** The call with [retryCount] 1 always settles, and it rejects exactly
    when its [spawn] throws. *)
Lemma retry_call_settles again url config w w' :
  optimized_call platform tempName access spawn readFile base64 unlink
                 1 again url config w <> (Unsettled, w').
Proof.
  intros H. apply retry_call_cases in H. exact H.
Qed.

Lemma retry_call_rejects again url config w msg w' :
  optimized_call platform tempName access spawn readFile base64 unlink
                 1 again url config w = (Rejected msg, w')
  <-> exists tempFile we chromePath wf,
        tempName w = (tempFile, we)
        /\ findChromePath platform access we = (Some chromePath, wf)
        /\ spawn chromePath
                 (optimized_args (cfg_userAgent config) tempFile 8000 url)
                 12000 wf
           = (ChromeThrows msg, w').
Proof.
  unfold optimized_call.
  change (1 =? 0)%N with false. cbv iota.
  split.
  - intros H.
    destruct (tempName w) as [tempFile we] eqn:Et.
    destruct (findChromePath platform access we) as [[chromePath|] wf] eqn:Ef;
      [|discriminate H].
    destruct (spawn chromePath _ _ wf) as [[m| |] wg] eqn:Es.
    + injection H as -> ->. exists tempFile, we, chromePath, wf.
      split; [reflexivity|]. split; [exact Ef | exact Es].
    + discriminate H.
    + destruct (capture readFile base64 unlink tempFile wg) as [[shot|] wh];
        discriminate H.
  - intros (tempFile & we & chromePath & wf & -> & -> & ->). reflexivity.
Qed.

Lemma optimized_unsettled url config w0 w' :
  takeScreenshotOptimized platform tempName access spawn readFile base64
                          unlink url config 0 w0 = (Unsettled, w')
  <-> retry_spawn_throws (cfg_userAgent config) url w0 w'.
Proof.
  unfold takeScreenshotOptimized.
  set (again := optimized_call platform tempName access spawn readFile
                  base64 unlink 1 (fun w1 => (Fulfilled None, w1))
                  url config).
  assert (Hsettles : forall wa wb, again wa <> (Unsettled, wb))
    by (intros wa wb; apply retry_call_settles).
  assert (Hrejects : forall wa msg wb,
             again wa = (Rejected msg, wb)
             <-> exists tempFile we chromePath wf,
                 tempName wa = (tempFile, we)
                 /\ findChromePath platform access we
                    = (Some chromePath, wf)
                 /\ spawn chromePath
                          (optimized_args (cfg_userAgent config) tempFile
                                          8000 url)
                          12000 wf
                    = (ChromeThrows msg, wb))
    by (intros wa msg wb; apply retry_call_rejects).
  clearbody again.
  unfold optimized_call, retry_spawn_throws.
  change (0 =? 0)%N with true. cbv iota.
  split.
  - intros H.
    destruct (tempName w0) as [tempFile wa] eqn:Etemp.
    destruct (findChromePath platform access wa) as [[chromePath|] wb] eqn:Efind.
    2:{ destruct (Hsettles _ _ H). }
    destruct (spawn chromePath _ _ wb) as [[m| |] wc] eqn:Es;
      [discriminate H | discriminate H |].
    destruct (capture readFile base64 unlink tempFile wc) as [shot wd] eqn:Ec.
    pose proof (capture_cases _ _ Ec) as Hc.
    destruct shot as [shot|]; [discriminate H|].
    destruct Hc as [msg Hr].
    destruct (again wd) as [[retryResult|msg'|] w4] eqn:Ea.
    + discriminate H.
    + injection H as ->.
      destruct (proj1 (Hrejects _ _ _) Ea)
        as (tempFile' & we & chromePath' & wf & Ht & Hf & Hs).
      exists tempFile, wa, chromePath, wb, wc, msg, wd,
             tempFile', we, chromePath', wf, msg'.
      split; [reflexivity|]. split; [exact Efind|]. split; [exact Es|].
      split; [exact Hr|]. split; [exact Ht|]. split; [exact Hf | exact Hs].
    + destruct (Hsettles _ _ Ea).
  - intros (tempFile & wa & chromePath & wb & wc & msg & wd
            & tempFile' & we & chromePath' & wf & msg'
            & -> & -> & -> & Hr & Ht & Hf & Hs).
    unfold capture. rewrite Hr.
    assert (Ea : again wd = (Rejected msg', w')).
    { apply Hrejects. exists tempFile', we, chromePath', wf.
      split; [exact Ht|]. split; [exact Hf | exact Hs]. }
    rewrite Ea. reflexivity.
Qed.

(** X28. [quickshot] never rejects, but its promise is left unsettled
    exactly when the first Chrome exits without a readable file and the
    [spawn] of the retry throws.  When it settles, an error is reported
    only when a [spawn] threw, with its message, and [success] is true
    only with the data URL of a file that was read.  A missing Chrome
    gives [success: false] and [screenshot: null] without an error.
    Chrome is started with a time limit of 8 seconds, and of 12 on the
    retry: neither the [timeout] of the instance nor that of the call
    changes anything. *)
Theorem quickshot_may_never_settle (options : Options) (url : jsstring)
        (opts : CallOptions) (w : W) :
  let run :=
    quickshot options platform Date_now tempName access spawn readFile
              base64 unlink url opts w in
  let agent := cfg_userAgent (merge options opts) in
  (forall w',
      run = (Unsettled, w')
      <-> retry_spawn_throws agent url (snd (Date_now w)) w')
  /\ (forall msg, fst run <> Rejected msg)
  /\ (forall shot,
         fst run = Fulfilled shot ->
         shot_method shot = js "quickshot"
         /\ (shot_success shot = true ->
             shot_error shot = None
             /\ exists retryCount tempFile w1 w2 buffer w3,
                 attempt_ends retryCount agent url tempFile ChromeExit w1 w2
                 /\ readFile tempFile w2 = (Returned buffer, w3)
                 /\ shot_screenshot shot = Some (Some (data_url buffer)))
         /\ (shot_success shot = false ->
             match shot_error shot with
             | Some msg =>
                 shot_screenshot shot = None
                 /\ exists retryCount tempFile w1 w2,
                     attempt_ends retryCount agent url tempFile
                                  (ChromeThrows msg) w1 w2
             | None => shot_screenshot shot = Some None
             end))
  /\ ((forall p w0, In p (chromePaths platform) ->
                    exists msg w1, access p w0 = (Thrown msg, w1)) ->
      exists shot,
        fst run = Fulfilled shot
        /\ shot_success shot = false
        /\ shot_error shot = None
        /\ shot_screenshot shot = Some None)
  /\ (forall t' lp' v' ct',
         quickshot (mkOptions t' (userAgent options) lp' v') platform
                   Date_now tempName access spawn readFile base64 unlink
                   url (mkCallOptions ct' (call_userAgent opts)) w
         = run).
Proof.
  cbv zeta.
  assert (Hagent : cfg_userAgent (quick_config options opts)
                   = cfg_userAgent (merge options opts)) by reflexivity.
  split.
  { intros w'. rewrite <- Hagent, <- optimized_unsettled.
    unfold quickshot.
    destruct (Date_now w) as [startTime w0]. cbn [snd].
    destruct (takeScreenshotOptimized platform tempName access spawn
                readFile base64 unlink url (quick_config options opts) 0 w0)
      as [[shot|msg|] w1].
    - destruct (Date_now w1) as [endTime w2].
      split; intros H; discriminate H.
    - destruct (Date_now w1) as [endTime w2].
      split; intros H; discriminate H.
    - split; intros H; injection H as ->; reflexivity. }
  split.
  { intros msg. unfold quickshot.
    destruct (Date_now w) as [startTime w0].
    destruct (takeScreenshotOptimized platform tempName access spawn
                readFile base64 unlink url (quick_config options opts) 0 w0)
      as [[shot|msg'|] w1];
      try destruct (Date_now w1) as [endTime w2]; discriminate. }
  split.
  { intros shot. unfold quickshot.
    destruct (Date_now w) as [startTime w0].
    pose proof (@takeScreenshotOptimized_cases url
                  (quick_config options opts) w0) as Hcases.
    rewrite Hagent in Hcases.
    destruct (takeScreenshotOptimized platform tempName access spawn
                readFile base64 unlink url (quick_config options opts) 0 w0)
      as [[taken_shot|msg|] w1]; specialize (Hcases _ _ eq_refl).
    - destruct (Date_now w1) as [endTime w2]. cbn [fst].
      intros E. injection E as <-.
      cbn [shot_method shot_success shot_error shot_screenshot].
      split; [reflexivity|].
      destruct taken_shot as [data|]; cbn [first_call] in Hcases.
      + destruct Hcases as (n & tempFile & wa & wb & buffer & wc
                            & Hexit & Hr & ->).
        split.
        { intros _. split; [reflexivity|].
          exists n, tempFile, wa, wb, buffer, wc.
          split; [exact Hexit|]. split; [exact Hr | reflexivity]. }
        intros F. rewrite taken_data_url in F. discriminate F.
      + split; [intros F; discriminate F|]. intros _. reflexivity.
    - destruct (Date_now w1) as [endTime w2]. cbn [fst].
      intros E. injection E as <-.
      cbn [shot_method shot_success shot_error shot_screenshot].
      split; [reflexivity|].
      split; [intros F; discriminate F|].
      intros _. split; [reflexivity|].
      destruct Hcases as (n & tempFile & wa & Hthrow).
      exists n, tempFile, wa, w1. exact Hthrow.
    - cbn [fst]. intros E. discriminate E. }
  split.
  { intros Hall. unfold quickshot.
    destruct (Date_now w) as [startTime w0].
    assert (Hmissing :
              exists w1,
                takeScreenshotOptimized platform tempName access spawn
                  readFile base64 unlink url (quick_config options opts)
                  0 w0
                = (Fulfilled None, w1)).
    { unfold takeScreenshotOptimized, optimized_call, findChromePath.
      destruct (tempName w0) as [tempFile w1].
      destruct (first_accessible_none _ Hall w1) as [w2 ->].
      change (0 =? 0)%N with true. cbv iota.
      destruct (tempName w2) as [tempFile' w3].
      destruct (first_accessible_none _ Hall w3) as [w4 ->].
      exists w4. reflexivity. }
    destruct Hmissing as [w1 ->].
    destruct (Date_now w1) as [endTime w2].
    eexists. split; [reflexivity|]. repeat split. }
  intros t' lp' v' ct'. reflexivity.
Qed.

End ScreenshotProperties.

(* ================================================================== *)
(** * A concrete host *)
(* ================================================================== *)

(** A Linux host on which only [/usr/local/bin/lightpanda] exists, with
    mode [0o755]. *)
Module LinuxHost.

Definition platform : jsstring := js "linux".
Definition packageDir : jsstring := js "/app/node_modules/scraper".
Definition path_join (parts : list jsstring) : jsstring := join (js "/") parts.
Definition cwd (w : unit) : outcome jsstring * unit := (Returned (js "/srv"), w).
Definition path_resolve (p : jsstring) (w : unit) : outcome jsstring * unit :=
  (Returned (if startsWith p (js "/") then p else js "/srv/" ++ p), w).
Definition existsSync (p : jsstring) (w : unit) : bool * unit :=
  (str_eqb p (js "/usr/local/bin/lightpanda"), w).
Definition statSync (p : jsstring) (w : unit)
  : outcome Startup.FileStats * unit :=
  (Returned (Startup.mkFileStats true 493), w).
Definition uname (w : unit) : outcome jsstring * unit :=
  (Returned (js "6.1.0-18-amd64"), w).

Definition findLightpandaBinary :=
  Startup.findLightpandaBinary platform packageDir path_join cwd
    path_resolve existsSync statSync uname.

Definition constructor :=
  Startup.constructor platform packageDir path_join cwd path_resolve
    existsSync statSync uname.

End LinuxHost.

Lemma found_binary_witness :
  LinuxHost.findLightpandaBinary tt
  = (Returned (Some (js "/usr/local/bin/lightpanda")), tt)
  /\ exists binaryPath w0,
      accepted LinuxHost.platform LinuxHost.path_resolve
               LinuxHost.existsSync LinuxHost.statSync LinuxHost.uname
               binaryPath (js "/usr/local/bin/lightpanda") w0 tt.
Proof.
  assert (H : LinuxHost.findLightpandaBinary tt
              = (Returned (Some (js "/usr/local/bin/lightpanda")), tt))
    by (vm_compute; reflexivity).
  split; [exact H|].
  destruct (@found_binary_is_an_executable_file
              unit LinuxHost.platform LinuxHost.packageDir
              LinuxHost.path_join LinuxHost.cwd LinuxHost.path_resolve
              LinuxHost.existsSync LinuxHost.statSync LinuxHost.uname
              tt _ tt H)
    as (cwd1 & cwd2 & b & w0 & _ & _ & Hacc).
  exists b, w0. exact Hacc.
Defined.

(** Options that give a zero time limit and ask for logging. *)
Definition zero_timeout : list (jsstring * json) :=
  [ (js "timeout", JNum (js "0")); (js "verbose", JBool true) ].

Lemma constructor_keeps_given_values_witness :
  exists this_options,
    LinuxHost.constructor zero_timeout tt = (Returned this_options, tt)
    /\ obj_get (js "timeout") this_options = Some (JNum (js "0")).
Proof.
  assert (Hnd : NoDup (keys zero_timeout)).
  { constructor.
    - cbn. intros [E|[]]. vm_compute in E. discriminate E.
    - constructor; [intros [] | constructor]. }
  assert (H : exists this_options,
             LinuxHost.constructor zero_timeout tt
             = (Returned this_options, tt))
    by (vm_compute; eexists; reflexivity).
  destruct H as [this_options H]. exists this_options.
  split; [exact H|].
  destruct (@constructor_keeps_given_values
              unit LinuxHost.platform LinuxHost.packageDir
              LinuxHost.path_join LinuxHost.cwd LinuxHost.path_resolve
              LinuxHost.existsSync LinuxHost.statSync LinuxHost.uname
              zero_timeout tt this_options tt Hnd H) as [Hkept _].
  rewrite (Hkept (js "timeout") eq_refl). reflexivity.
Defined.

(** Node for Windows started from a WSL shell. *)
Definition wsl_release (w : unit) : outcome jsstring * unit :=
  (Returned (js "5.15.90.1-microsoft-standard-WSL2"), w).

Lemma detected_platform_witness :
  Installer.detectPlatform (js "win32") wsl_release tt = (Some (js "wsl"), tt)
  /\ exists url, obj_get (js "wsl") Installer.DOWNLOAD_URLS = Some (JStr url).
Proof.
  assert (H : Installer.detectPlatform (js "win32") wsl_release tt
              = (Some (js "wsl"), tt))
    by (vm_compute; reflexivity).
  split; [exact H|].
  exact (proj1 (@detected_platform_has_a_download
                  unit (js "win32") wsl_release tt (js "wsl") tt H)).
Defined.

(* ================================================================== *)
(** * More concrete runs *)
(* ================================================================== *)

(** Markup that names its author twice. *)
Definition twice_tagged_page : jsstring :=
  js "<meta name='author' content='Ann'><meta name='author' content='Bob'>".

Lemma last_meta_tag_wins_witness :
  exists m1 m2,
    metaMatches twice_tagged_page = [m1] ++ m2 :: []
    /\ tag_name m2 = js "author"
    /\ tag_value m2 = js "Bob"
    /\ obj_get (tag_name m2) (metaTags twice_tagged_page)
       = Some (JStr (tag_value m2)).
Proof.
  assert (H : exists m1 m2,
             metaMatches twice_tagged_page = [m1] ++ m2 :: []
             /\ tag_name m2 = js "author" /\ tag_value m2 = js "Bob").
  { vm_compute. do 2 eexists. split; [reflexivity|]. split; reflexivity. }
  destruct H as (m1 & m2 & Hms & Hn & Hv).
  exists m1, m2. split; [exact Hms|]. split; [exact Hn|]. split; [exact Hv|].
  apply (@last_meta_tag_wins twice_tagged_page [m1] [] m2 Hms).
  - rewrite Hn. intros E. vm_compute in E. discriminate E.
  - intros m' [].
Defined.

Lemma successes_never_exceed_attempts_witness :
  (forall m, (Stats.successes (counter m (stats fresh))
              <= Stats.attempts (counter m (stats fresh)))%N)
  /\ exists r s',
      scrape (offline true) default_options shop_url no_options fresh
      = (Returned r, s')
      /\ forall m, (Stats.successes (counter m (stats s'))
                    <= Stats.attempts (counter m (stats s')))%N.
Proof.
  assert (H : forall m, (Stats.successes (counter m (stats fresh))
                         <= Stats.attempts (counter m (stats fresh)))%N)
    by (intros m; destruct m; cbn; lia).
  split; [exact H|].
  destruct (successes_never_exceed_attempts (offline true) default_options
              shop_url no_options fresh H) as (r & s' & Hrun & Hinv & _).
  exists r, s'. split; assumption.
Defined.

(** A page that gives an address, and a question about it. *)
Definition contact_page : Assistant.value :=
  Some (JObj [ (js "title", JStr (js "Shop"));
               (js "content", JStr (js "Write to ann@example.org today.")) ]).

Lemma contact_answer_witness :
  Assistant.processLocally (offline true) (fun s => s) (fun s => s)
    (js "Contact address?") contact_page
  = Returned (js "Found contact: " ++ js "ann@example.org")
  /\ exists user domain tld,
      js "ann@example.org" = user ++ js "@" ++ domain ++ js "." ++ tld
      /\ user <> [] /\ Forall address_char user
      /\ domain <> [] /\ Forall address_char domain
      /\ tld <> [] /\ Forall word_char tld.
Proof.
  assert (H : Assistant.processLocally (offline true) (fun s => s)
                (fun s => s) (js "Contact address?") contact_page
              = Returned (js "Found contact: " ++ js "ann@example.org"))
    by (vm_compute; reflexivity).
  split; [exact H|].
  exact (proj1 (proj2 (@contact_answer_is_cut_from_the_text
                         unit unit (offline true) (fun s => s) (fun s => s)
                         (js "Contact address?") contact_page
                         (js "ann@example.org") H))).
Defined.

(** A host on which Chrome first exits without writing the file and
    cannot be started a second time; the world counts the processes
    started. *)
Module FlakyHost.

Definition Date_now (w : nat) : Z * nat := (0%Z, w).
Definition tempName (w : nat) : jsstring * nat :=
  (js "/tmp/screenshot_0_abc.png", w).
Definition access (p : jsstring) (w : nat) : outcome unit * nat :=
  (Returned tt, w).
Definition spawn (p : jsstring) (args : list jsstring) (limit : N) (w : nat)
  : Screenshot.ChromeRun * nat :=
  (match w with
   | O => Screenshot.ChromeExit
   | S _ => Screenshot.ChromeThrows (js "spawn E2BIG")
   end, S w).
Definition readFile (p : jsstring) (w : nat) : outcome (list N) * nat :=
  (Thrown (js "ENOENT"), w).
Definition base64 (buffer : list N) : jsstring := [].
Definition unlink (p : jsstring) (w : nat) : nat := w.

Definition quickshot :=
  Screenshot.quickshot default_options (js "linux") Date_now tempName
    access spawn readFile base64 unlink.

End FlakyHost.

Lemma quickshot_unsettled_witness :
  FlakyHost.quickshot shop_url no_options 0 = (Screenshot.Unsettled, 2)
  /\ retry_spawn_throws (js "linux") FlakyHost.tempName FlakyHost.access
                        FlakyHost.spawn FlakyHost.readFile
                        (cfg_userAgent (merge default_options no_options))
                        shop_url (snd (FlakyHost.Date_now 0)) 2.
Proof.
  assert (E : FlakyHost.quickshot shop_url no_options 0
              = (Screenshot.Unsettled, 2)) by (vm_compute; reflexivity).
  split; [exact E|].
  pose proof (@quickshot_may_never_settle
                nat (js "linux") FlakyHost.Date_now
                FlakyHost.tempName FlakyHost.access FlakyHost.spawn
                FlakyHost.readFile FlakyHost.base64 FlakyHost.unlink
                default_options shop_url no_options 0) as H.
  cbv zeta in H. destruct H as [H _].
  exact (proj1 (H 2) E).
Defined.
